(* ===== verification/_CoqProject ===== *)
-Q . S2P
Prelude.v
RustStr.v
RustNum.v
Types.v
Filter.v
FilterText.v
Decimal.v
Wire.v
Consume.v
Membership.v
Dedup.v
DedupSystem.v
Queue.v
Produce.v
Handlers.v
Streaming.v
Subscribe.v
ArrowFilter.v
Schema.v
Registry.v
Settings.v
CloudEvents.v
Webhook.v
Outbound.v
Access.v
Startup.v
Health.v
Metrics.v
Routes.v
Connect.v
Sdk.v
SdkQueue.v
Envelope.v
FilterSdks.v
Taxonomy.v
Protocol.v
MockAdapter.v
Harness.v
Adapter.v
AdapterSim.v
Serve.v
Clients.v
Boot.v
Substrate.v
Firehose.v
