(* ===== verification/Prelude.v ===== *)
(** * krabka-gateway: a verification library

    The gateway is a front end to Kafka: it takes records over
    Connect RPC and HTTP, produces them (once per idempotency key when asked),
    streams and leases records to consumers, and translates between JSON and
    registered schemas.  It receives webhooks, pushes records to HTTP targets,
    and has a Rust SDK with a conformance harness, and SDKs in four other
    languages.  This library translates them to executable definitions and proves
    what they promise.  Paths below are under [src/crates/gateway/src], those of
    the SDK under [src/crates/app-sdk/src], those of the harness under
    [src/crates/sdk-conformance/src], those of the other SDKs under [src/sdks].

    ** Parts and files

    - [Prelude]: results with [?], machine integers, bytes, shared tactics and
      lemmas, reachability.  [RustStr]: UTF-8 as [str] and [from_utf8_lossy] use
      it; [RustNum]: its trimming, ASCII classes and number parsing; [Decimal]:
      that printed numbers read back and differ.  [Types]:
      [types.rs], [codec.rs], [error.rs], identities, the
      interfaces [RecordCodec], [Authorizer], [Serde] and [ClientDisplay].
    - [Wire] ([schema/wire.rs]): the Confluent frame and the Protobuf message
      index.  Round trips, exactness, bounds.
    - [Schema] ([schema/format], [schema/codec.rs]): the three formats over their
      libraries, the cache of prepared schemas, the registry codec.
      [Registry] ([schema/client.rs]): the caching registry client.
    - [Consume] ([consume.rs]): the acknowledgement tracker of one partition, the
      session over partitions, commits.  Refinement of a specification by two
      sets; commits cover acknowledged records only, and all of them.
    - [Filter] ([filter.rs]): the filter language, its parser and its matching of
      JSON rows.  [FilterText]: printing a filter, and that parsing reads it back.
      [ArrowFilter] (the same file): the lowering of filters to DataFusion and
      their evaluation on Arrow batches.
    - [Streaming] ([streaming.rs]): filtering of a polled batch, [SendStream], and
      the loop of [Subscribe], with polls that a client's frame cancels.
      [Subscribe]: what that loop commits.
    - [Membership] ([dedup/membership.rs]): the routing table from the
      membership topic, and the publisher.
    - [Dedup] ([dedup/mod.rs], [dedup/store.rs]): claims, ownership, warm-up, the
      transactional write of one replica.  [DedupSystem]: any number of replicas
      over a transactional broker that drops old claims, as a step relation;
      exactly-once within the retention.
    - [Queue] ([queue.rs]): share-group sessions: admission, acquire,
      acknowledge, renew, expiry.
    - [Produce] ([produce.rs], [forward.rs]): routing of a record and the forward
      between replicas.  [Handlers] ([handlers.rs]): the [Send] RPC with its
      window of deliveries.
    - [CloudEvents] ([ce_translate.rs]): the HTTP and Kafka bindings of events,
      binary and structured.  [Webhook] ([webhook.rs], [webhook_config.rs],
      [standard_webhooks.rs]): the endpoints of the configuration file, both
      signature schemes, and the two HTTP handlers that produce.
    - [Outbound] ([outbound.rs], [outbound_config.rs]): subscriptions with their
      allow-list, rendering, the attempts of one record, the concurrent delivery
      of a batch, the poll and commit loop.
    - [Settings] ([config_value.rs], [config.rs], [dedup/topic.rs]): bounded
      values, the runtime policy, the internal topics.  [Startup]
      ([bin/gateway.rs], [config.rs]): the arguments, the telemetry, the checks of
      [main], the configuration.
    - [Access] ([authz], and the parts of [serve.rs] and [handlers.rs] about
      identities): the ACL snapshot, the principal of a request, the decision.
    - [Health] ([health.rs], tasks of [bin/gateway.rs]): readiness over the
      claim store and supervision, as a step relation.  [Metrics] ([metrics.rs]): the registered
      metrics, the recorders, what [Send] records.  [Serve] ([serve.rs]): the
      accept loops, the drain after a shutdown, the reload of TLS, over events.
      [Boot] ([run] of [bin/gateway.rs]): a start, composed of the operations of the
      parts it starts.
    - [Routes] ([lib.rs], [state.rs], the routers of [health.rs], [forward.rs],
      [webhook.rs] and [metrics.rs], and their merge in [bin/gateway.rs]): which
      handler a request reaches, and with which identity.  [Clients] (the client
      builders of [dedup], [produce.rs], [consume.rs], [outbound.rs], [queue.rs]
      and [bin/gateway.rs]): how each Kafka client is built.
    - [Firehose] ([examples/github_firehose.rs] of the gateway's crate): the
      example that labels webhooks.
    - SDK: [Connect] ([connect_client.rs], [error.rs]), the Connect client;
      [Sdk] ([client.rs], [messaging.rs]), publishing and subscribing; [SdkQueue]
      ([stubs.rs]), queues and their in-memory backend.
    - Conformance: [Protocol] ([protocol.rs], [vectors.rs]), the commands, the
      responses and the vectors, with their JSON; [MockAdapter]
      ([mock_adapter.rs]), the harness's own adapter; [Harness] ([harness.rs],
      [bin/conformance.rs]), choosing, replaying and reporting vectors; [Adapter]
      (the SDK's [bin/conformance_adapter.rs]), the adapter of the SDK;
      [AdapterSim], the simulation between the two adapters; [Substrate]
      ([harness.rs], [config.rs]), the gateway a live run starts.
    - Other SDKs: [Envelope] ([cpp/src/json.cc], [cpp/src/envelope.cc],
      [ConnectFrameRequestBody.java], and the harness's
      [bin/emit_cpp_codec_oracle_vectors.rs]), the stream envelope outside Rust and
      the vectors that bind its codecs; [Taxonomy] ([go/errors.go],
      [ts/src/errors.ts], [LiveGatewayTransport.java]), the classes of errors;
      [FilterSdks] (the filter printers of the four), the texts of filters.

    A record enters through [Handlers.send], which calls [Produce]; a keyed one
    goes to [Dedup] here or, by the table of [Membership], to the owner's
    [Produce.forward_handler].  [Produce] encodes through [Types.RecordCodec],
    whose registry implementation is [Schema] over [Wire] and [Registry].
    [Consume] decodes through the same interface; [Streaming] polls it, decides
    each record with [Filter], and turns acknowledgements into its commits.
    [Webhook] produces through [Produce] too, and translates events with
    [CloudEvents], as [Outbound] does on the way out.  [Access] supplies the
    [Types.Authorizer] and the principal that [Handlers], [Queue] and [Streaming]
    are given.  [Startup] builds what the others are configured with; [Boot] starts
    them with the clients of [Clients] and ends in [Serve], which serves the
    application of [Routes].  [Sdk] and [SdkQueue] send what [Handlers],
    [Streaming] and [Queue] receive.  [Harness] drives [MockAdapter] or [Adapter],
    which is over [Sdk] and [SdkQueue], through lines of [Protocol].  [Envelope],
    [Taxonomy] and [FilterSdks] compare the other SDKs with [Connect], [Sdk] and
    [SdkQueue].

    ** How the code is translated

    A method on [&mut self] returns the state it leaves beside its result.  A
    shared object (a queue session, a slot of the schema cache) lives in a store
    under an address.  What an [await] on another system answers is an argument:
    a Kafka client's answer, an HTTP exchange, a clock.  Interleaving is a step
    relation over the state, one step per stretch of code between two points
    where another task can run.  Code of other packages is a field of a class
    ([Libs], [Http], [Serde], [TxnBroker], [Crypto], [AclLib], [ProstMessage],
    [DataFusion], [Prometheus], [JsonText], [AdapterProcess], [NativeConsumer],
    [Octocrab], [Telemetry], [JsonLaws], ...) with its
    documented laws; each such class has a concrete instance that the examples
    use.  Iteration order of a hash map is a parameter known to be a permutation.
    A client that is built is the record of its builder's settings.  A future that
    a [select!] drops is a step in which its effects so far remain and its answer
    is lost.  Tracing is
    left out; the calls that record metrics are modelled for [Send] and for
    webhooks.

    ** What the theorems show

    - Exactly once ([DedupSystem]): whatever the interleaving of requests,
      rebalances, captures of end offsets, replays, clean-ups, cancellations,
      in-doubt commits and crashes, two commits of one key are at least the
      retention apart, as long as only the last initialiser of a partition
      initialises its producer again from a request; without that condition
      there is a run that commits a key twice.  A duplicate is answered with the
      coordinates of a committed record of its key.  The topic's retention is the
      dedup window ([Boot], [Settings]); the broker keeps a claim that long unless
      a later claim of the key is there, which is what compaction is documented
      to do.
    - At least once ([Consume], [Subscribe]): a commit covers only acknowledged
      deliveries; when all are acknowledged the commit reaches the last one;
      frontiers never move back; the tracker refines its specification and
      terminates.  Through the loop of [Subscribe], a commit for a partition that
      stayed assigned lies only above records acknowledged, filtered out, or taken
      by a poll that a client's frame cancelled.
    - Filters ([Filter], [FilterText], [Streaming]): a filter accepts the
      documents in which its predicates hold; the printed text of a filter
      compiles back to it, for fields that are identifiers other than AND and for
      literals that are no floats; filtering a batch decides each record once, in order.
      On Arrow batches ([ArrowFilter]) the same rows are selected.
    - Isolation and bounds ([Queue], [Handlers]): sessions, tracked records and
      unawaited deliveries stay within their limits in every interleaving; a
      session answers to its principal only; results come one per record, in
      order, and denied records have no effect.
    - Routing ([Membership], [Produce]): a partition is routed to its latest
      claimant; forwarding is the owner's local produce.
    - Codecs ([Wire], [Schema], [Registry]): frames and structured bodies round
      trip; the caches are transparent, bounded, and stale by at most the time to
      live and one exchange.
    - Webhooks ([Webhook], [CloudEvents]): a record is produced only for a request
      whose signature and timestamp verify; no authentication header is
      forwarded; the bindings of events round trip, JSON data up to their printing.
    - Push ([Outbound]): the loop commits a batch only when every record was
      filtered, delivered or given to the dead-letter step, and so does a client
      that does not commit on its own, which the builder leaves to its default; partitions are
      delivered in order; attempts and waits are within their bounds; every
      request goes to a configured target whose host is on the allow-list.
    - Access ([Access]): decisions are the ACL authorizer's over the broker's
      last usable listing, and no record is produced for a principal they deny.
      The listing is the one in force during a request: a refresh between two
      records of one request is not modelled.
    - Start-up ([Settings], [Startup], [Health]): [main] panics only
      where the telemetry exporters cannot be started, and an accepted
      configuration meets every later assertion and is exact in the
      protocol's units; topic creation ends; a replica turns ready only on a store
      found warm.
    - Life of the process ([Boot], [Serve], [Metrics]): the parts of a started
      replica agree on topics, partitions, retention and address, and the store has
      its publisher and engine before its consumer starts; after a shutdown nothing is
      accepted, no connection is lost, and the listener returns by its deadline;
      the counters of [Send] agree with its answers.
    - Routing of requests ([Routes]): a request reaches the handler its path was
      mounted for and no other; with TLS, the endpoint replicas forward through
      produces for a request with an identity only.
    - Clients ([Clients]): transactional ids coincide for the same prefix and
      partition only.
    - Example ([Firehose]): every webhook comes out once, in order, with its
      payload.
    - SDK ([Connect], [Sdk], [SdkQueue]): a stream is read as it was written
      however it is cut; publishing has the outcome of the gateway's record; the
      mock and the gateway agree on filters and on resuming sessions; the mock's
      leases are exclusive and its verdicts final.
    - Conformance ([Harness], [AdapterSim]): a run accounts for every vector; the
      harness cannot tell the SDK's adapter over the in-memory backend from the
      mock adapter, on the commands both take alike; the gateway of a live run
      meets the checks of a start ([Substrate]).
    - Other SDKs ([Envelope], [Taxonomy], [FilterSdks]): frames are written alike
      in Rust, C++ and Java; the C++ reader follows the Rust one; the test vectors
      read back; the error classes agree but on the codes listed; filters on
      strings, booleans and null are sent as the same text.
    - Divergences, as theorems: the double commit above, a structured body lost
      on a forward, a registry failure that stops being retriable on a forward or
      is reported as a missing schema, a varint that overflows unnoticed, a
      subscription that after a reassignment commits past an unacknowledged
      record, or commits nothing any more, one that commits past a record a
      cancelled poll took, a webhook replay guard that a new
      timestamp bypasses, a record lost with its dead letter, webhook requests
      counted twice or not at all, retired vectors a run does not list, filters
      of the SDK that the gateway refuses or reads differently, a bearer token that
      opens the forward endpoint, a dropped session that commits what was never
      acknowledged, a C++ filter that loses digits, a C++ transport that delivers
      frames of unknown flags, and the error codes on which the SDKs differ.

    ** Fuel

    [Consume.drain_loop] has one unit per delivered offset and one more, which
    [Consume.drain_terminates] shows to be enough.  [Wire.read_varint_loop] has
    ten, the iterations after which the code leaves with an overflow;
    [Wire.skip_varints] has one per remaining byte, each iteration consuming one
    or failing.  [RustStr.utf8_fuel] has the length of the input.
    [Streaming.pop_acknowledged] has one per offset of the set and one more, each
    iteration removing one.  [Outbound.post_loop] has the number of attempts, and
    [Outbound.post_loop_total] shows it enough.  [Settings.create_with_rf] has
    two, the second request being the last.  [Connect.drain] has the length of
    the buffer and one more ([Connect.drain_total]), each frame taking five bytes
    at least.  [FilterText.print_nat] has twenty, the digits of a 64-bit number.
    [ArrowFilter.quote_loop] has the length of the text, each iteration consuming
    a character of it.  [Envelope.Cpp.parse] has the length of the text and one
    more, which [Envelope.parse_total] shows to be enough.

    ** Not modelled

    Of [serve.rs], sockets, TLS and HTTP/2 themselves, whose outcomes are events
    of [Serve]; of [metrics.rs], the text encoding, the library's.  Tracing does
    not affect results.  Of the harness, spawning a process, which is a field of
    [Harness.AdapterProcess]; the broker and the clients of a live run are fields
    of [Harness.LiveLib].  Generated protocol code is the records of the model,
    and [build.rs], which generates it, is run by the compiler.  Of the SDKs in
    other languages, clients, transports and mocks, which rest on Connect, OkHttp,
    nghttp2 and protobuf libraries that are not in the repository; the C++ JSON
    printer but for numbers.  Stack depth in recursive code, memory exhaustion and
    the tests are not part of the model. *)

From Stdlib Require Export ZArith Lia Ascii String.
From stdpp Require Export base tactics strings list gmap fin_maps fin_sets.

#[global] Open Scope Z_scope.
#[global] Open Scope list_scope.

(** ** Results: Rust's [Result<A, E>], with [?] as the monadic bind *)

Inductive result (E A : Type) : Type :=
| Ok (a : A)
| Err (e : E).
Arguments Ok {E A} a.
Arguments Err {E A} e.

#[export] Instance result_ret {E} : MRet (result E) := fun A a => Ok a.
#[export] Instance result_bind {E} : MBind (result E) := fun A B f r =>
  match r with Ok a => f a | Err e => Err e end.
#[export] Instance result_fmap {E} : FMap (result E) := fun A B f r =>
  match r with Ok a => Ok (f a) | Err e => Err e end.

(** [Result::map_err], [Result::ok], [Option::ok_or]. *)
Definition map_err {E F A} (f : E -> F) (r : result E A) : result F A :=
  match r with Ok a => Ok a | Err e => Err (f e) end.
Definition ok {E A} (r : result E A) : option A :=
  match r with Ok a => Some a | Err _ => None end.
Definition ok_or {E A} (e : E) (o : option A) : result E A :=
  match o with Some a => Ok a | None => Err e end.
Definition is_ok {E A} (r : result E A) : bool :=
  match r with Ok _ => true | Err _ => false end.

(** [Iterator::collect::<Result<Vec<_>, _>>] over a mapped iterator: the first
    error wins. *)
Fixpoint try_map {E A B} (f : A -> result E B) (l : list A) : result E (list B) :=
  match l with
  | [] => Ok []
  | x :: l => y ← f x; ys ← try_map f l; Ok (y :: ys)
  end.

(** [for x in l { state = f(state, x)?; }]. *)
Fixpoint try_fold {E S A} (f : S -> A -> result E S) (s : S) (l : list A) : result E S :=
  match l with
  | [] => Ok s
  | x :: l => s' ← f s x; try_fold f s' l
  end.

(** ** Machine integers

    An integer of width [w] is a [Z]; the wrap-around of the type is written
    out where the code relies on it.  [overflow-checks] is off in the release
    profile, so a plain [+] or [-] of the source wraps. *)

Definition i16_max : Z := 2 ^ 15 - 1.
Definition i32_max : Z := 2 ^ 31 - 1.
Definition i32_min : Z := - 2 ^ 31.
Definition i64_max : Z := 2 ^ 63 - 1.
Definition i64_min : Z := - 2 ^ 63.
Definition u32_max : Z := 2 ^ 32 - 1.
Definition u64_max : Z := 2 ^ 64 - 1.
Definition i128_max : Z := 2 ^ 127 - 1.

Definition wrap_u64 (z : Z) : Z := z mod 2 ^ 64.
Definition wrap_i64 (z : Z) : Z := (z + 2 ^ 63) mod 2 ^ 64 - 2 ^ 63.
Definition wrap_i32 (z : Z) : Z := (z + 2 ^ 31) mod 2 ^ 32 - 2 ^ 31.

(** [T::try_from(z).ok()] for the widths the gateway converts between. *)
Definition try_range (lo hi z : Z) : option Z :=
  if (lo <=? z) && (z <=? hi) then Some z else None.
Definition try_i32 : Z -> option Z := try_range i32_min i32_max.
Definition try_i64 : Z -> option Z := try_range i64_min i64_max.
Definition try_u32 : Z -> option Z := try_range 0 u32_max.
Definition try_u64 : Z -> option Z := try_range 0 u64_max.

(** [i64::checked_add(1)] and [i64::checked_sub(1)]. *)
Definition checked_add1 (z : Z) : option Z := try_i64 (z + 1).
Definition checked_sub1 (z : Z) : option Z := try_i64 (z - 1).

Lemma try_range_Some lo hi z r : try_range lo hi z = Some r <-> r = z /\ lo <= z <= hi.
Proof.
  unfold try_range.
  destruct (Z.leb_spec lo z), (Z.leb_spec z hi); simpl; split; intros H1;
    try discriminate; try (destruct H1; lia); [ inversion H1; lia | ].
  destruct H1 as [-> _]; reflexivity.
Qed.

Lemma wrap_i64_id z : i64_min <= z <= i64_max -> wrap_i64 z = z.
Proof. unfold wrap_i64, i64_min, i64_max. intros. rewrite Z.mod_small; lia. Qed.

Lemma wrap_u64_range z : 0 <= wrap_u64 z <= u64_max.
Proof.
  unfold wrap_u64, u64_max. pose proof (Z.mod_pos_bound z (2 ^ 64) ltac:(lia)). lia.
Qed.

(** ** Bytes

    [bytes::Bytes], [Vec<u8>] and [&[u8]] are lists of 8-bit characters; a
    Rust [str] is the Rocq string of its UTF-8 bytes, so [str::as_bytes] only
    changes the type and [str::len] is the length of the string. *)

Abbreviation Bytes := (list ascii) (only parsing).

Definition u8 (b : ascii) : Z := Z.of_N (N_of_ascii b).
Definition of_u8 (z : Z) : ascii := ascii_of_N (Z.to_N (z mod 256)).
Definition as_bytes (s : string) : Bytes := list_ascii_of_string s.
Definition of_bytes (b : Bytes) : string := string_of_list_ascii b.

Lemma u8_range b : 0 <= u8 b < 256.
Proof. unfold u8. pose proof (N_ascii_bounded b). lia. Qed.

Lemma of_u8_u8 b : of_u8 (u8 b) = b.
Proof.
  unfold of_u8. rewrite Z.mod_small by apply u8_range.
  unfold u8. rewrite N2Z.id. apply ascii_N_embedding.
Qed.

Lemma u8_of_u8 z : u8 (of_u8 z) = z mod 256.
Proof.
  unfold u8, of_u8. pose proof (Z.mod_pos_bound z 256 ltac:(lia)).
  rewrite N_ascii_embedding by lia. lia.
Qed.

Lemma of_as_bytes s : of_bytes (as_bytes s) = s.
Proof. apply string_of_list_ascii_of_string. Qed.
#[export] Instance as_bytes_inj : Inj (=) (=) as_bytes.
Proof. intros a b Hab. by rewrite <- (of_as_bytes a), Hab, of_as_bytes. Qed.
Lemma as_of_bytes b : as_bytes (of_bytes b) = b.
Proof. apply list_ascii_of_string_of_list_ascii. Qed.

(** ** Inversion of the error monad *)

Lemma bind_Ok {E A B} (f : A -> result E B) (r : result E A) b :
  r ≫= f = Ok b <-> exists a, r = Ok a /\ f a = Ok b.
Proof.
  destruct r; simpl; split; [ eauto | intros (? & [= <-] & ?) | | intros (? & ? & _) ];
    done.
Qed.

Lemma bind_Some' {A B} (f : A -> option B) (o : option A) b :
  o ≫= f = Some b <-> exists a, o = Some a /\ f a = Some b.
Proof. apply bind_Some. Qed.

Lemma try_map_Ok {E A B} (f : A -> result E B) l ys :
  try_map f l = Ok ys <-> Forall2 (fun x y => f x = Ok y) l ys.
Proof.
  revert ys. induction l as [|x l IH]; intros ys; simpl.
  - split; [ intros [= <-]; constructor | inversion 1; done ].
  - rewrite bind_Ok. setoid_rewrite bind_Ok. setoid_rewrite IH. split.
    + intros (y & Hy & zs & Hzs & [= <-]). by constructor.
    + inversion 1; subst. eauto.
Qed.

Lemma try_map_Err {E A B} (f : A -> result E B) l e :
  try_map f l = Err e -> exists x, x ∈ l /\ f x = Err e.
Proof.
  induction l as [|x l IH]; simpl; [done|]. destruct (f x) eqn:Hx; simpl; [|intros [= <-]; exists x; split; [left|done]].
  destruct (try_map f l); simpl; [done|]. intros [= ->]. destruct IH as (y & Hy & ?); [done|]. exists y. split; [by right|done].
Qed.

Lemma try_map_length {E A B} (f : A -> result E B) l ys :
  try_map f l = Ok ys -> length ys = length l.
Proof. intros H%try_map_Ok. symmetry. by eapply Forall2_length. Qed.

(** [res_inv] destructs hypotheses that say a chain of binds returned [Ok] or
    [Some]. *)
Ltac res_inv :=
  repeat match goal with
  | H : Ok _ = Ok _ |- _ => injection H as H; try subst
  | H : Err _ = Err _ |- _ => injection H as H; try subst
  | H : Some _ = Some _ |- _ => injection H as H; try subst
  | H : Ok _ = Err _ |- _ => discriminate H
  | H : Err _ = Ok _ |- _ => discriminate H
  | H : None = Some _ |- _ => discriminate H
  | H : Some _ = None |- _ => discriminate H
  | H : mbind _ _ = Ok _ |- _ => apply bind_Ok in H as (? & ? & H)
  | H : mbind _ _ = Some _ |- _ => apply bind_Some in H as (? & ? & H)
  end.

(** [case_bool] splits on the innermost boolean test of the goal or of a
    hypothesis and turns it into its [Prop] form. *)
Ltac bool_prop :=
  repeat match goal with
  | H : _ && _ = true |- _ => apply andb_true_iff in H as [? H]
  | H : _ || _ = false |- _ => apply orb_false_iff in H as [? H]
  | H : negb _ = true |- _ => apply negb_true_iff in H
  | H : negb _ = false |- _ => apply negb_false_iff in H
  | H : (_ <=? _) = true |- _ => apply Z.leb_le in H
  | H : (_ <=? _) = false |- _ => apply Z.leb_gt in H
  | H : (_ <? _) = true |- _ => apply Z.ltb_lt in H
  | H : (_ <? _) = false |- _ => apply Z.ltb_ge in H
  | H : (_ =? _) = true |- _ => apply Z.eqb_eq in H
  | H : (_ =? _) = false |- _ => apply Z.eqb_neq in H
  | H : bool_decide _ = true |- _ => apply bool_decide_eq_true in H
  | H : bool_decide _ = false |- _ => apply bool_decide_eq_false in H
  end.

(** ** Hint databases *)

Create HintDb gw discriminated.
#[export] Hint Resolve u8_range wrap_u64_range : gw.
Create Rewrite HintDb gw_len.
#[export] Hint Rewrite @length_app @length_map @length_fmap @length_take @length_drop : gw_len.

(** ** [BTreeSet<i64>]

    An ordered set of integers is a [gset Z]; [first] is its least element. *)

Definition set_first (s : gset Z) : option Z :=
  match elements s with
  | [] => None
  | x :: l => Some (foldr Z.min x l)
  end.

Lemma foldr_min_spec (x : Z) l :
  let m := foldr Z.min x l in (m = x \/ m ∈ l) /\ m <= x /\ (forall y, y ∈ l -> m <= y).
Proof.
  induction l as [|y l (IHin & IHx & IHl)]; simpl.
  - split; [by left|]. split; [lia|]. intros y Hy. by apply not_elem_of_nil in Hy.
  - split; [|split; [lia|]].
    + destruct (Z.min_spec y (foldr Z.min x l)) as [[_ ->]|[_ ->]];
        [ right; left | destruct IHin as [->|]; [by left|right; by right] ].
    + intros z [->|Hz]%elem_of_cons; [lia|]. pose proof (IHl z Hz). lia.
Qed.

Lemma set_first_None (s : gset Z) : set_first s = None <-> s = ∅.
Proof.
  unfold set_first. split.
  - destruct (elements s) eqn:He; [|done]. intros _. by apply elements_empty_inv, leibniz_equiv in He.
  - intros ->. by rewrite elements_empty.
Qed.

Lemma set_first_Some (s : gset Z) m :
  set_first s = Some m <-> m ∈ s /\ forall y, y ∈ s -> m <= y.
Proof.
  split.
  - unfold set_first. destruct (elements s) as [|x l] eqn:He; [done|]. intros [= <-].
    destruct (foldr_min_spec x l) as (Hin & Hx & Hl).
    assert (Hel : forall y, y ∈ s <-> y ∈ x :: l) by (intros y; rewrite <- He; by rewrite elem_of_elements).
    split; [apply Hel; set_solver|]. intros y Hy%Hel.
    apply elem_of_cons in Hy as [->|Hy]; [lia|by apply Hl].
  - intros [Hm Hle]. destruct (set_first s) as [m'|] eqn:Hf.
    + f_equal. unfold set_first in Hf. destruct (elements s) as [|x l] eqn:He; [done|].
      injection Hf as <-. destruct (foldr_min_spec x l) as (Hin & Hx & Hl).
      assert (Hel : forall y, y ∈ s <-> y ∈ x :: l) by (intros y; rewrite <- He; by rewrite elem_of_elements).
      apply Z.le_antisymm.
      * apply Hel, elem_of_cons in Hm as [->|Hm]; [lia|by apply Hl].
      * apply Hle, Hel. set_solver.
    + apply set_first_None in Hf. set_solver.
Qed.

(** ** Filters *)

Lemma omap_None_nil {A B} (f : A -> option B) l : (forall x, x ∈ l -> f x = None) -> omap f l = [].
Proof.
  induction l as [|x l IH]; intros Hf; [done|]. cbn. rewrite (Hf x) by left. apply IH. intros y Hy. apply Hf. by right.
Qed.

Lemma filter_partition {A} (f : A -> bool) l : List.filter f l ++ List.filter (fun x => negb (f x)) l ≡ₚ l.
Proof. induction l as [|x l IH]; [done|]. cbn. destruct (f x); cbn; [by rewrite IH|]. by rewrite <- Permutation_middle, IH. Qed.

Lemma filter_filter {A} (f g : A -> bool) l : List.filter f (List.filter g l) = List.filter (fun x => g x && f x) l.
Proof. induction l as [|x l IH]; [done|]. cbn. destruct (g x); cbn; [destruct (f x)|]; by rewrite IH. Qed.

Lemma filter_swap {A} (f g : A -> bool) l : List.filter f (List.filter g l) = List.filter g (List.filter f l).
Proof. rewrite !filter_filter. apply List.filter_ext. intros x. apply andb_comm. Qed.

Lemma filter_map {A B} (h : A -> B) (f : B -> bool) l : List.filter f (map h l) = map h (List.filter (fun x => f (h x)) l).
Proof. induction l as [|x l IH]; [done|]. cbn. destruct (f (h x)); cbn; by rewrite IH. Qed.

(** ** Reachability of a step relation *)

Section Steps.
  Context {S : Type} (step : S -> S -> Prop).

Inductive steps : S -> S -> Prop :=
| steps_refl s : steps s s
| steps_cons s1 s2 s3 : step s1 s2 -> steps s2 s3 -> steps s1 s3.

Lemma steps_invariant (I : S -> Prop) :
  (forall s s', step s s' -> I s -> I s') -> forall s s', steps s s' -> I s -> I s'.
Proof. induction 2; eauto. Qed.

Lemma steps_trans s1 s2 s3 : steps s1 s2 -> steps s2 s3 -> steps s1 s3.
Proof. induction 1; eauto using steps. Qed.
End Steps.
