(* ===== verification/RustStr.v ===== *)
(** * The parts of [str] and [String] the gateway uses

    A [str] is the Rocq string of its UTF-8 bytes.  Every test the gateway makes
    on a [char] is for ASCII, and the bytes of a multi-byte sequence are not
    ASCII, so walking the bytes sees the same matches as walking the chars. *)

From S2P Require Import Prelude.

(** [[String]::join]. *)
Fixpoint join (sep : string) (l : list string) : string :=
  match l with
  | [] => EmptyString
  | [x] => x
  | x :: l => x +:+ sep +:+ join sep l
  end.

(** [str::strip_prefix]. *)
Fixpoint strip_prefix (p s : string) : option string :=
  match p, s with
  | EmptyString, _ => Some s
  | String a p, String b s => if bool_decide (a = b) then strip_prefix p s else None
  | String _ _, EmptyString => None
  end.

Lemma strip_prefix_app p s : strip_prefix p (p +:+ s) = Some s.
Proof. induction p as [|a p IH]; simpl; [done|]. by rewrite bool_decide_true. Qed.
Lemma strip_prefix_Some p s t : strip_prefix p s = Some t -> s = p +:+ t.
Proof.
  revert s. induction p as [|a p IH]; intros s; [by intros [= ->]|]. destruct s as [|b s]; [done|]. simpl.
  destruct (bool_decide_reflect (a = b)) as [->|]; [|done]. by intros ->%IH.
Qed.
#[global] Arguments strip_prefix : simpl never.

(** ** UTF-8 *)

Definition between (lo hi : Z) (b : ascii) : bool := (lo <=? u8 b) && (u8 b <=? hi).
Definition is_continuation (b : ascii) : bool := between 128 191 b.

(** The length of the sequence a first byte announces, and the range of the
    second byte; [None] for a byte that starts no sequence. *)
Definition utf8_lead (b : ascii) : option (nat * (Z * Z)) :=
  let z := u8 b in
  if z <? 128 then Some (1%nat, (128, 191))
  else if between 194 223 b then Some (2%nat, (128, 191))
  else if z =? 224 then Some (3%nat, (160, 191))
  else if between 225 236 b then Some (3%nat, (128, 191))
  else if z =? 237 then Some (3%nat, (128, 159))
  else if between 238 239 b then Some (3%nat, (128, 191))
  else if z =? 240 then Some (4%nat, (144, 191))
  else if between 241 243 b then Some (4%nat, (128, 191))
  else if z =? 244 then Some (4%nat, (128, 143))
  else None.

(** How many bytes of [l] are a valid continuation of a sequence that still
    needs [need] bytes. *)
Fixpoint utf8_tail (need : nat) (lo hi : Z) (l : Bytes) : nat :=
  match need, l with
  | S need, b :: l => if between lo hi b then S (utf8_tail need 128 191 l) else O
  | _, _ => O
  end.

(** The first chunk of [l]: whether it is a whole sequence, and its length.  An
    ill-formed chunk is the longest prefix of a sequence. *)
Definition utf8_chunk (b : ascii) (l : Bytes) : bool * nat :=
  match utf8_lead b with
  | None => (false, 1%nat)
  | Some (n, (lo, hi)) =>
      let k := utf8_tail (n - 1) lo hi l in
      (bool_decide (S k = n), S k)
  end.

Fixpoint utf8_fuel (fuel : nat) (l : Bytes) : list (bool * Bytes) :=
  match fuel, l with
  | S fuel, b :: l' =>
      let '(good, n) := utf8_chunk b l' in
      (good, take n l) :: utf8_fuel fuel (drop n l)
  | _, _ => []
  end.

(** A chunk has at least one byte. *)
Definition utf8_chunks (l : Bytes) : list (bool * Bytes) := utf8_fuel (length l) l.

(** [str::from_utf8(l).is_ok()]. *)
Definition is_utf8 (l : Bytes) : bool := forallb fst (utf8_chunks l).

Definition from_utf8 (l : Bytes) : option string := if is_utf8 l then Some (of_bytes l) else None.

(** [String::from_utf8_lossy]: an ill-formed chunk becomes U+FFFD. *)
Definition replacement : Bytes := map of_u8 [239; 191; 189].
Definition from_utf8_lossy (l : Bytes) : string :=
  of_bytes (concat (map (fun c => if c.1 : bool then c.2 else replacement) (utf8_chunks l))).

Lemma utf8_chunk_pos b l : exists n, (utf8_chunk b l).2 = S n.
Proof.
  unfold utf8_chunk. destruct (utf8_lead b) as [[n [lo hi]]|]; simpl; eauto.
Qed.

Lemma utf8_fuel_concat fuel l : (length l <= fuel)%nat -> concat (map snd (utf8_fuel fuel l)) = l.
Proof.
  revert l. induction fuel as [|fuel IH]; intros [|b l] Hl; simpl in *; try done; [lia|].
  destruct (utf8_chunk_pos b l) as (n & Hn). destruct (utf8_chunk b l) as [good k]. simpl in *. subst k.
  simpl. rewrite IH by (rewrite length_drop; lia). by rewrite take_drop.
Qed.

(** Decoding the bytes of a [str] gives the [str] back. *)
Lemma from_utf8_lossy_valid s : is_utf8 (as_bytes s) = true -> from_utf8_lossy (as_bytes s) = s.
Proof.
  intros Hu. unfold from_utf8_lossy. rewrite <- (of_as_bytes s) at 2. f_equal.
  rewrite <- (utf8_fuel_concat (length (as_bytes s)) (as_bytes s)) at 2 by lia. fold (utf8_chunks (as_bytes s)).
  f_equal. unfold is_utf8 in Hu. induction (utf8_chunks (as_bytes s)) as [|[[] c] cs IH]; simpl in *; [done| |done].
  f_equal; auto.
Qed.

Lemma from_utf8_as_bytes s : is_utf8 (as_bytes s) = true -> from_utf8 (as_bytes s) = Some s.
Proof. unfold from_utf8. intros ->. by rewrite of_as_bytes. Qed.
