(* ===== verification/RustNum.v ===== *)
(** * Trimming and number parsing of [str]

    [trim], [eq_ignore_ascii_case], [parse] at [i64], [u64] and [f64], and the
    order of strings.  An [f64] is a [spec_float] of precision 53 and exponent
    bound 1024. *)

From Stdlib Require Export Floats.SpecFloat.
From S2P Require Import Prelude.
From S2P Require Import RustStr.

(** ** White space: the characters with Unicode's [White_Space] property *)

Definition ws3 (a b c : Z) : bool :=
  ((a =? 225) && (b =? 154) && (c =? 128))                                  (* U+1680 *)
  || ((a =? 226) && (b =? 128) && (((128 <=? c) && (c <=? 138))             (* U+2000 to U+200A *)
        || (c =? 168) || (c =? 169) || (c =? 175)))                         (* U+2028, U+2029, U+202F *)
  || ((a =? 226) && (b =? 129) && (c =? 159))                               (* U+205F *)
  || ((a =? 227) && (b =? 128) && (c =? 128)).                              (* U+3000 *)
Definition ws2 (a b : Z) : bool := (a =? 194) && ((b =? 133) || (b =? 160)).  (* U+0085, U+00A0 *)
Definition ws1 (a : Z) : bool := (a =? 32) || ((9 <=? a) && (a <=? 13)).

Fixpoint trim_start (l : Bytes) : Bytes :=
  match l with
  | a :: l1 =>
      if ws1 (u8 a) then trim_start l1
      else match l1 with
           | b :: l2 =>
               if ws2 (u8 a) (u8 b) then trim_start l2
               else match l2 with
                    | c :: l3 => if ws3 (u8 a) (u8 b) (u8 c) then trim_start l3 else l
                    | [] => l
                    end
           | [] => l
           end
  | [] => []
  end.

(** The same from the end, over the reversed bytes. *)
Fixpoint trim_rev (l : Bytes) : Bytes :=
  match l with
  | c :: l1 =>
      if ws1 (u8 c) then trim_rev l1
      else match l1 with
           | b :: l2 =>
               if ws2 (u8 b) (u8 c) then trim_rev l2
               else match l2 with
                    | a :: l3 => if ws3 (u8 a) (u8 b) (u8 c) then trim_rev l3 else l
                    | [] => l
                    end
           | [] => l
           end
  | [] => []
  end.

Definition trim_end (l : Bytes) : Bytes := reverse (trim_rev (reverse l)).
Definition trim (l : Bytes) : Bytes := trim_end (trim_start l).

(** [split] at a character: at least one piece. *)
Fixpoint split_char (sep : ascii) (l : Bytes) : list Bytes :=
  match l with
  | [] => [[]]
  | c :: l =>
      if bool_decide (c = sep) then [] :: split_char sep l
      else match split_char sep l with
           | w :: ws => (c :: w) :: ws
           | [] => [[c]]
           end
  end.

(** ** ASCII classes and case *)

Definition is_digit (b : ascii) : bool := between 48 57 b.
Definition is_alpha (b : ascii) : bool := between 65 90 b || between 97 122 b.
Definition is_alnum (b : ascii) : bool := is_digit b || is_alpha b.
Definition to_lower (b : ascii) : ascii := if between 65 90 b then of_u8 (u8 b + 32) else b.
(** [to_ascii_lowercase] of a [str]. *)
Definition lower (s : string) : string := of_bytes (map to_lower (as_bytes s)).
Lemma to_lower_to_lower b : to_lower (to_lower b) = to_lower b.
Proof. destruct b as [[] [] [] [] [] [] [] []]; vm_compute; reflexivity. Qed.
Lemma lower_lower s : lower (lower s) = lower s.
Proof.
  unfold lower. rewrite as_of_bytes, List.map_map. f_equal. apply map_ext. apply to_lower_to_lower.
Qed.
Definition eq_ignore_ascii_case (a b : Bytes) : bool := bool_decide (map to_lower a = map to_lower b).

(** [Ord] of [str]: lexicographic on the bytes. *)
Fixpoint bytes_cmp (a b : Bytes) : comparison :=
  match a, b with
  | [], [] => Eq
  | [], _ => Lt
  | _, [] => Gt
  | x :: a, y :: b => match u8 x ?= u8 y with Eq => bytes_cmp a b | o => o end
  end.

Lemma bytes_cmp_eq a b : bytes_cmp a b = Eq <-> a = b.
Proof.
  revert b. induction a as [|x a IH]; intros [|y b]; try done. simpl. destruct (Z.compare_spec (u8 x) (u8 y)) as [Hxy|Hxy|Hxy].
  - rewrite IH. assert (x = y) as -> by (by rewrite <- (of_u8_u8 x), Hxy, of_u8_u8). split; congruence.
  - split; [done|]. intros [= -> ->]. lia.
  - split; [done|]. intros [= -> ->]. lia.
Qed.

(** ** Integers *)

Definition digit_val (b : ascii) : Z := u8 b - 48.
Definition digits_val (l : Bytes) : Z := foldl (fun n b => 10 * n + digit_val b) 0 l.

(** One or more digits. *)
Definition parse_digits (l : Bytes) : option Z :=
  match l with
  | [] => None
  | _ => if forallb is_digit l then Some (digits_val l) else None
  end.

Definition sign_split (l : Bytes) : bool * Bytes :=
  match l with
  | c :: l' => if bool_decide (c = "-"%char) then (true, l')
               else if bool_decide (c = "+"%char) then (false, l') else (false, l)
  | [] => (false, [])
  end.

(** [parse::<i64>]: an optional sign, digits, in range. *)
Definition parse_i64 (l : Bytes) : option Z :=
  let '(neg, l) := sign_split l in
  n ← parse_digits l; try_i64 (if neg then - n else n).

(** [parse::<u64>]: a leading minus is not a digit. *)
Definition parse_u64 (l : Bytes) : option Z :=
  let '(neg, l) := sign_split l in
  if neg then None else n ← parse_digits l; try_u64 n.

(** ** Binary floating point *)

Definition f64 := spec_float.
Definition f64_of_Z (z : Z) : f64 := binary_normalize 53 1024 z 0 false.
Definition is_finite (f : f64) : bool :=
  match f with S754_zero _ | S754_finite _ _ _ => true | _ => false end.

(** The double nearest to [m * 10 ^ e], ties to even.  For a negative exponent
    the quotient is computed to at least 55 bits with a sticky last bit. *)
Definition f64_of_decimal (neg : bool) (m e : Z) : f64 :=
  if m =? 0 then S754_zero neg
  else
    let signed z := if neg then - z else z in
    if 0 <=? e then binary_normalize 53 1024 (signed (m * 10 ^ e)) 0 neg
    else
      let d := 10 ^ (- e) in
      let k := Z.max 0 (Z.log2 d - Z.log2 m + 56) in
      let n := m * 2 ^ k in
      let sticky := if n mod d =? 0 then 0 else 1 in
      binary_normalize 53 1024 (signed (2 * (n / d) + sticky)) (- (k + 1)) neg.

(** The leading digits and the rest. *)
Fixpoint span_digits (l : Bytes) : Bytes * Bytes :=
  match l with
  | c :: l' => if is_digit c then let '(d, r) := span_digits l' in (c :: d, r) else ([], l)
  | [] => ([], [])
  end.

(** The exponent part: nothing, or [e] with a signed number. *)
Definition parse_exponent (l : Bytes) : option Z :=
  match l with
  | [] => Some 0
  | c :: l =>
      if bool_decide (c = "e"%char) || bool_decide (c = "E"%char) then
        let '(neg, l) := sign_split l in
        n ← parse_digits l; Some (if neg then - n else n)
      else None
  end.

(** [parse::<f64>] of an input with a point or an exponent, the only inputs the
    gateway parses as floats: the words for infinity and NaN have neither. *)
Definition parse_f64 (l : Bytes) : option f64 :=
  let '(neg, l) := sign_split l in
  let '(int, l) := span_digits l in
  let '(frac, l) := match l with
                    | c :: l' => if bool_decide (c = "."%char) then span_digits l' else ([], l)
                    | [] => ([], [])
                    end in
  if bool_decide (int ++ frac = []) then None
  else
    e ← parse_exponent l;
    Some (f64_of_decimal neg (digits_val (int ++ frac)) (e - Z.of_nat (length frac))).
