(* ===== verification/Types.v ===== *)
(** * Record types shared by the gateway's engines

    The transport-independent records of [types.rs], the coordinates of
    [ids.rs], the error type of [error.rs] and the codec interface of
    [codec.rs].  [RecordCodec] is the type class of the trait of that name;
    [raw_codec] is the instance of [RawCodec].  Errors of the Kafka clients
    are those variants the gateway inspects, and one constructor for the
    rest. *)

From stdpp Require Import pretty.
From S2P Require Import Prelude.

(** ** codec.rs *)

Inductive SchemaFormat := Avro | Json | Protobuf.
#[export] Instance SchemaFormat_eq_dec : EqDecision SchemaFormat.
Proof. solve_decision. Defined.

Record SchemaSelector := {
  sel_subject : option string;
  sel_id : option Z;
  sel_format : SchemaFormat;
}.
#[export] Instance SchemaSelector_eq_dec : EqDecision SchemaSelector.
Proof. solve_decision. Defined.

Record SchemaMeta := {
  meta_subject : string;
  meta_id : Z;
  meta_format : SchemaFormat;
}.
#[export] Instance SchemaMeta_eq_dec : EqDecision SchemaMeta.
Proof. solve_decision. Defined.

Inductive EncodeBody :=
| Raw (b : Bytes)
| Structured (json : Bytes) (schema : SchemaSelector).

Record Decoded := {
  dec_value : Bytes;
  dec_schema : option SchemaMeta;
  dec_json : option Bytes;
}.

Inductive CodecError :=
| Registry (m : string)
| Serialize (m : string)
| Validate (m : string)
| Framing (m : string).
#[export] Instance CodecError_eq_dec : EqDecision CodecError.
Proof. solve_decision. Defined.

(** The trait [RecordCodec].  Its methods take [&self] and may call a remote
    registry; an instance fixes what the registry answers. *)
Class RecordCodec := {
  encode : string -> EncodeBody -> result CodecError Bytes;
  decode : string -> Bytes -> result CodecError Decoded;
}.

Definition RawCodec_encode (_topic : string) (body : EncodeBody) : result CodecError Bytes :=
  Ok (match body with
      | Raw b => b
      | Structured json _ => json
      end).

Definition RawCodec_decode (_topic : string) (value : Bytes) : result CodecError Decoded :=
  Ok {| dec_value := value; dec_schema := None; dec_json := None |}.

Definition RawCodec : RecordCodec :=
  {| encode := RawCodec_encode; decode := RawCodec_decode |}.

(** ** The clients' errors *)

Inductive ProducerError :=
| RecoveryRequired
| OtherProducerError (m : string).

Inductive ConsumerError :=
| Server (code : Z)
| Client (m : string)
| CoordinatorUnavailable
| CommitInvalid
| RebalanceFailed (m : string)
| IllegalState (m : string)
| OtherConsumerError (m : string).

(** ** error.rs *)

Inductive GatewayError :=
| Producer (e : ProducerError)
| Consumer (e : ConsumerError)
| Unavailable
| Forward (m : string)
| Claim (m : string)
| Codec (e : CodecError)
| Unauthorized (m : string)
| TooManyUnacked (topic : string) (partition offset : Z)
| Other (m : string).

(** ** types.rs *)

Record GatewayRecord := {
  topic : string;
  key : option Bytes;
  value : Bytes;
  body_structured : option (Bytes * SchemaSelector);
  headers : list (string * option Bytes);
  partition : option Z;
  timestamp_ms : option Z;
  idempotency_key : option string;
}.

Definition encode_body (r : GatewayRecord) : EncodeBody :=
  match body_structured r with
  | Some (json, schema) => Structured json schema
  | None => Raw (value r)
  end.

Record RecordOutcome := {
  out_partition : Z;
  out_offset : Z;
  deduplicated : bool;
}.
#[export] Instance RecordOutcome_eq_dec : EqDecision RecordOutcome.
Proof. solve_decision. Defined.

(** A topic-partition, the key of every per-partition map. *)
Abbreviation TopicPartition := (string * Z)%type (only parsing).

(** ** Records of the producer and consumer clients *)

Record ProducerRecord := {
  pr_topic : string;
  pr_partition : option Z;
  pr_key : option Bytes;
  pr_value : option Bytes;
  pr_headers : list (string * option Bytes);
  pr_timestamp_ms : option Z;
}.

Record RecordMetadata := { md_partition : Z; md_offset : Z }.

(** ** serde_json at a type

    [to_vec] and [from_slice] of a type that derives [Serialize] and
    [Deserialize]; a serialized value reads back. *)
Class Serde (A : Type) := {
  to_vec : A -> result string Bytes;
  from_slice : Bytes -> option A;
  from_to_vec : forall a b, to_vec a = Ok b -> from_slice b = Some a;
}.

(** An instance for any countable type, through its numbering, in binary. *)
Fixpoint bits_of (p : positive) : Bytes :=
  match p with
  | xH => []
  | xO p => "0"%char :: bits_of p
  | xI p => "1"%char :: bits_of p
  end.

Fixpoint of_bits (l : Bytes) : positive :=
  match l with
  | [] => xH
  | b :: l => if bool_decide (b = "1"%char) then xI (of_bits l) else xO (of_bits l)
  end.

Lemma of_bits_of p : of_bits (bits_of p) = p.
Proof. induction p; simpl; by rewrite ?IHp. Qed.

Definition countable_serde {A} `{Countable A} : Serde A.
Proof.
  refine {| to_vec a := Ok (bits_of (countable.encode a));
            from_slice b := countable.decode (of_bits b) |}.
  intros a b [= <-]. by rewrite of_bits_of, decode_encode.
Defined.

(** ** Identities, authorization and Connect errors *)

Inductive AuthMethod :=
| Anonymous | SaslPlain | SaslScramSha256 | SaslScramSha512 | SaslOAuthBearer | SaslGssapi | MTls.
#[export] Instance AuthMethod_eq_dec : EqDecision AuthMethod.
Proof. solve_decision. Defined.

Record Principal := {
  pname : string;
  auth_method : AuthMethod;
  groups : list string;
}.
#[export] Instance Principal_eq_dec : EqDecision Principal.
Proof. solve_decision. Defined.

Inductive ResourceType := TopicResource | GroupResource.
Inductive AclOperation := Read | Write.

(** The configured authorizer over the current ACL snapshot: [true] is [Allow]. *)
Class Authorizer := {
  authorize : Principal -> string -> ResourceType -> string -> AclOperation -> bool;
}.

(** handlers.rs: the identity of a request that carries none. *)
Definition anonymous_principal : Principal :=
  {| pname := "ANONYMOUS"; auth_method := Anonymous; groups := [] |}.
Definition unknown_host : string := "0.0.0.0:0".

Inductive ConnectCode :=
| InvalidArgument | ResourceExhausted | PermissionDenied | FailedPrecondition | UnavailableCode | Internal.
#[export] Instance ConnectCode_eq_dec : EqDecision ConnectCode.
Proof. solve_decision. Defined.

Record ConnectError := { connect_code : ConnectCode; connect_message : string }.
#[export] Instance ConnectError_eq_dec : EqDecision ConnectError.
Proof. solve_decision. Defined.

(** [pb::ErrorInfo]. *)
Record ErrorInfo := { ei_code : Z; ei_message : string; ei_retriable : bool }.

(** [Display] of the clients' errors. *)
Class ClientDisplay := {
  producer_error_to_string : ProducerError -> string;
  consumer_error_to_string : ConsumerError -> string;
}.

(** [Display] of [CodecError] and [GatewayError]. *)
Definition CodecError_to_string (e : CodecError) : string :=
  match e with
  | Registry m => "schema registry error: " +:+ m
  | Serialize m => "serialize error: " +:+ m
  | Validate m => "validation error: " +:+ m
  | Framing m => "framing error: " +:+ m
  end.

Definition GatewayError_to_string `{ClientDisplay} (e : GatewayError) : string :=
  match e with
  | Producer e => "producer error: " +:+ producer_error_to_string e
  | Consumer e => "consumer error: " +:+ consumer_error_to_string e
  | Unavailable => "dedup partition not owned by this replica or still warming up"
  | Forward m => "forward to owner failed: " +:+ m
  | Claim m => "dedup claim could not be (de)serialized: " +:+ m
  | Codec e => "codec error: " +:+ CodecError_to_string e
  | Unauthorized m => "not authorized: " +:+ m
  | TooManyUnacked t p o =>
      "outstanding record tracking limit reached for " +:+ t +:+ "-" +:+ pretty p +:+ " at offset " +:+ pretty o
  | Other m => m
  end.

(** ** Collaborators and identities for the concrete examples *)

Definition allow_all : Authorizer := {| authorize := fun _ _ _ _ _ => true |}.
Definition plain_display : ClientDisplay :=
  {| producer_error_to_string := fun _ => "producer"; consumer_error_to_string := fun _ => "consumer" |}.

Definition alice : Principal := {| pname := "alice"; auth_method := MTls; groups := [] |}.
Definition bob : Principal := {| pname := "bob"; auth_method := MTls; groups := [] |}.
