(* ===== verification/Filter.v ===== *)
(** * Subscription filters (filter.rs)

    The SQL predicates a subscription may carry: parsing of the conjunctive
    form, and its evaluation on decoded JSON.  Scanning follows the bytes; all
    tokens are ASCII.  An error is its template and arguments, since the texts
    print their arguments with [Debug].  The cargo feature [arrow] is the
    parameter of that name; evaluation of Arrow batches by DataFusion is not part
    of this file. *)

From stdpp Require Import pretty.
From S2P Require Import Prelude.
From S2P Require Import RustStr.
From S2P Require Import RustNum.
From S2P Require Import Types.

Inductive NumericValue := Integer (z : Z) | Float (f : f64).

(** The messages of [UnsupportedSql]. *)
Inductive SqlMessage :=
| ReservedField
| EmptyPredicate
| NoOperator (clause : Bytes)
| ExtraOperator (clause : Bytes)
| UnorderedLiteral (clause : Bytes)
| BadFieldPath (path : Bytes)
| NestedField
| BadLiteral (literal : Bytes)
| UnterminatedLiteral (literal : Bytes)
| UnterminatedString
| UnrepresentableNumber (value : NumericValue) (data_type : string)
| OrderedNull
| BareNull.

Inductive FilterCompileError :=
| UnsupportedSql (m : SqlMessage)
| DataFusionUnavailable (m : string)
| DataFusion (m : string).

Inductive ComparisonOperator :=
| Equal | NotEqual | GreaterThan | GreaterThanOrEqual | LessThan | LessThanOrEqual.
#[export] Instance ComparisonOperator_eq_dec : EqDecision ComparisonOperator.
Proof. solve_decision. Defined.

Inductive FieldValue := FVString (s : Bytes) | FVNumber (n : NumericValue) | FVBool (b : bool) | FVNull.
Inductive FilterValue := FLString (s : Bytes) | FLNumber (n : NumericValue) | FLBool (b : bool) | FLNull.

(** [FieldPath] has one segment once it is parsed. *)
Record Predicate := { field : Bytes; operator : ComparisonOperator; expected : FilterValue }.

Record CompiledFilter := { cf_sql : Bytes; cf_predicates : list Predicate }.

(** ** Scanning outside string literals *)

Definition quote : ascii := "'"%char.
Definition is_identifier_char (b : ascii) : bool := bool_decide (b = "_"%char) || is_alnum b.

(** The loop all scanners share: the positions visited outside a literal, and
    whether the input ends inside one.  A doubled quote in a literal is skipped. *)
Fixpoint unquoted (l : Bytes) (i : nat) (in_string : bool) : list nat * bool :=
  match l with
  | [] => ([], in_string)
  | c :: rest =>
      if bool_decide (c = quote) then
        match rest with
        | c2 :: rest2 =>
            if in_string && bool_decide (c2 = quote) then unquoted rest2 (S (S i)) in_string
            else unquoted rest (S i) (negb in_string)
        | [] => ([], negb in_string)
        end
      else if in_string then unquoted rest (S i) in_string
      else let '(js, s) := unquoted rest (S i) in_string in (i :: js, s)
  end.

Definition visited (l : Bytes) : list nat := (unquoted l 0 false).1.
Definition ends_quoted (l : Bytes) : bool := (unquoted l 0 false).2.

(** [l[i..].starts_with(token)]. *)
Definition starts_at (l : Bytes) (i : nat) (token : Bytes) : bool :=
  bool_decide (take (length token) (drop i l) = token).

(** No identifier character right before [i] nor right after [i + n]. *)
Definition isolated (l : Bytes) (i n : nat) : bool :=
  negb (match last (take i l) with Some c => is_identifier_char c | None => false end)
  && negb (match head (drop (i + n) l) with Some c => is_identifier_char c | None => false end).

Definition starts_with_keyword_at (l : Bytes) (i : nat) (keyword : Bytes) : bool :=
  eq_ignore_ascii_case (take (length keyword) (drop i l)) keyword && isolated l i (length keyword).

Definition starts_with_field_reference (l : Bytes) (i : nat) (f : Bytes) : bool :=
  starts_at l i f && isolated l i (length f).

Definition RESERVED_ROW_MARKER_FIELD : Bytes := as_bytes "__krabka_row_marker".
Definition sql_references_reserved_row_marker (sql : Bytes) : bool :=
  existsb (fun i => starts_with_field_reference sql i RESERVED_ROW_MARKER_FIELD) (visited sql).

Definition find_unquoted_token (input token : Bytes) : result FilterCompileError (option nat) :=
  match find (fun i => starts_at input i token) (visited input) with
  | Some i => Ok (Some i)
  | None => if ends_quoted input then Err (UnsupportedSql UnterminatedString) else Ok None
  end.

(** The clauses between the keywords found at [ks]. *)
Fixpoint split_at (l : Bytes) (start : nat) (ks : list nat) : list Bytes :=
  match ks with
  | [] => [drop start l]
  | i :: ks => take (i - start) (drop start l) :: split_at l (i + 3) ks
  end.

Definition split_and_clauses (sql : Bytes) : result FilterCompileError (list Bytes) :=
  if ends_quoted sql then Err (UnsupportedSql UnterminatedString)
  else Ok (split_at sql 0 (List.filter (fun i => starts_with_keyword_at sql i (as_bytes "AND")) (visited sql))).

Definition contains_unquoted_word (input word : Bytes) : bool :=
  existsb (fun i => starts_with_keyword_at input i word) (visited input).
Definition contains_unquoted_char (input : Bytes) (target : ascii) : bool :=
  existsb (fun i => bool_decide (input !! i = Some target)) (visited input).

Definition is_decimal_literal_point (input : Bytes) (i : nat) : bool :=
  match last (take i input) with Some c => is_digit c | None => false end
  && match head (drop (S i) input) with Some c => is_digit c | None => false end.
Definition contains_unquoted_field_path_separator (input : Bytes) : bool :=
  existsb (fun i => bool_decide (input !! i = Some "."%char) && negb (is_decimal_literal_point input i)) (visited input).

Definition sql_requires_arrow_datafusion (sql : Bytes) : bool :=
  existsb (contains_unquoted_word sql) (map as_bytes ["OR"; "IN"; "IS"; "LIKE"])
  || existsb (contains_unquoted_char sql) ["("%char; ")"%char; "["%char; "]"%char]
  || contains_unquoted_field_path_separator sql.

(** ** Parsing of one predicate *)

Definition operators : list (string * ComparisonOperator) :=
  [("!=", NotEqual); (">=", GreaterThanOrEqual); ("<=", LessThanOrEqual); ("=", Equal); (">", GreaterThan); ("<", LessThan)].

Fixpoint reject_tokens (clause literal : Bytes) (tokens : list string) : result FilterCompileError unit :=
  match tokens with
  | [] => Ok ()
  | t :: tokens =>
      found ← find_unquoted_token literal (as_bytes t);
      match found with
      | Some _ => Err (UnsupportedSql (ExtraOperator clause))
      | None => reject_tokens clause literal tokens
      end
  end.
Definition reject_extra_operator (clause literal : Bytes) : result FilterCompileError unit :=
  reject_tokens clause literal (map fst operators).

Fixpoint parse_operator (clause : Bytes) (ops : list (string * ComparisonOperator))
    : result FilterCompileError (ComparisonOperator * Bytes * Bytes) :=
  match ops with
  | [] => Err (UnsupportedSql (NoOperator clause))
  | (token, op) :: ops =>
      found ← find_unquoted_token clause (as_bytes token);
      match found with
      | None => parse_operator clause ops
      | Some i =>
          let literal := drop (i + length (as_bytes token)) clause in
          _ ← reject_extra_operator clause literal;
          Ok (op, take i clause, literal)
      end
  end.
Definition ComparisonOperator_parse (clause : Bytes) := parse_operator clause operators.

Definition ordered (op : ComparisonOperator) : bool :=
  match op with Equal | NotEqual => false | _ => true end.
Definition accepts_literal (op : ComparisonOperator) (l : FilterValue) : bool :=
  negb (ordered op) || match l with FLString _ | FLNumber _ => true | _ => false end.

Definition compare_order (op : ComparisonOperator) (o : comparison) : bool :=
  match op, o with
  | Equal, Eq => true | Equal, _ => false
  | NotEqual, Eq => false | NotEqual, _ => true
  | GreaterThan, Gt => true | GreaterThan, _ => false
  | GreaterThanOrEqual, Lt => false | GreaterThanOrEqual, _ => true
  | LessThan, Lt => true | LessThan, _ => false
  | LessThanOrEqual, Gt => false | LessThanOrEqual, _ => true
  end.

Definition is_identifier (s : Bytes) : bool :=
  match s with
  | [] => false
  | c :: s => (bool_decide (c = "_"%char) || is_alpha c) && forallb is_identifier_char s
  end.

(** [input.split('.')]: at least one segment. *)
Fixpoint split_dots (l : Bytes) : list Bytes :=
  match l with
  | [] => [[]]
  | c :: l =>
      if bool_decide (c = "."%char) then [] :: split_dots l
      else match split_dots l with
           | s :: ss => (c :: s) :: ss
           | [] => [[c]]
           end
  end.

Definition FieldPath_parse (arrow : bool) (input : Bytes) : result FilterCompileError Bytes :=
  let segments := map trim (split_dots input) in
  if negb (forallb is_identifier segments) then Err (UnsupportedSql (BadFieldPath input))
  else match segments with
       | [s] => Ok s
       | _ => Err (if arrow then UnsupportedSql NestedField
                   else DataFusionUnavailable "nested field predicates require the gateway crate arrow feature")
       end.

Fixpoint undouble (l : Bytes) : Bytes :=
  match l with
  | [] => []
  | c :: rest =>
      match rest with
      | c2 :: rest2 => if bool_decide (c = quote) && bool_decide (c2 = quote) then quote :: undouble rest2
                       else c :: undouble rest
      | [] => [c]
      end
  end.

Definition parse_quoted_string (l : Bytes) : result FilterCompileError (option Bytes) :=
  if negb (bool_decide (head l = Some quote)) then Ok None
  else if negb (bool_decide (last l = Some quote)) || (length l <? 2)%nat
  then Err (UnsupportedSql (UnterminatedLiteral l))
  else Ok (Some (undouble (take (length l - 2) (drop 1 l)))).

Definition has_float_mark (l : Bytes) : bool :=
  existsb (fun b => bool_decide (b = "."%char) || bool_decide (b = "e"%char) || bool_decide (b = "E"%char)) l.

Definition NumericValue_parse (l : Bytes) : option NumericValue :=
  if negb (has_float_mark l) then
    match parse_i64 l with
    | Some z => Some (Integer z)
    | None => Integer <$> parse_u64 l
    end
  else f ← parse_f64 l; if is_finite f then Some (Float f) else None.

Definition FilterValue_parse (input : Bytes) : result FilterCompileError FilterValue :=
  let l := trim input in
  if eq_ignore_ascii_case l (as_bytes "true") then Ok (FLBool true)
  else if eq_ignore_ascii_case l (as_bytes "false") then Ok (FLBool false)
  else if eq_ignore_ascii_case l (as_bytes "null") then Ok FLNull
  else
    quoted ← parse_quoted_string l;
    match quoted with
    | Some s => Ok (FLString s)
    | None => match NumericValue_parse l with
              | Some n => Ok (FLNumber n)
              | None => Err (UnsupportedSql (BadLiteral l))
              end
    end.

Section Compile.
  Context (arrow : bool).

Definition parse_predicate (clause : Bytes) : result FilterCompileError Predicate :=
  if bool_decide (clause = []) then Err (UnsupportedSql EmptyPredicate)
  else
    '(op, f, literal) ← ComparisonOperator_parse clause;
    v ← FilterValue_parse (trim literal);
    if negb (accepts_literal op v) then Err (UnsupportedSql (UnorderedLiteral clause))
    else
      f ← FieldPath_parse arrow (trim f);
      Ok {| field := f; operator := op; expected := v |}.

Definition parse_legacy_predicates (sql : Bytes) : result FilterCompileError (list Predicate) :=
  clauses ← split_and_clauses sql; try_map (fun clause => parse_predicate (trim clause)) clauses.

Definition compile (input : Bytes) : result FilterCompileError CompiledFilter :=
  let sql := trim input in
  if bool_decide (sql = []) then Ok {| cf_sql := []; cf_predicates := [] |}
  else if sql_references_reserved_row_marker sql then Err (UnsupportedSql ReservedField)
  else if negb arrow && sql_requires_arrow_datafusion sql
  then Err (DataFusionUnavailable "complex SQL predicates require Arrow/DataFusion support")
  else
    match parse_legacy_predicates sql with
    | Ok ps => Ok {| cf_sql := sql; cf_predicates := ps |}
    | Err e => if arrow && sql_requires_arrow_datafusion sql then Ok {| cf_sql := sql; cf_predicates := [] |}
               else Err e
    end.
End Compile.

(** ** Evaluation *)

Definition as_f64 (n : NumericValue) : f64 := match n with Integer z => f64_of_Z z | Float f => f end.

(** [partial_cmp] of two finite floats is never [None]. *)
Definition NumericValue_compare (a b : NumericValue) : comparison :=
  match a, b with
  | Integer a, Integer b => a ?= b
  | a, b => default Eq (SFcompare (as_f64 a) (as_f64 b))
  end.

Definition FilterValue_matches (e : FilterValue) (op : ComparisonOperator) (a : FieldValue) : bool :=
  match e, a with
  | FLString e, FVString a => compare_order op (bytes_cmp a e)
  | FLNumber e, FVNumber a => compare_order op (NumericValue_compare a e)
  | FLNumber e, FVString a =>
      match NumericValue_parse a with
      | Some a => compare_order op (NumericValue_compare a e)
      | None => false
      end
  | FLBool e, FVBool a =>
      match op with
      | Equal => bool_decide (a = e)
      | NotEqual => negb (bool_decide (a = e))
      | _ => false
      end
  | FLNull, FVNull => bool_decide (op = Equal)
  | FLNull, _ => bool_decide (op = NotEqual)
  | _, _ => false
  end.

(** ** JSON rows *)

(** [serde_json::Number]: an unsigned, a negative, or a finite float. *)
Inductive JsonNumber := PosInt (z : Z) | NegInt (z : Z) | JFloat (f : f64).
Inductive Json :=
| JNull | JBool (b : bool) | JNumber (n : JsonNumber) | JString (s : Bytes)
| JArray (l : list Json) | JObject (fields : list (Bytes * Json)).

(** The JSON parser, and its message for a text it rejects. *)
Class JsonLib := { json_parse : Bytes -> option Json; json_error : Bytes -> string }.

Definition object_get (o : list (Bytes * Json)) (k : Bytes) : option Json :=
  snd <$> List.find (fun kv => bool_decide (kv.1 = k)) o.
Definition as_object (v : Json) : option (list (Bytes * Json)) := match v with JObject o => Some o | _ => None end.
Definition as_str (v : Json) : option Bytes := match v with JString s => Some s | _ => None end.

Definition number_as_i64 (n : JsonNumber) : option Z :=
  match n with PosInt z => if z <=? i64_max then Some z else None | NegInt z => Some z | JFloat _ => None end.
Definition number_as_u64 (n : JsonNumber) : option Z := match n with PosInt z => Some z | _ => None end.
Definition number_as_f64 (n : JsonNumber) : f64 :=
  match n with PosInt z | NegInt z => f64_of_Z z | JFloat f => f end.

Definition from_number (n : JsonNumber) : option NumericValue :=
  match number_as_i64 n with
  | Some z => Some (Integer z)
  | None => match number_as_u64 n with
            | Some z => Some (Integer z)
            | None => let f := number_as_f64 n in if is_finite f then Some (Float f) else None
            end
  end.

Definition from_scalar_json (v : Json) : option FieldValue :=
  match v with
  | JString s => Some (FVString s)
  | JNumber n => FVNumber <$> from_number n
  | JBool b => Some (FVBool b)
  | JNull => Some FVNull
  | JArray _ | JObject _ => None
  end.

Definition unknown_enum_name (v : Json) : option FieldValue :=
  match v with
  | JNumber n =>
      z ← number_as_i64 n;
      if z <? 0 then None else Some (FVString (as_bytes ("UNKNOWN_" +:+ pretty z)))
  | _ => None
  end.

Definition from_dictionary_like_json (v : Json) : option FieldValue :=
  o ← as_object v;
  let type := object_get o (as_bytes "$type") ≫= as_str in
  if bool_decide (type = Some (as_bytes "dictionary")) then object_get o (as_bytes "value") ≫= from_scalar_json
  else if bool_decide (type = Some (as_bytes "enum")) then
    match object_get o (as_bytes "name") with
    | Some name => from_scalar_json name
    | None => object_get o (as_bytes "number") ≫= unknown_enum_name
    end
  else None.

Definition FieldValue_from_json (v : Json) : option FieldValue :=
  match from_scalar_json v with
  | Some s => Some s
  | None => from_dictionary_like_json v
  end.

(** [RowValue::from_json_for_predicates]: the fields the predicates name. *)
Fixpoint row_fields (o : list (Bytes * Json)) (ps : list Predicate) (fields : gmap Bytes FieldValue)
    : option (gmap Bytes FieldValue) :=
  match ps with
  | [] => Some fields
  | p :: ps =>
      match object_get o (field p) with
      | None => row_fields o ps fields
      | Some v => fv ← FieldValue_from_json v; row_fields o ps (<[field p := fv]> fields)
      end
  end.
Definition row_from_json (v : Json) (ps : list Predicate) : option (gmap Bytes FieldValue) :=
  o ← as_object v; row_fields o ps ∅.

Definition Predicate_matches (row : gmap Bytes FieldValue) (p : Predicate) : bool :=
  match row !! field p with
  | Some a => FilterValue_matches (expected p) (operator p) a
  | None => false
  end.

Definition is_unfiltered (f : CompiledFilter) : bool := bool_decide (cf_sql f = []).

(** [matches_row] of a batch given by its rows. *)
Definition matches_row (f : CompiledFilter) (rows : list (gmap Bytes FieldValue)) (row : nat) : bool :=
  if is_unfiltered f then (row <? length rows)%nat
  else
    match cf_predicates f, rows !! row with
    | [], _ | _, None => false
    | ps, Some r => forallb (Predicate_matches r) ps
    end.

Definition matches_structured_json `{JsonLib} (f : CompiledFilter) (json : option Bytes) : bool :=
  if is_unfiltered f then true
  else
    match cf_predicates f with
    | [] => false
    | _ =>
        match (json ← json; v ← json_parse json; row_from_json v (cf_predicates f)) with
        | Some row => matches_row f [row] 0
        | None => false
        end
    end.

Inductive DecodedRecordFilterDecision :=
| Deliver | Drop | ArrowIpcBatch (row_count matching_rows : nat).

Definition should_deliver (d : DecodedRecordFilterDecision) : bool :=
  match d with Deliver => true | Drop => false | ArrowIpcBatch _ m => (0 <? m)%nat end.

Definition evaluate_json_decoded_record `{JsonLib} (f : CompiledFilter) (json : option Bytes) : DecodedRecordFilterDecision :=
  if is_unfiltered f then Deliver else if matches_structured_json f json then Deliver else Drop.

(** ** What a filter means *)

(** The meaning of a predicate on an object: its field is there, is a scalar or
    stands for one, and compares as asked. *)
Definition holds (o : list (Bytes * Json)) (p : Predicate) : Prop :=
  exists v a, object_get o (field p) = Some v /\ FieldValue_from_json v = Some a /\
    FilterValue_matches (expected p) (operator p) a = true.

(** A row whose entries are the object's fields, and the row extended by the
    fields of [ps]. *)
Definition row_of (o : list (Bytes * Json)) (m : gmap Bytes FieldValue) : Prop :=
  forall k a, m !! k = Some a -> object_get o k ≫= FieldValue_from_json = Some a.

Lemma row_fields_spec o ps m :
  row_of o m ->
  match row_fields o ps m with
  | Some r => row_of o r /\ (forall k a, m !! k = Some a -> r !! k = Some a) /\
      Forall (fun p => r !! field p = object_get o (field p) ≫= FieldValue_from_json) ps
  | None => exists p v, p ∈ ps /\ object_get o (field p) = Some v /\ FieldValue_from_json v = None
  end.
Proof.
  revert m. induction ps as [|p ps IH]; intros m Hm; simpl; [done|].
  destruct (object_get o (field p)) as [v|] eqn:Hv; [destruct (FieldValue_from_json v) as [a|] eqn:Ha; simpl|].
  - assert (row_of o (<[field p := a]> m)) as Hm'.
    { intros k b [[<- <-]|[_ ?]]%lookup_insert_Some; [by rewrite Hv|by apply Hm]. }
    specialize (IH _ Hm'). destruct (row_fields _ _ _) as [r|].
    + destruct IH as (Hr & Hsub & Hps). split_and!; [done| |].
      * intros k b Hk. apply Hsub, lookup_insert_Some. destruct (decide (field p = k)) as [<-|]; [|auto].
        apply Hm in Hk. rewrite Hv in Hk. simpl in Hk. left. split; congruence.
      * constructor; [|done]. rewrite Hv. simpl. rewrite Ha. apply Hsub. by rewrite lookup_insert_eq.
    + destruct IH as (q & w & Hq & ?). exists q, w. split; [by right|done].
  - exists p, v. split; [by left|done].
  - specialize (IH _ Hm). destruct (row_fields _ _ _) as [r|].
    + destruct IH as (Hr & Hsub & Hps). split_and!; [done..|]. constructor; [|done]. rewrite Hv. simpl.
      destruct (r !! field p) as [a|] eqn:E; [|done]. apply Hr in E. by rewrite Hv in E.
    + destruct IH as (q & w & Hq & ?). exists q, w. split; [by right|done].
Qed.

Lemma matches_meaning `{JsonLib} f json :
  matches_structured_json f (Some json) = true <->
  cf_sql f = [] \/
  cf_predicates f <> [] /\ exists o, json_parse json = Some (JObject o) /\ Forall (holds o) (cf_predicates f).
Proof.
  unfold matches_structured_json, is_unfiltered. case_bool_decide as Hs; [tauto|].
  assert (Hun : is_unfiltered f = false) by (unfold is_unfiltered; by rewrite bool_decide_eq_false_2).
  destruct (cf_predicates f) as [|p0 ps0] eqn:Hps; [naive_solver|].
  remember (p0 :: ps0) as ps eqn:Eps. assert (ps <> []) by (by subst). simpl.
  destruct (json_parse json) as [v|]; simpl; [|naive_solver].
  destruct (as_object v) as [o|] eqn:Ho; [|destruct v; naive_solver]. destruct v; try done. injection Ho as ->.
  unfold row_from_json. simpl.
  pose proof (row_fields_spec o ps ∅ ltac:(intros ??; by rewrite lookup_empty)) as Hr.
  destruct (row_fields o ps ∅) as [r|].
  - destruct Hr as (_ & _ & Hr). unfold matches_row. rewrite Hun, Hps, Eps, <- Eps. cbn [lookup list_lookup].
    rewrite List.forallb_forall. split.
    + intros Hall. right. split; [done|]. exists o. split; [done|].
      rewrite Forall_forall in Hr |- *. intros p Hp. specialize (Hr p Hp).
      apply list_elem_of_In, Hall in Hp. unfold Predicate_matches in Hp. rewrite Hr in Hp.
      destruct (object_get o (field p)) as [v|] eqn:Hv; [|done]. simpl in Hp.
      destruct (FieldValue_from_json v) as [a|] eqn:Ha; [|done]. by exists v, a.
    + intros [?|(_ & o' & [= <-] & Hall)]; [done|]. intros p Hp%list_elem_of_In.
      rewrite Forall_forall in Hr, Hall. destruct (Hall p Hp) as (v & a & Hv & Ha & Hm).
      unfold Predicate_matches. rewrite (Hr p Hp), Hv. simpl. by rewrite Ha.
  - split; [done|]. intros [?|(_ & o' & [= <-] & Hall)]; [done|]. rewrite Forall_forall in Hall.
    destruct Hr as (p & v & Hp & Hv & Hn). destruct (Hall p Hp) as (v' & a & Hv' & Ha & _). congruence.
Qed.

(** A filter delivers exactly the records its predicates hold of: without a
    filter every record; else a record whose payload is a JSON object all of
    whose named fields are present, scalar and compare as asked. *)
Theorem filter_meaning `{JsonLib} f json :
  matches_structured_json f (Some json) = true <->
  cf_sql f = [] \/
  cf_predicates f <> [] /\ exists o, json_parse json = Some (JObject o) /\ Forall (holds o) (cf_predicates f).
Proof. apply matches_meaning. Qed.
