(* ===== verification/FilterText.v ===== *)
(** * Filters as text

    A printer for the conjunctive filters of [Filter], and that the parser reads
    back what it prints. *)

From S2P Require Import Prelude.
From S2P Require Import RustStr.
From S2P Require Import RustNum.
From S2P Require Import Filter.

(** ** Printing *)

Fixpoint print_nat (fuel : nat) (n : Z) (acc : Bytes) : Bytes :=
  match fuel with
  | O => acc
  | S fuel =>
      let acc := of_u8 (48 + n mod 10) :: acc in
      if n <? 10 then acc else print_nat fuel (n / 10) acc
  end.
(** Twenty digits hold every 64-bit integer. *)
Definition print_int (z : Z) : Bytes :=
  if z <? 0 then "-"%char :: print_nat 20 (- z) [] else print_nat 20 z [].

Fixpoint double_quotes (s : Bytes) : Bytes :=
  match s with
  | [] => []
  | c :: s => if bool_decide (c = quote) then quote :: quote :: double_quotes s else c :: double_quotes s
  end.

Definition print_value (v : FilterValue) : Bytes :=
  match v with
  | FLString s => quote :: double_quotes s ++ [quote]
  | FLNumber (Integer z) => print_int z
  | FLNumber (Float _) => []
  | FLBool true => as_bytes "true"
  | FLBool false => as_bytes "false"
  | FLNull => as_bytes "null"
  end.

Definition print_op (op : ComparisonOperator) : Bytes :=
  as_bytes match op with
           | Equal => "=" | NotEqual => "!=" | GreaterThan => ">" | GreaterThanOrEqual => ">="
           | LessThan => "<" | LessThanOrEqual => "<="
           end.

Definition sp : ascii := " "%char.
Definition print_predicate (p : Predicate) : Bytes :=
  field p ++ sp :: print_op (operator p) ++ sp :: print_value (expected p).

Fixpoint print_filter (ps : list Predicate) : Bytes :=
  match ps with
  | [] => []
  | [p] => print_predicate p
  | p :: ps => print_predicate p ++ as_bytes " AND " ++ print_filter ps
  end.

(** What the grammar can express: a field that is an identifier other than the
    keyword, a literal that is not a float, and one an ordered operator takes. *)
Definition expressible (p : Predicate) : Prop :=
  is_identifier (field p) = true /\ eq_ignore_ascii_case (field p) (as_bytes "AND") = false /\
  accepts_literal (operator p) (expected p) = true /\
  match expected p with
  | FLNumber (Integer z) => i64_min <= z <= u64_max
  | FLNumber (Float _) => False
  | _ => True
  end.

(** ** Bytes that are neither white space nor quotes *)

(** A visible ASCII byte. *)
Definition visible (b : ascii) : bool := between 33 126 b.

Lemma visible_not_ws1 a : visible a = true -> ws1 (u8 a) = false.
Proof. unfold visible, between, ws1. lia. Qed.
Lemma visible_not_ws2 a b : visible a = true \/ visible b = true -> ws2 (u8 a) (u8 b) = false.
Proof. unfold visible, between, ws2. lia. Qed.
Lemma visible_not_ws3 a b c : visible a = true \/ visible c = true -> ws3 (u8 a) (u8 b) (u8 c) = false.
Proof. unfold visible, between, ws3. lia. Qed.

Lemma trim_start_visible a l : visible a = true -> trim_start (a :: l) = a :: l.
Proof.
  intros Ha. cbn [trim_start]. rewrite visible_not_ws1 by done. destruct l as [|b l]; [done|].
  rewrite visible_not_ws2 by auto. destruct l as [|c l]; [done|]. by rewrite visible_not_ws3 by auto.
Qed.
Lemma trim_rev_visible c l : visible c = true -> trim_rev (c :: l) = c :: l.
Proof.
  intros Ha. cbn [trim_rev]. rewrite visible_not_ws1 by done. destruct l as [|b l]; [done|].
  rewrite visible_not_ws2 by auto. destruct l as [|a l]; [done|]. by rewrite visible_not_ws3 by auto.
Qed.

(** A text that starts and ends with a visible byte. *)
Definition solid (l : Bytes) : Prop :=
  (exists a l', l = a :: l' /\ visible a = true) /\ (exists l' b, l = l' ++ [b] /\ visible b = true).

(** Trimming spaces around a solid text leaves it. *)
Lemma trim_solid (n m : nat) l : solid l -> trim (replicate n sp ++ l ++ replicate m sp) = l.
Proof.
  intros [(a & l1 & -> & Ha) (l2 & b & Hb & Hvb)]. unfold trim, trim_end.
  assert (trim_start (replicate n sp ++ (a :: l1) ++ replicate m sp) = (a :: l1) ++ replicate m sp) as ->.
  { induction n as [|n IH]; [by apply trim_start_visible|exact IH]. }
  rewrite Hb, reverse_app, reverse_replicate, reverse_snoc.
  assert (trim_rev (replicate m sp ++ b :: reverse l2) = b :: reverse l2) as ->.
  { induction m as [|m IH]; [by apply trim_rev_visible|exact IH]. }
  by rewrite reverse_cons, reverse_involutive.
Qed.

Lemma trim_solid_id l : solid l -> trim l = l.
Proof. intros Hl. rewrite <- (trim_solid 0 0 l Hl) at 2. simpl. by rewrite app_nil_r. Qed.

(** ** Scanning of concatenations *)

Lemma unquoted_plain l1 l2 i :
  quote ∉ l1 ->
  unquoted (l1 ++ l2) i false
  = (seq i (length l1) ++ (unquoted l2 (i + length l1) false).1, (unquoted l2 (i + length l1) false).2).
Proof.
  revert i. induction l1 as [|c l1 IH]; intros i Hq; simpl.
  - rewrite Nat.add_0_r. by destruct (unquoted l2 i false).
  - apply not_elem_of_cons in Hq as [Hc Hq]. rewrite bool_decide_eq_false_2 by done.
    rewrite IH by done. simpl. by rewrite Nat.add_succ_r.
Qed.

Lemma unquoted_doubled s l2 i :
  head l2 <> Some quote ->
  unquoted (double_quotes s ++ quote :: l2) i true = unquoted l2 (i + length (double_quotes s) + 1) false.
Proof.
  intros Hl2. revert i. induction s as [|c s IH]; intros i; cbn [double_quotes app].
  - cbn [unquoted length]. rewrite bool_decide_eq_true_2 by done. replace (i + 0 + 1)%nat with (S i) by lia.
    destruct l2 as [|c l2]; [done|]. rewrite (bool_decide_eq_false_2 (c = quote)) by naive_solver. done.
  - case_bool_decide as Hc; cbn [app unquoted length].
    + rewrite !bool_decide_eq_true_2 by done. cbn [andb]. rewrite IH. f_equal; lia.
    + rewrite bool_decide_eq_false_2 by done. rewrite IH. f_equal; lia.
Qed.

(** ** The bytes of fields and literals *)

(** Bytes of identifiers and numbers. *)
Definition wordy (b : ascii) : bool := is_identifier_char b || bool_decide (b = "-"%char).

(** Checks a property of all bytes by trying each. *)
Lemma all_bytes (P : ascii -> bool) : forallb (fun n => P (ascii_of_nat n)) (seq 0 256) = true -> forall b, P b = true.
Proof.
  intros Hall b. rewrite <- (ascii_nat_embedding b). rewrite List.forallb_forall in Hall. apply Hall, List.in_seq.
  pose proof (nat_ascii_bounded b). lia.
Qed.

Lemma wordy_plain b :
  wordy b = true ->
  visible b = true /\ b <> quote /\ b <> sp /\ b <> "."%char /\ (forall t op, (t, op) ∈ operators -> head (as_bytes t) <> Some b).
Proof.
  intros Hb.
  assert (forall b, implb (wordy b) (visible b && negb (bool_decide (b ∈ [quote; sp; "."; "!"; ">"; "<"; "="]%char))) = true) as Hall.
  { apply all_bytes. vm_compute. reflexivity. }
  specialize (Hall b). rewrite Hb in Hall. simpl in Hall. apply andb_prop in Hall as [Hv Hn].
  apply negb_true_iff, bool_decide_eq_false in Hn. split_and!; [done|set_solver..|].
  intros t op Ht [= Heq]. apply Hn. unfold operators in Ht. clear -Ht Heq. set_unfold in Ht.
  destruct_or! Ht; injection Ht as -> _; simpl in Heq; injection Heq as <-; set_solver.
Qed.

Lemma wordy_digit b : is_digit b = true -> wordy b = true.
Proof. unfold wordy, is_identifier_char, is_alnum. intros ->. by rewrite orb_true_r. Qed.

Lemma identifier_wordy s : is_identifier s = true -> s <> [] /\ Forall (fun b => is_identifier_char b = true) s.
Proof.
  destruct s as [|c s]; [done|]. simpl. intros [Hc Hs]%andb_prop. split; [done|]. constructor.
  - unfold is_identifier_char, is_alnum. destruct (bool_decide _); [done|]. simpl in *. rewrite Hc. by rewrite orb_true_r.
  - apply Forall_forall. intros b Hb%list_elem_of_In. rewrite List.forallb_forall in Hs. auto.
Qed.

Lemma print_nat_digits fuel n acc :
  0 <= n -> Forall (fun b => is_digit b = true) acc -> Forall (fun b => is_digit b = true) (print_nat fuel n acc).
Proof.
  revert n acc. induction fuel as [|fuel IH]; intros n acc Hn Hacc; simpl; [done|].
  assert (is_digit (of_u8 (48 + n mod 10)) = true).
  { unfold is_digit, between. rewrite u8_of_u8. pose proof (Z.mod_pos_bound n 10). rewrite Z.mod_small; lia. }
  destruct (n <? 10); [by constructor|]. apply IH; [apply Z.div_pos; lia|by constructor].
Qed.

Lemma print_nat_cons fuel n acc : (0 < fuel)%nat -> exists b l, print_nat fuel n acc = b :: l.
Proof.
  revert n acc. induction fuel as [|fuel IH]; intros n acc Hf; [lia|]. simpl. destruct (n <? 10); [by eexists _, _|].
  destruct fuel; [by eexists _, _|]. apply IH. lia.
Qed.

Lemma digits_val_app a b : digits_val (a ++ b) = digits_val a * 10 ^ Z.of_nat (length b) + digits_val b.
Proof.
  unfold digits_val. rewrite foldl_app. generalize (foldl (fun n b => 10 * n + digit_val b) 0 a) as z.
  induction b as [|x b IH] using rev_ind; intros z; [simpl; lia|].
  rewrite !foldl_app, length_app. simpl. rewrite IH, Nat2Z.inj_add, Z.pow_add_r by lia. lia.
Qed.

Lemma print_nat_val fuel n acc :
  0 <= n < 10 ^ Z.of_nat fuel ->
  digits_val (print_nat fuel n acc) = n * 10 ^ Z.of_nat (length acc) + digits_val acc.
Proof.
  revert n acc. induction fuel as [|fuel IH]; intros n acc Hn; [simpl in *; assert (n = 0) as -> by lia; lia|].
  cbn [print_nat].
  assert (Hd : digits_val (of_u8 (48 + n mod 10) :: acc) = (n mod 10) * 10 ^ Z.of_nat (length acc) + digits_val acc).
  { change (of_u8 (48 + n mod 10) :: acc) with ([of_u8 (48 + n mod 10)] ++ acc). rewrite digits_val_app. f_equal. f_equal.
    unfold digits_val, digit_val. simpl. rewrite u8_of_u8. pose proof (Z.mod_pos_bound n 10). rewrite Z.mod_small; lia. }
  rewrite Nat2Z.inj_succ, Z.pow_succ_r in Hn by lia.
  destruct (Z.ltb_spec n 10).
  - rewrite Hd, Z.mod_small by lia. done.
  - rewrite IH; [|split; [apply Z.div_pos; lia|apply Z.div_lt_upper_bound; lia]].
    rewrite Hd. cbn [length]. rewrite Nat2Z.inj_succ, Z.pow_succ_r by lia. pose proof (Z.div_mod n 10 ltac:(lia)). nia.
Qed.

(** ** Literals *)

Lemma parse_digits_print n : 0 <= n <= u64_max -> parse_digits (print_nat 20 n []) = Some n.
Proof.
  intros Hn. destruct (print_nat_cons 20 n []) as (b & l & Hl); [lia|].
  assert (forallb is_digit (print_nat 20 n []) = true) as Hd.
  { apply List.forallb_forall. intros x Hx%list_elem_of_In.
    pose proof (print_nat_digits 20 n [] ltac:(lia) ltac:(by constructor)) as Hf. rewrite Forall_forall in Hf. auto. }
  assert (digits_val (print_nat 20 n []) = n) as Hv.
  { rewrite print_nat_val; [change (n * 1 + 0 = n); lia|]. unfold u64_max in Hn. change (10 ^ Z.of_nat 20) with 100000000000000000000. lia. }
  unfold parse_digits. rewrite Hl in *. by rewrite Hd, Hv.
Qed.

Lemma sign_split_digit b l : is_digit b = true -> sign_split (b :: l) = (false, b :: l).
Proof. intros Hb. simpl. rewrite !bool_decide_eq_false_2; [done|by intros ->..]. Qed.

Lemma sign_split_print n : 0 <= n -> sign_split (print_nat 20 n []) = (false, print_nat 20 n []).
Proof.
  intros Hn. destruct (print_nat_cons 20 n []) as (b & l & Hl); [lia|].
  pose proof (print_nat_digits 20 n [] Hn ltac:(by constructor)) as Hd. rewrite Hl in *.
  apply Forall_cons in Hd as [Hb _]. by apply sign_split_digit.
Qed.

Lemma print_int_wordy z : Forall (fun b => wordy b = true) (print_int z).
Proof.
  unfold print_int. destruct (Z.ltb_spec z 0); [constructor; [done|]|];
    (eapply Forall_impl; [apply print_nat_digits; [lia|by constructor]|apply wordy_digit]).
Qed.

Lemma print_int_no_float z : has_float_mark (print_int z) = false.
Proof.
  assert (Forall (fun b => (is_digit b || bool_decide (b = "-"%char)) = true) (print_int z)) as Hall.
  { unfold print_int. destruct (Z.ltb_spec z 0); [constructor; [done|]|];
      (eapply Forall_impl; [apply print_nat_digits; [lia|by constructor]|]; simpl; by intros x ->). }
  unfold has_float_mark. induction Hall as [|b l Hb _ IH]; [done|]. simpl. rewrite IH, orb_false_r.
  assert (forall b, implb (is_digit b || bool_decide (b = "-"%char))
    (negb (bool_decide (b = "."%char) || bool_decide (b = "e"%char) || bool_decide (b = "E"%char))) = true) as Hc
    by (apply all_bytes; vm_compute; reflexivity).
  specialize (Hc b). rewrite Hb in Hc. simpl in Hc. by apply negb_true_iff.
Qed.

Lemma parse_print_int z : i64_min <= z <= u64_max -> NumericValue_parse (print_int z) = Some (Integer z).
Proof.
  intros Hz. unfold NumericValue_parse. rewrite print_int_no_float. simpl. unfold parse_i64, parse_u64, print_int.
  destruct (Z.ltb_spec z 0) as [Hneg|Hpos].
  - assert (parse_digits (print_nat 20 (- z) []) = Some (- z)) as Hd
      by (apply parse_digits_print; unfold i64_min, u64_max in *; lia).
    cbn [sign_split]. rewrite bool_decide_eq_true_2 by done. rewrite Hd. simpl. rewrite Z.opp_involutive.
    unfold try_i64. by rewrite (proj2 (try_range_Some i64_min i64_max z z)) by (unfold i64_max; lia).
  - rewrite sign_split_print, parse_digits_print by lia. simpl. unfold try_i64, try_u64.
    destruct (try_range i64_min i64_max z) as [z'|] eqn:E; [by apply try_range_Some in E as [-> _]|].
    by rewrite (proj2 (try_range_Some 0 u64_max z z)) by lia.
Qed.

Lemma undouble_other c l : c <> quote -> undouble (c :: l) = c :: undouble l.
Proof. intros Hc. destruct l as [|c2 l]; [done|]. cbn [undouble]. by rewrite (bool_decide_eq_false_2 (c = quote)). Qed.
Lemma undouble_quotes l : undouble (quote :: quote :: l) = quote :: undouble l.
Proof. cbn [undouble]. by rewrite bool_decide_eq_true_2. Qed.

Lemma undouble_double s : undouble (double_quotes s) = s.
Proof.
  induction s as [|c s IH]; [done|]. simpl. case_bool_decide as Hc.
  - by rewrite undouble_quotes, IH, Hc.
  - by rewrite undouble_other, IH.
Qed.

Definition plain_literal (v : FilterValue) : Prop :=
  match v with
  | FLNumber (Integer z) => i64_min <= z <= u64_max
  | FLNumber (Float _) => False
  | _ => True
  end.
Definition is_string (v : FilterValue) : bool := match v with FLString _ => true | _ => false end.

Lemma print_value_wordy v :
  plain_literal v -> is_string v = false -> Forall (fun b => wordy b = true) (print_value v).
Proof.
  destruct v as [s|[z|f]|[]|]; intros Hv Hs; try done; [apply print_int_wordy|..];
    (apply Forall_forall; intros b Hb; vm_compute in Hb; set_unfold in Hb; destruct_or! Hb; subst; done).
Qed.

Lemma wordy_solid l : l <> [] -> Forall (fun b => wordy b = true) l -> solid l.
Proof.
  intros Hne Hl. split.
  - destruct l as [|a l]; [done|]. exists a, l. split; [done|]. apply Forall_cons in Hl as [Ha _]. by apply wordy_plain.
  - destruct l as [|b l _] using rev_ind; [done|]. exists l, b. split; [done|].
    apply Forall_app in Hl as [_ [Hb _]%Forall_cons]. by apply wordy_plain.
Qed.

Lemma print_value_nonempty v : plain_literal v -> print_value v <> [].
Proof.
  destruct v as [s|[z|f]|[]|]; try done. intros _. simpl. unfold print_int. case_match; [done|].
  destruct (print_nat_cons 20 z []) as (b & l & ->); [lia|done].
Qed.

Lemma print_value_solid v : plain_literal v -> solid (print_value v).
Proof.
  intros Hv. destruct (is_string v) eqn:Hs; [|by apply wordy_solid; [apply print_value_nonempty|apply print_value_wordy]].
  destruct v as [s| | |]; try done. split.
  - by eexists _, _.
  - exists (quote :: double_quotes s), quote. split; done.
Qed.

(** A literal that starts as no keyword does. *)
Lemma not_keyword c l w :
  (is_digit c || bool_decide (c = "-"%char) || bool_decide (c = quote)) = true ->
  w ∈ ["true"; "false"; "null"] -> eq_ignore_ascii_case (c :: l) (as_bytes w) = false.
Proof.
  intros Hc Hw. unfold eq_ignore_ascii_case. apply bool_decide_eq_false_2.
  assert (forall c, implb (is_digit c || bool_decide (c = "-"%char) || bool_decide (c = quote))
    (negb (bool_decide (to_lower c ∈ ["t"; "f"; "n"]%char))) = true) as Hall by (apply all_bytes; vm_compute; reflexivity).
  specialize (Hall c). rewrite Hc in Hall. simpl in Hall. apply negb_true_iff, bool_decide_eq_false in Hall.
  set_unfold in Hw. destruct_or! Hw; subst w; simpl; intros [= Heq _]; apply Hall; rewrite Heq; vm_compute; set_solver.
Qed.

Lemma print_int_head z :
  exists c l, print_int z = c :: l /\ (is_digit c || bool_decide (c = "-"%char) || bool_decide (c = quote)) = true.
Proof.
  unfold print_int. destruct (Z.ltb_spec z 0); [by eexists _, _|].
  destruct (print_nat_cons 20 z []) as (b & l & Hl); [lia|]. exists b, l. split; [done|].
  pose proof (print_nat_digits 20 z [] ltac:(lia) ltac:(by constructor)) as Hd. rewrite Hl in Hd.
  apply Forall_cons in Hd as [-> _]. done.
Qed.

Lemma parse_quoted_other c l : c <> quote -> parse_quoted_string (c :: l) = Ok None.
Proof. intros Hc. unfold parse_quoted_string. simpl. by rewrite bool_decide_eq_false_2 by naive_solver. Qed.

Lemma parse_quoted_print s : parse_quoted_string (quote :: double_quotes s ++ [quote]) = Ok (Some s).
Proof.
  unfold parse_quoted_string. rewrite (bool_decide_eq_true_2 (head _ = Some quote)) by done.
  rewrite (bool_decide_eq_true_2 (last _ = Some quote)) by (by rewrite app_comm_cons, last_snoc).
  cbn [length drop]. rewrite drop_0, length_app, Nat.add_1_r. simpl.
  by rewrite Nat.sub_0_r, take_app_length, undouble_double.
Qed.

Lemma FilterValue_parse_print v : plain_literal v -> FilterValue_parse (print_value v) = Ok v.
Proof.
  intros Hv. unfold FilterValue_parse. rewrite trim_solid_id by (by apply print_value_solid).
  destruct v as [s|[z|f]|[]|]; try done; cbn [print_value].
  - rewrite !not_keyword by (first [done | set_solver]). by rewrite parse_quoted_print.
  - destruct (print_int_head z) as (c & l & Hl & Hc). rewrite Hl, !not_keyword by (first [done | set_solver]).
    rewrite parse_quoted_other.
    + simpl. rewrite <- Hl, parse_print_int by done. done.
    + intros ->. pose proof (print_int_wordy z) as Hw. rewrite Hl in Hw. by apply Forall_cons in Hw as [Hw _].
Qed.

(** ** One predicate *)

Fixpoint prefixb (t l : Bytes) : bool :=
  match t, l with
  | [], _ => true
  | x :: t, y :: l => bool_decide (x = y) && prefixb t l
  | _ :: _, [] => false
  end.

Lemma prefixb_take t l : bool_decide (take (length t) l = t) = prefixb t l.
Proof.
  revert l. induction t as [|x t IH]; intros [|y l]; simpl; [done..|]. rewrite <- IH.
  destruct (decide (x = y)) as [->|Hne].
  - rewrite (bool_decide_eq_true_2 (y = y)) by done. simpl. apply bool_decide_ext. split; congruence.
  - rewrite (bool_decide_eq_false_2 (x = y)) by done. simpl. apply bool_decide_eq_false_2. congruence.
Qed.

Lemma starts_at_app l1 l2 i t : starts_at (l1 ++ l2) (length l1 + i) t = prefixb t (drop i l2).
Proof. unfold starts_at. by rewrite drop_app_add, prefixb_take. Qed.

(** No token starts at a byte that is not its first. *)
Lemma starts_at_other l i t c : l !! i = Some c -> t <> [] -> head t <> Some c -> starts_at l i t = false.
Proof.
  intros Hc Ht Hh. unfold starts_at. rewrite prefixb_take. rewrite (drop_S _ _ _ Hc).
  destruct t as [|x t]; [done|]. simpl. by rewrite bool_decide_eq_false_2 by (simpl in Hh; congruence).
Qed.

Lemma find_app {A} (f : A -> bool) l1 l2 :
  find f (l1 ++ l2) = match find f l1 with Some x => Some x | None => find f l2 end.
Proof. induction l1 as [|x l1 IH]; simpl; [done|]. by destruct (f x). Qed.
Lemma find_none_all {A} (f : A -> bool) l : (forall x, x ∈ l -> f x = false) -> find f l = None.
Proof. induction l as [|x l IH]; intros Hl; simpl; [done|]. rewrite Hl by left. apply IH. intros. apply Hl. by right. Qed.
Lemma find_ext {A} (f g : A -> bool) l : (forall x, f x = g x) -> find f l = find g l.
Proof. intros Hfg. induction l as [|x l IH]; simpl; [done|]. by rewrite Hfg, IH. Qed.
Lemma find_shift (f : nat -> bool) n k : find f (seq n k) = Nat.add n <$> find (fun j => f (n + j)%nat) (seq 0 k).
Proof.
  replace (seq n k) with (Nat.add n <$> seq 0 k) by (by rewrite fmap_add_seq, Nat.add_0_r). generalize (seq 0 k) as l. induction l as [|x l IH]; simpl; [done|]. by destruct (f (n + x)%nat).
Qed.

Section OnePredicate.
  Context (p : Predicate) (Hp : expressible p).

Definition middle (op : ComparisonOperator) : Bytes := sp :: print_op op ++ [sp].

Lemma print_predicate_split : print_predicate p = field p ++ middle (operator p) ++ print_value (expected p).
Proof. unfold print_predicate, middle. by rewrite <- app_comm_cons, <- app_assoc. Qed.

Lemma literal_ok : plain_literal (expected p).
Proof. destruct Hp as (_ & _ & _ & H). exact H. Qed.

Lemma field_chars : Forall (fun b => wordy b = true) (field p).
Proof.
  destruct Hp as (Hi & _). apply identifier_wordy in Hi as [_ Hi]. eapply Forall_impl; [exact Hi|].
  intros b Hb. unfold wordy. by rewrite Hb.
Qed.

Lemma field_nonempty : field p <> [].
Proof. destruct Hp as (Hi & _). apply identifier_wordy in Hi as [Hne _]. exact Hne. Qed.

Lemma wordy_no_quote l : Forall (fun b => wordy b = true) l -> quote ∉ l.
Proof. rewrite Forall_forall. intros Hl Hq%Hl. done. Qed.

(** The positions of a literal seen by a scan. *)
Definition literal_positions (i : nat) : list nat :=
  if is_string (expected p) then [] else seq i (length (print_value (expected p))).

Lemma unquoted_value l2 i :
  head l2 <> Some quote ->
  unquoted (print_value (expected p) ++ l2) i false
  = (literal_positions i ++ (unquoted l2 (i + length (print_value (expected p))) false).1,
     (unquoted l2 (i + length (print_value (expected p))) false).2).
Proof.
  intros Hl2. unfold literal_positions. destruct (is_string (expected p)) eqn:Hs.
  - destruct (expected p) as [s| | |]; try done. cbn [print_value]. rewrite <- app_comm_cons, <- app_assoc.
    assert (Hopen : forall l j, unquoted (quote :: l) j false = unquoted l (S j) true).
    { intros l j. cbn [unquoted]. rewrite bool_decide_eq_true_2 by done. by destruct l. }
    rewrite Hopen. cbn [app]. rewrite unquoted_doubled by done. cbn [length]. rewrite length_app. simpl.
    replace (S (i + length (double_quotes s) + 1)) with (i + S (length (double_quotes s) + 1))%nat by lia.
    by destruct (unquoted _ _ _).
  - apply unquoted_plain, wordy_no_quote, print_value_wordy; [apply literal_ok|done].
Qed.

Lemma middle_no_quote op : quote ∉ middle op.
Proof. destruct op; vm_compute; set_solver. Qed.

(** A scan of the predicate followed by more text. *)
Lemma unquoted_predicate l2 i :
  head l2 <> Some quote ->
  unquoted (print_predicate p ++ l2) i false
  = (seq i (length (field p)) ++ seq (i + length (field p)) (length (middle (operator p)))
       ++ literal_positions (i + length (field p) + length (middle (operator p)))
       ++ (unquoted l2 (i + length (print_predicate p)) false).1,
     (unquoted l2 (i + length (print_predicate p)) false).2).
Proof.
  intros Hl2. rewrite print_predicate_split, <- !app_assoc.
  rewrite unquoted_plain by (apply wordy_no_quote, field_chars).
  rewrite unquoted_plain by (apply middle_no_quote).
  rewrite unquoted_value by done. rewrite !length_app.
  by replace (i + (length (field p) + (length (middle (operator p)) + length (print_value (expected p)))))%nat
    with (i + length (field p) + length (middle (operator p)) + length (print_value (expected p)))%nat by lia.
Qed.

Lemma visited_predicate :
  unquoted (print_predicate p) 0 false
  = (seq 0 (length (field p)) ++ seq (length (field p)) (length (middle (operator p)))
       ++ literal_positions (length (field p) + length (middle (operator p))), false).
Proof.
  pose proof (unquoted_predicate [] 0 ltac:(done)) as Hu. rewrite app_nil_r in Hu. rewrite Hu. simpl.
  by rewrite app_nil_r.
Qed.

(** The byte at a visited position of the literal is a word's. *)
Lemma literal_byte l1 l2 i :
  i ∈ literal_positions (length l1) ->
  exists c, (l1 ++ print_value (expected p) ++ l2) !! i = Some c /\ wordy c = true.
Proof.
  unfold literal_positions. destruct (is_string (expected p)) eqn:Hs; [by intros ?%elem_of_nil|].
  intros Hi%elem_of_seq. destruct (lookup_lt_is_Some_2 (print_value (expected p)) (i - length l1)) as [c Hc]; [lia|].
  exists c. rewrite lookup_app_r, lookup_app_l by (first [lia | by eapply lookup_lt_Some]). split; [done|].
  pose proof (print_value_wordy _ literal_ok Hs) as Hw. rewrite Forall_forall in Hw. apply Hw. by eapply list_elem_of_lookup_2.
Qed.

Lemma wordy_starts_at l i c t op :
  (t, op) ∈ operators -> l !! i = Some c -> wordy c = true -> starts_at l i (as_bytes t) = false.
Proof.
  intros Ht Hc Hw. eapply starts_at_other; [done| |].
  - unfold operators in Ht. set_unfold in Ht. destruct_or! Ht; injection Ht as -> _; done.
  - apply wordy_plain in Hw as (_ & _ & _ & _ & Hn). by eapply Hn.
Qed.

Lemma token_operator t : t ∈ ["!="; ">="; "<="; "="; ">"; "<"] -> exists op, (t, op) ∈ operators.
Proof.
  change ["!="; ">="; "<="; "="; ">"; "<"] with (map fst operators).
  intros ((t' & op) & <- & Ht)%list_elem_of_In%List.in_map_iff. exists op. by apply list_elem_of_In.
Qed.

(** Where a token is in the middle. *)
Definition token_pos (op : ComparisonOperator) (t : string) : option nat :=
  find (fun j => prefixb (as_bytes t) (drop j (middle op))) (seq 0 (length (middle op))).

Lemma token_pos_app op t v :
  t ∈ ["!="; ">="; "<="; "="; ">"; "<"] ->
  find (fun j => prefixb (as_bytes t) (drop j (middle op ++ v))) (seq 0 (length (middle op))) = token_pos op t.
Proof. intros Ht. set_unfold in Ht. destruct_or! Ht; subst t; destruct op; reflexivity. Qed.

(** A token is found where the middle has it. *)
Lemma token_found t :
  t ∈ ["!="; ">="; "<="; "="; ">"; "<"] ->
  find_unquoted_token (print_predicate p) (as_bytes t)
  = Ok (Nat.add (length (field p)) <$> token_pos (operator p) t).
Proof.
  intros Hin. rewrite <- (token_pos_app _ _ (print_value (expected p))) by done.
  apply token_operator in Hin as [op Ht]. unfold find_unquoted_token, visited, ends_quoted. rewrite visited_predicate. cbn [fst snd].
  rewrite !find_app, (find_none_all _ (seq 0 _)).
  - rewrite find_shift, (find_ext _ (fun j => prefixb (as_bytes t) (drop j (middle (operator p) ++ print_value (expected p)))))
      by (intros j; rewrite print_predicate_split; apply starts_at_app).
    destruct (find _ (seq 0 _)) as [j|]; [done|]. rewrite (find_none_all _ (literal_positions _)); [done|].
    intros i Hi. rewrite print_predicate_split, app_assoc. rewrite <- length_app in Hi.
    apply (literal_byte _ []) in Hi as (c & Hc & Hw). rewrite app_nil_r in Hc. by eapply wordy_starts_at.
  - intros i Hi%elem_of_seq. destruct (lookup_lt_is_Some_2 (field p) i) as [c Hc]; [lia|].
    eapply (wordy_starts_at _ _ c); [done| |].
    + rewrite print_predicate_split. by apply lookup_app_l_Some.
    + pose proof field_chars as Hf. rewrite Forall_forall in Hf. apply Hf. by eapply list_elem_of_lookup_2.
Qed.

Lemma reject_tokens_ok clause ts :
  (forall t, t ∈ ts -> exists op, (t, op) ∈ operators) ->
  reject_tokens clause (sp :: print_value (expected p)) ts = Ok ().
Proof.
  induction ts as [|t ts IH]; intros Hts; simpl; [done|].
  destruct (Hts t ltac:(left)) as [op Ht].
  assert (find_unquoted_token (sp :: print_value (expected p)) (as_bytes t) = Ok None) as ->.
  { unfold find_unquoted_token, visited, ends_quoted.
    pose proof (unquoted_value [] 1 ltac:(done)) as Hu. rewrite app_nil_r in Hu.
    assert (unquoted (sp :: print_value (expected p)) 0 false = (0%nat :: literal_positions 1, false)) as ->.
    { cbn [unquoted]. rewrite bool_decide_eq_false_2 by done. rewrite Hu. simpl. by rewrite app_nil_r. }
    cbn [fst snd]. rewrite (find_none_all _ (_ :: _)); [done|]. intros i [->|Hi]%elem_of_cons.
    - apply (starts_at_other _ 0 _ sp); [reflexivity|..]; unfold operators in Ht; set_unfold in Ht; destruct_or! Ht; injection Ht as -> _; done.
    - apply (literal_byte [sp] []) in Hi as (c & Hc & Hw). rewrite app_nil_r in Hc. by eapply wordy_starts_at. }
  simpl. apply IH. intros. apply Hts. by right.
Qed.

Lemma operator_parsed :
  ComparisonOperator_parse (print_predicate p)
  = Ok (operator p, field p ++ [sp], sp :: print_value (expected p)).
Proof.
  assert (Hrej : reject_extra_operator (print_predicate p) (sp :: print_value (expected p)) = Ok ()).
  { apply reject_tokens_ok. exact token_operator. }
  assert (Htake : take (length (field p) + 1) (print_predicate p) = field p ++ [sp]).
  { rewrite print_predicate_split, take_app_add. by destruct (operator p). }
  assert (Hdrop : drop (length (field p) + 1 + length (print_op (operator p))) (print_predicate p) = sp :: print_value (expected p)).
  { rewrite print_predicate_split, <- Nat.add_assoc, drop_app_add. by destruct (operator p). }
  unfold ComparisonOperator_parse. revert Htake Hdrop. generalize token_found.
  destruct (operator p); intros Htok Htake Hdrop; unfold operators at 1; cbn [parse_operator];
    repeat (rewrite Htok by set_solver;
            match goal with |- context [token_pos ?o ?s] =>
              let v := eval vm_compute in (token_pos o s) in change (token_pos o s) with v end;
            cbn -[print_predicate take drop Nat.add reject_extra_operator as_bytes]);
    unfold print_op in Hdrop; rewrite Hdrop, Hrej; cbn -[print_predicate take drop Nat.add]; by rewrite Htake.
Qed.

Lemma field_solid : solid (field p).
Proof. apply wordy_solid; [apply field_nonempty|apply field_chars]. Qed.

Lemma split_dots_word l : Forall (fun b => wordy b = true) l -> split_dots l = [l].
Proof.
  induction 1 as [|b l Hb _ IH]; [done|]. simpl. apply wordy_plain in Hb as (_ & _ & _ & Hd & _).
  by rewrite bool_decide_eq_false_2, IH.
Qed.

Lemma field_parsed arrow : FieldPath_parse arrow (field p) = Ok (field p).
Proof.
  unfold FieldPath_parse. rewrite split_dots_word by apply field_chars. simpl.
  rewrite trim_solid_id by apply field_solid. destruct Hp as (-> & _). done.
Qed.

Lemma predicate_solid : solid (print_predicate p).
Proof.
  rewrite print_predicate_split. destruct field_solid as [(a & l & -> & Ha) _].
  destruct (print_value_solid _ literal_ok) as [_ (l' & b & -> & Hb)]. split.
  - by eexists _, _.
  - exists ((a :: l) ++ middle (operator p) ++ l'), b. by rewrite <- !app_assoc.
Qed.

Lemma predicate_parsed arrow : parse_predicate arrow (print_predicate p) = Ok p.
Proof.
  unfold parse_predicate. rewrite bool_decide_eq_false_2.
  2:{ intros He. destruct predicate_solid as [(a & l & Heq & _) _]. by rewrite He in Heq. }
  rewrite operator_parsed. simpl.
  pose proof (trim_solid 1 0 _ (print_value_solid _ literal_ok)) as Ht. rewrite app_nil_r in Ht. simpl in Ht.
  rewrite Ht, FilterValue_parse_print by apply literal_ok. simpl.
  pose proof (trim_solid 0 1 _ field_solid) as Htf. simpl in Htf.
  destruct Hp as (_ & _ & -> & _). simpl. rewrite Htf, field_parsed. simpl. by destruct p.
Qed.

(** ** No keyword in a predicate *)

Definition AND : Bytes := as_bytes "AND".

Lemma no_keyword_at l i c : l !! i = Some c -> to_lower c <> "a"%char -> starts_with_keyword_at l i AND = false.
Proof.
  intros Hc Ha. unfold starts_with_keyword_at, eq_ignore_ascii_case. rewrite bool_decide_eq_false_2; [done|].
  rewrite (drop_S _ _ _ Hc). simpl. intros [= Heq _]. apply Ha. by rewrite Heq.
Qed.

Lemma no_keyword_after l i b kw :
  l !! i = Some b -> is_identifier_char b = true -> starts_with_keyword_at l (S i) kw = false.
Proof.
  intros Hb Hi. unfold starts_with_keyword_at, isolated. rewrite (take_S_r _ _ _ Hb), last_snoc, Hi. simpl. apply andb_false_r.
Qed.

Lemma no_keyword_field l1 l2 i :
  (i < length (field p))%nat -> head l2 = Some sp ->
  starts_with_keyword_at (l1 ++ field p ++ l2) (length l1 + i) AND = false.
Proof.
  intros Hi Hl2. destruct Hp as (Hid & Hkw & _). apply identifier_wordy in Hid as [_ Hch].
  destruct i as [|i].
  - unfold starts_with_keyword_at. rewrite drop_app_add, drop_0.
    destruct (decide (length (field p) = 3%nat)) as [H3|H3].
    { change (length AND) with 3%nat. rewrite <- H3, take_app_length. change AND with (as_bytes "AND"). by rewrite Hkw. }
    destruct (decide (length (field p) < 3)%nat) as [Hlt|].
    + unfold eq_ignore_ascii_case. rewrite bool_decide_eq_false_2; [done|]. destruct l2 as [|x l2]; [done|].
      simpl in Hl2. injection Hl2 as ->. intros Heq. apply (f_equal (.!! length (field p))) in Heq.
      rewrite !list_lookup_fmap, lookup_take_lt, list_lookup_middle in Heq by (simpl; first [done|lia]).
      destruct (field p) as [|? [|? [|? ?]]]; simpl in *; try lia; discriminate.
    + destruct (lookup_lt_is_Some_2 (field p) 3) as [c Hc]; [lia|].
      assert (head (drop (length l1 + 0 + length AND) (l1 ++ field p ++ l2)) = Some c) as Hh.
      { rewrite head_lookup, lookup_drop, lookup_app_r, lookup_app_l by (simpl; lia). rewrite <- Hc. f_equal. simpl. lia. }
      rewrite Forall_forall in Hch. unfold isolated. rewrite Hh, Hch by (by eapply list_elem_of_lookup_2).
      simpl. by rewrite !andb_false_r.
  - rewrite Nat.add_succ_r. destruct (lookup_lt_is_Some_2 (field p) i) as [c Hc]; [lia|].
    apply (no_keyword_after _ _ c).
    + rewrite lookup_app_r, lookup_app_l by lia. by rewrite Nat.add_comm, Nat.add_sub.
    + rewrite Forall_forall in Hch. apply Hch. by eapply list_elem_of_lookup_2.
Qed.

(** A literal has no keyword either: where it has an [a], the byte before is a
    letter. *)
Lemma literal_safe i c :
  is_string (expected p) = false -> print_value (expected p) !! i = Some c ->
  to_lower c <> "a"%char \/ exists j b, i = S j /\ print_value (expected p) !! j = Some b /\ is_identifier_char b = true.
Proof.
  intros Hs Hc. pose proof literal_ok as Hl. destruct (expected p) as [s|[z|f]|[]|]; try done; cbn [print_value] in *.
  - left. assert (is_digit c || bool_decide (c = "-"%char) = true) as Hd.
    { pose proof (list_elem_of_lookup_2 _ _ _ Hc) as Hin. unfold print_int in Hin. destruct (Z.ltb_spec z 0).
      - apply elem_of_cons in Hin as [->|Hin]; [done|].
        pose proof (print_nat_digits 20 (- z) [] ltac:(lia) ltac:(by constructor)) as Hf. rewrite Forall_forall in Hf. by rewrite Hf.
      - pose proof (print_nat_digits 20 z [] ltac:(lia) ltac:(by constructor)) as Hf. rewrite Forall_forall in Hf. by rewrite Hf. }
    assert (forall c, implb (is_digit c || bool_decide (c = "-"%char)) (negb (bool_decide (to_lower c = "a"%char))) = true) as Hall
      by (apply all_bytes; vm_compute; reflexivity).
    specialize (Hall c). rewrite Hd in Hall. simpl in Hall. by apply negb_true_iff, bool_decide_eq_false in Hall.
  - do 4 (destruct i as [|i]; [injection Hc as <-; by left|]). done.
  - destruct i as [|i]; [injection Hc as <-; by left|]. destruct i as [|i]; [right; by exists 0%nat, "f"%char|].
    do 3 (destruct i as [|i]; [injection Hc as <-; by left|]). done.
  - do 4 (destruct i as [|i]; [injection Hc as <-; by left|]). done.
Qed.

Lemma no_keyword_literal l1 l2 i :
  i ∈ literal_positions (length l1) ->
  starts_with_keyword_at (l1 ++ print_value (expected p) ++ l2) i AND = false.
Proof.
  unfold literal_positions. destruct (is_string (expected p)) eqn:Hs; [by intros ?%elem_of_nil|].
  intros Hi%elem_of_seq. destruct (lookup_lt_is_Some_2 (print_value (expected p)) (i - length l1)) as [c Hc]; [lia|].
  destruct (literal_safe _ _ Hs Hc) as [Ha|(j & b & Hj & Hb & Hid)].
  - apply (no_keyword_at _ _ c); [|done]. by rewrite lookup_app_r, lookup_app_l by lia.
  - replace i with (S (length l1 + j)) by lia. apply (no_keyword_after _ _ b); [|done].
    apply lookup_lt_Some in Hb as Hlt. rewrite lookup_app_r, lookup_app_l by lia. rewrite <- Hb. f_equal. lia.
Qed.

Lemma no_keyword_middle l1 l2 i :
  (i < length (middle (operator p)))%nat ->
  starts_with_keyword_at (l1 ++ middle (operator p) ++ l2) (length l1 + i) AND = false.
Proof.
  intros Hi. destruct (lookup_lt_is_Some_2 (middle (operator p)) i) as [c Hc]; [lia|]. apply (no_keyword_at _ _ c).
  - rewrite lookup_app_r, lookup_app_l by lia. rewrite <- Hc. f_equal. lia.
  - apply list_elem_of_lookup_2 in Hc. destruct (operator p); vm_compute in Hc; set_unfold in Hc; destruct_or! Hc; subst; done.
Qed.

(** The keyword occurs at no visited position of the predicate. *)
Lemma no_keyword_predicate l1 l2 i :
  i ∈ seq (length l1) (length (field p)) ++ seq (length l1 + length (field p)) (length (middle (operator p)))
      ++ literal_positions (length l1 + length (field p) + length (middle (operator p))) ->
  starts_with_keyword_at (l1 ++ print_predicate p ++ l2) i AND = false.
Proof.
  rewrite print_predicate_split, <- !app_assoc. rewrite !elem_of_app, !elem_of_seq. intros [Hi|[Hi|Hi]].
  - replace i with (length l1 + (i - length l1))%nat by lia. apply no_keyword_field; [lia|]. done.
  - rewrite (app_assoc l1). replace i with (length (l1 ++ field p) + (i - length (l1 ++ field p)))%nat by (rewrite length_app; lia).
    apply no_keyword_middle. rewrite length_app. lia.
  - rewrite (app_assoc l1), (app_assoc (l1 ++ field p)). apply no_keyword_literal. by rewrite !length_app.
Qed.
End OnePredicate.

(** ** Conjunctions *)

(** Where the separators of a printed filter that starts at [i] have their
    keywords. *)
Fixpoint and_positions (i : nat) (ps : list Predicate) : list nat :=
  match ps with
  | [] | [_] => []
  | p :: ps => (i + length (print_predicate p) + 1)%nat :: and_positions (i + length (print_predicate p) + 5) ps
  end.

Definition separator : Bytes := as_bytes " AND ".

Lemma filter_none {A} (f : A -> bool) l : (forall x, x ∈ l -> f x = false) -> List.filter f l = [].
Proof. induction l as [|x l IH]; intros Hl; simpl; [done|]. rewrite Hl by left. apply IH. intros. apply Hl. by right. Qed.

Lemma keyword_in_separator l1 l2 :
  List.filter (fun i => starts_with_keyword_at (l1 ++ separator ++ l2) i AND) (seq (length l1) 5) = [(length l1 + 1)%nat].
Proof.
  assert (Hno : forall k c, separator !! k = Some c -> to_lower c <> "a"%char ->
    starts_with_keyword_at (l1 ++ separator ++ l2) (length l1 + k) AND = false).
  { intros k c Hk Hc. apply (no_keyword_at _ _ c); [|done]. apply lookup_lt_Some in Hk as Hlt.
    rewrite lookup_app_r, lookup_app_l by lia. rewrite <- Hk. f_equal. lia. }
  assert (Hyes : starts_with_keyword_at (l1 ++ separator ++ l2) (length l1 + 1) AND = true).
  { unfold starts_with_keyword_at, isolated. rewrite <- Nat.add_assoc, take_app_add, !drop_app_add.
    change (take 1 (separator ++ l2)) with [sp]. rewrite last_snoc. done. }
  replace (seq (length l1) 5) with (Nat.add (length l1) <$> seq 0 5) by (by rewrite fmap_add_seq, Nat.add_0_r).
  cbn [seq fmap list_fmap List.filter].
  rewrite (Hno 0%nat sp), Hyes, (Hno 2%nat "N"%char), (Hno 3%nat "D"%char), (Hno 4%nat sp) by done. done.
Qed.

Lemma separators_found ps l1 :
  Forall expressible ps ->
  List.filter (fun i => starts_with_keyword_at (l1 ++ print_filter ps) i AND) (unquoted (print_filter ps) (length l1) false).1
    = and_positions (length l1) ps /\
  (unquoted (print_filter ps) (length l1) false).2 = false.
Proof.
  intros Hps. revert l1. induction Hps as [|p ps Hp Hps IH]; intros l1; [done|]. destruct ps as [|q ps].
  - cbn [print_filter and_positions]. pose proof (unquoted_predicate p Hp [] (length l1) ltac:(done)) as Hu.
    rewrite app_nil_r in Hu. rewrite Hu. cbn [fst snd]. split; [|done]. apply filter_none. intros i Hi.
    rewrite !app_assoc, app_nil_r, <- !app_assoc in Hi. rewrite <- (app_nil_r (print_predicate p)). by apply no_keyword_predicate.
  - change (print_filter (p :: q :: ps)) with (print_predicate p ++ separator ++ print_filter (q :: ps)).
    remember (q :: ps) as qs eqn:Eqs. rewrite unquoted_predicate by done.
    rewrite unquoted_plain by (vm_compute; set_solver). cbn [fst snd].
    specialize (IH (l1 ++ print_predicate p ++ separator)). rewrite !length_app in IH. change (length separator) with 5%nat in *.
    rewrite <- !app_assoc in IH. replace (length l1 + length (print_predicate p) + 5)%nat
      with (length l1 + (length (print_predicate p) + 5))%nat by lia. destruct IH as [IH1 IH2]. split; [|done].
    rewrite !app_assoc, !List.filter_app, <- !app_assoc, IH1.
    rewrite (filter_none _ (seq (length l1) (length (field p)))), (filter_none _ (seq (length l1 + _) (length (middle _)))),
      (filter_none _ (literal_positions _ _)) by (intros i Hi; apply (no_keyword_predicate p Hp); rewrite !elem_of_app; tauto).
    pose proof (keyword_in_separator (l1 ++ print_predicate p) (print_filter qs)) as Hk.
    rewrite length_app, <- app_assoc in Hk. rewrite Hk. simpl. subst qs. f_equal. by rewrite Nat.add_assoc.
Qed.

Lemma split_printed ps l1 (k : nat) start :
  Forall expressible ps -> ps <> [] -> length l1 = (start + k)%nat ->
  drop start (l1 ++ print_filter ps) = replicate k sp ++ print_filter ps ->
  map trim (split_at (l1 ++ print_filter ps) start (and_positions (length l1) ps)) = map print_predicate ps.
Proof.
  intros Hps. revert l1 k start. induction Hps as [|p ps Hp Hps IH]; intros l1 k start Hne Hlen Hdrop; [done|].
  destruct ps as [|q ps].
  - cbn [print_filter and_positions split_at map]. cbn [print_filter] in Hdrop. rewrite Hdrop. f_equal.
    pose proof (trim_solid k 0 _ (predicate_solid p Hp)) as Ht. by rewrite app_nil_r in Ht.
  - change (and_positions (length l1) (p :: q :: ps)) with ((length l1 + length (print_predicate p) + 1)%nat
      :: and_positions (length l1 + length (print_predicate p) + 5) (q :: ps)). remember (q :: ps) as qs eqn:Eqs.
    assert (print_filter (p :: qs) = print_predicate p ++ separator ++ print_filter qs) as Hpr by (by subst).
    cbn [split_at map]. f_equal.
    + rewrite Hdrop, Hpr. replace (length l1 + length (print_predicate p) + 1 - start)%nat
        with (k + (length (print_predicate p) + 1))%nat by lia.
      rewrite <- (length_replicate k sp) at 1. rewrite take_app_add, take_app_add. change (take 1 (separator ++ _)) with (replicate 1 sp).
      apply trim_solid, (predicate_solid p Hp).
    + rewrite Hpr. replace (l1 ++ print_predicate p ++ separator ++ print_filter qs)
        with ((l1 ++ print_predicate p ++ separator) ++ print_filter qs) by (by rewrite <- !app_assoc).
      replace (length l1 + length (print_predicate p) + 5)%nat with (length (l1 ++ print_predicate p ++ separator))
        by (rewrite !length_app; simpl; lia).
      apply (IH _ 1%nat); [by subst|rewrite !length_app; simpl; lia|].
      replace (length l1 + length (print_predicate p) + 1 + 3)%nat with (length (l1 ++ print_predicate p) + 4)%nat
        by (rewrite length_app; lia).
      rewrite (app_assoc l1), <- app_assoc, drop_app_add. done.
Qed.

Lemma try_map_trim (f : Bytes -> result FilterCompileError Predicate) l l' :
  map trim l = l' -> try_map (fun c => f (trim c)) l = try_map f l'.
Proof. intros <-. induction l as [|x l IH]; simpl; [done|]. by rewrite IH. Qed.

Lemma print_filter_parsed arrow ps :
  Forall expressible ps -> ps <> [] -> parse_legacy_predicates arrow (print_filter ps) = Ok ps.
Proof.
  intros Hps Hne. unfold parse_legacy_predicates, split_and_clauses, ends_quoted, visited.
  destruct (separators_found ps [] Hps) as [Hf Hq]. simpl in Hf, Hq. rewrite Hq. fold AND. rewrite Hf. simpl.
  rewrite (try_map_trim _ _ _ (split_printed ps [] 0 0 Hps Hne eq_refl (drop_0 _))).
  clear -Hps. induction Hps as [|p ps Hp _ IH]; [done|]. simpl. by rewrite predicate_parsed, IH.
Qed.

(** ** The words of a printed filter *)

(** The letters that the reserved field and the keywords beyond [AND] start with. *)
Definition word_start (c : ascii) : bool := bool_decide (to_lower c ∈ ["o"; "i"; "l"; "_"]%char).
(** The bytes a printed filter has outside its strings. *)
Definition bare (c : ascii) : bool := wordy c || bool_decide (c ∈ [sp; "="; "!"; "<"; ">"]%char).
Definition at_gap (l : Bytes) : Prop := last l = None \/ last l = Some sp.

(** What a scan sees at a position of [l]: the start of a field, a byte no such
    word starts with, or one within a word. *)
Inductive spot (l : Bytes) (ps : list Predicate) (i : nat) : Prop :=
| spot_field p l0 l2 :
    p ∈ ps -> l = l0 ++ field p ++ l2 -> length l0 = i -> head l2 = Some sp -> at_gap l0 -> spot l ps i
| spot_other c : l !! i = Some c -> bare c = true -> word_start c = false -> spot l ps i
| spot_inside j b c :
    i = S j -> l !! j = Some b -> is_identifier_char b = true -> l !! i = Some c -> bare c = true -> spot l ps i.

Lemma literal_words p i c :
  expressible p -> is_string (expected p) = false -> print_value (expected p) !! i = Some c ->
  word_start c = false \/ exists j b, i = S j /\ print_value (expected p) !! j = Some b /\ is_identifier_char b = true.
Proof.
  intros Hp Hs Hc. pose proof (literal_ok p Hp) as Hl. destruct (expected p) as [s|[z|f]|[]|]; try done; cbn [print_value] in *.
  - left. assert (is_digit c || bool_decide (c = "-"%char) = true) as Hd.
    { pose proof (list_elem_of_lookup_2 _ _ _ Hc) as Hin. unfold print_int in Hin. destruct (Z.ltb_spec z 0).
      - apply elem_of_cons in Hin as [->|Hin]; [done|].
        pose proof (print_nat_digits 20 (- z) [] ltac:(lia) ltac:(by constructor)) as Hf. rewrite Forall_forall in Hf. by rewrite Hf.
      - pose proof (print_nat_digits 20 z [] ltac:(lia) ltac:(by constructor)) as Hf. rewrite Forall_forall in Hf. by rewrite Hf. }
    assert (forall c, implb (is_digit c || bool_decide (c = "-"%char)) (negb (word_start c)) = true) as Hall
      by (apply all_bytes; vm_compute; reflexivity).
    specialize (Hall c). rewrite Hd in Hall. by apply negb_true_iff in Hall.
  - do 4 (destruct i as [|i]; [injection Hc as <-; by left|]). done.
  - do 2 (destruct i as [|i]; [injection Hc as <-; by left|]). destruct i as [|i]; [right; by exists 1%nat, "a"%char|].
    do 2 (destruct i as [|i]; [injection Hc as <-; by left|]). done.
  - do 2 (destruct i as [|i]; [injection Hc as <-; by left|]). destruct i as [|i]; [right; by exists 1%nat, "u"%char|].
    destruct i as [|i]; [right; by exists 2%nat, "l"%char|]. done.
Qed.

Lemma lookup_within (l1 l l2 : Bytes) k c : l !! k = Some c -> (l1 ++ l ++ l2) !! (length l1 + k)%nat = Some c.
Proof.
  intros Hk. rewrite lookup_app_r by lia. replace (length l1 + k - length l1)%nat with k by lia.
  by apply lookup_app_l_Some.
Qed.

Lemma spot_predicate ps p l1 l2 i :
  expressible p -> p ∈ ps -> at_gap l1 ->
  i ∈ seq (length l1) (length (field p)) ++ seq (length l1 + length (field p)) (length (middle (operator p)))
      ++ literal_positions p (length l1 + length (field p) + length (middle (operator p))) ->
  spot (l1 ++ print_predicate p ++ l2) ps i.
Proof.
  intros Hp Hin Hgap. rewrite print_predicate_split, <- !app_assoc, !elem_of_app, !elem_of_seq.
  pose proof (proj1 Hp) as [_ Hid]%identifier_wordy. rewrite Forall_forall in Hid.
  pose proof (field_chars p Hp) as Hw. rewrite Forall_forall in Hw. intros [Hi|[Hi|Hi]].
  - destruct (decide (i = length l1)) as [->|]; [by eapply spot_field|].
    destruct (lookup_lt_is_Some_2 (field p) (i - length l1)) as [c Hc]; [lia|].
    destruct (lookup_lt_is_Some_2 (field p) (i - length l1 - 1)) as [b Hb]; [lia|].
    apply (spot_inside _ _ _ (length l1 + (i - length l1 - 1)) b c); [lia|by apply lookup_within| | |].
    + apply Hid. by eapply list_elem_of_lookup_2.
    + replace i with (length l1 + (i - length l1))%nat at 1 by lia. by apply lookup_within.
    + unfold bare. by rewrite Hw by (by eapply list_elem_of_lookup_2).
  - destruct (lookup_lt_is_Some_2 (middle (operator p)) (i - length l1 - length (field p))) as [c Hc]; [lia|].
    apply (spot_other _ _ _ c).
    + rewrite (app_assoc l1). replace i with (length (l1 ++ field p) + (i - length l1 - length (field p)))%nat at 1
        by (rewrite length_app; lia). by apply lookup_within.
    + apply list_elem_of_lookup_2 in Hc. destruct (operator p); vm_compute in Hc; set_unfold in Hc; destruct_or! Hc; by subst.
    + apply list_elem_of_lookup_2 in Hc. destruct (operator p); vm_compute in Hc; set_unfold in Hc; destruct_or! Hc; by subst.
  - unfold literal_positions in Hi. destruct (is_string (expected p)) eqn:Hs; [by apply elem_of_nil in Hi|]. apply elem_of_seq in Hi.
    pose proof (print_value_wordy _ (literal_ok p Hp) Hs) as Hlit. rewrite Forall_forall in Hlit.
    rewrite (app_assoc l1), (app_assoc (l1 ++ field p)). set (l0 := (l1 ++ field p) ++ middle (operator p)).
    assert (length l0 = length l1 + length (field p) + length (middle (operator p)))%nat as Hl0 by (unfold l0; by rewrite !length_app).
    destruct (lookup_lt_is_Some_2 (print_value (expected p)) (i - length l0)) as [c Hc]; [lia|].
    assert ((l0 ++ print_value (expected p) ++ l2) !! i = Some c) as Hic.
    { replace i with (length l0 + (i - length l0))%nat at 1 by lia. by apply lookup_within. }
    assert (bare c = true) as Hbare by (unfold bare; by rewrite Hlit by (by eapply list_elem_of_lookup_2)).
    destruct (literal_words p _ _ Hp Hs Hc) as [?|(j & b & Hj & Hb & ?)]; [by eapply spot_other|].
    apply (spot_inside _ _ _ (length l0 + j) b c); [lia|by apply lookup_within|done..].
Qed.

Lemma spot_separator ps l1 l2 i : i ∈ seq (length l1) 5 -> spot (l1 ++ separator ++ l2) ps i.
Proof.
  intros Hi%elem_of_seq. destruct (lookup_lt_is_Some_2 separator (i - length l1)) as [c Hc]; [simpl; lia|].
  apply (spot_other _ _ _ c).
  - replace i with (length l1 + (i - length l1))%nat at 1 by lia. by apply lookup_within.
  - apply list_elem_of_lookup_2 in Hc. vm_compute in Hc. set_unfold in Hc. destruct_or! Hc; by subst.
  - apply list_elem_of_lookup_2 in Hc. vm_compute in Hc. set_unfold in Hc. destruct_or! Hc; by subst.
Qed.

(** A scan sees such spots only. *)
Lemma printed_spots qs ps l1 i :
  Forall expressible ps -> ps ⊆ qs -> at_gap l1 -> i ∈ (unquoted (print_filter ps) (length l1) false).1 ->
  spot (l1 ++ print_filter ps) qs i.
Proof.
  intros Hps. revert l1. induction Hps as [|p ps Hp Hps IH]; intros l1 Hsub Hgap; [by intros ?%elem_of_nil|]. destruct ps as [|q ps].
  - cbn [print_filter]. pose proof (unquoted_predicate p Hp [] (length l1) ltac:(done)) as Hu.
    rewrite app_nil_r in Hu. rewrite Hu. cbn [fst unquoted]. rewrite app_nil_r, <- (app_nil_r (print_predicate p)).
    apply spot_predicate; [done|set_solver|done].
  - change (print_filter (p :: q :: ps)) with (print_predicate p ++ separator ++ print_filter (q :: ps)).
    remember (q :: ps) as qs' eqn:Eqs. rewrite unquoted_predicate by done.
    rewrite unquoted_plain by (vm_compute; set_solver). cbn [fst snd].
    rewrite !app_assoc, !elem_of_app, <- !app_assoc. intros [[Hi|Hi]|Hi].
    + apply spot_predicate; [done|set_solver|done|]. rewrite !elem_of_app. tauto.
    + rewrite (app_assoc l1). apply spot_separator. by rewrite length_app.
    + specialize (IH (l1 ++ print_predicate p ++ separator)). rewrite !length_app in IH. change (length separator) with 5%nat in *.
      rewrite <- !app_assoc in IH. apply IH; [set_solver| |by rewrite Nat.add_assoc].
      right. by rewrite !app_assoc, (last_app _ separator).
Qed.

(** And it sees every field. *)
Lemma field_visited ps l1 p :
  Forall expressible ps -> p ∈ ps -> at_gap l1 ->
  exists l0 l2, l1 ++ print_filter ps = l0 ++ field p ++ l2 /\ length l0 ∈ (unquoted (print_filter ps) (length l1) false).1
    /\ head l2 = Some sp /\ at_gap l0.
Proof.
  intros Hps. revert l1. induction Hps as [|p' ps Hp Hps IH]; intros l1 Hin Hgap; [by apply elem_of_nil in Hin|].
  assert (exists l2, print_filter (p' :: ps) = print_predicate p' ++ l2 /\ head l2 <> Some quote) as (rest & Hpr & Hq)
    by (destruct ps as [|q ps]; [exists []; by rewrite app_nil_r|by eexists]).
  apply elem_of_cons in Hin as [->|Hin].
  - exists l1, (middle (operator p') ++ print_value (expected p') ++ rest). split_and!; [|..|done|done].
    + by rewrite Hpr, print_predicate_split, <- !app_assoc.
    + rewrite Hpr, unquoted_predicate by done. cbn [fst]. apply elem_of_app. left. apply elem_of_seq.
      pose proof (field_nonempty p' Hp). destruct (field p'); [done|]. simpl. lia.
  - destruct ps as [|q ps]; [by apply elem_of_nil in Hin|].
    change (print_filter (p' :: q :: ps)) with (print_predicate p' ++ separator ++ print_filter (q :: ps)) in *.
    remember (q :: ps) as qs eqn:Eqs.
    destruct (IH (l1 ++ print_predicate p' ++ separator) Hin) as (l0 & l2 & Heq & Hv & Hh & Hg).
    { right. by rewrite !app_assoc, (last_app _ separator). }
    exists l0, l2. rewrite <- !app_assoc in Heq. split_and!; [done| |done|done].
    rewrite unquoted_predicate by done. rewrite unquoted_plain by (vm_compute; set_solver). cbn [fst snd].
    rewrite !elem_of_app. do 4 right. rewrite !length_app in Hv. by rewrite <- Nat.add_assoc.
Qed.

(** A word is found in a printed filter exactly where it is a field. *)
Section Word.
  Context (m : Bytes -> bool) (n : nat).
  Context (Hword : forall w, m w = true -> length w = n /\ Forall (fun b => is_identifier_char b = true) w
    /\ exists c, head w = Some c /\ word_start c = true).

Definition word_at (l : Bytes) (i : nat) : bool := m (take n (drop i l)) && isolated l i n.

Lemma word_spot l ps i : Forall expressible ps -> spot l ps i -> word_at l i = true -> exists p, p ∈ ps /\ m (field p) = true.
Proof.
  intros Hps Hs [Hm Hiso]%andb_true_iff. destruct (Hword _ Hm) as (Hlen & Hid & c & Hc & Hst).
  unfold isolated in Hiso. apply andb_true_iff in Hiso as [Hprev Hnext]. destruct Hs as [p l0 l2 Hp -> <- Hl2 Hgap|c' Hi _ Hno|j b c' -> Hj Hb _ _].
  - exists p. split; [done|]. rewrite drop_app_length in Hm, Hid, Hlen. destruct (lt_eq_lt_dec (length (field p)) n) as [[Hlt|Heq]|Hgt].
    + exfalso. destruct l2 as [|x l2]; [done|]. injection Hl2 as ->.
      assert (take n (field p ++ sp :: l2) !! length (field p) = Some sp) as Hsp
        by (rewrite lookup_take_lt by done; by apply list_lookup_middle).
      rewrite Forall_forall in Hid. by apply list_elem_of_lookup_2, Hid in Hsp.
    + by rewrite <- Heq, take_app_length in Hm.
    + exfalso. destruct (lookup_lt_is_Some_2 (field p) n Hgt) as [x Hx].
      assert (head (drop (length l0 + n) (l0 ++ field p ++ l2)) = Some x) as Hh.
      { rewrite head_lookup, lookup_drop, Nat.add_0_r. by apply lookup_within. }
      rewrite Hh in Hnext. destruct (is_identifier_char x) eqn:Hx'; [done|].
      rewrite Forall_forall in Hps. pose proof (proj1 (Hps _ Hp)) as [_ Hf]%identifier_wordy. rewrite Forall_forall in Hf.
      by rewrite Hf in Hx' by (by eapply list_elem_of_lookup_2).
  - exfalso. rewrite (drop_S _ _ _ Hi) in Hc. destruct n; [done|]. simpl in Hc. congruence.
  - exfalso. by rewrite (take_S_r _ _ _ Hj), last_snoc, Hb in Hprev.
Qed.

Lemma word_field l0 f l2 : m f = true -> head l2 = Some sp -> at_gap l0 -> word_at (l0 ++ f ++ l2) (length l0) = true.
Proof.
  intros Hm Hl2 Hgap. destruct (Hword _ Hm) as (Hn & _). unfold word_at, isolated.
  rewrite <- Hn, drop_app_length, (take_app_length f), Hm, (take_app_length l0), drop_app_add, (drop_app_length f), Hl2. by destruct Hgap as [->| ->].
Qed.

Lemma words_printed ps :
  Forall expressible ps ->
  existsb (word_at (print_filter ps)) (visited (print_filter ps)) = existsb (fun p => m (field p)) ps.
Proof.
  intros Hps. apply eq_iff_eq_true. rewrite !existsb_exists. split.
  - intros (i & Hi%list_elem_of_In & Hw). apply (word_spot (print_filter ps) ps i) in Hw as (p & Hp & Hm); [|done|].
    + exists p. by rewrite <- list_elem_of_In.
    + by apply (printed_spots ps ps [] i); [|done|left|].
  - intros (p & Hp%list_elem_of_In & Hm). destruct (field_visited ps [] p Hps Hp ltac:(by left)) as (l0 & l2 & Heq & Hv & Hh & Hg).
    exists (length l0). rewrite <- list_elem_of_In. simpl in Heq. rewrite Heq at 2. split; [exact Hv|]. by apply word_field.
Qed.
End Word.

(** ** The reserved field, and the keywords of SQL the parser does not know *)

Definition reserved_name (f : Bytes) : bool := bool_decide (f = RESERVED_ROW_MARKER_FIELD).
Definition reserved (p : Predicate) : bool := reserved_name (field p).
Definition keyword_field (p : Predicate) : bool :=
  existsb (fun k => eq_ignore_ascii_case (field p) (as_bytes k)) ["OR"; "IN"; "IS"; "LIKE"].

Lemma reserved_found ps : Forall expressible ps -> sql_references_reserved_row_marker (print_filter ps) = existsb reserved ps.
Proof.
  intros Hps. apply (words_printed reserved_name (length RESERVED_ROW_MARKER_FIELD)); [|done].
  intros w ->%bool_decide_eq_true. split_and!; [done| |by exists "_"%char].
  apply Forall_forall. intros b Hb. vm_compute in Hb. set_unfold in Hb. destruct_or! Hb; by subst.
Qed.

Lemma keyword_found k ps :
  k ∈ ["OR"; "IN"; "IS"; "LIKE"] -> Forall expressible ps ->
  contains_unquoted_word (print_filter ps) (as_bytes k) = existsb (fun p => eq_ignore_ascii_case (field p) (as_bytes k)) ps.
Proof.
  intros Hk Hps. apply (words_printed (fun w => eq_ignore_ascii_case w (as_bytes k)) (length (as_bytes k))); [|done].
  intros w Heq%bool_decide_eq_true. split_and!.
  - apply (f_equal length) in Heq. by rewrite !length_map in Heq.
  - assert (forall b, implb (is_identifier_char (to_lower b)) (is_identifier_char b) = true) as Hall by (apply all_bytes; vm_compute; reflexivity).
    assert (Forall (fun b => is_identifier_char b = true) (map to_lower w)) as Hl.
    { rewrite Heq. set_unfold in Hk. destruct_or! Hk; subst; by repeat constructor. }
    apply Forall_map in Hl. eapply Forall_impl; [exact Hl|]. intros b Hb. specialize (Hall b). cbn in Hb. by rewrite Hb in Hall.
  - destruct w as [|c w]; [set_unfold in Hk; destruct_or! Hk; by subst|]. exists c. split; [done|]. unfold word_start.
    apply bool_decide_eq_true. cbn [map] in Heq.
    set_unfold in Hk. destruct_or! Hk; subst k; injection Heq as -> _; vm_compute; set_solver.
Qed.

(** Outside its strings a printed filter has none of the bytes that ask for
    DataFusion. *)
Lemma bare_printed ps i : Forall expressible ps -> i ∈ visited (print_filter ps) -> exists c, print_filter ps !! i = Some c /\ bare c = true.
Proof.
  intros Hps Hi. destruct (printed_spots ps ps [] i Hps ltac:(done) ltac:(by left) Hi) as [p l0 l2 Hp Heq <- _ _|c ? ? _|j b c _ _ _ ? ?]; [|by exists c..].
  rewrite Forall_forall in Hps. pose proof (field_nonempty p (Hps _ Hp)) as Hne. pose proof (field_chars p (Hps _ Hp)) as Hw.
  destruct (field p) as [|c f] eqn:Hf; [done|]. exists c. simpl in Heq. rewrite Heq. split; [by apply list_lookup_middle|].
  apply Forall_cons in Hw as [Hc _]. unfold bare. by rewrite Hc.
Qed.

Lemma existsb_none {A} (f : A -> bool) l : (forall x, x ∈ l -> f x = false) -> existsb f l = false.
Proof. induction l as [|x l IH]; intros Hl; simpl; [done|]. rewrite Hl by left. apply IH. intros. apply Hl. by right. Qed.

Lemma datafusion_needed ps : Forall expressible ps -> sql_requires_arrow_datafusion (print_filter ps) = existsb keyword_field ps.
Proof.
  intros Hps. unfold sql_requires_arrow_datafusion.
  assert (forall c, bare c = true -> c ∉ ["("; ")"; "["; "]"; "."]%char) as Hbare.
  { intros c Hc Hin. set_unfold in Hin. destruct_or! Hin; by subst. }
  assert (forall t, t ∈ ["("; ")"; "["; "]"]%char -> contains_unquoted_char (print_filter ps) t = false) as Hchar.
  { intros t Ht. apply existsb_none. intros i (c & -> & Hc)%bare_printed; [|done]. apply bool_decide_eq_false_2.
    intros [= ->]. apply (Hbare _ Hc). set_solver. }
  assert (contains_unquoted_field_path_separator (print_filter ps) = false) as ->.
  { apply existsb_none. intros i (c & -> & Hc)%bare_printed; [|done]. rewrite bool_decide_eq_false_2; [done|].
    intros [= ->]. apply (Hbare _ Hc). set_solver. }
  cbn [existsb map]. rewrite !Hchar, !keyword_found by (done || set_solver). rewrite !orb_false_r.
  unfold keyword_field. cbn [existsb]. clear. induction ps as [|p ps IH]; [done|]. cbn [existsb].
  rewrite <- IH. repeat (destruct (eq_ignore_ascii_case (field p) _); simpl; rewrite ?orb_true_r; [done|]). done.
Qed.

Lemma print_filter_solid ps : Forall expressible ps -> ps <> [] -> solid (print_filter ps).
Proof.
  induction 1 as [|p ps Hp Hps IH]; [done|]. intros _. destruct ps as [|q ps]; [by apply predicate_solid|].
  assert (print_filter (p :: q :: ps) = print_predicate p ++ separator ++ print_filter (q :: ps)) as -> by done.
  destruct (IH ltac:(done)) as [_ (l & b & Hl & Hb)]. destruct (predicate_solid p Hp) as [(a & l' & Ha & Hv) _]. split.
  - exists a, (l' ++ separator ++ print_filter (q :: ps)). split; [|done]. by rewrite Ha.
  - exists (print_predicate p ++ separator ++ l), b. split; [|done]. by rewrite Hl, <- !app_assoc.
Qed.

Lemma compile_filter_printed arrow ps :
  Forall expressible ps ->
  compile arrow (print_filter ps)
  = if existsb reserved ps then Err (UnsupportedSql ReservedField)
    else if negb arrow && existsb keyword_field ps
    then Err (DataFusionUnavailable "complex SQL predicates require Arrow/DataFusion support")
    else Ok {| cf_sql := print_filter ps; cf_predicates := ps |}.
Proof.
  intros Hps. destruct (decide (ps = [])) as [->|Hne]; [by destruct arrow|]. unfold compile.
  pose proof (print_filter_solid ps Hps Hne) as Hsol. rewrite (trim_solid_id _ Hsol), reserved_found, datafusion_needed by done.
  rewrite bool_decide_eq_false_2 by (destruct Hsol as [(a & l & -> & _) _]; done).
  destruct (existsb reserved ps); [done|]. destruct (negb arrow && _); [done|]. by rewrite print_filter_parsed.
Qed.


(** A printed predicate compiles to itself. *)
Lemma compile_printed p :
  expressible p -> field p <> RESERVED_ROW_MARKER_FIELD ->
  compile true (print_predicate p) = Ok {| cf_sql := print_predicate p; cf_predicates := [p] |}.
Proof.
  intros Hp Hne. change (print_predicate p) with (print_filter [p]). rewrite compile_filter_printed by (by apply Forall_singleton).
  cbn [existsb]. unfold reserved, reserved_name. by rewrite bool_decide_eq_false_2.
Qed.

