(* ===== verification/Decimal.v ===== *)
(** * Numbers in identifiers

    The decimal text of an integer, as [format!] writes it: digits and a sign
    that the parsers of [RustNum] read back, and the parts of an identifier that
    ends in one. *)

From stdpp Require Import pretty.
From S2P Require Import Prelude.
From S2P Require Import RustNum.
From S2P Require Import FilterText.

Lemma as_bytes_app a b : as_bytes (a +:+ b) = as_bytes a ++ as_bytes b.
Proof. induction a as [|c a IH]; [done|]. change (c :: as_bytes (a +:+ b) = c :: (as_bytes a ++ as_bytes b)). by f_equal. Qed.

Definition digit (b : ascii) : Prop := is_digit b = true.

Lemma pretty_char_digit x : (x < 10)%N -> digit (pretty_N_char x) /\ digits_val [pretty_N_char x] = Z.of_N x.
Proof.
  intros Hx. assert (x = 0 \/ x = 1 \/ x = 2 \/ x = 3 \/ x = 4 \/ x = 5 \/ x = 6 \/ x = 7 \/ x = 8 \/ x = 9)%N as Hc by lia.
  destruct_or! Hc; by subst.
Qed.

Lemma pretty_go_digits x s : Forall digit (as_bytes s) ->
  Forall digit (as_bytes (pretty_N_go x s)) /\
  digits_val (as_bytes (pretty_N_go x s)) = Z.of_N x * 10 ^ Z.of_nat (length (as_bytes s)) + digits_val (as_bytes s).
Proof.
  revert s. induction (N.lt_wf_0 x) as [x _ IH]; intros s Hs. destruct (decide (x = 0)%N) as [->|Hx].
  { rewrite pretty_N_go_0. split; [done|lia]. }
  rewrite pretty_N_go_step by lia. destruct (pretty_char_digit (x `mod` 10)) as [Hd Hv]; [by apply N.mod_lt|].
  destruct (IH (x `div` 10)%N ltac:(apply N.div_lt; lia) (String (pretty_N_char (x `mod` 10)) s)) as [IH1 IH2]; [by constructor|].
  split; [done|]. rewrite IH2.
  change (as_bytes (String (pretty_N_char (x `mod` 10)) s)) with ([pretty_N_char (x `mod` 10)] ++ as_bytes s).
  rewrite digits_val_app, Hv, length_app. cbn [length]. rewrite Nat2Z.inj_add, Z.pow_add_r by lia.
  pose proof (N.div_mod x 10 ltac:(done)) as Hdm. apply (f_equal Z.of_N) in Hdm. rewrite N2Z.inj_add, N2Z.inj_mul in Hdm.
  change (10 ^ Z.of_nat 1) with 10. change (Z.of_N 10) with 10 in Hdm. nia.
Qed.

Lemma pretty_N_digits n : Forall digit (as_bytes (pretty n)) /\ parse_digits (as_bytes (pretty n)) = Some (Z.of_N n).
Proof.
  unfold pretty, pretty_N. destruct (decide (n = 0)%N) as [->|Hn]; [by repeat constructor|].
  destruct (pretty_go_digits n EmptyString) as [Hd Hv]; [constructor|]. split; [done|]. unfold parse_digits.
  assert (forallb is_digit (as_bytes (pretty_N_go n EmptyString)) = true) as Hb.
  { apply List.forallb_forall. intros b Hin%list_elem_of_In. rewrite Forall_forall in Hd. by apply Hd. }
  rewrite Hb, Hv. destruct (as_bytes (pretty_N_go n EmptyString)) eqn:He.
  - cbn in Hv. change (10 ^ 0) with 1 in Hv. lia.
  - f_equal. change (10 ^ Z.of_nat (length (as_bytes EmptyString))) with 1. change (digits_val (as_bytes EmptyString)) with 0. lia.
Qed.

Lemma digit_char b c : digit b -> is_digit c = false -> b <> c.
Proof. intros Hb Hc ->. unfold digit in Hb. congruence. Qed.

(** The text of an integer: no colon, and its sign and digits read back. *)
Lemma pretty_Z_reads z : (":"%char ∉ as_bytes (pretty z)) /\
  let '(neg, l) := sign_split (as_bytes (pretty z)) in exists n, parse_digits l = Some n /\ (if neg then - n else n) = z.
Proof.
  assert (Hsplit : forall n : N, sign_split (as_bytes (pretty n)) = (false, as_bytes (pretty n))).
  { intros n. destruct (pretty_N_digits n) as [Hd Hp]. destruct (as_bytes (pretty n)) as [|b l]; [done|].
    apply Forall_cons in Hd as [Hb _]. by apply sign_split_digit. }
  assert (Hcolon : forall n : N, ":"%char ∉ as_bytes (pretty n)).
  { intros n Hin. destruct (pretty_N_digits n) as [Hd _]. rewrite Forall_forall in Hd. by apply Hd in Hin. }
  destruct z as [|p|p].
  - split; [|by exists 0]. intros Hin. by apply list_elem_of_singleton in Hin.
  - change (pretty (Z.pos p)) with (pretty (N.pos p)). rewrite Hsplit. split; [apply Hcolon|]. exists (Z.pos p). split; [|done].
    apply pretty_N_digits.
  - change (pretty (Z.neg p)) with ("-" +:+ pretty (N.pos p)). change (as_bytes ("-" +:+ pretty (N.pos p))) with ("-"%char :: as_bytes (pretty (N.pos p))).
    cbn [sign_split]. rewrite bool_decide_eq_true_2 by done. split.
    + intros [?|Hin]%elem_of_cons; [done|]. by apply Hcolon in Hin.
    + exists (Z.pos p). split; [apply pretty_N_digits|done].
Qed.

Lemma pretty_i64_reads z : i64_min <= z <= i64_max -> parse_i64 (as_bytes (pretty z)) = Some z.
Proof.
  intros Hz. unfold parse_i64. destruct (pretty_Z_reads z) as [_ Hr]. destruct (sign_split _) as [neg l].
  destruct Hr as (n & -> & Hn). cbn. rewrite Hn. by apply try_range_Some.
Qed.

(** What precedes the last separator, and what follows it. *)
Lemma app_last_inj (sep : ascii) (a b a' b' : Bytes) :
  sep ∉ b -> sep ∉ b' -> a ++ sep :: b = a' ++ sep :: b' -> a = a' /\ b = b'.
Proof.
  intros Hb Hb'. revert a'. induction a as [|x a IH]; intros [|x' a']; cbn; intros He.
  - split; [done|]. congruence.
  - exfalso. apply Hb. injection He as _ ->. set_solver.
  - exfalso. apply Hb'. injection He as _ <-. set_solver.
  - injection He as -> He. by destruct (IH _ He) as [-> ->].
Qed.

(** An identifier that ends in a number has one reading. *)
Lemma numbered_inj (s s' : string) (n n' : Z) :
  0 <= n -> 0 <= n' -> s +:+ "-" +:+ pretty n = s' +:+ "-" +:+ pretty n' -> s = s' /\ n = n'.
Proof.
  intros Hn Hn' He. apply (f_equal as_bytes) in He. rewrite !as_bytes_app in He. cbn [as_bytes list_ascii_of_string app] in He.
  assert (forall m, 0 <= m -> "-"%char ∉ as_bytes (pretty m)) as Hdash.
  { intros m Hm Hin. destruct m as [|q|q]; [by apply list_elem_of_singleton in Hin| |lia].
    change (pretty (Z.pos q)) with (pretty (N.pos q)) in Hin. destruct (pretty_N_digits (N.pos q)) as [Hd _].
    rewrite Forall_forall in Hd. by apply Hd in Hin. }
  apply app_last_inj in He as [Hs Hp]; [|by apply Hdash..].
  split; [by rewrite <- (of_as_bytes s), Hs, of_as_bytes|]. apply (inj pretty). by rewrite <- (of_as_bytes (pretty n)), Hp, of_as_bytes.
Qed.
