(* ===== verification/Wire.v ===== *)
(** * Confluent framing (schema/wire.rs)

    The five-byte header, and the message-index prefix of Protobuf values with
    its LEB128 integers.  [Leb128] is the reference encoder that [read_varint]
    is compared with. *)

From stdpp Require Import pretty.
From S2P Require Import Prelude.
From S2P Require Import Types.

(** [i32::to_be_bytes] and [i32::from_be_bytes]. *)
Definition i32_to_be (id : Z) : Bytes :=
  [of_u8 (Z.shiftr id 24); of_u8 (Z.shiftr id 16); of_u8 (Z.shiftr id 8); of_u8 id].
Definition i32_from_be (b1 b2 b3 b4 : ascii) : Z :=
  wrap_i32 (Z.shiftl (u8 b1) 24 + Z.shiftl (u8 b2) 16 + Z.shiftl (u8 b3) 8 + u8 b4).

Definition encode_frame (id : Z) (fmt : SchemaFormat) (payload : Bytes) : Bytes :=
  let protobuf := bool_decide (fmt = Protobuf) in
  [of_u8 0] ++ i32_to_be id ++ (if protobuf then [of_u8 0] else []) ++ payload.

(** [{:02x}] of a byte. *)
Definition hex_digit (z : Z) : ascii := of_u8 (if z <? 10 then 48 + z else 87 + z).
Definition hex2 (b : ascii) : string :=
  String (hex_digit (u8 b / 16)) (String (hex_digit (u8 b mod 16)) EmptyString).

Definition frame_schema_id (bytes : Bytes) : result CodecError Z :=
  match bytes with
  | b0 :: b1 :: b2 :: b3 :: b4 :: _ =>
      if bool_decide (b0 = of_u8 0) then Ok (i32_from_be b1 b2 b3 b4)
      else Err (Framing ("bad magic byte: 0x" +:+ hex2 b0 +:+ " (expected 0x00)"))
  | _ => Err (Framing ("frame too short: " +:+ pretty (length bytes) +:+ " bytes (need at least 5)"))
  end.

Definition decode_frame (bytes : Bytes) : result CodecError (Z * Bytes) :=
  id ← frame_schema_id bytes; Ok (id, drop 5 bytes).

(** The owned and the shared variant differ in who holds the buffer only. *)
Definition decode_frame_bytes (bytes : Bytes) : result CodecError (Z * Bytes) :=
  id ← frame_schema_id bytes; Ok (id, drop 5 bytes).

Definition truncated_varint : CodecError := Framing "truncated varint in message-index prefix".
Definition varint_overflow : CodecError := Framing "varint overflow in message-index prefix".

(** The loop of [read_varint].  [shift] grows by 7 and the loop leaves when it
    reaches 64, so ten iterations are all there can be. *)
Fixpoint read_varint_loop (fuel : nat) (buf : Bytes) (pos : nat) (acc shift : Z)
    : result CodecError (Z * nat) :=
  match fuel with
  | O => Err varint_overflow
  | S fuel =>
      match buf !! pos with
      | None => Err truncated_varint
      | Some byte =>
          let pos := S pos in
          let acc := Z.lor acc (wrap_u64 (Z.shiftl (Z.land (u8 byte) 127) shift)) in
          if Z.land (u8 byte) 128 =? 0 then Ok (acc, pos)
          else
            let shift := shift + 7 in
            if 64 <=? shift then Err varint_overflow
            else read_varint_loop fuel buf pos acc shift
      end
  end.

Definition read_varint (buf : Bytes) (pos : nat) : result CodecError (Z * nat) :=
  read_varint_loop 10 buf pos 0 0.

(** [for _ in 0..count]: each iteration consumes a byte or fails, so that an
    iteration past the end of the buffer is the truncation error. *)
Fixpoint skip_varints (fuel : nat) (buf : Bytes) (pos : nat) (count : Z) : result CodecError nat :=
  if count <=? 0 then Ok pos
  else
    match fuel with
    | O => Err truncated_varint
    | S fuel =>
        '(_, next) ← read_varint buf pos;
        skip_varints fuel buf next (count - 1)
    end.

Definition proto_payload_start (payload : Bytes) : result CodecError nat :=
  '(count, pos) ← read_varint payload 0;
  if count =? 0 then Ok pos
  else skip_varints (length payload - pos) payload pos count.

Definition strip_proto_index (payload : Bytes) : result CodecError Bytes :=
  start ← proto_payload_start payload; Ok (drop start payload).
Definition strip_proto_index_bytes (payload : Bytes) : result CodecError Bytes :=
  start ← proto_payload_start payload; Ok (drop start payload).

Definition prepend_proto_index (payload : Bytes) : Bytes := [of_u8 0] ++ payload.

(** ** Framing round trips *)

Lemma i32_be_roundtrip id :
  i32_min <= id <= i32_max ->
  i32_from_be (of_u8 (Z.shiftr id 24)) (of_u8 (Z.shiftr id 16)) (of_u8 (Z.shiftr id 8)) (of_u8 id) = id.
Proof.
  unfold i32_from_be, wrap_i32, i32_min, i32_max. intros H. rewrite !u8_of_u8, !Z.shiftl_mul_pow2, !Z.shiftr_div_pow2 by lia.
  change (2 ^ 24) with 16777216. change (2 ^ 16) with 65536. change (2 ^ 8) with 256.
  change (2 ^ 31) with 2147483648 in *. change (2 ^ 32) with 4294967296.
  Z.div_mod_to_equations. lia.
Qed.

Lemma of_u8_eq z b : z mod 256 = u8 b -> of_u8 z = b.
Proof. intros H. rewrite <- (of_u8_u8 b), <- H. unfold of_u8. by rewrite Z.mod_mod by lia. Qed.

Lemma i32_be_bytes b1 b2 b3 b4 : i32_to_be (i32_from_be b1 b2 b3 b4) = [b1; b2; b3; b4].
Proof.
  unfold i32_to_be, i32_from_be, wrap_i32.
  pose proof (u8_range b1). pose proof (u8_range b2). pose proof (u8_range b3). pose proof (u8_range b4).
  rewrite !Z.shiftl_mul_pow2, !Z.shiftr_div_pow2 by lia.
  change (2 ^ 24) with 16777216. change (2 ^ 16) with 65536. change (2 ^ 8) with 256.
  change (2 ^ 31) with 2147483648. change (2 ^ 32) with 4294967296.
  repeat f_equal; apply of_u8_eq; Z.div_mod_to_equations; lia.
Qed.

(** ** Varints *)

Module Leb128.

(** Unsigned LEB128 of [n], at most [fuel] bytes. *)
Fixpoint encode_fuel (fuel : nat) (n : Z) : Bytes :=
  match fuel with
  | O => []
  | S fuel => if n <? 128 then [of_u8 n] else of_u8 (128 + n mod 128) :: encode_fuel fuel (n / 128)
  end.

(** Ten bytes hold 64 bits. *)
Definition encode (n : Z) : Bytes := encode_fuel 10 n.
End Leb128.

Lemma lor_shift acc b shift :
  0 <= acc < 2 ^ shift -> 0 <= b -> 0 <= shift -> Z.lor acc (Z.shiftl b shift) = acc + b * 2 ^ shift.
Proof.
  intros Hacc Hb Hs. rewrite <- Z.shiftl_mul_pow2 by lia.
  assert (Hland : Z.land acc (Z.shiftl b shift) = 0).
  { apply Z.bits_inj'. intros i Hi. rewrite Z.land_spec, Z.bits_0.
    destruct (Z.lt_ge_cases i shift); [by rewrite Z.shiftl_spec_low, andb_false_r by lia|].
    rewrite <- (Z.mod_small acc (2 ^ shift)) by lia. by rewrite Z.mod_pow2_bits_high by lia. }
  by rewrite Z.add_nocarry_lxor, Z.lxor_lor by done.
Qed.

Lemma land_127 z : Z.land z 127 = z mod 128.
Proof. exact (Z.land_ones z 7 ltac:(lia)). Qed.

Lemma land_128 z : 0 <= z < 256 -> (Z.land z 128 =? 0) = (z <? 128).
Proof.
  intros Hz. assert (Hb : Z.land z 128 = if Z.testbit z 7 then 128 else 0).
  { apply Z.bits_inj'. intros i Hi. change 128 with (2 ^ 7) at 1. rewrite Z.land_spec, Z.pow2_bits_eqb by lia.
    destruct (Z.eqb_spec 7 i) as [<-|]; [by destruct (Z.testbit z 7)|].
    rewrite andb_false_r. destruct (Z.testbit z 7); [|by rewrite Z.bits_0].
    change 128 with (2 ^ 7). rewrite Z.pow2_bits_eqb by lia. by apply Z.eqb_neq in n. }
  rewrite Hb, Z.testbit_eqb by lia. change (2 ^ 7) with 128.
  destruct (Z.ltb_spec z 128); [rewrite Z.div_small by lia; done|].
  replace (z / 128) with 1 by (Z.div_mod_to_equations; lia). done.
Qed.

(** One step of the loop on a byte whose low bits fit. *)
Lemma read_varint_loop_step fuel pre b rest acc shift :
  0 <= acc < 2 ^ shift -> 0 <= shift -> acc + (u8 b mod 128) * 2 ^ shift < 2 ^ 64 ->
  read_varint_loop (S fuel) (pre ++ b :: rest) (length pre) acc shift
  = let acc := acc + (u8 b mod 128) * 2 ^ shift in
    if u8 b <? 128 then Ok (acc, S (length pre))
    else if 64 <=? shift + 7 then Err varint_overflow
    else read_varint_loop fuel (pre ++ b :: rest) (S (length pre)) acc (shift + 7).
Proof.
  intros Hacc Hs Hb. simpl. rewrite list_lookup_middle by done.
  pose proof (Z.mod_pos_bound (u8 b) 128 ltac:(lia)).
  assert (Hw : wrap_u64 (Z.shiftl (Z.land (u8 b) 127) shift) = Z.shiftl (u8 b mod 128) shift).
  { rewrite land_127. apply Z.mod_small. rewrite Z.shiftl_mul_pow2 by lia. nia. }
  by rewrite Hw, lor_shift, land_128 by auto using u8_range with lia.
Qed.

(** The bytes of a value below [2 ^ (64 - shift)] are read back. *)
Lemma read_varint_loop_encode fuel n pre rest acc shift :
  0 <= acc < 2 ^ shift -> 0 <= shift < 64 -> shift + 7 * Z.of_nat fuel = 70 ->
  0 <= n -> acc + n * 2 ^ shift < 2 ^ 64 ->
  read_varint_loop fuel (pre ++ Leb128.encode_fuel fuel n ++ rest) (length pre) acc shift
  = Ok (acc + n * 2 ^ shift, (length pre + length (Leb128.encode_fuel fuel n))%nat).
Proof.
  revert n pre acc shift. induction fuel as [|fuel IH]; intros n pre acc shift Hacc Hs Hfuel Hn Hb; [lia|].
  cbn [Leb128.encode_fuel]. destruct (Z.ltb_spec n 128) as [Hlt|Hge]; cbn [app].
  - assert (u8 (of_u8 n) = n) as Hu by (rewrite u8_of_u8, Z.mod_small; lia).
    rewrite read_varint_loop_step; rewrite ?Hu, ?(Z.mod_small n 128) by lia; [|lia..].
    cbv zeta. destruct (Z.ltb_spec n 128); [|lia]. simpl. by rewrite Nat.add_1_r.
  - pose proof (Z.mod_pos_bound n 128 ltac:(lia)).
    assert (u8 (of_u8 (128 + n mod 128)) = 128 + n mod 128) as Hu by (rewrite u8_of_u8, Z.mod_small; lia).
    assert (Hm : (128 + n mod 128) mod 128 = n mod 128) by (Z.div_mod_to_equations; lia).
    assert (Hp : 0 < 2 ^ shift) by lia.
    assert (Hdiv : n = 128 * (n / 128) + n mod 128) by (apply Z.div_mod; lia).
    assert (Hs7 : 2 ^ (shift + 7) = 128 * 2 ^ shift) by (rewrite Z.pow_add_r by lia; lia).
    assert (shift + 7 < 64).
    { apply (Z.pow_lt_mono_r_iff 2); [lia..|]. rewrite Hs7. nia. }
    rewrite read_varint_loop_step; rewrite ?Hu, ?Hm; [|nia..]. cbv zeta.
    destruct (Z.ltb_spec (128 + n mod 128) 128); [lia|]. destruct (Z.leb_spec 64 (shift + 7)); [lia|].
    rewrite cons_middle, app_assoc. replace (S (length pre)) with (length (pre ++ [of_u8 (128 + n mod 128)]))
      by (rewrite length_app; simpl; lia).
    rewrite IH; [|nia..]. rewrite length_app. simpl. f_equal. f_equal; [nia|lia].
Qed.

Lemma read_varint_encode n pre rest :
  0 <= n <= u64_max ->
  read_varint (pre ++ Leb128.encode n ++ rest) (length pre)
  = Ok (n, (length pre + length (Leb128.encode n))%nat).
Proof.
  unfold u64_max. intros Hn. unfold read_varint, Leb128.encode.
  rewrite read_varint_loop_encode; [|lia..]. by rewrite Z.add_0_l, Z.mul_1_r.
Qed.

(** A varint that is read ends inside the buffer, one to ten bytes on. *)
Lemma read_varint_loop_bounds fuel buf pos acc shift v next :
  read_varint_loop fuel buf pos acc shift = Ok (v, next) ->
  (pos < next <= pos + fuel)%nat /\ (next <= length buf)%nat.
Proof.
  revert pos acc shift. induction fuel as [|fuel IH]; intros pos acc shift; cbn [read_varint_loop]; [done|].
  destruct (buf !! pos) as [b|] eqn:Hb; [|done]. apply lookup_lt_Some in Hb.
  destruct (_ =? 0); [intros [= _ <-]; lia|]. destruct (64 <=? _); [done|]. intros H%IH. lia.
Qed.

Lemma read_varint_bounds buf pos v next :
  read_varint buf pos = Ok (v, next) -> (pos < next <= pos + 10)%nat /\ (next <= length buf)%nat.
Proof. apply read_varint_loop_bounds. Qed.

Lemma skip_varints_bounds fuel buf pos count next :
  (pos <= length buf)%nat -> skip_varints fuel buf pos count = Ok next ->
  (pos <= next <= length buf)%nat.
Proof.
  revert pos count. induction fuel as [|fuel IH]; intros pos count Hp; simpl;
    (destruct (count <=? 0); [intros [= <-]; lia|]); [done|].
  intros ((v & p) & Hr & H)%bind_Ok. apply read_varint_bounds in Hr. apply IH in H; lia.
Qed.

(** The loop is the [for] of the source: the bound on its iterations is never
    what ends it. *)
Lemma skip_varints_unfold buf pos count :
  skip_varints (length buf - pos) buf pos count =
    if count <=? 0 then Ok pos
    else '(_, next) ← read_varint buf pos; skip_varints (length buf - next) buf next (count - 1).
Proof.
  enough (Hf : forall fuel fuel' pos count, (length buf - pos <= fuel)%nat -> (length buf - pos <= fuel')%nat ->
    skip_varints fuel buf pos count = skip_varints fuel' buf pos count).
  { destruct (length buf - pos)%nat as [|fuel] eqn:Hl; simpl; destruct (count <=? 0); try done.
    - unfold read_varint. simpl. by rewrite lookup_ge_None_2 by lia.
    - destruct (read_varint buf pos) as [[v next]|e] eqn:Hr; [|done]. simpl.
      apply read_varint_bounds in Hr. apply Hf; lia. }
  clear. induction fuel as [|fuel IH]; intros [|fuel'] pos count Hl Hl'; simpl; destruct (count <=? 0); try done.
  - unfold read_varint. simpl. by rewrite lookup_ge_None_2 by lia.
  - unfold read_varint. simpl. by rewrite lookup_ge_None_2 by lia.
  - destruct (read_varint buf pos) as [[v next]|e] eqn:Hr; [|done]. simpl.
    apply read_varint_bounds in Hr. apply IH; lia.
Qed.

Lemma skip_varints_encode idx pre rest :
  Forall (fun i => 0 <= i <= u64_max) idx ->
  let buf := pre ++ concat (map Leb128.encode idx) ++ rest in
  skip_varints (length buf - length pre) buf (length pre) (Z.of_nat (length idx))
  = Ok (length pre + length (concat (map Leb128.encode idx)))%nat.
Proof.
  intros Hidx. revert pre. induction Hidx as [|i idx Hi _ IH]; intros pre; cbv zeta.
  { rewrite skip_varints_unfold. simpl. by rewrite Nat.add_0_r. }
  rewrite skip_varints_unfold. destruct (Z.leb_spec (Z.of_nat (length (i :: idx))) 0); [simpl in *; lia|].
  simpl concat. rewrite <- app_assoc, read_varint_encode by done. simpl mbind.
  specialize (IH (pre ++ Leb128.encode i)). cbv zeta in IH.
  rewrite <- app_assoc, (length_app pre (Leb128.encode i)) in IH.
  replace (Z.of_nat (S (length idx)) - 1) with (Z.of_nat (length idx)) by lia.
  rewrite IH, length_app. f_equal. lia.
Qed.

Lemma decode_encode_frame id fmt payload :
  i32_min <= id <= i32_max ->
  decode_frame (encode_frame id fmt payload)
  = Ok (id, if bool_decide (fmt = Protobuf) then prepend_proto_index payload else payload).
Proof.
  intros Hid. unfold decode_frame, encode_frame, i32_to_be. simpl. rewrite i32_be_roundtrip by done. by destruct fmt.
Qed.

Lemma strip_prepend payload : strip_proto_index (prepend_proto_index payload) = Ok payload.
Proof. done. Qed.

(** ** Properties *)

(** Framing round trip: what [encode_frame] writes, [decode_frame] reads
    back, and for Protobuf the payload is what is left once the message index
    is stripped. *)
Theorem frame_roundtrip id fmt payload :
  i32_min <= id <= i32_max ->
  exists body, decode_frame (encode_frame id fmt payload) = Ok (id, body) /\
    match fmt with
    | Protobuf => body = prepend_proto_index payload /\ strip_proto_index body = Ok payload
    | _ => body = payload
    end.
Proof.
  intros Hid. eexists. split; [by apply decode_encode_frame|]. destruct fmt; simpl; auto using strip_prepend.
Qed.

(** The header carries exactly the id and the payload: a value that
    decodes is the frame of what it decodes to, and a value fails to decode
    only when it is short or starts with another magic byte. *)
Theorem decode_frame_exact bytes :
  match decode_frame bytes with
  | Ok (id, payload) => bytes = encode_frame id Avro payload /\ i32_min <= id <= i32_max
  | Err _ => (length bytes < 5)%nat \/ head bytes <> Some (of_u8 0)
  end.
Proof.
  unfold decode_frame, frame_schema_id.
  destruct bytes as [|b0 [|b1 [|b2 [|b3 [|b4 payload]]]]]; simpl; try (left; lia).
  case_bool_decide as Hb; simpl; [|right; congruence]. unfold encode_frame.
  rewrite i32_be_bytes, drop_0. simpl. split; [by rewrite Hb|].
  unfold i32_from_be, wrap_i32, i32_min, i32_max.
  pose proof (Z.mod_pos_bound (Z.shiftl (u8 b1) 24 + Z.shiftl (u8 b2) 16 + Z.shiftl (u8 b3) 8 + u8 b4 + 2 ^ 31) (2 ^ 32) ltac:(lia)).
  lia.
Qed.

(** Any message-index prefix (a count and that many indexes, each a
    64-bit varint) is stripped whole: the Protobuf payload behind it is
    returned. *)
Theorem strip_index_prefix idx payload :
  Forall (fun i => 0 <= i <= u64_max) idx -> Z.of_nat (length idx) <= u64_max ->
  strip_proto_index (Leb128.encode (Z.of_nat (length idx)) ++ concat (map Leb128.encode idx) ++ payload)
  = Ok payload.
Proof.
  intros Hidx Hlen. unfold strip_proto_index, proto_payload_start.
  pose proof (read_varint_encode (Z.of_nat (length idx)) [] (concat (map Leb128.encode idx) ++ payload) ltac:(lia)) as Hr.
  simpl in Hr. rewrite Hr. simpl. clear Hr. destruct (Z.eqb_spec (Z.of_nat (length idx)) 0) as [Hz|Hz].
  - by destruct idx.
  - pose proof (skip_varints_encode idx (Leb128.encode (Z.of_nat (length idx))) payload Hidx) as Hs.
    cbv zeta in Hs. rewrite Hs. simpl. rewrite app_assoc, <- length_app. by rewrite drop_app_length.
Qed.

(** No input makes the stripping slice out of bounds: the payload starts
    after at least one byte and not beyond the end. *)
Theorem payload_start_in_bounds payload start :
  proto_payload_start payload = Ok start -> (1 <= start <= length payload)%nat.
Proof.
  unfold proto_payload_start. intros ((count & pos) & Hr%read_varint_bounds & H)%bind_Ok.
  destruct (count =? 0); [injection H as <-; lia|]. apply skip_varints_bounds in H; lia.
Qed.

(** A ten-byte varint whose last byte carries bits beyond the 64th is
    read as if they were absent, although it overflows. *)
Theorem varint_high_bits_dropped :
  read_varint (repeat (of_u8 128) 9 ++ [of_u8 2]) 0 = Ok (0, 10%nat).
Proof. vm_compute. reflexivity. Qed.

Lemma frame_roundtrip_witness :
  exists body, decode_frame (encode_frame 42 Protobuf [of_u8 7]) = Ok (42, body) /\
    body = prepend_proto_index [of_u8 7] /\ strip_proto_index body = Ok [of_u8 7].
Proof. apply (frame_roundtrip 42 Protobuf [of_u8 7]). vm_compute; split; discriminate. Defined.

Lemma strip_index_prefix_witness :
  strip_proto_index (Leb128.encode 2 ++ (Leb128.encode 1 ++ Leb128.encode 300 ++ []) ++ [of_u8 9]) = Ok [of_u8 9].
Proof.
  apply (strip_index_prefix [1; 300] [of_u8 9]); [repeat constructor; vm_compute; discriminate|].
  vm_compute; discriminate.
Defined.

Lemma payload_start_in_bounds_witness : (1 <= 3 <= 3)%nat.
Proof. apply (payload_start_in_bounds [of_u8 1; of_u8 128; of_u8 1] 3). vm_compute. reflexivity. Defined.
