(* ===== verification/Consume.v ===== *)
(** * The consume session and its acknowledgement tracker (consume.rs)

    [PartitionAckState] is the tracker of one partition; [ConsumeSession] the
    tracker map of one group member.  [Spec] is what the tracker promises: an
    abstract state that remembers every delivered and every acknowledged offset
    and defines the committable frontier from them.  [refines] relates the two. *)

From S2P Require Import Prelude.
From S2P Require Import Types.

Definition MAX_OUTSTANDING_PER_PARTITION : Z := 100000.

Definition len (s : gset Z) : Z := Z.of_nat (size s).

Record PartitionAckState := {
  frontier : option Z;
  delivered : gset Z;
  pending : gset Z;
  last_committed_frontier : option Z;
}.

Definition PartitionAckState_default : PartitionAckState :=
  {| frontier := None; delivered := ∅; pending := ∅; last_committed_frontier := None |}.

(** [self.frontier.is_some_and(|frontier| offset <= frontier)] *)
Definition at_or_below (f : option Z) (offset : Z) : bool :=
  match f with Some f => offset <=? f | None => false end.

(** A method taking [&mut self] returns the state it leaves, also on [Err]. *)
Definition record_delivery (st : PartitionAckState) (offset : Z) : PartitionAckState * result unit unit :=
  if at_or_below (frontier st) offset then (st, Ok ())
  else if negb (bool_decide (offset ∈ delivered st))
          && (MAX_OUTSTANDING_PER_PARTITION <=? len (delivered st)) then (st, Err ())
  else
    let st :=
      match frontier st with
      | None =>
          let baseline := wrap_i64 (offset - 1) in
          {| frontier := Some baseline; delivered := delivered st; pending := pending st;
             last_committed_frontier := Some baseline |}
      | Some _ => st
      end in
    ({| frontier := frontier st; delivered := {[offset]} ∪ delivered st; pending := pending st;
        last_committed_frontier := last_committed_frontier st |}, Ok ()).

(** The [while let] loop of [drain]; an iteration removes one delivered offset. *)
Fixpoint drain_loop (fuel : nat) (st : PartitionAckState) : PartitionAckState :=
  match fuel with
  | O => st
  | S fuel =>
      match set_first (delivered st) with
      | None => st
      | Some next =>
          if bool_decide (next ∈ pending st) then
            drain_loop fuel {| frontier := Some next;
                               delivered := delivered st ∖ {[next]};
                               pending := pending st ∖ {[next]};
                               last_committed_frontier := last_committed_frontier st |}
          else st
      end
  end.

Definition drain (st : PartitionAckState) : PartitionAckState :=
  drain_loop (S (size (delivered st))) st.

Definition record_ack (st : PartitionAckState) (offset : Z) : PartitionAckState * result unit unit :=
  let '(st, seeded) :=
    match frontier st with
    | None => record_delivery st offset
    | Some _ => (st, Ok ())
    end in
  match seeded with
  | Err e => (st, Err e)
  | Ok _ =>
      if at_or_below (frontier st) offset then (st, Ok ())
      else if negb (bool_decide (offset ∈ delivered st)) then (st, Err ())
      else (drain {| frontier := frontier st; delivered := delivered st;
                     pending := {[offset]} ∪ pending st;
                     last_committed_frontier := last_committed_frontier st |}, Ok ())
  end.

Definition commit_value (st : PartitionAckState) : option Z :=
  match frontier st with
  | Some f => if bool_decide (last_committed_frontier st = Some f) then None else checked_add1 f
  | None => None
  end.

(** ** The session *)

Record ConsumeSession := {
  consumer_open : bool;  (** [consumer.is_some()] *)
  ack_tracker : gmap TopicPartition PartitionAckState;
}.

Definition with_tracker (s : ConsumeSession) (m : gmap TopicPartition PartitionAckState) : ConsumeSession :=
  {| consumer_open := consumer_open s; ack_tracker := m |}.

(** [entry((topic, partition)).or_default()] followed by a method that fails
    with [TooManyUnacked]. *)
Definition track (op : PartitionAckState -> Z -> PartitionAckState * result unit unit)
    (s : ConsumeSession) (tp : TopicPartition) (offset : Z) : ConsumeSession * result GatewayError unit :=
  if (tp.2 <? 0) || (offset <? 0) then (s, Ok ())
  else
    let '(st, r) := op (default PartitionAckState_default (ack_tracker s !! tp)) offset in
    (with_tracker s (<[tp := st]> (ack_tracker s)),
     map_err (fun _ => TooManyUnacked tp.1 tp.2 offset) r).

Definition ConsumeSession_record_delivery := track record_delivery.
Definition ConsumeSession_record_ack := track record_ack.

Definition ack_frontier (s : ConsumeSession) (tp : TopicPartition) : option Z :=
  ack_tracker s !! tp ≫= frontier.

Definition acked_offsets (m : gmap TopicPartition PartitionAckState) : gmap TopicPartition Z :=
  omap commit_value m.

Definition set_committed (st : PartitionAckState) (next_offset : Z) : PartitionAckState :=
  {| frontier := frontier st; delivered := delivered st; pending := pending st;
     last_committed_frontier := checked_sub1 next_offset |}.

(** The loop after an accepted commit. *)
Definition mark_committed (offsets : gmap TopicPartition Z) (m : gmap TopicPartition PartitionAckState)
    : gmap TopicPartition PartitionAckState :=
  map_imap (fun tp st => Some match offsets !! tp with Some o => set_committed st o | None => st end) m.

(** [commit_acked]: [owned] is the consumer's assignment and [broker] its answer
    to the commit request.  The second component is the request sent, if any. *)
Definition commit_acked (s : ConsumeSession) (owned : gset TopicPartition)
    (broker : gmap TopicPartition Z -> result ConsumerError unit)
    : ConsumeSession * option (gmap TopicPartition Z) * result GatewayError unit :=
  if negb (consumer_open s) then (s, None, Err (Other "consume session is closed"))
  else
    let m := filter (fun kv => kv.1 ∈ owned) (ack_tracker s) in
    let offsets := acked_offsets m in
    if bool_decide (offsets = ∅) then (with_tracker s m, None, Ok ())
    else
      match broker offsets with
      | Err e => (with_tracker s m, Some offsets, Err (Consumer e))
      | Ok _ => (with_tracker s (mark_committed offsets m), Some offsets, Ok ())
      end.

(** ** Polling *)

Record ConsumerRecord := {
  cr_topic : string;
  cr_partition : Z;
  cr_offset : Z;
  cr_timestamp : Z;
  cr_key : option Bytes;
  cr_value : option Bytes;
  cr_headers : list (string * option Bytes);
}.

Record DecodedConsumerRecord := {
  dr_topic : string;
  dr_partition : Z;
  dr_offset : Z;
  dr_timestamp : Z;
  dr_key : option Bytes;
  raw_value : Bytes;
  dr_value : Bytes;
  dr_headers : list (string * option Bytes);
  dr_schema : option SchemaMeta;
  dr_json : option Bytes;
}.

Definition decode_record `{RecordCodec} (r : ConsumerRecord) : result GatewayError DecodedConsumerRecord :=
  '(raw, v, schema, json) ←
    (match cr_value r with
     | Some v =>
         d ← map_err Codec (decode (cr_topic r) v);
         Ok (v, dec_value d, dec_schema d, dec_json d)
     | None => Ok ([], [], None, None)
     end);
  Ok {| dr_topic := cr_topic r; dr_partition := cr_partition r; dr_offset := cr_offset r;
        dr_timestamp := cr_timestamp r; dr_key := cr_key r; raw_value := raw; dr_value := v;
        dr_headers := cr_headers r; dr_schema := schema; dr_json := json |}.

(** [poll]: [batch] is what the consumer's own [poll] answers. *)
Definition poll `{RecordCodec} (batch : result ConsumerError (list ConsumerRecord))
    : result GatewayError (list DecodedConsumerRecord) :=
  batch ← map_err Consumer batch; try_map decode_record batch.

(** ** What the tracker promises *)

Module Spec.

(** Everything delivered and acknowledged since tracking of the partition
    began at [base], the offset before the first delivery. *)
Record t := { base : option Z; sdelivered : gset Z; sacked : gset Z }.

Definition init : t := {| base := None; sdelivered := ∅; sacked := ∅ |}.

Definition set_max (b : Z) (s : gset Z) : Z := foldr Z.max b (elements s).

(** The greatest delivered offset with no unacknowledged delivery at or below
    it, or the base. *)
Definition frontier (s : t) : option Z :=
  b ← base s;
  Some (set_max b
    match set_first (sdelivered s ∖ sacked s) with
    | None => sdelivered s
    | Some u => filter (fun o => o < u) (sdelivered s)
    end).

Definition outstanding (s : t) : gset Z :=
  match frontier s with
  | Some f => filter (fun o => f < o) (sdelivered s)
  | None => ∅
  end.

Definition deliver (s : t) (o : Z) : t * result unit unit :=
  if at_or_below (frontier s) o then (s, Ok ())
  else if bool_decide (o ∉ sdelivered s)
          && (MAX_OUTSTANDING_PER_PARTITION <=? len (outstanding s)) then (s, Err ())
  else ({| base := Some (default (o - 1) (base s));
           sdelivered := {[o]} ∪ sdelivered s; sacked := sacked s |}, Ok ()).

Definition ack (s : t) (o : Z) : t * result unit unit :=
  let s := match base s with None => (deliver s o).1 | Some _ => s end in
  if at_or_below (frontier s) o then (s, Ok ())
  else if bool_decide (o ∈ sdelivered s) then
    ({| base := base s; sdelivered := sdelivered s; sacked := {[o]} ∪ sacked s |}, Ok ())
  else (s, Err ()).

Lemma set_max_spec b (s : gset Z) m :
  set_max b s = m <-> (m = b \/ m ∈ s) /\ b <= m /\ (forall y, y ∈ s -> y <= m).
Proof.
  assert (H : let m := set_max b s in (m = b \/ m ∈ s) /\ b <= m /\ (forall y, y ∈ s -> y <= m)).
  { unfold set_max. setoid_rewrite <- (elem_of_elements s).
    induction (elements s) as [|x l (IHin & IHb & IHl)]; simpl.
    - split_and!; [by left|lia|]. intros y Hy. by apply not_elem_of_nil in Hy.
    - split_and!; [|lia|].
      + destruct (Z.max_spec x (foldr Z.max b l)) as [[_ ->]|[_ ->]];
          [ destruct IHin as [->|]; [by left|right; by right] | right; left ].
      + intros z [->|Hz]%elem_of_cons; [lia|]. specialize (IHl z Hz). lia. }
  split; [by intros <-|]. intros ([->|Hin] & Hb & Hle); destruct H as ([Hm|Hm] & Hb' & Hle');
    apply Z.le_antisymm; auto; try lia; rewrite Hm in *; auto.
Qed.

Section Frontier.
  Context (s : t) (b : Z) (Hbase : base s = Some b).

(** The frontier is the one offset that separates acknowledged deliveries from
    a first unacknowledged one. *)
Lemma frontier_intro f :
  (f = b \/ f ∈ sdelivered s) -> b <= f ->
  (forall o, o ∈ sdelivered s -> o <= f -> o ∈ sacked s) ->
  (forall o, o ∈ sdelivered s -> f < o ->
     exists u, u ∈ sdelivered s /\ (u ∉ sacked s) /\ f < u <= o) ->
  frontier s = Some f.
Proof.
  intros Hf Hb Hlow Hhigh. unfold frontier. rewrite Hbase. cbn. f_equal.
  apply set_max_spec. destruct (set_first _) as [u|] eqn:Hu.
  - apply set_first_Some in Hu as [[Hud Hua]%elem_of_difference Hmin].
    assert (f < u) by (destruct (Z.lt_ge_cases f u); [done|naive_solver]).
    split_and!; [destruct Hf; set_solver|done|].
    intros y [Hyu Hy]%elem_of_filter. destruct (Z.le_gt_cases y f) as [|Hfy]; [done|].
    destruct (Hhigh y Hy Hfy) as (v & Hv & Hva & ?).
    specialize (Hmin v ltac:(set_solver)). lia.
  - apply set_first_None in Hu. split_and!; [done..|].
    intros y Hy. destruct (Z.le_gt_cases y f) as [|Hfy]; [done|].
    destruct (Hhigh y Hy Hfy) as (v & Hv & Hva & ?). set_solver.
Qed.
End Frontier.
End Spec.

(** ** The tracker implements its specification *)

Record refines_core (st : PartitionAckState) (sp : Spec.t) (f b : Z) : Prop := {
  rc_frontier : frontier st = Some f;
  rc_base : Spec.base sp = Some b;
  rc_delivered : forall o, o ∈ delivered st <-> o ∈ Spec.sdelivered sp /\ f < o;
  rc_pending : forall o, o ∈ pending st <-> o ∈ Spec.sacked sp /\ f < o;
  rc_low : forall o, o ∈ Spec.sdelivered sp -> o <= f -> o ∈ Spec.sacked sp;
  rc_sub : Spec.sacked sp ⊆ Spec.sdelivered sp;
  rc_self : f = b \/ f ∈ Spec.sacked sp;
  rc_above : forall o, o ∈ Spec.sdelivered sp -> b < o;
  rc_le : -1 <= b <= f;
  rc_cap : len (delivered st) <= MAX_OUTSTANDING_PER_PARTITION;
  rc_committed : exists c, last_committed_frontier st = Some c /\ c <= f;
}.

(** The loop condition of [drain] fails. *)
Definition drained (st : PartitionAckState) : Prop :=
  forall m, set_first (delivered st) = Some m -> m ∉ pending st.

Definition refines (st : PartitionAckState) (sp : Spec.t) : Prop :=
  (st = PartitionAckState_default /\ sp = Spec.init)
  \/ exists f b, refines_core st sp f b /\ drained st.

Lemma len_subseteq (X Y : gset Z) : X ⊆ Y -> len X <= len Y.
Proof. unfold len. intros ?%subseteq_size. lia. Qed.

Lemma size_remove (x : Z) (X : gset Z) : x ∈ X -> (size (X ∖ {[x]}) < size X)%nat.
Proof. intros. apply subset_size. set_solver. Qed.

(** One iteration of [drain] moves the frontier to the first delivered offset. *)
Lemma drain_iteration st sp f b next :
  refines_core st sp f b -> set_first (delivered st) = Some next -> next ∈ pending st ->
  refines_core {| frontier := Some next; delivered := delivered st ∖ {[next]};
                  pending := pending st ∖ {[next]};
                  last_committed_frontier := last_committed_frontier st |} sp next b.
Proof.
  intros [Hf Hb Hd Hp Hlow Hsub Hself Habove Hle Hcap (c & Hc & ?)] [Hn Hmin]%set_first_Some Hnp.
  apply Hp in Hnp as [Hna Hnf].
  assert (Hnext : forall o, o ∈ Spec.sdelivered sp -> f < o -> next <= o) by naive_solver.
  constructor; simpl; try done; try lia.
  - intros o. rewrite elem_of_difference, Hd, elem_of_singleton. split; [|naive_solver lia].
    intros [[Ho ?] ?]. specialize (Hnext o Ho ltac:(lia)). split; [done|lia].
  - intros o. rewrite elem_of_difference, Hp, elem_of_singleton. split; [|naive_solver lia].
    intros [[Ho ?] ?]. specialize (Hnext o (Hsub _ Ho) ltac:(lia)). split; [done|lia].
  - intros o Ho ?. destruct (Z.le_gt_cases o f) as [|Hfo]; [eauto|].
    specialize (Hnext o Ho Hfo). by replace o with next by lia.
  - by right.
  - etransitivity; [apply len_subseteq|done]. set_solver.
  - exists c. split; [done|lia].
Qed.

Lemma drain_loop_refines fuel st sp f b :
  (size (delivered st) < fuel)%nat -> refines_core st sp f b ->
  exists f', f <= f' /\ refines_core (drain_loop fuel st) sp f' b /\ drained (drain_loop fuel st).
Proof.
  revert st f. induction fuel as [|fuel IH]; [lia|]. intros st f Hsz Hr. simpl.
  destruct (set_first (delivered st)) as [next|] eqn:Hn.
  - case_bool_decide as Hp.
    + pose proof (drain_iteration _ _ _ _ _ Hr Hn Hp) as Hr'.
      pose proof Hn as [Hin _]%set_first_Some.
      pose proof (size_remove next (delivered st) Hin).
      apply IH in Hr' as (f' & ? & ?); [|simpl; lia].
      exists f'. split; [|done]. apply (rc_delivered _ _ _ _ Hr) in Hin as [_ ?]. lia.
    + exists f. split_and!; [lia|done|]. intros m Hm. rewrite Hn in Hm. by injection Hm as <-.
  - exists f. split_and!; [lia|done|]. intros m Hm. by rewrite Hn in Hm.
Qed.

Lemma refines_frontier st sp : refines st sp -> frontier st = Spec.frontier sp.
Proof.
  intros [[-> ->]|(f & b & [Hf Hb Hd Hp Hlow Hsub Hself Habove Hle Hcap _] & Hdr)]; [done|].
  rewrite Hf. symmetry. apply (Spec.frontier_intro _ b); [done|naive_solver|lia|done|].
  intros o Ho Hfo. destruct (set_first (delivered st)) as [u|] eqn:Hu.
  - pose proof (Hdr u Hu) as Hnp. apply set_first_Some in Hu as [[Hud ?]%Hd Hmin].
    exists u. split_and!; [done|naive_solver|done|apply Hmin, Hd; done].
  - apply set_first_None in Hu. exfalso. apply (not_elem_of_empty (C:=gset Z) o).
    rewrite <- Hu. by apply Hd.
Qed.

Lemma refines_outstanding st sp : refines st sp -> delivered st = Spec.outstanding sp.
Proof.
  intros Hr. unfold Spec.outstanding. rewrite <- (refines_frontier _ _ Hr).
  destruct Hr as [[-> ->]|(f & b & [Hf _ Hd _ _ _ _ _ _ _ _] & _)]; [done|].
  rewrite Hf. apply set_eq. intros o. rewrite elem_of_filter, Hd. tauto.
Qed.

Definition is_offset (o : Z) : Prop := 0 <= o <= i64_max.

(** The relation of a state and a result on both sides. *)
Definition refines_res (x : PartitionAckState * result unit unit) (y : Spec.t * result unit unit) : Prop :=
  refines x.1 y.1 /\ x.2 = y.2.

Lemma refines_seed o :
  is_offset o ->
  refines_core {| frontier := Some (o - 1); delivered := {[o]} ∪ ∅; pending := ∅;
                  last_committed_frontier := Some (o - 1) |}
               {| Spec.base := Some (o - 1); Spec.sdelivered := {[o]} ∪ ∅; Spec.sacked := ∅ |}
               (o - 1) (o - 1).
Proof.
  intros Ho. constructor; simpl; [done|done|..].
  - intros o'. rewrite elem_of_union, elem_of_singleton. set_solver by lia.
  - set_solver.
  - intros o' [->%elem_of_singleton|?]%elem_of_union; [lia|set_solver].
  - set_solver.
  - left. done.
  - intros o' [->%elem_of_singleton|?]%elem_of_union; [lia|set_solver].
  - unfold is_offset in Ho. lia.
  - unfold len. rewrite union_empty_r_L, size_singleton. by vm_compute.
  - eexists. split; [done|lia].
Qed.

Lemma refines_insert st sp f b o :
  refines_core st sp f b -> f < o ->
  (o ∈ delivered st \/ len (delivered st) < MAX_OUTSTANDING_PER_PARTITION) ->
  refines_core {| frontier := frontier st; delivered := {[o]} ∪ delivered st; pending := pending st;
                  last_committed_frontier := last_committed_frontier st |}
               {| Spec.base := Some b; Spec.sdelivered := {[o]} ∪ Spec.sdelivered sp;
                  Spec.sacked := Spec.sacked sp |} f b.
Proof.
  intros [Hf Hb Hd Hp Hlow Hsub Hself Habove Hle Hcap Hc] Hfo Hroom. constructor; simpl; try done.
  - intros o'. rewrite !elem_of_union, !elem_of_singleton, Hd. naive_solver.
  - intros o' [->%elem_of_singleton|?]%elem_of_union; [lia|eauto].
  - set_solver.
  - intros o' [->%elem_of_singleton|?]%elem_of_union; [lia|eauto].
  - destruct Hroom as [Hin|Hroom].
    + replace ({[o]} ∪ delivered st) with (delivered st) by set_solver. done.
    + unfold len in *. rewrite size_union_alt, size_singleton.
      pose proof (subseteq_size (delivered st ∖ {[o]}) (delivered st) ltac:(set_solver)). lia.
Qed.

Lemma drained_insert st sp f b o :
  refines_core st sp f b -> drained st ->
  drained {| frontier := frontier st; delivered := {[o]} ∪ delivered st; pending := pending st;
             last_committed_frontier := last_committed_frontier st |}.
Proof.
  intros Hr Hdr m [Hm Hmin]%set_first_Some Hmp; simpl in *.
  assert (Hmd : m ∈ delivered st).
  { apply (rc_pending _ _ _ _ Hr) in Hmp as [Ha ?]. apply (rc_delivered _ _ _ _ Hr).
    split; [by apply (rc_sub _ _ _ _ Hr)|done]. }
  apply (Hdr m); [|done]. apply set_first_Some. split; [done|]. intros y Hy. apply Hmin. set_solver.
Qed.

Lemma record_delivery_refines st sp o :
  is_offset o -> refines st sp -> refines_res (record_delivery st o) (Spec.deliver sp o).
Proof.
  intros Ho Hr. unfold record_delivery, Spec.deliver, refines_res.
  rewrite <- (refines_outstanding _ _ Hr), <- (refines_frontier _ _ Hr).
  destruct (at_or_below (frontier st) o) eqn:Hab; [done|].
  destruct Hr as [[-> ->]|(f & b & Hr & Hdr)]; simpl.
  - split; [|done]. right. exists (o - 1), (o - 1).
    rewrite wrap_i64_id by (unfold is_offset, i64_min in *; lia). split; [by apply refines_seed|].
    intros m _; simpl. apply not_elem_of_empty.
  - pose proof (rc_frontier _ _ _ _ Hr) as Hf. rewrite Hf in Hab |- *. simpl in Hab. bool_prop.
    assert (Hmem : o ∈ delivered st <-> o ∈ Spec.sdelivered sp).
    { rewrite (rc_delivered _ _ _ _ Hr). tauto. }
    assert (negb (bool_decide (o ∈ delivered st)) = bool_decide (o ∉ Spec.sdelivered sp)) as ->.
    { rewrite <- bool_decide_not. apply bool_decide_ext. by rewrite Hmem. }
    case_match eqn:Hfull; [split; [right; eauto|done]|].
    split; [|done]. right. exists f, b. rewrite (rc_base _ _ _ _ Hr). simpl.
    split; [|by eapply drained_insert].
    apply refines_insert; [done|lia|]. apply andb_false_iff in Hfull as [?|?]; bool_prop; [left|right; done].
    apply Hmem. by apply dec_stable.
Qed.

Lemma refines_ack st sp f b o :
  refines_core st sp f b -> f < o -> o ∈ delivered st ->
  refines_core {| frontier := frontier st; delivered := delivered st; pending := {[o]} ∪ pending st;
                  last_committed_frontier := last_committed_frontier st |}
               {| Spec.base := Spec.base sp; Spec.sdelivered := Spec.sdelivered sp;
                  Spec.sacked := {[o]} ∪ Spec.sacked sp |} f b.
Proof.
  intros [Hf Hb Hd Hp Hlow Hsub Hself Habove Hle Hcap Hc] Hfo Hin. constructor; simpl; try done.
  - intros o'. rewrite !elem_of_union, !elem_of_singleton, Hp. naive_solver.
  - set_solver.
  - set_solver.
  - set_solver.
Qed.

(** The branch of [record_ack] that both sides take once the base is known. *)
Lemma record_ack_seeded st sp f b o :
  refines_core st sp f b -> drained st -> is_offset o ->
  refines_res (record_ack st o) (Spec.ack sp o).
Proof.
  intros Hr Hdr Ho. unfold record_ack, Spec.ack, refines_res.
  assert (Hrf : refines st sp) by (right; eauto).
  rewrite (rc_frontier _ _ _ _ Hr), (rc_base _ _ _ _ Hr), <- (refines_frontier _ _ Hrf).
  rewrite (rc_frontier _ _ _ _ Hr). simpl. destruct (Z.leb_spec o f) as [|Hfo]; [done|].
  assert (Hmem : o ∈ delivered st <-> o ∈ Spec.sdelivered sp).
  { rewrite (rc_delivered _ _ _ _ Hr). tauto. }
  rewrite <- (bool_decide_ext _ _ Hmem). case_bool_decide as Hin; simpl; [|done].
  split; [|done]. pose proof (refines_ack _ _ _ _ _ Hr Hfo Hin) as Hr'.
  rewrite (rc_frontier _ _ _ _ Hr) in Hr'.
  eapply drain_loop_refines in Hr' as (f' & _ & Hr' & Hdr'); [|by apply Nat.lt_succ_diag_r].
  right. exists f', b. by split.
Qed.

Lemma record_ack_refines st sp o :
  is_offset o -> refines st sp -> refines_res (record_ack st o) (Spec.ack sp o).
Proof.
  intros Ho Hr. destruct (Hr) as [[-> ->]|(f & b & Hr' & Hdr)]; [|by eapply record_ack_seeded].
  pose proof (record_delivery_refines _ _ o Ho Hr) as [Hd _].
  assert (Hseed : record_ack (record_delivery PartitionAckState_default o).1 o
                  = record_ack PartitionAckState_default o) by done.
  assert (Hseed' : Spec.ack (Spec.deliver Spec.init o).1 o = Spec.ack Spec.init o) by done.
  rewrite <- Hseed, <- Hseed'. destruct Hd as [[Hd _]|(f & b & Hr' & Hdr)]; [done|].
  by eapply record_ack_seeded.
Qed.

(** ** Sessions as sequences of calls *)

(** What a stream does with its session: it reports a delivery, reports an
    acknowledgement, or commits while owning [owned]. *)
Inductive event :=
| EDeliver (tp : TopicPartition) (offset : Z)
| EAck (tp : TopicPartition) (offset : Z)
| ECommit (owned : gset TopicPartition) (broker : gmap TopicPartition Z -> result ConsumerError unit).

(** The offset argument is an [i64]. *)
Definition event_ok (e : event) : Prop :=
  match e with
  | EDeliver _ o | EAck _ o => i64_min <= o <= i64_max
  | ECommit _ _ => True
  end.

Definition session_step (s : ConsumeSession) (e : event) : ConsumeSession :=
  match e with
  | EDeliver tp o => (ConsumeSession_record_delivery s tp o).1
  | EAck tp o => (ConsumeSession_record_ack s tp o).1
  | ECommit owned broker => (commit_acked s owned broker).1.1
  end.

Definition session_new : ConsumeSession := {| consumer_open := true; ack_tracker := ∅ |}.
Definition session_run (es : list event) : ConsumeSession := foldl session_step session_new es.

Definition spec_track (op : Spec.t -> Z -> Spec.t * result unit unit)
    (g : gmap TopicPartition Spec.t) (tp : TopicPartition) (o : Z) : gmap TopicPartition Spec.t :=
  if (tp.2 <? 0) || (o <? 0) then g else <[tp := (op (default Spec.init (g !! tp)) o).1]> g.

Definition spec_step (g : gmap TopicPartition Spec.t) (e : event) : gmap TopicPartition Spec.t :=
  match e with
  | EDeliver tp o => spec_track Spec.deliver g tp o
  | EAck tp o => spec_track Spec.ack g tp o
  | ECommit owned _ => filter (fun kv => kv.1 ∈ owned) g
  end.

Definition spec_run (es : list event) : gmap TopicPartition Spec.t := foldl spec_step ∅ es.

Definition srefines (m : gmap TopicPartition PartitionAckState) (g : gmap TopicPartition Spec.t) : Prop :=
  forall tp, option_Forall2 refines (m !! tp) (g !! tp).

Lemma refines_default m g tp :
  srefines m g -> refines (default PartitionAckState_default (m !! tp)) (default Spec.init (g !! tp)).
Proof. intros H. destruct (H tp); simpl; [done|by left]. Qed.

Lemma track_refines op spop s g tp o :
  (forall st sp, is_offset o -> refines st sp -> refines_res (op st o) (spop sp o)) ->
  i64_min <= o <= i64_max -> srefines (ack_tracker s) g ->
  srefines (ack_tracker (track op s tp o).1) (spec_track spop g tp o).
Proof.
  intros Hop Ho Hs. unfold track, spec_track. destruct (_ || _) eqn:Hneg; [done|]. bool_prop.
  pose proof (Hop _ _ ltac:(split; lia) (refines_default _ _ tp Hs)) as [Hr _].
  destruct (op _ o) as [st r]; simpl in *. intros tp'.
  destruct (decide (tp = tp')) as [->|];
    [rewrite !lookup_insert_eq; by constructor | rewrite !lookup_insert_ne by done; apply Hs].
Qed.

Lemma commit_value_Some st c :
  commit_value st = Some c <->
  frontier st = Some (c - 1) /\ last_committed_frontier st <> Some (c - 1) /\ c <= i64_max /\ i64_min <= c.
Proof.
  unfold commit_value. destruct (frontier st) as [f|]; [|naive_solver].
  case_bool_decide as Hl; [naive_solver|]. unfold checked_add1, try_i64. rewrite try_range_Some.
  split; [intros [-> ?]|intros ([= ->] & ?)]; rewrite ?Z.add_simpl_r;
    split_and?; try done; lia.
Qed.

Lemma set_committed_refines st sp c :
  refines st sp -> commit_value st = Some c -> refines (set_committed st c) sp.
Proof.
  intros Hr (Hf & _ & Hmax & Hmin)%commit_value_Some.
  destruct Hr as [[-> ->]|(f & b & [Hf' Hb Hd Hp Hlow Hsub Hself Habove Hle Hcap (c' & Hc & ?)] & Hdr)]; [done|].
  rewrite Hf in Hf'. injection Hf' as <-. right. exists (c - 1), b. split; [|done].
  constructor; try done. simpl. exists (c - 1). split; [|lia].
  apply try_range_Some. unfold i64_min, i64_max in *. lia.
Qed.

Lemma commit_acked_refines s g owned broker :
  srefines (ack_tracker s) g -> consumer_open s = true ->
  srefines (ack_tracker (commit_acked s owned broker).1.1) (filter (fun kv => kv.1 ∈ owned) g).
Proof.
  intros Hs Hopen. unfold commit_acked. rewrite Hopen. simpl.
  set (m := filter _ (ack_tracker s)).
  assert (Hm : srefines m (filter (fun kv => kv.1 ∈ owned) g)).
  { intros tp. unfold m. pose proof (Hs tp) as Ht.
    destruct (ack_tracker s !! tp) as [st|] eqn:E1, (g !! tp) as [sp|] eqn:E2; inversion Ht; subst.
    - destruct (decide (tp ∈ owned)).
      + rewrite (map_lookup_filter_Some_2 _ _ tp st), (map_lookup_filter_Some_2 _ _ tp sp) by done.
        by constructor.
      + rewrite !map_lookup_filter_None_2; [constructor|right; naive_solver..].
    - rewrite !map_lookup_filter_None_2; [constructor|by left..]. }
  case_bool_decide; [done|]. destruct (broker _); [|done]. intros tp. simpl.
  unfold mark_committed. rewrite map_lookup_imap. pose proof (Hm tp) as Ht.
  destruct (m !! tp) as [st|] eqn:E1; inversion Ht as [? sp Hr|]; subst; [|constructor]. simpl.
  constructor. unfold acked_offsets. rewrite lookup_omap, E1. simpl.
  destruct (commit_value st) as [c|] eqn:Hc; simpl; [by apply set_committed_refines|done].
Qed.

Lemma session_step_open s e : consumer_open (session_step s e) = consumer_open s.
Proof.
  destruct e; simpl; unfold ConsumeSession_record_delivery, ConsumeSession_record_ack, track, commit_acked;
    repeat case_match; done.
Qed.

Lemma session_run_refines es :
  Forall event_ok es ->
  srefines (ack_tracker (session_run es)) (spec_run es) /\ consumer_open (session_run es) = true.
Proof.
  induction es as [|e es IH] using rev_ind; [intros _; split; [intros tp; constructor|done]|].
  intros [Hes [He _]%Forall_cons]%Forall_app. destruct (IH Hes) as [Hs Hopen].
  unfold session_run, spec_run in *. rewrite !foldl_app. simpl. split; [|by rewrite session_step_open].
  destruct e; simpl in He |- *.
  - apply track_refines; [intros; by apply record_delivery_refines|done|done].
  - apply track_refines; [intros; by apply record_ack_refines|done|done].
  - by apply commit_acked_refines.
Qed.

(** The request [commit_acked] builds from the owned part of the tracker. *)
Definition request (s : ConsumeSession) (owned : gset TopicPartition) : gmap TopicPartition Z :=
  acked_offsets (filter (fun kv => kv.1 ∈ owned) (ack_tracker s)).

Lemma request_lookup s owned tp :
  tp ∈ owned -> request s owned !! tp = ack_tracker s !! tp ≫= commit_value.
Proof.
  intros Hown. unfold request, acked_offsets. rewrite lookup_omap.
  destruct (ack_tracker s !! tp) as [st|] eqn:Hst; simpl.
  - by rewrite (map_lookup_filter_Some_2 _ _ tp st).
  - by rewrite map_lookup_filter_None_2 by (by left).
Qed.

Lemma request_Some s owned tp c :
  request s owned !! tp = Some c ->
  tp ∈ owned /\ exists st, ack_tracker s !! tp = Some st /\ commit_value st = Some c.
Proof.
  unfold request, acked_offsets. rewrite lookup_omap.
  intros (st & [Hst Hown]%map_lookup_filter_Some & Hc)%bind_Some. eauto.
Qed.

Lemma commit_acked_sent s owned broker req :
  (commit_acked s owned broker).1.2 = Some req -> req = request s owned.
Proof.
  unfold commit_acked. fold (request s owned). destruct (consumer_open s); [|done]. simpl.
  case_bool_decide; [done|]. by destruct (broker _); intros [= <-].
Qed.

Lemma commit_acked_request s owned broker tp c :
  consumer_open s = true -> request s owned !! tp = Some c ->
  (commit_acked s owned broker).1.2 = Some (request s owned).
Proof.
  intros Hopen Hc. unfold commit_acked. rewrite Hopen. fold (request s owned). simpl.
  case_bool_decide as He; [by rewrite He in Hc|]. by destruct (broker _).
Qed.

(** A request's offset for a partition is the successor of its frontier, and
    what it covers is acknowledged. *)
Lemma request_covers es owned tp c :
  Forall event_ok es -> request (session_run es) owned !! tp = Some c ->
  tp ∈ owned /\ exists sp, spec_run es !! tp = Some sp /\ Spec.frontier sp = Some (c - 1) /\
    forall o, o ∈ Spec.sdelivered sp -> o < c -> o ∈ Spec.sacked sp.
Proof.
  intros [Hs Hopen]%session_run_refines (Hown & st & Hst & Hc)%request_Some.
  split; [done|]. pose proof (Hs tp) as Ht. rewrite Hst in Ht. inversion Ht as [? sp Hr Hsp|]; subst.
  apply commit_value_Some in Hc as (Hf & _). exists sp.
  split_and!; [done|by rewrite <- (refines_frontier _ _ Hr)|].
  destruct Hr as [[-> ->]|(f & b & Hr & _)]; [done|]. intros o Ho Hlt.
  rewrite (rc_frontier _ _ _ _ Hr) in Hf. injection Hf as ->. apply (rc_low _ _ _ _ Hr); [done|lia].
Qed.

(** ** Properties *)

(** C13.  At-least-once: whatever a stream delivers, acknowledges and commits, a
    commit request names only partitions the member owns, and the offset it
    carries for one is the successor of the abstract frontier, so that every
    tracked delivery below it has been acknowledged. *)
Theorem commit_only_acknowledged es owned broker req tp c :
  Forall event_ok es ->
  (commit_acked (session_run es) owned broker).1.2 = Some req -> req !! tp = Some c ->
  tp ∈ owned /\ exists sp, spec_run es !! tp = Some sp /\ Spec.frontier sp = Some (c - 1) /\
    forall o, o ∈ Spec.sdelivered sp -> o < c -> o ∈ Spec.sacked sp.
Proof. intros Hes ->%commit_acked_sent. by apply request_covers. Qed.

(** C27.  Progress: once every tracked delivery of an owned partition is
    acknowledged, the tracker holds nothing for it and the next commit carries
    the successor of the last delivered offset, unless that one is already
    committed or is [i64::MAX]. *)
Theorem all_acked_commits es owned broker tp sp m :
  Forall event_ok es -> spec_run es !! tp = Some sp -> tp ∈ owned ->
  Spec.sdelivered sp ⊆ Spec.sacked sp -> m ∈ Spec.sdelivered sp ->
  (forall o, o ∈ Spec.sdelivered sp -> o <= m) -> m < i64_max ->
  exists st, ack_tracker (session_run es) !! tp = Some st /\ delivered st = ∅ /\
    (last_committed_frontier st = Some m \/
     exists req, (commit_acked (session_run es) owned broker).1.2 = Some req /\ req !! tp = Some (m + 1)).
Proof.
  intros [Hs Hopen]%session_run_refines Hsp Hown Hall Hm Hmax Hlt.
  pose proof (Hs tp) as Ht. rewrite Hsp in Ht. inversion Ht as [st ? Hr Hst|]; subst.
  exists st. split; [done|]. destruct Hr as [[-> ->]|(f & b & Hr & Hdr)]; [by apply not_elem_of_empty in Hm|].
  assert (He : delivered st = ∅).
  { apply set_first_None. destruct (set_first (delivered st)) as [u|] eqn:Hu; [|done].
    destruct (Hdr u Hu). apply set_first_Some in Hu as [[??]%(rc_delivered _ _ _ _ Hr) _].
    apply (rc_pending _ _ _ _ Hr). auto. }
  assert (f = m) as ->.
  { pose proof (rc_delivered _ _ _ _ Hr m) as Hd. rewrite He in Hd.
    destruct (Z.lt_ge_cases f m); [set_solver|].
    destruct (rc_self _ _ _ _ Hr) as [->|Hf]; [|apply (rc_sub _ _ _ _ Hr), Hmax in Hf; lia].
    pose proof (rc_above _ _ _ _ Hr m Hm). lia. }
  split; [done|]. destruct (decide (last_committed_frontier st = Some m)) as [|Hl]; [by left|right].
  assert (Hreq : request (session_run es) owned !! tp = Some (m + 1)).
  { rewrite request_lookup, <- Hst by done. apply commit_value_Some. rewrite Z.add_simpl_r.
    pose proof (rc_le _ _ _ _ Hr). split_and!; [apply (rc_frontier _ _ _ _ Hr)|done|lia|unfold i64_min; lia]. }
  exists (request (session_run es) owned). split; [by eapply commit_acked_request|done].
Qed.

(** C14.  Refinement: on every sequence of calls the tracker map agrees with
    the abstract one: a partition is tracked by both or by neither, its
    frontier is the abstract frontier, the delivered set is the outstanding
    deliveries, and there are at most 100,000 of these. *)
Theorem tracker_refines es tp :
  Forall event_ok es ->
  ack_frontier (session_run es) tp = spec_run es !! tp ≫= Spec.frontier /\
  match ack_tracker (session_run es) !! tp, spec_run es !! tp with
  | Some st, Some sp => delivered st = Spec.outstanding sp
                        /\ len (delivered st) <= MAX_OUTSTANDING_PER_PARTITION
                        /\ pending st = Spec.outstanding sp ∩ Spec.sacked sp
  | None, None => True
  | _, _ => False
  end.
Proof.
  intros [Hs _]%session_run_refines. unfold ack_frontier.
  destruct (Hs tp) as [st sp Hr|]; simpl; [|done].
  rewrite <- (refines_outstanding _ _ Hr). split; [by apply refines_frontier|].
  destruct Hr as [[-> ->]|(f & b & Hr & _)]; [done|].
  split_and!; [done|apply (rc_cap _ _ _ _ Hr)|]. apply set_eq. intros o.
  rewrite elem_of_intersection, (rc_pending _ _ _ _ Hr), (rc_delivered _ _ _ _ Hr).
  pose proof (rc_sub _ _ _ _ Hr o). tauto.
Qed.

Lemma commit_value_committed st sp c :
  refines st sp -> commit_value st = Some c -> commit_value (set_committed st c) = None.
Proof.
  intros Hr (Hf & _ & Hmax & _)%commit_value_Some. unfold commit_value, set_committed. simpl. rewrite Hf.
  assert (checked_sub1 c = Some (c - 1)) as ->; [|by rewrite bool_decide_eq_true_2].
  destruct Hr as [[-> ->]|(f & b & Hr & _)]; [done|].
  rewrite (rc_frontier _ _ _ _ Hr) in Hf. injection Hf as ->. pose proof (rc_le _ _ _ _ Hr).
  apply try_range_Some. unfold i64_min, i64_max in *. lia.
Qed.

Lemma filter_owned_idem {A} (m : gmap TopicPartition A) (owned : gset TopicPartition) :
  filter (fun kv => kv.1 ∈ owned) (filter (fun kv => kv.1 ∈ owned) m)
  = filter (fun kv => kv.1 ∈ owned) m.
Proof. rewrite map_filter_filter. apply map_filter_ext. naive_solver. Qed.

Lemma request_retained s owned m :
  m = filter (fun kv => kv.1 ∈ owned) (ack_tracker s) ->
  request (with_tracker s m) owned = request s owned.
Proof. intros ->. unfold request. simpl. by rewrite filter_owned_idem. Qed.

Lemma request_committed s g owned m :
  srefines (ack_tracker s) g -> m = filter (fun kv => kv.1 ∈ owned) (ack_tracker s) ->
  request (with_tracker s (mark_committed (request s owned) m)) owned = ∅.
Proof.
  intros Hs ->. apply map_eq. intros tp. rewrite lookup_empty. apply eq_None_not_Some.
  intros (c & (Hown & st' & Hst' & Hc)%request_Some). simpl in Hst'.
  unfold mark_committed in Hst'. rewrite map_lookup_imap in Hst'.
  apply bind_Some in Hst' as (st & [Hst _]%map_lookup_filter_Some & [= <-]).
  rewrite request_lookup, Hst in Hc by done. simpl in Hc.
  pose proof (Hs tp) as Ht. rewrite Hst in Ht. inversion Ht as [? sp Hr|]; subst.
  destruct (commit_value st) as [c'|] eqn:Hcv; [|congruence].
  by rewrite (commit_value_committed _ _ _ Hr Hcv) in Hc.
Qed.

Lemma commit_acked_cases s owned broker :
  consumer_open s = true -> 
  let m := filter (fun kv => kv.1 ∈ owned) (ack_tracker s) in
  commit_acked s owned broker =
    if bool_decide (request s owned = ∅) then (with_tracker s m, None, Ok ())
    else match broker (request s owned) with
         | Ok _ => (with_tracker s (mark_committed (request s owned) m), Some (request s owned), Ok ())
         | Err e => (with_tracker s m, Some (request s owned), Err (Consumer e))
         end.
Proof. unfold commit_acked. intros ->. simpl. fold (request s owned). case_bool_decide; [done|]. by destruct (broker _). Qed.

(** A commit the broker accepts leaves nothing to commit: an immediate
    second one sends no request.  A commit the broker refuses reports the error
    and changes no frontier: the next one sends the same request. *)
Theorem commit_retry es owned broker broker' req :
  Forall event_ok es -> (commit_acked (session_run es) owned broker).1.2 = Some req ->
  let s' := (commit_acked (session_run es) owned broker).1.1 in
  match broker req with
  | Ok _ => (commit_acked s' owned broker').1.2 = None
  | Err e => (commit_acked (session_run es) owned broker).2 = Err (Consumer e)
             /\ (commit_acked s' owned broker').1.2 = Some req
  end.
Proof.
  intros [Hs Hopen]%session_run_refines. rewrite commit_acked_cases by done.
  case_bool_decide as He; [done|]. intros Hsent.
  assert (req = request (session_run es) owned) as -> by (destruct (broker _); by injection Hsent).
  destruct (broker _) as [[]|e]; simpl; rewrite commit_acked_cases by done.
  - by rewrite bool_decide_eq_true_2 by (by eapply request_committed).
  - rewrite request_retained, bool_decide_eq_false_2 by done. split; [done|]. by destruct (broker' _).
Qed.

(** The loop of [drain] terminates: more iterations than delivered
    offsets change nothing. *)
Theorem drain_terminates fuel st :
  (size (delivered st) < fuel)%nat -> drain_loop fuel st = drain st /\ drained (drain st).
Proof.
  unfold drain. enough (Hn : forall n fuel st, (size (delivered st) < fuel)%nat ->
    (size (delivered st) < n)%nat -> drain_loop fuel st = drain_loop n st /\ drained (drain_loop n st)).
  { intros. apply Hn; lia. }
  clear. induction n as [|n IH]; [lia|]. intros [|fuel] st Hf Hn; [lia|]. simpl.
  unfold drained at 1. destruct (set_first (delivered st)) as [next|] eqn:Hnext;
    [|split; [done|intros m Hm; congruence]].
  case_bool_decide; [|split; [done|intros m Hm; congruence]].
  pose proof Hnext as [Hin _]%set_first_Some. pose proof (size_remove _ _ Hin).
  apply IH; simpl; lia.
Qed.

(** [f] is not below what [st] was at. *)
Definition advanced (st st' : PartitionAckState) : Prop :=
  forall f, frontier st = Some f -> exists f', frontier st' = Some f' /\ f <= f'.

Lemma record_delivery_advanced st o : advanced st (record_delivery st o).1.
Proof.
  intros f Hf. exists f. split; [|lia]. unfold record_delivery. rewrite Hf. by repeat case_match.
Qed.

Lemma record_ack_advanced st sp o : refines st sp -> advanced st (record_ack st o).1.
Proof.
  intros Hr f Hf. unfold record_ack. rewrite Hf. simpl. rewrite Hf. simpl.
  destruct (Z.leb_spec o f) as [|Hfo]; [exists f; simpl; split; [done|lia]|].
  case_bool_decide as Hin; simpl; [|exists f; split; [done|lia]].
  destruct Hr as [[-> _]|(f0 & b & Hr & _)]; [done|].
  pose proof (rc_frontier _ _ _ _ Hr) as Hf0. rewrite Hf in Hf0. injection Hf0 as <-.
  pose proof (refines_ack _ _ _ _ _ Hr Hfo Hin) as Hr'. rewrite Hf in Hr'.
  eapply drain_loop_refines in Hr' as (f' & ? & Hr' & _); [|by apply Nat.lt_succ_diag_r].
  exists f'. split; [apply (rc_frontier _ _ _ _ Hr')|done].
Qed.

Lemma track_advanced op s tp' o tp f :
  (forall st, ack_tracker s !! tp = Some st -> advanced st (op st o).1) ->
  ack_frontier s tp = Some f ->
  exists f', ack_frontier (track op s tp' o).1 tp = Some f' /\ f <= f'.
Proof.
  unfold ack_frontier, track. intros Hop (st & Hst & Hf)%bind_Some.
  destruct (_ || _); [exists f; simpl; rewrite Hst; by split; [|lia]|].
  destruct (decide (tp' = tp)) as [->|Hne].
  - rewrite Hst. simpl. destruct (Hop _ Hst f Hf) as (f' & Hf' & ?).
    destruct (op st o); simpl in *. rewrite lookup_insert_eq. eauto.
  - destruct (op _ o); simpl. rewrite lookup_insert_ne by done. rewrite Hst. simpl. eauto with lia.
Qed.

Lemma commit_frontier s owned broker tp :
  consumer_open s = true ->
  ack_frontier (commit_acked s owned broker).1.1 tp
  = if decide (tp ∈ owned) then ack_frontier s tp else None.
Proof.
  intros Hopen. rewrite commit_acked_cases by done. unfold ack_frontier.
  assert (Hm : (filter (fun kv => kv.1 ∈ owned) (ack_tracker s) !! tp) ≫= frontier
    = if decide (tp ∈ owned) then ack_tracker s !! tp ≫= frontier else None).
  { case_decide as Hown; [|rewrite map_lookup_filter_None_2; [done|naive_solver]].
    destruct (ack_tracker s !! tp) as [st|] eqn:Hst;
      [by rewrite (map_lookup_filter_Some_2 _ _ tp st)|by rewrite map_lookup_filter_None_2 by (by left)]. }
  case_bool_decide; [done|]. destruct (broker _); [|done]. simpl. rewrite <- Hm.
  unfold mark_committed. rewrite map_lookup_imap. destruct (filter _ _ !! tp); [|done].
  simpl. by destruct (request s owned !! tp).
Qed.

(** The frontier of a partition never moves back.  Only a commit during
    which the member does not own the partition drops it. *)
Theorem frontier_monotone es e tp f :
  Forall event_ok es -> ack_frontier (session_run es) tp = Some f ->
  match ack_frontier (session_run (es ++ [e])) tp with
  | Some f' => f <= f'
  | None => exists owned broker, e = ECommit owned broker /\ tp ∉ owned
  end.
Proof.
  intros [Hs Hopen]%session_run_refines Hf. unfold session_run in *. rewrite foldl_app. simpl.
  set (s := foldl _ _ es) in *. destruct e as [tp' o|tp' o|owned broker];
    unfold session_step, ConsumeSession_record_delivery, ConsumeSession_record_ack.
  - destruct (track_advanced record_delivery s tp' o tp f) as (f' & -> & ?); [|done..].
    intros. apply record_delivery_advanced.
  - destruct (track_advanced record_ack s tp' o tp f) as (f' & -> & ?); [|done..].
    intros st Hst. specialize (Hs tp). rewrite Hst in Hs. inversion Hs; subst.
    by eapply record_ack_advanced.
  - rewrite commit_frontier by done. case_decide; [rewrite Hf; lia|eauto].
Qed.

(** ** A concrete session

    Offsets 5, 6 and 9 of a compacted partition are delivered, 6 and 5
    acknowledged. *)
Definition orders0 : TopicPartition := ("orders", 0).
Definition sample : list event :=
  [EDeliver orders0 5; EDeliver orders0 6; EDeliver orders0 9; EAck orders0 6; EAck orders0 5].

Lemma sample_ok : Forall event_ok sample.
Proof. repeat constructor; vm_compute; discriminate. Qed.

Lemma commit_only_acknowledged_witness :
  orders0 ∈ ({[orders0]} : gset TopicPartition) /\
  exists sp, spec_run sample !! orders0 = Some sp /\ Spec.frontier sp = Some 6 /\
    forall o, o ∈ Spec.sdelivered sp -> o < 7 -> o ∈ Spec.sacked sp.
Proof.
  apply (commit_only_acknowledged sample {[orders0]} (fun _ => Ok ()) {[orders0 := 7]} orders0 7 sample_ok);
    vm_compute; reflexivity.
Defined.

Definition all_acked : list event := sample ++ [EAck orders0 9].

Lemma all_acked_ok : Forall event_ok all_acked.
Proof. repeat constructor; vm_compute; discriminate. Qed.

Lemma all_acked_commits_witness :
  exists st, ack_tracker (session_run all_acked) !! orders0 = Some st /\ delivered st = ∅ /\
    (last_committed_frontier st = Some 9 \/
     exists req, (commit_acked (session_run all_acked) {[orders0]} (fun _ => Ok ())).1.2 = Some req
                 /\ req !! orders0 = Some 10).
Proof.
  apply (all_acked_commits all_acked {[orders0]} (fun _ => Ok ()) orders0
    {| Spec.base := Some 4; Spec.sdelivered := {[5; 6; 9]}; Spec.sacked := {[5; 6; 9]} |} 9 all_acked_ok);
    [vm_compute; reflexivity|set_solver|done|set_solver| |vm_compute; reflexivity].
  intros o Ho. set_solver by lia.
Defined.

Lemma tracker_refines_witness :
  ack_frontier (session_run sample) orders0 = spec_run sample !! orders0 ≫= Spec.frontier.
Proof. exact (proj1 (tracker_refines sample orders0 sample_ok)). Defined.

Lemma commit_retry_witness :
  (commit_acked (commit_acked (session_run sample) {[orders0]} (fun _ => Ok ())).1.1
     {[orders0]} (fun _ => Ok ())).1.2 = None.
Proof.
  refine (commit_retry sample {[orders0]} (fun _ => Ok ()) (fun _ => Ok ()) {[orders0 := 7]} sample_ok _).
  vm_compute; reflexivity.
Defined.

Lemma drain_terminates_witness :
  drained (drain {| frontier := Some 4; delivered := {[5; 6]}; pending := {[5]};
                    last_committed_frontier := Some 4 |}).
Proof.
  apply (drain_terminates 3 {| frontier := Some 4; delivered := {[5; 6]}; pending := {[5]};
                               last_committed_frontier := Some 4 |}). vm_compute. lia.
Defined.

Lemma frontier_monotone_witness : 6 <= 9.
Proof.
  assert (Hf : ack_frontier (session_run sample) orders0 = Some 6) by (vm_compute; reflexivity).
  pose proof (frontier_monotone sample (EAck orders0 9) orders0 6 sample_ok Hf) as H.
  vm_compute in H. exact H.
Defined.
