(* ===== verification/Membership.v ===== *)
(** * Membership and owner routing (dedup/membership.rs)

    Each replica publishes the dedup partitions it owns to a compacted topic
    with one partition and folds that topic into a routing table.  A [HashMap]
    is iterated in an unspecified order: [values] is that order, and the
    theorems hold for all of them. *)

From stdpp Require Import sorting.
From S2P Require Import Prelude.
From S2P Require Import RustStr.
From S2P Require Import Types.

Record NodeInfo := {
  advertised_addr : string;
  owned : list Z;
  epoch : Z;
}.

Record NodeEntry := { info : NodeInfo; offset : Z }.

Record MembershipStore := {
  nodes : gmap string NodeEntry;
  routing : gmap Z string;
}.

Definition MembershipStore_new : MembershipStore := {| nodes := ∅; routing := ∅ |}.

Definition owner_of (s : MembershipStore) (p : Z) : option string := routing s !! p.

(** One iteration of the inner loop of [rebuild]. *)
Definition claim_slot (entry : NodeEntry) (best : gmap Z (Z * string)) (p : Z) : gmap Z (Z * string) :=
  let slot := default (i64_min, EmptyString) (best !! p) in
  <[p := if slot.1 <=? offset entry then (offset entry, advertised_addr (info entry)) else slot]> best.

Definition claim_slots (best : gmap Z (Z * string)) (entry : NodeEntry) : gmap Z (Z * string) :=
  foldl (claim_slot entry) best (owned (info entry)).

Section Rebuild.
  Context (values : gmap string NodeEntry -> list NodeEntry).

Definition rebuild (s : MembershipStore) : MembershipStore :=
  {| nodes := nodes s; routing := snd <$> foldl claim_slots ∅ (values (nodes s)) |}.

Definition apply (s : MembershipStore) (node_id : string) (i : option NodeInfo) (o : Z) : MembershipStore :=
  rebuild {| nodes := match i with
                      | Some i => <[node_id := {| info := i; offset := o |}]> (nodes s)
                      | None => delete node_id (nodes s)
                      end;
             routing := routing s |}.

(** One record of the loop of [run_membership_with_policy]. *)
Definition membership_record `{Serde NodeInfo} (s : MembershipStore)
    (key value : option Bytes) (o : Z) : MembershipStore :=
  match key with
  | None => s
  | Some key_bytes =>
      let node_id := from_utf8_lossy key_bytes in
      match value with
      | None => apply s node_id None o
      | Some v =>
          match from_slice v with
          | Some i => apply s node_id (Some i) o
          | None => s
          end
      end
  end.

(** The polling loop: each poll answers a batch or fails; [None] is the
    shutdown. The error ends the loop and is returned. *)
Fixpoint run_membership `{Serde NodeInfo} (s : MembershipStore)
    (polls : list (result ConsumerError (list (option Bytes * option Bytes * Z))))
    : MembershipStore * result GatewayError unit :=
  match polls with
  | [] => (s, Ok ())
  | Err e :: _ => (s, Err (Consumer e))
  | Ok batch :: polls =>
      run_membership (foldl (fun s r => membership_record s r.1.1 r.1.2 r.2) s batch) polls
  end.
End Rebuild.

(** ** The publisher *)

Record MembershipPublisher := {
  node_id : string;
  pub_advertised_addr : string;
  membership_topic : string;
  pub_epoch : Z;
}.

(** [sort_unstable] of the distinct elements of a set is its sorted list. *)
Definition sorted_elements (s : gset Z) : list Z := merge_sort Z.le (elements s).

(** [publish] up to the [send]: the next state and the record sent. *)
Definition publish `{Serde NodeInfo} (p : MembershipPublisher) (own : gset Z)
    : MembershipPublisher * result GatewayError ProducerRecord :=
  let i := {| advertised_addr := pub_advertised_addr p; owned := sorted_elements own; epoch := pub_epoch p |} in
  ({| node_id := node_id p; pub_advertised_addr := pub_advertised_addr p;
      membership_topic := membership_topic p; pub_epoch := wrap_u64 (pub_epoch p + 1) |},
   v ← map_err Claim (to_vec i);
   Ok {| pr_topic := membership_topic p; pr_partition := None; pr_key := Some (as_bytes (node_id p));
         pr_value := Some v; pr_headers := []; pr_timestamp_ms := None |}).

(** ** The routing table *)

(** [e] claims [p]. *)
Definition claims (e : NodeEntry) (p : Z) : Prop := p ∈ owned (info e).

(** [best] holds, for [p], the claim of the entries [l] with the highest
    offset. *)
Definition is_best (l : list NodeEntry) (p : Z) (b : option (Z * string)) : Prop :=
  match b with
  | None => forall e, e ∈ l -> ~ claims e p
  | Some (o, a) =>
      (exists e, e ∈ l /\ claims e p /\ offset e = o /\ advertised_addr (info e) = a)
      /\ forall e, e ∈ l -> claims e p -> offset e <= o
  end.

Definition beat (e : NodeEntry) (slot : Z * string) : Z * string :=
  if slot.1 <=? offset e then (offset e, advertised_addr (info e)) else slot.

Lemma beat_idem e slot : beat e (beat e slot) = beat e slot.
Proof.
  unfold beat. destruct (Z.leb_spec slot.1 (offset e)); simpl; [by rewrite Z.leb_refl|].
  destruct (Z.leb_spec slot.1 (offset e)); [lia|done].
Qed.

Lemma claim_slots_lookup e ps best p :
  foldl (claim_slot e) best ps !! p
  = if decide (p ∈ ps) then Some (beat e (default (i64_min, EmptyString) (best !! p))) else best !! p.
Proof.
  revert best. induction ps as [|q ps IH]; intros best; cbn [foldl].
  { case_decide as H; [by apply not_elem_of_nil in H|done]. }
  rewrite IH. unfold claim_slot. fold (beat e (default (i64_min, EmptyString) (best !! q))).
  destruct (decide (q = p)) as [->|Hne].
  - rewrite lookup_insert_eq. simpl. rewrite beat_idem. rewrite (decide_True (P:=p ∈ p :: ps)) by left.
    by case_decide.
  - rewrite lookup_insert_ne by done. destruct (decide (p ∈ ps)).
    + by rewrite decide_True by (by right).
    + by rewrite decide_False by set_solver.
Qed.

Lemma elem_of_snoc {A} (x y : A) l : x ∈ l ++ [y] <-> x ∈ l \/ x = y.
Proof. rewrite elem_of_app, list_elem_of_singleton. done. Qed.

#[export] Instance claims_dec e p : Decision (claims e p).
Proof. unfold claims. apply _. Defined.

Lemma is_best_snoc l e p b :
  is_best l p b -> i64_min <= offset e ->
  is_best (l ++ [e]) p (if decide (claims e p) then Some (beat e (default (i64_min, EmptyString) b)) else b).
Proof.
  intros Hb He. case_decide as Hc.
  - unfold beat. destruct (Z.leb_spec (default (i64_min, EmptyString) b).1 (offset e)) as [Hle|Hlt].
    + simpl. setoid_rewrite elem_of_snoc. split; [by exists e; split; [right|]|]. intros e' [Hin| ->] Hc'; [|lia].
      destruct b as [[o a]|]; [|by destruct (Hb e' Hin)]. simpl in Hle. pose proof (proj2 Hb e' Hin Hc'). lia.
    + destruct b as [[o a]|]; simpl in Hlt |- *; [|lia]. setoid_rewrite elem_of_snoc. destruct Hb as [(e0 & Hin & He0) Hmax].
      split; [exists e0; split; [by left|done]|]. intros e' [Hin'| ->] Hc'; [by apply Hmax|lia].
  - destruct b as [[o a]|]; simpl; setoid_rewrite elem_of_snoc.
    + destruct Hb as [(e0 & Hin & He0) Hmax]. split; [exists e0; split; [by left|done]|].
      intros e' [Hin'| ->] Hc'; [by apply Hmax|done].
    + intros e' [Hin| ->]; [by apply Hb|done].
Qed.

Lemma rebuild_best l p :
  Forall (fun e => i64_min <= offset e) l -> is_best l p (foldl claim_slots ∅ l !! p).
Proof.
  induction l as [|e l IH] using rev_ind; intros Hl.
  { cbn [foldl]. rewrite lookup_empty. intros e He. by apply not_elem_of_nil in He. }
  apply Forall_app in Hl as [Hl [He _]%Forall_cons].
  rewrite foldl_app. cbn [foldl]. unfold claim_slots at 1. rewrite claim_slots_lookup.
  apply (is_best_snoc _ e) in IH; [|done..]. done.
Qed.

(** ** Reading the topic *)

Section Topic.
  Context `{Serde NodeInfo}.
  (** The topic's one partition: the key and value at each offset. *)
  Context (topic : gmap Z (option Bytes * option Bytes)).
  Context (values : gmap string NodeEntry -> list NodeEntry).
  Hypothesis values_perm : forall m, values m ≡ₚ (map_to_list m).*2.
  Hypothesis topic_offsets : forall o r, topic !! o = Some r -> i64_min <= o <= i64_max.

(** The records at [offsets], as a reader sees them: in order, and again from
    the start after each seek. *)
Definition read_topic (offsets : list Z) : MembershipStore :=
  foldl (fun s o => match topic !! o with
                    | Some (k, v) => membership_record values s k v o
                    | None => s
                    end) MembershipStore_new offsets.

(** The table is the one [rebuild] computes, and an entry is the record at its
    offset. *)
Definition membership_inv (s : MembershipStore) : Prop :=
  routing s = snd <$> foldl claim_slots ∅ (values (nodes s)) /\
  forall n e, nodes s !! n = Some e -> exists kb v,
    topic !! offset e = Some (Some kb, Some v) /\ from_utf8_lossy kb = n /\ from_slice v = Some (info e).

Lemma membership_record_inv s k v o :
  topic !! o = Some (k, v) -> membership_inv s -> membership_inv (membership_record values s k v o).
Proof.
  intros Ho [Hr Hn]. unfold membership_record. destruct k as [kb|]; [|done].
  assert (Hins : forall i', match i' with Some i => exists v', v = Some v' /\ from_slice v' = Some i | None => True end ->
    membership_inv (apply values s (from_utf8_lossy kb) i' o)).
  { intros i' Hi. split; [done|]. simpl. intros n e. destruct i' as [i|]; [|intros [_ ?]%lookup_delete_Some; eauto].
    intros [[<- <-]|[_ ?]]%lookup_insert_Some; [|eauto]. destruct Hi as (v' & -> & ?). simpl. eauto. }
  destruct v as [v|]; [|by apply Hins]. destruct (from_slice v) as [i|] eqn:Hv; [|done]. apply Hins. eauto.
Qed.

Lemma read_topic_inv offsets : membership_inv (read_topic offsets).
Proof.
  unfold read_topic. induction offsets as [|o os IH] using rev_ind.
  - simpl. split; [simpl|intros n e; simpl; by rewrite lookup_empty].
    assert (values ∅ = []) as -> by (apply Permutation_nil_r; by rewrite values_perm, map_to_list_empty). done.
  - rewrite foldl_app. cbn [foldl]. destruct (topic !! o) as [[k v]|] eqn:Ho; [|done].
    by apply membership_record_inv.
Qed.

Lemma values_elem m e : e ∈ values m <-> exists n, m !! n = Some e.
Proof.
  rewrite values_perm, list_elem_of_fmap. split.
  - intros ([n e'] & -> & Hin). exists n. by apply elem_of_map_to_list.
  - intros (n & Hn). exists (n, e). split; [done|]. by apply elem_of_map_to_list.
Qed.

(** Whatever is read of the topic, in whatever order and however often
    repeated, and in whatever order the node map is iterated, a partition is
    routed to [a] exactly when [a] is the address of the claimant whose record
    has the highest offset, and every other claimant's offset is lower. *)
Theorem routing_latest_claim offsets p a :
  let s := read_topic offsets in
  owner_of s p = Some a <->
  exists n e, nodes s !! n = Some e /\ claims e p /\ advertised_addr (info e) = a /\
    forall n' e', nodes s !! n' = Some e' -> n' <> n -> claims e' p -> offset e' < offset e.
Proof.
  cbv zeta. destruct (read_topic_inv offsets) as [Hr Hn]. set (s := read_topic offsets) in *.
  assert (Hbest : is_best (values (nodes s)) p (foldl claim_slots ∅ (values (nodes s)) !! p)).
  { apply rebuild_best, Forall_forall. intros e (n & He)%values_elem.
    destruct (Hn _ _ He) as (? & ? & Ht & _). apply topic_offsets in Ht as [? _]. done. }
  unfold owner_of. rewrite Hr, lookup_fmap. split.
  - destruct (_ !! p) as [[o a']|] eqn:Hb; [|done]. simpl. intros [= ->].
    destruct Hbest as [(e & (n & He)%values_elem & Hc & <- & <-) Hmax].
    exists n, e. split_and!; [done..|]. intros n' e' He' Hne Hc'.
    specialize (Hmax e' ltac:(apply values_elem; eauto) Hc'). apply Z.le_neq. split; [done|]. intros Heq.
    destruct (Hn _ _ He) as (? & ? & Ht & Hk & _), (Hn _ _ He') as (? & ? & Ht' & Hk' & _).
    rewrite Heq in Ht'. rewrite Ht in Ht'. injection Ht' as -> ->. congruence.
  - intros (n & e & He & Hc & <- & Hmax). destruct (_ !! p) as [[o a']|] eqn:Hb.
    + simpl. f_equal. destruct Hbest as [(e' & (n' & He')%values_elem & Hc' & <- & <-) Hmax'].
      specialize (Hmax' e ltac:(apply values_elem; eauto) Hc).
      destruct (decide (n' = n)) as [->|Hne]; [congruence|]. specialize (Hmax n' e' He' Hne Hc'). lia.
    + exfalso. apply (Hbest e); [apply values_elem; eauto|done].
Qed.
End Topic.

(** A replica that reads a publication newer than all it knows routes
    every published partition to the publisher's address. *)
Theorem publish_routes `{Serde NodeInfo} values (s : MembershipStore) (pub : MembershipPublisher)
    (own : gset Z) rec o p :
  (forall m, values m ≡ₚ (map_to_list m).*2) ->
  is_utf8 (as_bytes (node_id pub)) = true -> (publish pub own).2 = Ok rec ->
  i64_min <= o -> (forall n e, nodes s !! n = Some e -> i64_min <= offset e < o) -> p ∈ own ->
  owner_of (membership_record values s (pr_key rec) (pr_value rec) o) p = Some (pub_advertised_addr pub).
Proof.
  intros Hperm Hutf Hpub Hmin Hnew Hp. unfold publish in Hpub. simpl in Hpub. res_inv.
  destruct (to_vec _) as [v|] eqn:Hv; [|done]. simpl in H0. res_inv. simpl.
  rewrite from_utf8_lossy_valid, (from_to_vec _ _ Hv) by done. unfold owner_of, apply, rebuild. simpl.
  set (e := {| info := _; offset := o |}). set (m := <[node_id pub := e]> (nodes s)).
  assert (Hent : forall e', e' ∈ values m -> e' = e \/ i64_min <= offset e' < o).
  { intros e' (n & [[_ <-]|[_ ?]]%lookup_insert_Some)%(values_elem _ Hperm); eauto. }
  assert (Hbest : is_best (values m) p (foldl claim_slots ∅ (values m) !! p)).
  { apply rebuild_best, Forall_forall. intros e' [->|?]%Hent; [done|lia]. }
  rewrite lookup_fmap.
  assert (He : e ∈ values m) by (apply (values_elem _ Hperm); exists (node_id pub); apply lookup_insert_eq).
  assert (Hc : claims e p) by (unfold claims; simpl; unfold sorted_elements; rewrite merge_sort_Permutation; by apply elem_of_elements).
  destruct (_ !! p) as [[o' a]|]; [|by destruct (Hbest e He)]. simpl. f_equal.
  destruct Hbest as [(e' & He' & _ & <- & <-) Hmax]. specialize (Hmax e He Hc). simpl in Hmax.
  apply Hent in He' as [->|?]; [done|lia].
Qed.

(** ** A concrete topic *)

#[export] Instance NodeInfo_eq_dec : EqDecision NodeInfo.
Proof. solve_decision. Defined.
#[export] Instance NodeInfo_countable : Countable NodeInfo.
Proof.
  refine (inj_countable' (fun i => (advertised_addr i, owned i, epoch i))
                         (fun x => {| advertised_addr := x.1.1; owned := x.1.2; epoch := x.2 |}) _).
  by intros [].
Defined.

Definition map_values (m : gmap string NodeEntry) : list NodeEntry := (map_to_list m).*2.

(** Node [a] claims partitions 0 and 1, then [b] claims 1. *)
Definition sample_topic : gmap Z (option Bytes * option Bytes) :=
  let rec_of pub own := match (publish (H:=countable_serde) pub own).2 with
                        | Ok r => (pr_key r, pr_value r) | Err _ => (None, None) end in
  {[ 0 := rec_of {| node_id := "a"; pub_advertised_addr := "a:9000"; membership_topic := "m"; pub_epoch := 0 |} {[0; 1]};
     1 := rec_of {| node_id := "b"; pub_advertised_addr := "b:9000"; membership_topic := "m"; pub_epoch := 0 |} {[1]} ]}.

Lemma routing_latest_claim_witness :
  let s := read_topic (H:=countable_serde) sample_topic map_values [0; 1; 0] in
  owner_of s 1 = Some "b:9000" /\ exists n e, nodes s !! n = Some e /\ claims e 1
    /\ advertised_addr (info e) = "b:9000"
    /\ forall n' e', nodes s !! n' = Some e' -> n' <> n -> claims e' 1 -> offset e' < offset e.
Proof.
  cbv zeta. assert (Ho : owner_of (read_topic (H:=countable_serde) sample_topic map_values [0; 1; 0]) 1 = Some "b:9000")
    by (vm_compute; reflexivity).
  split; [exact Ho|].
  refine (proj1 (routing_latest_claim (H:=countable_serde) sample_topic map_values _ _ [0; 1; 0] 1 "b:9000") Ho).
  - reflexivity.
  - unfold sample_topic. intros o r. rewrite lookup_insert_Some, lookup_singleton_Some.
    intros [[<- _]|[_ [<- _]]]; vm_compute; split; discriminate.
Defined.

Lemma publish_routes_witness :
  owner_of (membership_record (H:=countable_serde) map_values MembershipStore_new
     (Some (as_bytes "a")) (Some (bits_of (countable.encode
        {| advertised_addr := "a:9000"; owned := [3]; epoch := 0 |}))) 7) 3 = Some "a:9000".
Proof.
  apply (publish_routes (H:=countable_serde) map_values MembershipStore_new
    {| node_id := "a"; pub_advertised_addr := "a:9000"; membership_topic := "m"; pub_epoch := 0 |} {[3]}
    {| pr_topic := "m"; pr_partition := None; pr_key := Some (as_bytes "a");
       pr_value := Some (bits_of (countable.encode {| advertised_addr := "a:9000"; owned := [3]; epoch := 0 |}));
       pr_headers := []; pr_timestamp_ms := None |} 7 3).
  - reflexivity.
  - vm_compute; reflexivity.
  - vm_compute; reflexivity.
  - vm_compute; discriminate.
  - intros n e He. simpl in He. by rewrite lookup_empty in He.
  - set_solver.
Defined.
