(* ===== verification/Dedup.v ===== *)
(** * The deduplication store and engine of one replica (dedup/mod.rs, dedup/store.rs)

    The claim map with its ownership and warm-up gates, the rebalance listener
    and polling loop that maintain it, and the transactional write of a keyed
    record.  What the Kafka clients answer is an argument of each operation. *)

From S2P Require Import Prelude.
From S2P Require Import RustStr.
From S2P Require Import Types.

(** ** Partitioning *)

Definition fnv_offset : Z := 0xcbf29ce484222325.
Definition fnv_prime : Z := 0x00000100000001b3.

Definition fnv1a (bytes : Bytes) : Z :=
  foldl (fun hash b => wrap_u64 (Z.lxor hash (u8 b) * fnv_prime)) fnv_offset bytes.

(** The assertions of [partition_for] and of the two constructors. *)
Definition partitions_ok (partitions : Z) : bool := (0 <? partitions) && (partitions <=? i32_max).

Definition partition_for (key : string) (partitions : Z) : Z := fnv1a (as_bytes key) mod partitions.

(** ** The store *)

Record ClaimValue := {
  claim_topic : string;
  claim_partition : Z;
  claim_offset : Z;
}.
#[export] Instance ClaimValue_eq_dec : EqDecision ClaimValue.
Proof. solve_decision. Defined.

Record DedupStore := {
  claim_map : gmap string ClaimValue;
  partitions : Z;
  owned : gset Z;
  warm : bool;
  warmed_once : bool;
  restart_required : bool;
  warmup_empty_polls : Z;
  empty_polls : Z;
}.

(** [None] is the panic of the assertions. *)
Definition DedupStore_new (n warmup : Z) : option DedupStore :=
  if partitions_ok n then
    Some {| claim_map := ∅; partitions := n; owned := ∅; warm := false; warmed_once := false;
            restart_required := false; warmup_empty_polls := warmup; empty_polls := 0 |}
  else None.

Definition owns (s : DedupStore) (p : Z) : bool := bool_decide (p ∈ owned s).
Definition is_warm (s : DedupStore) : bool := warm s && negb (restart_required s).
Definition has_warmed_once (s : DedupStore) : bool := warmed_once s.
Definition get (s : DedupStore) (key : string) : option ClaimValue := claim_map s !! key.

Definition set_map (s : DedupStore) (m : gmap string ClaimValue) : DedupStore :=
  {| claim_map := m; partitions := partitions s; owned := owned s; warm := warm s; warmed_once := warmed_once s;
     restart_required := restart_required s; warmup_empty_polls := warmup_empty_polls s;
     empty_polls := empty_polls s |}.
Definition set_gates (s : DedupStore) (o : gset Z) (w w1 r : bool) (e : Z) : DedupStore :=
  {| claim_map := claim_map s; partitions := partitions s; owned := o; warm := w; warmed_once := w1;
     restart_required := r; warmup_empty_polls := warmup_empty_polls s; empty_polls := e |}.

Definition require_restart (s : DedupStore) : DedupStore :=
  set_gates s (owned s) false (warmed_once s) true (empty_polls s).
Definition apply (s : DedupStore) (key : string) (c : ClaimValue) : DedupStore :=
  set_map s (<[key := c]> (claim_map s)).

(** ** Assignment changes *)

Definition update_assignment (s : DedupStore) (assigned : gset Z) : DedupStore :=
  let revoked := owned s ∖ assigned in
  let s := set_gates s assigned false (warmed_once s) (restart_required s) 0 in
  if bool_decide (revoked = ∅) then s
  else set_map s (filter (fun kv => partition_for kv.1 (partitions s) ∉ revoked) (claim_map s)).

Definition clear_warm (s : DedupStore) : DedupStore :=
  set_gates s (owned s) false (warmed_once s) (restart_required s) (empty_polls s).

Abbreviation ReplayOffsets := (gmap TopicPartition Z) (only parsing).

(** [on_partitions_revoked] up to the release of the producers: the store and
    the replay targets it leaves. *)
Definition on_partitions_revoked (s : DedupStore) (parts : list TopicPartition)
    : DedupStore * ReplayOffsets :=
  let s := clear_warm s in
  let o := foldl (fun (o : gset Z) tp => match try_u32 tp.2 with Some p => o ∖ {[p]} | None => o end) (owned s) parts in
  (update_assignment s o, ∅).

(** [on_partitions_assigned] once the engine has fenced ([prepared]): the new
    [parts] are sought to their beginning ([sought]), then the end offsets of
    the consumer's whole assignment are taken as the replay targets. *)
Definition on_partitions_assigned (s : DedupStore) (targets : ReplayOffsets) (topic : string)
    (prepared : result GatewayError unit) (parts : list TopicPartition) (sought : result GatewayError unit)
    (assignment : list TopicPartition)
    (end_offsets : list TopicPartition -> result GatewayError ReplayOffsets)
    : DedupStore * ReplayOffsets * result GatewayError unit :=
  let s := clear_warm s in
  match (_ ← prepared; match parts with [] => Ok () | _ => sought end) with
  | Err e => (s, targets, Err e)
  | Ok _ =>
      let assigned := filter (fun tp : TopicPartition => tp.1 = topic) assignment in
      match end_offsets assigned with
      | Err e => (s, targets, Err e)
      | Ok ends =>
          if negb (Z.of_nat (size ends) =? Z.of_nat (length assigned)) then (s, targets, Err Unavailable)
          else (update_assignment s (list_to_set (omap (fun tp : TopicPartition => try_u32 tp.2) assigned)), ends, Ok ())
      end
  end.

Definition replay_complete (targets positions : ReplayOffsets) : bool :=
  bool_decide (targets ≠ ∅)
  && forallb (fun x => match positions !! x.1 with Some position => x.2 <=? position | None => false end)
       (map_to_list targets).

(** ** The ownership loop *)

Record ClaimRecord := {
  rec_partition : Z;
  rec_key : option Bytes;
  rec_value : option Bytes;
}.

Definition ownership_record `{Serde ClaimValue} (s : DedupStore) (r : ClaimRecord) : DedupStore :=
  match try_u32 (rec_partition r) with
  | Some p =>
      if owns s p then
        match rec_key r with
        | None => s
        | Some key_bytes =>
            let key := from_utf8_lossy key_bytes in
            match rec_value r with
            | None => set_map s (delete key (claim_map s))
            | Some value =>
                match from_slice value with
                | Some claim => set_map s (<[key := claim]> (claim_map s))
                | None => s
                end
            end
        end
      else s
  | None => s
  end.

(** One turn of the loop of [run_ownership_with_policy] after a poll; [position]
    is the consumer's answer for a partition. *)
Definition ownership_turn `{Serde ClaimValue} (s : DedupStore) (targets : ReplayOffsets)
    (batch : list ClaimRecord) (position : TopicPartition -> result ConsumerError Z)
    : DedupStore * result GatewayError unit :=
  if restart_required s then (s, Err Unavailable)
  else
    let polls := match batch with [] => Z.min u32_max (empty_polls s + 1) | _ => 0 end in
    let s := set_gates s (owned s) (warm s) (warmed_once s) (restart_required s) polls in
    let s := foldl ownership_record s batch in
    if negb (is_warm s) && (warmup_empty_polls s <=? polls) then
      match try_map (fun tp => p ← position tp; Ok (tp, p)) (map_to_list targets).*1 with
      | Err e => (s, Err (Consumer e))
      | Ok positions =>
          if replay_complete targets (list_to_map positions)
          then (set_gates s (owned s) true true (restart_required s) (empty_polls s), Ok ())
          else (s, Ok ())
      end
    else (s, Ok ()).

(** What the loop leaves when it ends. *)
Definition ownership_exit (s : DedupStore) : DedupStore :=
  set_map (set_gates s ∅ false (warmed_once s) (restart_required s) (empty_polls s)) ∅.

(** ** The engine

    A slot holds the producer of one dedup partition, named by the epoch its
    [init_transactions] obtained; the mutex around it is in the callers. *)

Abbreviation Slot := (option Z) (only parsing).

(** [prepare_partitions]; [init p] is what building and initialising the
    producer of [p] answers.  An index beyond the slots panics in the source:
    the assignment is of the dedup topic, which has one partition per slot. *)
Fixpoint prepare_partitions (init : Z -> result ProducerError Z) (slots : gmap Z Z)
    (parts : list TopicPartition) : gmap Z Z * result GatewayError unit :=
  match parts with
  | [] => (slots, Ok ())
  | tp :: parts =>
      match try_u32 tp.2 with
      | None => (slots, Err Unavailable)
      | Some p =>
          match init p with
          | Err e => (delete p slots, Err (Producer e))
          | Ok e => prepare_partitions init (<[p := e]> slots) parts
          end
      end
  end.

Definition release_partitions (slots : gmap Z Z) (parts : list TopicPartition) : gmap Z Z :=
  foldl (fun slots tp => if 0 <=? tp.2 then delete tp.2 slots else slots) slots parts.

(** [to_producer_record] of produce.rs. *)
Definition to_producer_record (rec : GatewayRecord) (v : Bytes) : ProducerRecord :=
  {| pr_topic := topic rec; pr_partition := partition rec; pr_key := key rec; pr_value := Some v;
     pr_headers := headers rec; pr_timestamp_ms := timestamp_ms rec |}.

Definition claim_record (dedup_topic key : string) (p : Z) (v : Bytes) : ProducerRecord :=
  {| pr_topic := dedup_topic; pr_partition := Some p; pr_key := Some (as_bytes key); pr_value := Some v;
     pr_headers := []; pr_timestamp_ms := None |}.

Definition hit (c : ClaimValue) : RecordOutcome :=
  {| out_partition := claim_partition c; out_offset := claim_offset c; deduplicated := true |}.

(** What the producer of a slot answers during one request. *)
Record TxnAnswers := {
  ans_init : result ProducerError Z;
  ans_begin : result ProducerError unit;
  ans_send : ProducerRecord -> result ProducerError RecordMetadata;
  ans_commit : result ProducerError unit;
  ans_abort : result ProducerError unit;
}.

(** The two gates a request passes, the second time under the slot's lock:
    [Some] is the answer that ends the request. *)
Definition gate (s : DedupStore) (key : string) (p : Z) : result GatewayError (option RecordOutcome) :=
  if negb (owns s p) || negb (is_warm s) then Err Unavailable
  else Ok (hit <$> get s key).

Definition txn_begin (s : DedupStore) (slot : Slot) (a : TxnAnswers)
    : DedupStore * Slot * result GatewayError unit :=
  match (match slot with Some e => Ok e | None => ans_init a end) with
  | Err e => (s, None, Err (Producer e))
  | Ok e =>
      match ans_begin a with
      | Ok _ => (s, Some e, Ok ())
      | Err err =>
          (match err with RecoveryRequired => require_restart s | _ => s end, Some e, Err (Producer err))
      end
  end.

(** The [async] block: the data record, then the claim that names it. *)
Definition txn_send `{Serde ClaimValue} (dedup_topic : string) (rec : GatewayRecord) (v : Bytes)
    (key : string) (p : Z) (a : TxnAnswers) : result GatewayError (RecordMetadata * ClaimValue) :=
  meta ← map_err Producer (ans_send a (to_producer_record rec v));
  let claim := {| claim_topic := topic rec; claim_partition := md_partition meta; claim_offset := md_offset meta |} in
  body ← map_err Claim (to_vec claim);
  _ ← map_err Producer (ans_send a (claim_record dedup_topic key p body));
  Ok (meta, claim).

(** An abort that fails leaves the outcome unknown. *)
Definition settle_abort (s : DedupStore) (a : TxnAnswers) : DedupStore :=
  match ans_abort a with Ok _ => s | Err _ => require_restart s end.

Definition txn_end (s : DedupStore) (key : string) (sent : result GatewayError (RecordMetadata * ClaimValue))
    (a : TxnAnswers) : DedupStore * result GatewayError RecordOutcome :=
  match sent with
  | Err e => (settle_abort s a, Err e)
  | Ok (meta, claim) =>
      match ans_commit a with
      | Err e => (settle_abort s a, Err (Producer e))
      | Ok _ => (apply s key claim,
                 Ok {| out_partition := md_partition meta; out_offset := md_offset meta; deduplicated := false |})
      end
  end.

Definition txn_write `{Serde ClaimValue} (s : DedupStore) (slot : Slot) (dedup_topic : string)
    (rec : GatewayRecord) (v : Bytes) (key : string) (p : Z) (a : TxnAnswers)
    : DedupStore * Slot * result GatewayError RecordOutcome :=
  let '(s, slot, begun) := txn_begin s slot a in
  match begun with
  | Err e => (s, slot, Err e)
  | Ok _ =>
      let '(s, r) := txn_end s key (txn_send dedup_topic rec v key p a) a in
      (s, slot, r)
  end.

(** [dedup_produce] with the store as it is before and after the wait for the
    slot: [locked] is the store at that time. *)
Definition dedup_produce `{Serde ClaimValue} (s : DedupStore) (locked : DedupStore) (slot : Slot)
    (dedup_topic : string) (rec : GatewayRecord) (v : Bytes) (a : TxnAnswers)
    : DedupStore * Slot * result GatewayError RecordOutcome :=
  match idempotency_key rec with
  | None => (s, slot, Err (Other "dedup_produce called without idempotency_key"))
  | Some key =>
      let p := partition_for key (partitions s) in
      match gate s key p with
      | Err e => (s, slot, Err e)
      | Ok (Some o) => (s, slot, Ok o)
      | Ok None =>
          match gate locked key p with
          | Err e => (locked, slot, Err e)
          | Ok (Some o) => (locked, slot, Ok o)
          | Ok None =>
              let '(s, slot, r) := txn_write locked slot dedup_topic rec v key p a in
              (s, match r with Ok _ => slot | Err _ => None end, r)
          end
      end
  end.

(** ** Lemmas on one replica *)

Lemma partition_for_range k n : 0 < n -> 0 <= partition_for k n < n.
Proof. intros. apply Z.mod_pos_bound. lia. Qed.

(** A claim record as the engine writes it is applied by the reader. *)
Lemma ownership_record_claim `{Serde ClaimValue} s p k c v :
  0 <= p <= u32_max -> is_utf8 (as_bytes k) = true -> to_vec c = Ok v -> owns s p = true ->
  ownership_record s {| rec_partition := p; rec_key := Some (as_bytes k); rec_value := Some v |} = apply s k c.
Proof.
  intros Hp Hk Hv Ho. unfold ownership_record. cbn [rec_partition rec_key rec_value].
  assert (try_u32 p = Some p) as -> by (by apply try_range_Some).
  by rewrite Ho, from_utf8_lossy_valid, (from_to_vec _ _ Hv) by done.
Qed.

Lemma gate_Ok s k p o :
  gate s k p = Ok o <-> owns s p = true /\ is_warm s = true /\ o = hit <$> claim_map s !! k.
Proof.
  unfold gate, get. destruct (owns s p), (is_warm s); simpl; naive_solver.
Qed.

(** The three ways a request succeeds. *)
Lemma dedup_produce_Ok `{Serde ClaimValue} s locked slot dt rec v a s' slot' o :
  dedup_produce s locked slot dt rec v a = (s', slot', Ok o) ->
  exists k, idempotency_key rec = Some k /\
    let p := partition_for k (partitions s) in
    ((s' = s \/ s' = locked) /\ gate s' k p = Ok (Some o)
     \/ exists meta claim, gate locked k p = Ok None /\ txn_send dt rec v k p a = Ok (meta, claim) /\
          s' = apply locked k claim /\
          o = {| out_partition := md_partition meta; out_offset := md_offset meta; deduplicated := false |}).
Proof.
  unfold dedup_produce. destruct (idempotency_key rec) as [k|]; [|done]. exists k. split; [done|]. cbv zeta.
  destruct (gate s k _) as [[o1|]|] eqn:G1; [naive_solver| |done].
  destruct (gate locked k _) as [[o1|]|] eqn:G2; [naive_solver| |done]. right.
  unfold txn_write, txn_begin, txn_end in *.
  destruct (match slot with Some e => _ | None => _ end); [|done]. destruct (ans_begin a); [|done].
  destruct (txn_send _ _ _ _ _ _) as [[meta claim]|]; [|done]. destruct (ans_commit a); [|done].
  naive_solver.
Qed.

(** What an assignment change does to the store. *)
Lemma update_assignment_spec s a :
  let s' := update_assignment s a in
  owned s' = a /\ warm s' = false /\ partitions s' = partitions s /\ restart_required s' = restart_required s /\
  (forall k c, claim_map s' !! k = Some c -> claim_map s !! k = Some c) /\
  (forall k, is_Some (claim_map s !! k) -> partition_for k (partitions s) ∈ a -> is_Some (claim_map s' !! k)).
Proof.
  cbv zeta. unfold update_assignment. cbv zeta. case_bool_decide; simpl; [naive_solver|].
  split_and!; try done.
  - by intros k c [? _]%map_lookup_filter_Some.
  - intros k (c & Hc) Hin. exists c. apply map_lookup_filter_Some_2; [done|]. set_solver.
Qed.

Lemma revoked_owned s parts : owned (on_partitions_revoked s parts).1 ⊆ owned s.
Proof.
  unfold on_partitions_revoked. simpl. rewrite (proj1 (update_assignment_spec _ _)). simpl.
  generalize (owned s). induction parts as [|tp parts IH]; intros o; simpl; [done|].
  etransitivity; [apply IH|]. destruct (try_u32 tp.2); set_solver.
Qed.

Lemma assigned_Ok s ts topic prep parts sought asg ends s' ts' :
  on_partitions_assigned s ts topic prep parts sought asg ends = (s', ts', Ok ()) ->
  exists a, s' = update_assignment (clear_warm s) a /\ forall p, p ∈ a -> exists tp, tp ∈ asg /\ tp.2 = p.
Proof.
  unfold on_partitions_assigned. destruct (prep ≫= _); [|done]. destruct (ends _); [|done].
  destruct (negb _); [done|]. intros [= <- _]. eexists. split; [done|].
  intros p (tp & [_ Htp]%list_elem_of_filter & Hp)%elem_of_list_to_set%list_elem_of_omap.
  apply try_range_Some in Hp as [-> _]. eauto.
Qed.

(** A turn without records only counts the poll, and opens the gate when the
    replay is complete. *)
Lemma ownership_turn_nil `{Serde ClaimValue} s ts position s' r :
  ownership_turn s ts [] position = (s', r) ->
  owned s' = owned s /\ claim_map s' = claim_map s /\ partitions s' = partitions s /\
  restart_required s' = restart_required s /\
  (warm s' = true -> warm s = true \/
     exists l, try_map (fun tp => p ← position tp; Ok (tp, p)) (map_to_list ts).*1 = Ok l
               /\ replay_complete ts (list_to_map l) = true).
Proof.
  unfold ownership_turn. destruct (restart_required s) eqn:Hr; [intros [= <- _]; auto 6|]. simpl.
  destruct (_ && _); [|intros [= <- _]; simpl; auto 6].
  destruct (try_map _ _) as [l|]; [|intros [= <- _]; simpl; auto 6].
  destruct (replay_complete _ _) eqn:Hc; intros [= <- _]; simpl; eauto 8.
Qed.

(** ** Properties of one replica *)

(** A successful write is remembered: the same key sent again, whatever
    the brokers would answer, is answered from the claim map with the same
    coordinates, marked as a duplicate, and changes nothing. *)
Theorem retry_is_deduplicated `{Serde ClaimValue} s locked slot dt rec v a s' slot' o rec' v' a' :
  dedup_produce s locked slot dt rec v a = (s', slot', Ok o) ->
  partitions locked = partitions s -> idempotency_key rec' = idempotency_key rec ->
  dedup_produce s' s' slot' dt rec' v' a'
  = (s', slot', Ok {| out_partition := out_partition o; out_offset := out_offset o; deduplicated := true |}).
Proof.
  intros Hd%dedup_produce_Ok Hn Hk. unfold dedup_produce. rewrite Hk.
  destruct Hd as (k & -> & [[Hs Hg]|(meta & claim & Hg & Hsend & -> & ->)]).
  - assert (partitions s' = partitions s) as -> by (destruct Hs; congruence). rewrite Hg.
    apply gate_Ok in Hg as (_ & _ & Hg). by destruct (claim_map s' !! k); [injection Hg as ->|].
  - simpl. rewrite Hn. assert (Hg' : gate (apply locked k claim) k (partition_for k (partitions s)) = Ok (Some (hit claim))).
    { apply gate_Ok in Hg as (Ho & Hw & _). apply gate_Ok. split_and!; [done..|]. simpl. by rewrite lookup_insert_eq. }
    rewrite Hg'. unfold txn_send in Hsend. res_inv. simplify_eq. done.
Qed.

(** Everything that changes the store, in any order. *)
Inductive store_step `{Serde ClaimValue} : DedupStore -> DedupStore -> Prop :=
| st_revoked s parts : store_step s (on_partitions_revoked s parts).1
| st_assigned s ts topic prep parts sought asg ends :
    store_step s (on_partitions_assigned s ts topic prep parts sought asg ends).1.1
| st_turn s ts batch position : store_step s (ownership_turn s ts batch position).1
| st_exit s : store_step s (ownership_exit s)
| st_write s slot dt rec v k p a : store_step s (txn_write s slot dt rec v k p a).1.1
| st_apply s k c : store_step s (apply s k c).

Lemma update_assignment_restart s a : restart_required (update_assignment s a) = restart_required s.
Proof. apply update_assignment_spec. Qed.

Lemma ownership_batch_restart `{Serde ClaimValue} batch s :
  restart_required (foldl ownership_record s batch) = restart_required s.
Proof.
  revert s. induction batch as [|r batch IH]; intros s; simpl; [done|]. rewrite IH.
  unfold ownership_record. by repeat case_match.
Qed.

Lemma store_step_restart `{Serde ClaimValue} s s' :
  store_step s s' -> restart_required s = true -> restart_required s' = true.
Proof.
  intros Hst Hr. destruct Hst; simpl; try done.
  - by rewrite update_assignment_restart.
  - unfold on_partitions_assigned. repeat case_match; simpl; rewrite ?update_assignment_restart; done.
  - unfold ownership_turn. rewrite Hr. done.
  - unfold txn_write, txn_begin, txn_end, settle_abort. by repeat (case_match; simplify_eq/=).
Qed.

(** A transaction whose outcome is unknown (the producer asks for recovery,
    or the abort fails) closes the gate for good: whatever the replica does
    afterwards, every keyed request is refused. *)
Theorem unresolved_closes_gate `{Serde ClaimValue} s slot e dt rec v key p a k q s' :
  (slot = Some e /\ ans_begin a = Err RecoveryRequired
   \/ slot = Some e /\ ans_begin a = Ok () /\ is_ok (ans_abort a) = false /\
      (is_ok (txn_send dt rec v key p a) = false \/ is_ok (ans_commit a) = false)) ->
  steps store_step (txn_write s slot dt rec v key p a).1.1 s' ->
  gate s' k q = Err Unavailable.
Proof.
  intros Hcase Hst. assert (Hr : restart_required s' = true).
  { apply (steps_invariant _ (fun s => restart_required s = true)) in Hst; [done|apply store_step_restart|].
    unfold txn_write, txn_begin, txn_end, settle_abort.
    destruct Hcase as [[-> ->]|(-> & -> & Ha & Hb)]; simpl; [done|].
    destruct (ans_abort a); [done|]. destruct (txn_send _ _ _ _ _ _) as [[]|]; [|done].
    destruct (ans_commit a); [by destruct Hb|done]. }
  unfold gate, is_warm. by rewrite Hr, andb_false_r, orb_true_r.
Qed.

(** The partition of a key is one of the partitions, so a claim record and
    a slot exist for it. *)
Theorem partition_for_in_range key n :
  partitions_ok n = true -> 0 <= partition_for key n < n /\ try_i32 (partition_for key n) = Some (partition_for key n).
Proof.
  intros H. unfold partitions_ok in H. bool_prop. pose proof (partition_for_range key n ltac:(lia)).
  split; [done|]. apply try_range_Some. split; [done|]. unfold i32_min. lia.
Qed.

(** ** Concrete requests *)

#[export] Instance ClaimValue_countable : Countable ClaimValue.
Proof.
  refine (inj_countable' (fun c => (claim_topic c, claim_partition c, claim_offset c))
            (fun x => {| claim_topic := x.1.1; claim_partition := x.1.2; claim_offset := x.2 |}) _).
  by intros [].
Defined.
#[export] Instance ClaimValue_serde : Serde ClaimValue := countable_serde.

Definition ready_store : DedupStore :=
  {| claim_map := ∅; partitions := 4; owned := {[0; 1; 2; 3]}; warm := true; warmed_once := true;
     restart_required := false; warmup_empty_polls := 3; empty_polls := 3 |}.

Definition sample_record : GatewayRecord :=
  {| topic := "orders"; key := None; value := as_bytes "v"; body_structured := None; headers := [];
     partition := None; timestamp_ms := None; idempotency_key := Some "order-17" |}.

Definition committing : TxnAnswers :=
  {| ans_init := Ok 1; ans_begin := Ok (); ans_send := fun _ => Ok {| md_partition := 2; md_offset := 41 |};
     ans_commit := Ok (); ans_abort := Ok () |}.
Definition unresolved : TxnAnswers :=
  {| ans_init := Ok 1; ans_begin := Ok (); ans_send := fun _ => Ok {| md_partition := 2; md_offset := 41 |};
     ans_commit := Err (OtherProducerError "timeout"); ans_abort := Err RecoveryRequired |}.

Lemma retry_is_deduplicated_witness :
  let '(s', slot', _) := dedup_produce ready_store ready_store None "dedup" sample_record (as_bytes "v") committing in
  dedup_produce s' s' slot' "dedup" sample_record (as_bytes "v") unresolved
  = (s', slot', Ok {| out_partition := 2; out_offset := 41; deduplicated := true |}).
Proof.
  destruct (dedup_produce ready_store ready_store None "dedup" sample_record (as_bytes "v") committing)
    as [[s' slot'] r] eqn:Hd.
  assert (Hr : r = Ok {| out_partition := 2; out_offset := 41; deduplicated := false |})
    by (apply (f_equal snd) in Hd; simpl in Hd; rewrite <- Hd; vm_compute; reflexivity).
  rewrite Hr in Hd.
  exact (retry_is_deduplicated _ _ _ _ _ _ _ _ _ _ sample_record (as_bytes "v") unresolved Hd eq_refl eq_refl).
Defined.

Lemma unresolved_closes_gate_witness :
  gate (txn_write ready_store (Some 1) "dedup" sample_record (as_bytes "v") "order-17" 3 unresolved).1.1 "x" 0
  = Err Unavailable.
Proof.
  eapply (unresolved_closes_gate ready_store (Some 1) 1 "dedup" sample_record (as_bytes "v") "order-17" 3 unresolved).
  - right. split; [reflexivity|]. split; [reflexivity|]. split; [reflexivity|]. right. reflexivity.
  - apply steps_refl.
Defined.

Lemma partition_for_in_range_witness : 0 <= partition_for "order-17" 50 < 50.
Proof. exact (proj1 (partition_for_in_range "order-17" 50 eq_refl)). Defined.
