(* ===== verification/DedupSystem.v ===== *)
(** * Replicas, rebalances and transactions: exactly once

    A step relation over any number of replicas that share a broker.  A replica
    is its [DedupStore], its producer slots, the request that holds each slot,
    and the reading position of its ownership consumer; its steps call the
    functions of [Dedup].  The broker is any instance of [TxnBroker], whose
    laws are those of Kafka transactions, of a [read_committed] reader, and of
    a topic with [cleanup.policy=compact,delete]: a claim leaves the topic once
    it is older than the retention, which [dedup_topic_configs] sets to the
    deduplication window.  What is guaranteed is guaranteed up to that horizon.

    The consumer group is not trusted: any replica may be told to take over any
    partition at any time, while replicas that believe they own it go on. *)

From stdpp Require Import functions.
From S2P Require Import Prelude.
From S2P Require Import RustStr.
From S2P Require Import Types.
From S2P Require Import Dedup.

(** A committed pair: the idempotency key and the coordinates of its record. *)
Abbreviation Entry := (string * ClaimValue)%type (only parsing).

(** What the transaction coordinator does. [p] is a dedup partition, and with
    it a transactional id. *)
Inductive blabel :=
| BInit (p : Z)                      (** [init_transactions] *)
| BCommit (p e : Z) (x : Entry)      (** [EndTxn(commit)] succeeds for epoch [e] *)
| BDoubt (p e : Z) (x : Entry)       (** [EndTxn(commit)] with an unknown outcome *)
| BSettle (p : Z)                    (** an unknown outcome becomes known *)
| BClean (p : Z).                    (** the log cleaner, and the passing of time *)

(** The partition a label is about. *)
Definition blabel_part (l : blabel) : Z :=
  match l with BInit p | BCommit p _ _ | BDoubt p _ _ | BSettle p | BClean p => p end.

Class TxnBroker := {
  broker : Type;
  (** Every transaction committed to a dedup partition so far, oldest first.  A
      transaction holds one data record and the claim that names it. *)
  log : broker -> Z -> list Entry;
  (** The claims among them that are no longer in the topic. *)
  expired : broker -> Z -> nat -> bool;
  (** The timestamp of a claim's record, and when its transaction committed. *)
  stamp : broker -> Z -> nat -> Z;
  committed_at : broker -> Z -> nat -> Z;
  now : broker -> Z;
  (** [retention.ms] of the dedup topic. *)
  retention : Z;
  (** The transaction whose outcome is not known yet. *)
  in_doubt : broker -> Z -> option Entry;
  epoch : broker -> Z -> Z;
  bstep : broker -> blabel -> broker -> Prop;

  bstep_init b p b' : bstep b (BInit p) b' ->
    epoch b p < epoch b' p /\ in_doubt b' p = None /\
    (log b' p = log b p \/ exists x, in_doubt b p = Some x /\ log b' p = log b p ++ [x]);
  bstep_commit b p e x b' : bstep b (BCommit p e x) b' ->
    e = epoch b p /\ epoch b' p = epoch b p /\ in_doubt b' p = in_doubt b p /\ log b' p = log b p ++ [x];
  bstep_doubt b p e x b' : bstep b (BDoubt p e x) b' ->
    e = epoch b p /\ epoch b' p = epoch b p /\ in_doubt b' p = Some x /\ log b' p = log b p;
  bstep_settle b p b' : bstep b (BSettle p) b' ->
    epoch b' p = epoch b p /\ in_doubt b' p = None /\
    (log b' p = log b p \/ exists x, in_doubt b p = Some x /\ log b' p = log b p ++ [x]);
  bstep_clean b p b' : bstep b (BClean p) b' ->
    epoch b' p = epoch b p /\ in_doubt b' p = in_doubt b p /\ log b' p = log b p;
  bstep_now b l b' : bstep b l b' -> now b <= now b';
  (** What is committed is in the topic, and dated. *)
  bstep_dated b l b' p m : bstep b l b' -> (length (log b p) <= m < length (log b' p))%nat ->
    expired b' p m = false /\ committed_at b' p m = now b';
  bstep_dates b l b' p m : bstep b l b' -> (m < length (log b p))%nat ->
    stamp b' p m = stamp b p m /\ committed_at b' p m = committed_at b p m;
  (** What has left the topic stays out of it. *)
  bstep_gone b l b' p m : bstep b l b' -> (m < length (log b p))%nat ->
    expired b p m = true -> expired b' p m = true;
  (** A claim leaves when it is older than the retention, or when a later claim
      of its key takes its place. *)
  bstep_expires b l b' p m k c : bstep b l b' -> log b p !! m = Some (k, c) ->
    expired b p m = false -> expired b' p m = true ->
    stamp b p m + retention <= now b' \/ exists m' c', (m < m')%nat /\ log b p !! m' = Some (k, c');
  (** Transactional ids are independent. *)
  bstep_frame b l b' q : bstep b l b' -> q <> blabel_part l ->
    log b' q = log b q /\ in_doubt b' q = in_doubt b q /\ epoch b' q = epoch b q;
}.

(** ** One replica *)

(** The request that holds a slot's lock. *)
Inductive Holder :=
| Locked (k : string)                        (** past the second gate *)
| InTxn (k : string) (e : Z)                 (** transaction begun *)
| Committed (k : string) (c : ClaimValue).   (** committed, claim not applied yet *)

Record Replica := {
  store : DedupStore;
  targets : gmap Z nat;             (** [replay_targets], as a count of claims *)
  position : gmap Z nat;            (** the consumer's position in the log *)
  slots : gmap Z (Z * bool);        (** epoch; whether a cancelled request left
                                        a transaction unresolved in it *)
  busy : gmap Z Holder;
  prepared : gset Z;                (** fenced by a running
                                        [on_partitions_assigned] *)
  captured : option (list Z * gmap Z nat);
                                    (** the assignment and the end offsets it
                                        has read, not yet in the store *)
}.

Definition with_store (r : Replica) (s : DedupStore) : Replica :=
  {| store := s; targets := targets r; position := position r; slots := slots r; busy := busy r; prepared := prepared r; captured := captured r |}.
Definition with_busy (r : Replica) (m : gmap Z Holder) : Replica :=
  {| store := store r; targets := targets r; position := position r; slots := slots r; busy := m; prepared := prepared r; captured := captured r |}.
Definition with_slots (r : Replica) (m : gmap Z (Z * bool)) : Replica :=
  {| store := store r; targets := targets r; position := position r; slots := m; busy := busy r; prepared := prepared r; captured := captured r |}.
Definition with_prepared (r : Replica) (x : gset Z) : Replica :=
  {| store := store r; targets := targets r; position := position r; slots := slots r; busy := busy r; prepared := x; captured := captured r |}.

(** A process that has just started. *)
Definition fresh (s : DedupStore) : Replica :=
  {| store := s; targets := ∅; position := ∅; slots := ∅; busy := ∅; prepared := ∅; captured := None |}.

(** The targets and positions as the [ReplayOffsets] of the code. *)
Definition offsets_of (dt : string) (m : gmap Z nat) : gmap TopicPartition Z :=
  kmap (fun p => (dt, p)) (Z.of_nat <$> m).

Section System.
  Context `{TxnBroker} `{Serde ClaimValue} (dt : string).
  (** Whether a replica may initialise the producer of a partition again from
      within a request, given the replica that initialised it last. *)
  Context (may_reinit : option nat -> nat -> Prop).

Abbreviation Leads := (Z -> option nat) (only parsing).

(** A request that ends leaves its lock; an error also drops the producer. *)
Definition unlock (r : Replica) (p : Z) : Replica := with_busy r (delete p (busy r)).
Definition fail_slot (r : Replica) (p : Z) : Replica := unlock (with_slots r (delete p (slots r))) p.

(** The steps of replica [i].  [lead p] remembers which replica initialised the
    transactional id of [p] last. *)
Inductive rstep (i : nat) : broker -> Leads -> Replica -> broker -> Leads -> Replica -> Prop :=
(** A request for [k] passes the gate under the slot's lock. *)
| R_lock b l r k :
    let p := partition_for k (partitions (store r)) in
    is_utf8 (as_bytes k) = true -> busy r !! p = None -> gate (store r) k p = Ok None ->
    rstep i b l r b l (with_busy r (<[p := Locked k]> (busy r)))
(** [begin_transaction] on the producer in the slot. *)
| R_begin b l r p k e :
    busy r !! p = Some (Locked k) -> slots r !! p = Some (e, false) ->
    rstep i b l r b l (with_busy r (<[p := InTxn k e]> (busy r)))
(** The slot is empty: [init_producer], then [begin_transaction]. *)
| R_reinit b l r p k b' :
    busy r !! p = Some (Locked k) -> slots r !! p = None -> may_reinit (l p) i -> bstep b (BInit p) b' ->
    rstep i b l r b' (<[p := Some i]> l)
      (with_busy (with_slots r (<[p := (epoch b' p, false)]> (slots r))) (<[p := InTxn k (epoch b' p)]> (busy r)))
(** [begin_transaction] fails.  A producer with an unresolved transaction
    answers [RecoveryRequired]. *)
| R_begin_fail b l r p k e d a err :
    busy r !! p = Some (Locked k) -> slots r !! p = Some (e, d) ->
    ans_begin a = Err err -> (d = true -> err = RecoveryRequired) ->
    rstep i b l r b l (fail_slot (with_store r (txn_begin (store r) (Some e) a).1.1) p)
| R_commit b l r p k e c b' :
    busy r !! p = Some (InTxn k e) -> bstep b (BCommit p e (k, c)) b' ->
    rstep i b l r b' l (with_busy r (<[p := Committed k c]> (busy r)))
| R_apply b l r p k c :
    busy r !! p = Some (Committed k c) ->
    rstep i b l r b l (unlock (with_store r (apply (store r) k c)) p)
(** The transaction is aborted, and the abort confirmed. *)
| R_abort b l r p k e a :
    busy r !! p = Some (InTxn k e) -> ans_abort a = Ok () ->
    rstep i b l r b l (fail_slot (with_store r (settle_abort (store r) a)) p)
(** The abort fails: the outcome may be in doubt. *)
| R_unresolved b l r p k e a err b' :
    busy r !! p = Some (InTxn k e) -> ans_abort a = Err err ->
    (b' = b \/ exists c, bstep b (BDoubt p e (k, c)) b') ->
    rstep i b l r b' l (fail_slot (with_store r (settle_abort (store r) a)) p)
(** The request is dropped within its transaction, or before it. *)
| R_cancel b l r p k e b' :
    busy r !! p = Some (InTxn k e) ->
    (b' = b \/ exists c, bstep b (BDoubt p e (k, c)) b') ->
    rstep i b l r b' l (unlock (with_slots r (<[p := (e, true)]> (slots r))) p)
| R_cancel_locked b l r p k :
    busy r !! p = Some (Locked k) -> rstep i b l r b l (unlock r p)
(** The rebalance listener. *)
| R_revoke b l r parts :
    captured r = None ->
    rstep i b l r b l
      {| store := (on_partitions_revoked (store r) parts).1; targets := ∅; position := position r;
         slots := slots r; busy := busy r; prepared := prepared r; captured := captured r |}
| R_release b l r p :
    busy r !! p = None -> p ∉ Dedup.owned (store r) ->
    rstep i b l r b l (with_slots r (delete p (slots r)))
| R_prepare b l r p b' :
    captured r = None -> busy r !! p = None -> bstep b (BInit p) b' ->
    rstep i b l r b' (<[p := Some i]> l)
      (with_prepared (with_slots (with_store r (clear_warm (store r))) (<[p := (epoch b' p, false)]> (slots r)))
         ({[p]} ∪ prepared r))
(** The newly fenced partitions are sought to their beginning; the assignment is
    what the replica had and what it has just fenced, and its end offsets are
    read. *)
| R_capture b l r ps ends :
    captured r = None ->
    (forall p, p ∈ ps -> p ∈ Dedup.owned (store r) \/ p ∈ prepared r) ->
    (forall p, p ∈ ps <-> exists t, ends !! p = Some t) ->
    (forall p t, ends !! p = Some t -> t = length (log b p)) ->
    rstep i b l r b l
      {| store := clear_warm (store r); targets := targets r;
         position := filter (fun kv => kv.1 ∉ prepared r) (position r);
         slots := slots r; busy := busy r; prepared := prepared r; captured := Some (ps, ends) |}
(** The answer arrives, whatever was committed in the meantime. *)
| R_assigned b l r ps ends s' ts :
    captured r = Some (ps, ends) ->
    on_partitions_assigned (store r) (offsets_of dt (targets r)) dt (Ok ()) ((dt,.) <$> elements (prepared r)) (Ok ())
      ((dt,.) <$> ps) (fun _ => Ok (offsets_of dt ends)) = (s', ts, Ok ()) ->
    rstep i b l r b l
      {| store := s'; targets := ends; position := position r;
         slots := slots r; busy := busy r; prepared := ∅; captured := None |}
(** The ownership loop. *)
| R_read b l r p k c v :
    let m := default 0%nat (position r !! p) in
    captured r = None ->
    0 <= p <= u32_max -> owns (store r) p = true -> log b p !! m = Some (k, c) -> to_vec c = Ok v ->
    rstep i b l r b l
      {| store := ownership_record (store r)
                    {| rec_partition := p; rec_key := Some (as_bytes k); rec_value := Some v |};
         targets := targets r; position := <[p := S m]> (position r);
         slots := slots r; busy := busy r; prepared := prepared r; captured := captured r |}
(** A claim that has left the topic is not read. *)
| R_skip b l r p :
    let m := default 0%nat (position r !! p) in
    captured r = None -> (m < length (log b p))%nat -> expired b p m = true ->
    rstep i b l r b l
      {| store := store r; targets := targets r; position := <[p := S m]> (position r);
         slots := slots r; busy := busy r; prepared := prepared r; captured := captured r |}
| R_turn b l r s' res :
    prepared r = ∅ -> captured r = None ->
    ownership_turn (store r) (offsets_of dt (targets r)) []
      (fun tp => Ok (Z.of_nat (default 0%nat (position r !! tp.2)))) = (s', res) ->
    rstep i b l r b l (with_store r s')
| R_exit b l r :
    rstep i b l r b l
      {| store := ownership_exit (store r); targets := targets r; position := position r;
         slots := slots r; busy := busy r; prepared := ∅; captured := None |}
| R_crash b l r w s :
    DedupStore_new (partitions (store r)) w = Some s -> rstep i b l r b l (fresh s).

Record Sys := { br : broker; lead : Leads; reps : nat -> Replica }.

Inductive sys_step : Sys -> Sys -> Prop :=
| sys_replica S i b' l' r' :
    rstep i (br S) (lead S) (reps S i) b' l' r' ->
    sys_step S {| br := b'; lead := l'; reps := <[i := r']> (reps S) |}
| sys_settle S p b' :
    bstep (br S) (BSettle p) b' -> sys_step S {| br := b'; lead := lead S; reps := reps S |}
| sys_clean S p b' :
    bstep (br S) (BClean p) b' -> sys_step S {| br := b'; lead := lead S; reps := reps S |}.

(** ** The invariant *)

Definition keys (b : broker) (p : Z) : list string := (log b p).*1.
(** The topic still has a claim of [k]. *)
Definition live (b : broker) (p : Z) (k : string) : Prop :=
  exists m c, log b p !! m = Some (k, c) /\ expired b p m = false.
Definition poisoned (r : Replica) (p : Z) : Prop := exists e, slots r !! p = Some (e, true).
Definition pos (r : Replica) (p : Z) : nat := default 0%nat (position r !! p).
(** [t] is a replay target of [p], in force or about to be. *)
Definition aims (r : Replica) (p : Z) (t : nat) : Prop :=
  targets r !! p = Some t \/ exists x, captured r = Some x /\ x.2 !! p = Some t.
Definition hkey (h : Holder) : string :=
  match h with Locked k | InTxn k _ | Committed k _ => k end.

(** [k] is a key of partition [p]. *)
Definition key_of (n : Z) (k : string) (p : Z) : Prop :=
  partition_for k n = p /\ is_utf8 (as_bytes k) = true.

Record binv (n : Z) (b : broker) (p : Z) : Prop := {
  bi_spaced m m' k c c' : (m < m')%nat -> log b p !! m = Some (k, c) -> log b p !! m' = Some (k, c') ->
    expired b p m = true /\ stamp b p m + retention <= committed_at b p m';
  bi_past m : (m < length (log b p))%nat -> expired b p m = true -> stamp b p m + retention <= now b;
  bi_doubt : forall x, in_doubt b p = Some x -> ~ live b p x.1;
  bi_key : forall x, x ∈ log b p \/ in_doubt b p = Some x -> key_of n x.1 p;
}.

(** What holds of partition [p] at the replica that initialised it last. *)
Record rlead (b : broker) (r : Replica) (p : Z) : Prop := {
  rl_doubt : in_doubt b p <> None ->
    (p ∉ prepared r) /\ (restart_required (store r) = true \/ poisoned r p \/ (p ∉ Dedup.owned (store r)));
  rl_locked k : busy r !! p = Some (Locked k) -> ~ poisoned r p -> ~ live b p k /\ in_doubt b p = None;
  rl_txn k e : busy r !! p = Some (InTxn k e) -> ~ live b p k /\ in_doubt b p = None;
  rl_cover t m k c :
    p ∈ Dedup.owned (store r) -> p ∉ prepared r -> restart_required (store r) = false -> ~ poisoned r p ->
    aims r p t -> log b p !! m = Some (k, c) -> (t <= m)%nat -> expired b p m = false ->
    is_Some (claim_map (store r) !! k) \/ busy r !! p = Some (Committed k c);
  rl_fenced x t : captured r = Some x -> p ∈ prepared r -> x.2 !! p = Some t -> (length (log b p) <= t)%nat;
}.

(** What holds of partition [p] at every replica. *)
Record pinv (n : Z) (b : broker) (l : Leads) (i : nat) (r : Replica) (p : Z) : Prop := {
  pi_busy h : busy r !! p = Some h -> key_of n (hkey h) p;
  pi_committed k c : busy r !! p = Some (Committed k c) -> (k, c) ∈ log b p;
  pi_slot e d : slots r !! p = Some (e, d) -> e <= epoch b p /\ (e = epoch b p <-> l p = Some i);
  pi_txn k e : busy r !! p = Some (InTxn k e) -> slots r !! p = Some (e, false);
  pi_prep : p ∈ prepared r -> busy r !! p = None;
  pi_pos : (pos r p <= length (log b p))%nat;
  pi_read m k c : p ∈ Dedup.owned (store r) -> (m < pos r p)%nat -> log b p !! m = Some (k, c) ->
    expired b p m = false -> is_Some (claim_map (store r) !! k);
  pi_lead : l p = Some i -> rlead b r p;
}.

Record ginv (n : Z) (b : broker) (r : Replica) : Prop := {
  gi_n : partitions (store r) = n;
  gi_map k c : claim_map (store r) !! k = Some c -> (k, c) ∈ log b (partition_for k n);
  gi_tgt : targets r = ∅ \/ forall p, p ∈ Dedup.owned (store r) -> is_Some (targets r !! p);
  gi_cap ps ends : captured r = Some (ps, ends) ->
    (forall p, p ∈ ps -> p ∈ Dedup.owned (store r) \/ p ∈ prepared r) /\
    (forall p, p ∈ ps <-> exists t, ends !! p = Some t) /\ (forall p, p ∈ prepared r -> pos r p = 0%nat);
  gi_warm : warm (store r) = true -> prepared r = ∅ /\ captured r = None /\
    forall p, p ∈ Dedup.owned (store r) -> exists t, targets r !! p = Some t /\ (t <= pos r p)%nat;
}.

Definition rinv (n : Z) (b : broker) (l : Leads) (i : nat) (r : Replica) : Prop :=
  ginv n b r /\ forall p, pinv n b l i r p.

Definition sys_inv (n : Z) (S : Sys) : Prop :=
  (forall p, binv n (br S) p) /\ forall i, rinv n (br S) (lead S) i (reps S i).

Lemma lookup_snoc_cases {A} (l : list A) x m y :
  (l ++ [x]) !! m = Some y -> l !! m = Some y \/ m = length l /\ x = y.
Proof. intros [?|[? Hm]]%lookup_app_Some; [by left|]. apply list_lookup_singleton_Some in Hm as [? ->]. right. split; [lia|done]. Qed.

(** ** Effect of the broker's steps on a partition *)

(** The log grows by at most one entry, which was in doubt or is committed. *)
Definition grows (b b' : broker) (p : Z) : Prop :=
  log b' p = log b p \/ exists x, log b' p = log b p ++ [x].

Lemma grows_elem b b' p x : grows b b' p -> x ∈ log b p -> x ∈ log b' p.
Proof. intros [->|(y & ->)]; [done|]. rewrite elem_of_app. auto. Qed.

Lemma grows_length b b' p : grows b b' p -> (length (log b p) <= length (log b' p))%nat.
Proof. intros [->|(y & ->)]; [done|]. rewrite length_app. lia. Qed.

Lemma grows_lookup b b' p m x :
  grows b b' p -> (m < length (log b p))%nat -> log b' p !! m = Some x -> log b p !! m = Some x.
Proof. intros [->|(y & ->)] Hm; [done|]. by rewrite lookup_app_l. Qed.

(** What has left the topic of [p] stays out of it. *)
Definition ages (b b' : broker) (p : Z) : Prop :=
  forall m, (m < length (log b p))%nat -> expired b' p m = false -> expired b p m = false.

Lemma ages_refl b p : ages b b p.
Proof. by intros m. Qed.

Lemma ages_live b b' p k : ages b b' p -> log b' p = log b p -> live b' p k -> live b p k.
Proof. intros Ha Hl (m & c & Hm & Hx). rewrite Hl in Hm. exists m, c. split; [done|]. apply Ha; [by eapply lookup_lt_Some|done]. Qed.

(** A step of the broker on [p], seen from any replica. *)
Record bchange (b b' : broker) (p : Z) : Prop := {
  bc_ages q : ages b b' q;
  bc_grows q : grows b b' q;
  bc_other q : q <> p -> log b' q = log b q /\ in_doubt b' q = in_doubt b q /\ epoch b' q = epoch b q;
  bc_epoch : epoch b p <= epoch b' p;
}.

Lemma bstep_change b lb b' : bstep b lb b' -> bchange b b' (blabel_part lb).
Proof.
  intros Hs. assert (Hframe := fun q => bstep_frame _ _ _ q Hs).
  assert (Hp : grows b b' (blabel_part lb) /\ epoch b (blabel_part lb) <= epoch b' (blabel_part lb)).
  { unfold grows. destruct lb; simpl;
      [apply bstep_init in Hs as (? & _ & [?|(?&_&?)])|apply bstep_commit in Hs as (_ & ? & _ & ?)
      |apply bstep_doubt in Hs as (_ & ? & _ & ?)|apply bstep_settle in Hs as (? & _ & [?|(?&_&?)])
      |apply bstep_clean in Hs as (? & _ & ?)];
      split; eauto; lia. }
  constructor; [|  |done|apply Hp].
  { intros q m Hm Hx. destruct (expired b q m) eqn:He; [|done]. by rewrite (bstep_gone _ _ _ _ _ Hs Hm He) in Hx. } intros q. destruct (decide (q = blabel_part lb)) as [->|Hne]; [apply Hp|].
  left. by apply Hframe.
Qed.

(** A replica that did not act on [p] and saw nothing happen to [p]. *)
Record untouched (b b' : broker) (l l' : Leads) (r r' : Replica) (p : Z) : Prop := {
  un_broker : log b' p = log b p /\ in_doubt b' p = in_doubt b p /\ epoch b' p = epoch b p;
  un_ages : ages b b' p;
  un_lead : l' p = l p;
  un_slot : slots r' !! p = slots r !! p;
  un_busy : busy r' !! p = busy r !! p;
  un_owned : p ∈ Dedup.owned (store r') <-> p ∈ Dedup.owned (store r);
  un_prep : p ∈ prepared r' <-> p ∈ prepared r;
  un_restart : restart_required (store r) = true -> restart_required (store r') = true;
  un_tgt : targets r' !! p = targets r !! p;
  un_cap : captured r' = captured r;
  un_pos : position r' !! p = position r !! p;
  un_map k : is_Some (claim_map (store r) !! k) -> is_Some (claim_map (store r') !! k);
}.

Lemma rlead_frame b b' l l' r r' p : untouched b b' l l' r r' p -> rlead b r p -> rlead b' r' p.
Proof.
  intros [(Hl & Hd & _) Ha _ Hs Hb Ho Hp Hr Ht Hc _ Hm] [H1 H2 H3 H4 H5].
  assert (Hpo : poisoned r' p <-> poisoned r p) by (unfold poisoned; by rewrite Hs).
  assert (Hli : forall k, live b' p k -> live b p k) by (intros k; by apply ages_live).
  constructor; rewrite ?Hl, ?Hd, ?Hb, ?Ho, ?Hp; [naive_solver|naive_solver|naive_solver| |intros x t; rewrite Hc; naive_solver].
  intros t m k c Hown Hprep Hres Hn Htt Hlog Hle Hx.
  destruct (restart_required (store r)) eqn:Hrr; [by rewrite Hr in Hres|].
  unfold aims in Htt. rewrite Ht, Hc in Htt. rewrite Ho in Hown. rewrite Hp in Hprep.
  apply Ha in Hx; [|by eapply lookup_lt_Some]. destruct (H4 t m k c) as [?|?]; auto; tauto.
Qed.

Lemma pinv_frame n b b' l l' i r r' p :
  untouched b b' l l' r r' p -> pinv n b l i r p -> pinv n b' l' i r' p.
Proof.
  intros U [H1 H2 H3 H4 H5 H6 H7 H8]. pose proof (rlead_frame _ _ _ _ _ _ _ U) as Hlead.
  destruct U as [(Hl & Hd & He) Ha Hlp Hs Hb Ho Hp Hr Ht Hc Hpos Hm].
  assert (Hpp : pos r' p = pos r p) by (unfold pos; by rewrite Hpos).
  constructor; rewrite ?Hl, ?He, ?Hs, ?Hb, ?Hlp, ?Hpp, ?Hp; try done; [|auto].
  intros m k c. rewrite Ho. intros Hown Hlt Hlog Hx. apply Ha in Hx; [eauto|by eapply lookup_lt_Some].
Qed.

Lemma untouched_refl b l r p : untouched b b l l r r p.
Proof. by constructor; try apply ages_refl. Qed.

Lemma ginv_grows n b b' r : (forall q, grows b b' q) -> ginv n b r -> ginv n b' r.
Proof. intros Hg [Hn Hm Ht Hcap Hw]. constructor; try done. intros k c Hk. eapply grows_elem; eauto. Qed.

(** What a replica has read of the topic it has read of the topic as it grows. *)
Lemma read_grows b b' r p :
  grows b b' p -> ages b b' p -> (pos r p <= length (log b p))%nat ->
  (forall m k c, p ∈ Dedup.owned (store r) -> (m < pos r p)%nat -> log b p !! m = Some (k, c) ->
     expired b p m = false -> is_Some (claim_map (store r) !! k)) ->
  forall m k c, p ∈ Dedup.owned (store r) -> (m < pos r p)%nat -> log b' p !! m = Some (k, c) ->
    expired b' p m = false -> is_Some (claim_map (store r) !! k).
Proof.
  intros Hg Ha Hp Hread m k c Ho Hm Hl Hx. apply (Hread m k c Ho Hm); [eapply grows_lookup; [done|lia|done]|].
  apply Ha; [lia|done].
Qed.

(** Steps of replica [i] on [p] as the other replicas see them. *)
Lemma other_replica n b b' (l l' : Leads) i j r p :
  i <> j -> bchange b b' p -> (forall q, q <> p -> l' q = l q) -> l' p = Some i ->
  (epoch b p < epoch b' p \/ epoch b' p = epoch b p /\ l p = Some i) ->
  rinv n b l j r -> rinv n b' l' j r.
Proof.
  intros Hij Hc Hl Hlp He [Hg Hp]. split; [eapply ginv_grows; [|done]; apply (bc_grows _ _ _ Hc)|].
  intros q. destruct (decide (q = p)) as [->|Hne].
  - pose proof (bc_grows _ _ _ Hc p) as Hgr. pose proof (bc_ages _ _ _ Hc p) as Ha.
    destruct (Hp p) as [H1 H2 H3 H4 H5 H6 H7 H8]. constructor; try done.
    + intros k c Hk. eapply grows_elem; eauto.
    + intros e d Hs. destruct (H3 e d Hs) as [Hle Hiff]. rewrite Hlp.
      split; [destruct He; lia|]. split; [|congruence]. intros ->. destruct He as [|[Heq Hl']]; [lia|].
      exfalso. rewrite Heq in Hiff. destruct Hiff as [Hf _]. rewrite Hf in Hl'; congruence.
    + pose proof (grows_length _ _ _ Hgr). lia.
    + by apply (read_grows _ _ _ _ Hgr Ha H6).
    + rewrite Hlp. congruence.
  - eapply pinv_frame; [|apply Hp]. constructor; try done; [by apply (bc_other _ _ _ Hc)|apply (bc_ages _ _ _ Hc)|auto].
Qed.

Lemma settle_replica n b b' l i r p : bstep b (BSettle p) b' -> rinv n b l i r -> rinv n b' l i r.
Proof.
  intros Hs [Hg Hp]. pose proof (bstep_change _ _ _ Hs) as Hc. simpl in Hc.
  apply bstep_settle in Hs as (He & Hd & Hlog).
  split; [eapply ginv_grows; [|done]; apply (bc_grows _ _ _ Hc)|]. intros q.
  destruct (decide (q = p)) as [->|Hne];
    [|eapply pinv_frame; [|apply Hp]; constructor; try done; [by apply (bc_other _ _ _ Hc)|apply (bc_ages _ _ _ Hc)]].
  pose proof (bc_grows _ _ _ Hc p) as Hgr. pose proof (bc_ages _ _ _ Hc p) as Ha.
  destruct (Hp p) as [H1 H2 H3 H4 H5 H6 H7 H8].
  constructor; rewrite ?He; try done.
  - intros k c Hk. eapply grows_elem; eauto.
  - pose proof (grows_length _ _ _ Hgr). lia.
  - by apply (read_grows _ _ _ _ Hgr Ha H6).
  - intros Hl. destruct (H8 Hl) as [L1 L2 L3 L4 L5].
    assert (Hsame : in_doubt b p = None -> log b' p = log b p).
    { intros Hn. destruct Hlog as [?|(x & ? & _)]; congruence. }
    assert (Hli : forall k, ~ live b p k /\ in_doubt b p = None -> ~ live b' p k).
    { intros k [Hk Hnone] Hk'. apply Hk. eapply ages_live; [done|by apply Hsame|done]. }
    constructor; rewrite ?Hd; [done|naive_solver|naive_solver|..].
    + intros t m k c Ho Hpr Hr Hn Ht Hm Hle Hx. destruct (in_doubt b p) as [x|] eqn:Hy.
      * destruct L1 as [_ [?|[?|?]]]; [done|congruence|done..].
      * rewrite Hsame in Hm by done. apply Ha in Hx; [eauto|by eapply lookup_lt_Some].
    + intros x t Hx Hpr Ht. destruct (in_doubt b p) as [y|] eqn:Hy; [by destruct L1 as [? _]|].
      rewrite Hsame by done. eauto.
Qed.

Lemma clean_replica n b b' l i r p : bstep b (BClean p) b' -> rinv n b l i r -> rinv n b' l i r.
Proof.
  intros Hs [Hg Hp]. pose proof (bstep_change _ _ _ Hs) as Hc. simpl in Hc.
  apply bstep_clean in Hs as (He & Hd & Hlog).
  split; [eapply ginv_grows; [|done]; apply (bc_grows _ _ _ Hc)|]. intros q.
  eapply pinv_frame; [|apply Hp]. constructor; try done; [|apply (bc_ages _ _ _ Hc)].
  destruct (decide (q = p)) as [->|]; [done|]. by apply (bc_other _ _ _ Hc).
Qed.

(** ** The broker's part of the invariant *)

Lemma binv_past n b lb b' p m :
  bstep b lb b' -> binv n b p -> (m < length (log b p))%nat -> expired b' p m = true ->
  stamp b' p m + retention <= now b'.
Proof.
  intros Hs [B1 B2 _ _] Hm Hx. destruct (bstep_dates _ _ _ _ _ Hs Hm) as [Hst _]. rewrite Hst.
  pose proof (bstep_now _ _ _ Hs). destruct (expired b p m) eqn:He; [specialize (B2 _ Hm He); lia|].
  destruct (lookup_lt_is_Some_2 _ _ Hm) as ([k c] & Hl).
  destruct (bstep_expires _ _ _ _ _ _ _ Hs Hl He Hx) as [?|(m' & c' & Hlt & Hm')]; [done|].
  destruct (B1 _ _ _ _ _ Hlt Hl Hm') as [? _]. congruence.
Qed.

(** Two claims of a key that were apart stay apart. *)
Lemma binv_old n b lb b' p m m' k c c' :
  bstep b lb b' -> binv n b p -> (m < m')%nat -> log b p !! m = Some (k, c) -> log b p !! m' = Some (k, c') ->
  expired b' p m = true /\ stamp b' p m + retention <= committed_at b' p m'.
Proof.
  intros Hs Hb Hlt Hm Hm'. destruct (bi_spaced _ _ _ Hb _ _ _ _ _ Hlt Hm Hm') as [Hx Ht].
  apply lookup_lt_Some in Hm, Hm'. destruct (bstep_dates _ _ _ _ _ Hs Hm) as [-> _].
  destruct (bstep_dates _ _ _ _ _ Hs Hm') as [_ ->]. split; [by eapply bstep_gone|done].
Qed.

(** A claim is appended when the topic has none of its key left. *)
Lemma binv_append n b lb b' p x :
  bstep b lb b' -> binv n b p -> log b' p = log b p ++ [x] -> in_doubt b' p = None ->
  ~ live b p x.1 -> key_of n x.1 p -> binv n b' p.
Proof.
  intros Hs Hb Hl Hd Hx Hk.
  assert (Hlen : length (log b' p) = S (length (log b p))) by (rewrite Hl, length_app; simpl; lia).
  destruct (bstep_dated _ _ _ p (length (log b p)) Hs) as [Hnew Hat]; [lia|].
  constructor; rewrite ?Hd; [|..|done|].
  - intros m m' k c c' Hlt. rewrite Hl. intros [Hm|[-> ->]]%lookup_snoc_cases.
    2: { intros ?%lookup_lt_Some. rewrite length_app in *. simpl in *. lia. }
    intros [Hm'|[-> ->]]%lookup_snoc_cases; [by eapply binv_old|].
    destruct (expired b p m) eqn:He; [|destruct Hx; by exists m, c].
    pose proof (lookup_lt_Some _ _ _ Hm) as Hlm. pose proof (bstep_gone _ _ _ _ _ Hs Hlm He).
    rewrite Hat. split; [done|]. by eapply binv_past.
  - intros m Hm He. destruct (decide (m = length (log b p))) as [->|]; [congruence|].
    eapply binv_past; [done..| |done]. lia.
  - rewrite Hl. intros y [[?| ->%list_elem_of_singleton]%elem_of_app|?]; [apply (bi_key _ _ _ Hb); auto|done|done].
Qed.

Lemma binv_same n b lb b' p :
  bstep b lb b' -> binv n b p -> log b' p = log b p ->
  (forall x, in_doubt b' p = Some x -> ~ live b p x.1 /\ key_of n x.1 p) -> binv n b' p.
Proof.
  intros Hs Hb Hl Hd. constructor; rewrite ?Hl.
  - intros m m' k c c' ? ? ?. by eapply binv_old.
  - intros m ? ?. by eapply binv_past.
  - intros x [Hn _]%Hd Hx. apply Hn. eapply ages_live; [apply (bc_ages _ _ _ (bstep_change _ _ _ Hs))|done|done].
  - intros x [?|[_ ?]%Hd]; [apply (bi_key _ _ _ Hb); auto|done].
Qed.

Lemma binv_doubt n b p x : binv n b p -> in_doubt b p = Some x -> ~ live b p x.1 /\ key_of n x.1 p.
Proof. intros Hb Hx. split; [by apply (bi_doubt _ _ _ Hb)|apply (bi_key _ _ _ Hb); auto]. Qed.

(** A transaction in doubt is settled. *)
Lemma binv_settled n b lb b' p :
  bstep b lb b' -> binv n b p -> in_doubt b' p = None ->
  (log b' p = log b p \/ exists x, in_doubt b p = Some x /\ log b' p = log b p ++ [x]) -> binv n b' p.
Proof.
  intros Hs Hb Hd [Hl|(x & Hx & Hl)]; [eapply binv_same; eauto; congruence|].
  destruct (binv_doubt _ _ _ _ Hb Hx). by eapply binv_append.
Qed.

Lemma binv_init n b b' p : binv n b p -> bstep b (BInit p) b' -> binv n b' p.
Proof. intros Hb Hs. pose proof Hs as (_ & Hd & Hl)%bstep_init. by eapply binv_settled. Qed.

Lemma binv_settle n b b' p : binv n b p -> bstep b (BSettle p) b' -> binv n b' p.
Proof. intros Hb Hs. pose proof Hs as (_ & Hd & Hl)%bstep_settle. by eapply binv_settled. Qed.

Lemma binv_clean n b b' p : binv n b p -> bstep b (BClean p) b' -> binv n b' p.
Proof.
  intros Hb Hs. pose proof Hs as (_ & Hd & Hl)%bstep_clean. eapply binv_same; [done..|].
  intros x. rewrite Hd. by apply binv_doubt.
Qed.

Lemma binv_other n b lb b' q : bstep b lb b' -> q <> blabel_part lb -> binv n b q -> binv n b' q.
Proof.
  intros Hs Hq Hb. destruct (bstep_frame _ _ _ _ Hs Hq) as (? & Hd & _). eapply binv_same; [done..|].
  intros x. rewrite Hd. by apply binv_doubt.
Qed.

(** ** Steps of one replica *)

Lemma rinv_local n b l i r r' p :
  rinv n b l i r -> ginv n b r' -> (forall q, q <> p -> untouched b b l l r r' q) ->
  pinv n b l i r' p -> rinv n b l i r'.
Proof.
  intros [_ Hp] Hg Hu Hpp. split; [done|]. intros q. destruct (decide (q = p)) as [->|]; [done|].
  eapply pinv_frame; [|apply Hp]. auto.
Qed.

Lemma ginv_store n b r r' :
  ginv n b r -> partitions (store r') = partitions (store r) -> Dedup.owned (store r') = Dedup.owned (store r) ->
  targets r' = targets r -> position r' = position r -> prepared r' = prepared r -> captured r' = captured r ->
  (warm (store r') = true -> warm (store r) = true) ->
  (forall k c, claim_map (store r') !! k = Some c ->
     claim_map (store r) !! k = Some c \/ (k, c) ∈ log b (partition_for k n)) ->
  ginv n b r'.
Proof.
  intros [Hn Hm Ht Hcap Hw] Hn' Ho Ht' Hpos Hpr Hc Hw' Hm'.
  constructor; unfold pos in *; rewrite ?Hn', ?Ho, ?Ht', ?Hpos, ?Hpr, ?Hc; auto.
  intros k c [?|?]%Hm'; auto.
Qed.

(** Solves [ginv_store]'s side conditions, and [untouched] away from the
    partition a step is about. *)
Ltac un := intros; constructor; try apply ages_refl; simpl; rewrite ?lookup_insert_ne, ?lookup_delete_ne by done; auto; try done.
Ltac unb Hc := constructor; simpl; rewrite ?lookup_insert_ne, ?lookup_delete_ne, ?fn_lookup_insert_ne by done;
  auto; try apply (bc_ages _ _ _ Hc); try by apply (bc_other _ _ _ Hc).
Ltac gst Hg := eapply (ginv_store _ _ _ _ Hg); simpl; auto.

(** While a leader's gate is open and its slot sound, all it has committed is in
    its map. *)
Lemma gate_covers n b l i r p :
  rinv n b l i r -> l p = Some i -> is_warm (store r) = true -> owns (store r) p = true ->
  busy r !! p = None -> ~ poisoned r p ->
  in_doubt b p = None /\ forall k, live b p k -> is_Some (claim_map (store r) !! k).
Proof.
  intros [Hg Hp] Hl Hw Ho Hb Hn. apply andb_true_iff in Hw as [Hw Hr%negb_true_iff].
  apply bool_decide_eq_true in Ho. destruct (gi_warm _ _ _ Hg Hw) as (Hprep & _ & Htgt).
  destruct (Htgt p Ho) as (t & Ht & Hle). destruct (pi_lead _ _ _ _ _ _ (Hp p) Hl) as [L1 _ _ L4 _]. split.
  - destruct (in_doubt b p) as [x|]; [|done]. destruct L1 as [_ [?|[?|?]]]; [done|congruence|done..].
  - intros k (m & c & Hm & Hx). destruct (Nat.lt_ge_cases m (pos r p)).
    + by eapply (pi_read _ _ _ _ _ _ (Hp p)).
    + destruct (L4 t m k c) as [?|Hc]; auto; [rewrite Hprep; set_solver|by left|lia|congruence].
Qed.

Lemma lock_inv n b l i r k :
  let p := partition_for k (partitions (store r)) in
  rinv n b l i r -> is_utf8 (as_bytes k) = true -> busy r !! p = None -> gate (store r) k p = Ok None ->
  rinv n b l i (with_busy r (<[p := Locked k]> (busy r))).
Proof.
  intros p Hi Hk Hb (Ho & Hw & Hm)%gate_Ok. pose proof Hi as [Hg Hp].
  assert (p = partition_for k n) as Hpn by (unfold p; by rewrite (gi_n _ _ _ Hg)).
  assert (Hprep : p ∉ prepared r).
  { apply andb_true_iff in Hw as [Hw _]. destruct (gi_warm _ _ _ Hg Hw) as [-> _]. set_solver. }
  eapply (rinv_local _ _ _ _ _ _ p Hi); [gst Hg|un|].
  destruct (Hp p) as [H1 H2 H3 H4 H5 H6 H7 H8]. constructor; simpl; rewrite ?lookup_insert_eq; try done.
  - by intros h [= <-].
  - intros Hl. destruct (H8 Hl) as [L1 L2 L3 L4 L5]. constructor; simpl; rewrite ?lookup_insert_eq; try done.
    + intros k' [= <-] Hn. destruct (gate_covers _ _ _ _ _ _ Hi Hl Hw Ho Hb Hn) as [Hd Hc].
      split; [|done]. intros (c' & Hin)%Hc. simpl in *. rewrite Hin in Hm. done.
    + intros t m k' c ? ? ? ? ? ? ? ?. destruct (L4 t m k' c) as [?|?]; auto. congruence.
Qed.

Lemma begin_inv n b l i r p k e :
  rinv n b l i r -> busy r !! p = Some (Locked k) -> slots r !! p = Some (e, false) ->
  rinv n b l i (with_busy r (<[p := InTxn k e]> (busy r))).
Proof.
  intros Hi Hb Hs. pose proof Hi as [Hg Hp].
  eapply (rinv_local _ _ _ _ _ _ p Hi); [gst Hg|un|].
  destruct (Hp p) as [H1 H2 H3 H4 H5 H6 H7 H8]. constructor; simpl; rewrite ?lookup_insert_eq; try done.
  - intros h [= <-]. by apply (H1 _ Hb).
  - by intros k' e' [= _ <-].
  - intros Hpr%H5. congruence.
  - intros Hl. destruct (H8 Hl) as [L1 L2 L3 L4 L5]. constructor; simpl; rewrite ?lookup_insert_eq; try done.
    + intros k' e' [= <- _]. apply L2; [done|]. intros (e0 & He0). simpl in He0. congruence.
    + intros t m k' c ? ? ? ? ? ? ? ?. destruct (L4 t m k' c) as [?|?]; auto. congruence.
Qed.

(** A store that differs in its gates only, and less open ones. *)
Record shut (s s' : DedupStore) : Prop := {
  sh_n : partitions s' = partitions s;
  sh_map : claim_map s' = claim_map s;
  sh_owned : Dedup.owned s' = Dedup.owned s;
  sh_warm : warm s' = true -> warm s = true;
  sh_restart : restart_required s = true -> restart_required s' = true;
}.

Lemma shut_refl s : shut s s.
Proof. by constructor. Qed.
Lemma shut_restart s : shut s (require_restart s).
Proof. by constructor. Qed.
Lemma shut_begin s e a : shut s (txn_begin s (Some e) a).1.1.
Proof. unfold txn_begin. destruct (ans_begin a) as [|[]]; auto using shut_refl, shut_restart. Qed.
Lemma shut_abort s a : shut s (settle_abort s a).
Proof. unfold settle_abort. destruct (ans_abort a); auto using shut_refl, shut_restart. Qed.

(** The request that holds [p] ends before its transaction began. *)
Lemma end_locked_inv n b l i r s' m p k :
  rinv n b l i r -> busy r !! p = Some (Locked k) -> shut (store r) s' ->
  (m = slots r \/ m = delete p (slots r) /\ (poisoned r p -> restart_required s' = true)) ->
  rinv n b l i (unlock (with_slots (with_store r s') m) p).
Proof.
  intros Hi Hb [S1 S2 S3 S4 S5] Hm. pose proof Hi as [Hg Hp].
  assert (Hmq : forall q, q <> p -> m !! q = slots r !! q).
  { intros q Hq. destruct Hm as [->|[-> _]]; [done|by rewrite lookup_delete_ne]. }
  eapply (rinv_local _ _ _ _ _ _ p Hi).
  { gst Hg. rewrite S2. auto. }
  { un; rewrite ?S2, ?S3; auto. }
  destruct (Hp p) as [H1 H2 H3 H4 H5 H6 H7 H8].
  constructor; simpl; rewrite ?lookup_delete_eq, ?S2, ?S3; try done.
  - intros e d Hs. apply (H3 e d). destruct Hm as [->|[-> _]]; [done|by rewrite lookup_delete_eq in Hs].
  - intros Hl. destruct (H8 Hl) as [L1 L2 L3 L4 L5].
    constructor; unfold poisoned in *; simpl; rewrite ?lookup_delete_eq, ?S2, ?S3; try done.
    + intros [? Hd]%L1. split; [done|]. destruct Hm as [->|[-> Hr]]; naive_solver.
    + intros t m' k' c ? ? Hr Hn ? ? ? ?. left.
      destruct (L4 t m' k' c) as [?|?]; auto; [|by destruct Hm as [->|[-> Hr']]; [|naive_solver congruence]|congruence].
      destruct (restart_required (store r)); [by rewrite S5 in Hr|done].
Qed.

(** The transaction on [p] ends without a commit the replica knows of. *)
Lemma end_txn_inv n b b' l i r s' m p k e :
  rinv n b l i r -> busy r !! p = Some (InTxn k e) -> shut (store r) s' ->
  bchange b b' p -> log b' p = log b p -> epoch b' p = epoch b p ->
  (m = delete p (slots r) /\ (restart_required s' = true \/ in_doubt b' p = in_doubt b p)
   \/ m = <[p := (e, true)]> (slots r)) ->
  rinv n b' l i (unlock (with_slots (with_store r s') m) p).
Proof.
  intros [Hg Hp] Hb [S1 S2 S3 S4 S5] Hc Hlog He Hm.
  assert (Hmq : forall q, q <> p -> m !! q = slots r !! q).
  { intros q Hq. destruct Hm as [[-> _]| ->]; [by rewrite lookup_delete_ne|by rewrite lookup_insert_ne]. }
  split; [eapply (ginv_store _ _ r); simpl; auto; [eapply ginv_grows; [apply Hc|done]|rewrite S2; auto]|].
  intros q. destruct (decide (q = p)) as [->|Hq];
    [|eapply pinv_frame; [|apply Hp]; unb Hc; rewrite ?S2, ?S3; auto].
  destruct (Hp p) as [H1 H2 H3 H4 H5 H6 H7 H8]. pose proof (H4 _ _ Hb) as Hs.
  constructor; simpl; rewrite ?lookup_delete_eq, ?S2, ?S3, ?Hlog, ?He; try done.
  - intros e' d Hs'. destruct Hm as [[-> _]| ->]; [by rewrite lookup_delete_eq in Hs'|].
    rewrite lookup_insert_eq in Hs'. injection Hs' as <- _. by eapply H3.
  - intros m' k' c Ho Hlt Hl Hx%(bc_ages _ _ _ Hc); [eauto|by eapply lookup_lt_Some].
  - intros Hl. destruct (H8 Hl) as [L1 L2 L3 L4 L5]. destruct (L3 _ _ Hb) as [_ Hnone].
    constructor; unfold poisoned in *; simpl; rewrite ?lookup_delete_eq, ?S2, ?S3, ?Hlog; try done.
    + intros Hd. split; [intros Hpr%H5; congruence|].
      destruct Hm as [[-> [?|?]]| ->]; [by left|congruence|]. right. left. exists e. by rewrite lookup_insert_eq.
    + intros t m' k' c ? ? Hr Hn ? ? ? Hx%(bc_ages _ _ _ Hc); [|by eapply lookup_lt_Some]. left.
      destruct (L4 t m' k' c) as [?|?]; auto; [|intros (e0 & ?); congruence|congruence].
      destruct (restart_required (store r)); [by rewrite S5 in Hr|done].
Qed.

(** A commit goes through only at the replica that leads the partition, for a
    key that is not in the log. *)
Lemma commit_fresh n b l i r p k e c b' :
  rinv n b l i r -> busy r !! p = Some (InTxn k e) -> bstep b (BCommit p e (k, c)) b' ->
  l p = Some i /\ ~ live b p k /\ in_doubt b p = None /\ key_of n k p.
Proof.
  intros [_ Hp] Hb (He & _)%bstep_commit. destruct (Hp p) as [H1 _ H3 H4 _ _ _ H8].
  destruct (H3 _ _ (H4 _ _ Hb)) as [_ Hiff]. assert (Hl : l p = Some i) by (by apply Hiff).
  destruct (rl_txn _ _ _ (H8 Hl) _ _ Hb) as [? ?]. by specialize (H1 _ Hb).
Qed.

Lemma commit_inv n b l i r p k e c b' :
  rinv n b l i r -> busy r !! p = Some (InTxn k e) -> bstep b (BCommit p e (k, c)) b' ->
  rinv n b' l i (with_busy r (<[p := Committed k c]> (busy r))).
Proof.
  intros Hi Hb Hs. destruct (commit_fresh _ _ _ _ _ _ _ _ _ _ Hi Hb Hs) as (Hl & Hk & Hnone & Hkey).
  pose proof Hi as [Hg Hp]. pose proof (bstep_change _ _ _ Hs) as Hc. simpl in Hc.
  apply bstep_commit in Hs as (_ & He & Hd & Hlog).
  split; [eapply (ginv_store _ _ r); simpl; auto; eapply ginv_grows; [apply Hc|done]|].
  intros q. destruct (decide (q = p)) as [->|Hq];
    [|eapply pinv_frame; [|apply Hp]; by unb Hc].
  pose proof (bc_grows _ _ _ Hc p) as Hgr. destruct (Hp p) as [H1 H2 H3 H4 H5 H6 H7 H8].
  constructor; simpl; rewrite ?lookup_insert_eq, ?He; try done.
  - by intros h [= <-].
  - intros k' c' [= <- <-]. rewrite Hlog, elem_of_app. right. by left.
  - intros Hpr%H5. congruence.
  - pose proof (grows_length _ _ _ Hgr). unfold pos in *; simpl in *. lia.
  - by apply (read_grows _ _ _ _ Hgr (bc_ages _ _ _ Hc p) H6).
  - intros _. destruct (H8 Hl) as [L1 L2 L3 L4 L5]. constructor; simpl; rewrite ?lookup_insert_eq, ?Hd; try done.
    + intros t m k' c' ? ? ? ? ? Hm ? Hx. rewrite Hlog in Hm. apply lookup_snoc_cases in Hm as [Hm|[_ [= -> ->]]]; [|by right].
      apply (bc_ages _ _ _ Hc) in Hx; [|by eapply lookup_lt_Some]. destruct (L4 t m k' c') as [?|?]; auto. congruence.
    + intros x t _ Hpr%H5. congruence.
Qed.

Lemma apply_inv n b l i r p k c :
  rinv n b l i r -> busy r !! p = Some (Committed k c) ->
  rinv n b l i (unlock (with_store r (apply (store r) k c)) p).
Proof.
  intros Hi Hb. pose proof Hi as [Hg Hp]. destruct (Hp p) as [H1 H2 H3 H4 H5 H6 H7 H8].
  destruct (H1 _ Hb) as [Hk _]. simpl in Hk.
  assert (Hmono : forall k', is_Some (claim_map (store r) !! k') -> is_Some (<[k := c]> (claim_map (store r)) !! k')).
  { intros k' ?. destruct (decide (k = k')) as [->|]; [rewrite lookup_insert_eq; eauto|by rewrite lookup_insert_ne]. }
  eapply (rinv_local _ _ _ _ _ _ p Hi).
  { gst Hg. intros k' c' [[<- <-]|[_ ?]]%lookup_insert_Some; [|by left]. right. rewrite Hk. by apply H2. }
  { un. }
  constructor; simpl; rewrite ?lookup_delete_eq; try done; [eauto|].
  intros Hl. destruct (H8 Hl) as [L1 L2 L3 L4 L5]. constructor; simpl; rewrite ?lookup_delete_eq; try done.
  intros t m k' c' ? ? ? ? ? ? ? ?. left. destruct (L4 t m k' c') as [?|Hc]; auto.
  rewrite Hb in Hc. injection Hc as <- <-. rewrite lookup_insert_eq. eauto.
Qed.

Lemma reinit_inv n b l i r p k b' :
  rinv n b l i r -> busy r !! p = Some (Locked k) -> slots r !! p = None -> l p = Some i -> bstep b (BInit p) b' ->
  rinv n b' (<[p := Some i]> l) i
    (with_busy (with_slots r (<[p := (epoch b' p, false)]> (slots r))) (<[p := InTxn k (epoch b' p)]> (busy r))).
Proof.
  intros [Hg Hp] Hb Hs Hl Hst. pose proof (bstep_change _ _ _ Hst) as Hc. simpl in Hc.
  apply bstep_init in Hst as (He & Hd & Hlog). destruct (Hp p) as [H1 H2 H3 H4 H5 H6 H7 H8].
  assert (Hnp : ~ poisoned r p) by (intros (? & ?); congruence).
  destruct (H8 Hl) as [L1 L2 L3 L4 L5]. destruct (L2 _ Hb Hnp) as [Hk Hnone].
  assert (Hsame : log b' p = log b p) by (destruct Hlog as [?|(? & ? & _)]; congruence).
  pose proof (bc_ages _ _ _ Hc p) as Ha.
  split; [eapply (ginv_store _ _ r); simpl; auto; eapply ginv_grows; [apply Hc|done]|].
  intros q. destruct (decide (q = p)) as [->|Hq].
  - constructor; simpl; rewrite ?lookup_insert_eq, ?fn_lookup_insert, ?Hsame; try done.
    + intros h [= <-]. by apply (H1 _ Hb).
    + by intros e d [= <- _].
    + by intros k' e' [= _ <-].
    + intros Hpr%H5. congruence.
    + intros m k' c' Ho Hlt Hl' Hx%Ha; [eauto|by eapply lookup_lt_Some].
    + intros _. constructor; simpl; rewrite ?lookup_insert_eq, ?Hd, ?Hsame; try done.
      * intros k' e' [= <- _]. split; [|done]. intros Hlive. apply Hk. by eapply ages_live.
      * intros t m k' c' ? ? ? Hn ? ? ? Hx%Ha; [|by eapply lookup_lt_Some]. destruct (L4 t m k' c') as [?|?]; auto. congruence.
  - eapply pinv_frame; [|apply Hp]. by unb Hc.
Qed.

Lemma prepare_inv n b l i r p b' :
  rinv n b l i r -> captured r = None -> busy r !! p = None -> bstep b (BInit p) b' ->
  rinv n b' (<[p := Some i]> l) i
    (with_prepared (with_slots (with_store r (clear_warm (store r))) (<[p := (epoch b' p, false)]> (slots r)))
       ({[p]} ∪ prepared r)).
Proof.
  intros [Hg Hp] Hcap Hb Hst. pose proof (bstep_change _ _ _ Hst) as Hc. simpl in Hc.
  apply bstep_init in Hst as (He & Hd & Hlog). pose proof (bc_grows _ _ _ Hc p) as Hgr. split.
  { pose proof (ginv_grows _ _ _ _ (bc_grows _ _ _ Hc) Hg) as [G1 G2 G3 Gc G4]. constructor; simpl; try done. by rewrite Hcap. }
  intros q. destruct (decide (q = p)) as [->|Hq].
  - destruct (Hp p) as [H1 H2 H3 H4 H5 H6 H7 H8].
    constructor; simpl; rewrite ?lookup_insert_eq, ?fn_lookup_insert, ?Hb; try done.
    + by intros e d [= <- _].
    + pose proof (grows_length _ _ _ Hgr). unfold pos in *; simpl in *. lia.
    + by apply (read_grows _ _ _ _ Hgr (bc_ages _ _ _ Hc p) H6).
    + intros _. constructor; simpl; rewrite ?Hb, ?Hd, ?Hcap; try done. set_solver.
  - eapply pinv_frame; [|apply Hp]. unb Hc; set_solver.
Qed.

Lemma log_key n b p m k c : binv n b p -> log b p !! m = Some (k, c) -> key_of n k p.
Proof. intros Hb Hm. apply (bi_key _ _ _ Hb (k, c)). left. by eapply list_elem_of_lookup_2. Qed.

(** An assignment change: the map keeps the claims of what stays owned. *)
Lemma revoke_inv n b l i r parts :
  (forall p, binv n b p) -> rinv n b l i r -> captured r = None ->
  rinv n b l i {| store := (on_partitions_revoked (store r) parts).1; targets := ∅; position := position r;
                  slots := slots r; busy := busy r; prepared := prepared r; captured := captured r |}.
Proof.
  intros Hbi [Hg Hp] Hcap. pose proof (revoked_owned (store r) parts) as Hsub.
  unfold on_partitions_revoked in *. simpl in *. set (o := foldl _ _ _) in *.
  destruct (update_assignment_spec (clear_warm (store r)) o) as (Ho & Hw & Hn & Hr & Hm & Hm').
  set (s' := update_assignment _ _) in *. simpl in *. destruct Hg as [G1 G2 G3 Gc G4].
  split; [constructor; simpl; rewrite ?Hcap; [congruence|eauto|by left|done|congruence]|].
  intros q. destruct (Hp q) as [H1 H2 H3 H4 H5 H6 H7 H8]. constructor; simpl; try done.
  - intros m k c Hin Hlt Hl Hx. apply Hm'; [eapply H7; [set_solver|done|done|done]|].
    rewrite G1. destruct (log_key _ _ _ _ _ _ (Hbi q) Hl) as [-> _]. set_solver.
  - intros Hl. destruct (H8 Hl) as [L1 L2 L3 L4 L5]. constructor; unfold poisoned in *; simpl in *; try done.
    + rewrite Hr. intros [? [?|[?|?]]]%L1; split; auto. right. right. set_solver.
    + rewrite Hcap. intros t m k c _ _ _ _ [Ht|(x & ? & _)]; [|done]. simpl in Ht. by rewrite lookup_empty in Ht.
Qed.

(** The seek of the newly fenced partitions. *)
Lemma sought_pos r q :
  let m := default 0%nat (filter (fun kv => kv.1 ∉ prepared r) (position r) !! q) in
  (m <= pos r q)%nat /\ (q ∈ prepared r -> m = 0%nat).
Proof.
  unfold pos. destruct (filter _ _ !! q) as [m|] eqn:Hf; simpl; [|split; [lia|done]].
  apply map_lookup_filter_Some in Hf as [-> ?]. simpl. split; [lia|done].
Qed.

Lemma capture_inv n b l i r ps ends :
  rinv n b l i r -> captured r = None ->
  (forall p, p ∈ ps -> p ∈ Dedup.owned (store r) \/ p ∈ prepared r) ->
  (forall p, p ∈ ps <-> exists t, ends !! p = Some t) ->
  (forall p t, ends !! p = Some t -> t = length (log b p)) ->
  rinv n b l i {| store := clear_warm (store r); targets := targets r;
                  position := filter (fun kv => kv.1 ∉ prepared r) (position r);
                  slots := slots r; busy := busy r; prepared := prepared r; captured := Some (ps, ends) |}.
Proof.
  intros [[G1 G2 G3 Gc G4] Hp] Hcap Hps Hends Hlen. split.
  { constructor; simpl; try done. intros ps' ends' [= <- <-]. split_and!; [done..|]. intros p Hpr.
    unfold pos. simpl. by apply sought_pos. }
  intros q. destruct (Hp q) as [H1 H2 H3 H4 H5 H6 H7 H8]. destruct (sought_pos r q) as [Hq _].
  constructor; simpl; unfold pos; simpl; try done; [by etrans| |].
  - intros m k c Ho Hlt. apply H7; [done|by eapply Nat.lt_le_trans].
  - intros Hl. destruct (H8 Hl) as [L1 L2 L3 L4 L5]. constructor; simpl; try done.
    + intros t m k c ? ? ? ? [?|(x & [= <-] & Ht)] Hm Hle ?; [eapply L4; eauto; by left|].
      apply Hlen in Ht. apply lookup_lt_Some in Hm. simpl in *. lia.
    + intros x t [= <-] _ Ht. simpl in Ht. by rewrite (Hlen _ _ Ht).
Qed.

Lemma assigned_inv n b l i r ps ends s' ts :
  (forall p, binv n b p) -> rinv n b l i r -> captured r = Some (ps, ends) ->
  on_partitions_assigned (store r) (offsets_of dt (targets r)) dt (Ok ()) ((dt,.) <$> elements (prepared r)) (Ok ())
    ((dt,.) <$> ps) (fun _ => Ok (offsets_of dt ends)) = (s', ts, Ok ()) ->
  rinv n b l i {| store := s'; targets := ends; position := position r;
                  slots := slots r; busy := busy r; prepared := ∅; captured := None |}.
Proof.
  intros Hbi [Hg Hp] Hcap (a & -> & Ha)%assigned_Ok. destruct (gi_cap _ _ _ Hg _ _ Hcap) as (Hps & Hends & Hzero).
  assert (Ha' : forall p, p ∈ a -> p ∈ ps) by (intros p (tp & (p' & -> & ?)%list_elem_of_fmap & <-)%Ha; done).
  destruct (update_assignment_spec (clear_warm (store r)) a) as (Ho & Hw & Hn & Hr & Hm & Hm').
  set (s' := update_assignment _ _) in *. simpl in *. destruct Hg as [G1 G2 G3 Gc G4].
  assert (Hkeep : forall q m k c, q ∈ a -> log b q !! m = Some (k, c) ->
    is_Some (claim_map (store r) !! k) -> is_Some (claim_map s' !! k)).
  { intros q m k c Hin Hl ?. apply Hm'; [done|]. rewrite G1. by destruct (log_key _ _ _ _ _ _ (Hbi q) Hl) as [-> _]. }
  split; [constructor; simpl; [congruence|eauto| |done|congruence]; right; rewrite Ho; intros p Hin; apply Hends; auto|].
  intros q. destruct (Hp q) as [H1 H2 H3 H4 H5 H6 H7 H8]. constructor; simpl; try done.
  - rewrite Ho. intros m k c Hin Hlt Hl Hx. destruct (decide (q ∈ prepared r)) as [Hpr|Hpr].
    + unfold pos in *. simpl in *. rewrite Hzero in Hlt by done. lia.
    + eapply Hkeep; [done..|]. eapply H7; [destruct (Hps q); auto; done|done..].
  - intros Hl. destruct (H8 Hl) as [L1 L2 L3 L4 L5]. constructor; unfold poisoned in *; simpl in *; try done.
    + rewrite Hr, Ho. intros [Hpr Hd]%L1. split; [set_solver|]. destruct Hd as [?|[?|?]]; auto.
      right. right. intros Hin%Ha'%Hps. tauto.
    + rewrite Ho, Hr. intros t m k c Hin _ ? ? [Ht|(x & ? & _)] Hlk Hle Hx; [|done]. simpl in Ht.
      destruct (decide (q ∈ prepared r)) as [Hpr|Hpr].
      * specialize (L5 _ _ Hcap Hpr Ht). apply lookup_lt_Some in Hlk. lia.
      * destruct (L4 t m k c) as [?|?]; auto; [destruct (Hps q); auto; done|right; eauto|left; eauto].
Qed.

Lemma release_inv n b l i r p :
  rinv n b l i r -> busy r !! p = None -> p ∉ Dedup.owned (store r) ->
  rinv n b l i (with_slots r (delete p (slots r))).
Proof.
  intros Hi Hb Ho. pose proof Hi as [Hg Hp]. eapply (rinv_local _ _ _ _ _ _ p Hi); [gst Hg|un|].
  destruct (Hp p) as [H1 H2 H3 H4 H5 H6 H7 H8]. constructor; simpl; rewrite ?lookup_delete_eq, ?Hb; try done.
  intros Hl. destruct (H8 Hl) as [L1 L2 L3 L4 L5]. constructor; simpl; rewrite ?Hb; try done.
  intros [? _]%L1. auto.
Qed.

Lemma read_inv n b l i r p k c v :
  let m := default 0%nat (position r !! p) in
  binv n b p -> rinv n b l i r -> captured r = None ->
  0 <= p <= u32_max -> owns (store r) p = true -> log b p !! m = Some (k, c) -> to_vec c = Ok v ->
  rinv n b l i
    {| store := ownership_record (store r) {| rec_partition := p; rec_key := Some (as_bytes k); rec_value := Some v |};
       targets := targets r; position := <[p := S m]> (position r);
       slots := slots r; busy := busy r; prepared := prepared r; captured := captured r |}.
Proof.
  intros m Hbi Hi Hcap Hpr Ho Hm Hv. destruct (log_key _ _ _ _ _ _ Hbi Hm) as [Hk Hu].
  rewrite (ownership_record_claim _ _ _ _ _ Hpr Hu Hv Ho). destruct Hi as [[G1 G2 G3 Gc G4] Hp].
  assert (Hmono : forall k', is_Some (claim_map (store r) !! k') -> is_Some (<[k := c]> (claim_map (store r)) !! k')).
  { intros k' ?. destruct (decide (k = k')) as [->|]; [rewrite lookup_insert_eq; eauto|by rewrite lookup_insert_ne]. }
  split.
  { constructor; simpl; try done.
    - intros k' c' [[<- <-]|[_ ?]]%lookup_insert_Some; [|auto]. rewrite Hk. by eapply list_elem_of_lookup_2.
    - by rewrite Hcap.
    - intros (? & ? & Hw)%G4. split_and!; [done..|]. intros q (t & ? & ?)%Hw. exists t. split; [done|]. unfold pos in *. simpl.
      destruct (decide (p = q)) as [->|]; [rewrite lookup_insert_eq|rewrite lookup_insert_ne by done; lia].
      simpl. fold m in H2. lia. }
  intros q. destruct (decide (q = p)) as [->|Hq]; [|eapply pinv_frame; [|apply Hp]; un].
  destruct (Hp p) as [H1 H2 H3 H4 H5 H6 H7 H8]. constructor; simpl; try done; unfold pos in *; simpl; rewrite ?lookup_insert_eq; simpl.
  - apply lookup_lt_Some in Hm. lia.
  - intros m' k' c' Hin Hlt Hl Hx. destruct (decide (m' = m)) as [->|].
    + rewrite Hm in Hl. injection Hl as <- <-. rewrite lookup_insert_eq. eauto.
    + apply Hmono. eapply H7; [done| |done|done]. fold m. lia.
  - intros Hl. destruct (H8 Hl) as [L1 L2 L3 L4 L5]. constructor; simpl; try done.
    intros t m' k' c' ? ? ? ? ? ? ? ?. destruct (L4 t m' k' c') as [?|?]; auto.
Qed.

Lemma skip_inv n b l i r p :
  let m := default 0%nat (position r !! p) in
  rinv n b l i r -> captured r = None -> (m < length (log b p))%nat -> expired b p m = true ->
  rinv n b l i
    {| store := store r; targets := targets r; position := <[p := S m]> (position r);
       slots := slots r; busy := busy r; prepared := prepared r; captured := captured r |}.
Proof.
  intros m [[G1 G2 G3 Gc G4] Hp] Hcap Hlen Hx. split.
  { constructor; simpl; try done; [by rewrite Hcap|].
    intros (? & ? & Hw)%G4. split_and!; [done..|]. intros q (t & ? & ?)%Hw. exists t. split; [done|]. unfold pos in *. simpl.
    destruct (decide (p = q)) as [->|]; [rewrite lookup_insert_eq|rewrite lookup_insert_ne by done; lia].
    simpl. fold m in H2. lia. }
  intros q. destruct (decide (q = p)) as [->|Hq]; [|eapply pinv_frame; [|apply Hp]; un].
  destruct (Hp p) as [H1 H2 H3 H4 H5 H6 H7 H8]. constructor; simpl; try done; unfold pos in *; simpl; rewrite ?lookup_insert_eq; simpl.
  - lia.
  - intros m' k' c' Hin Hlt Hl Hx'. destruct (decide (m' = m)) as [->|]; [congruence|]. eapply H7; [done| |done|done]. fold m. lia.
  - intros Hl. destruct (H8 Hl) as [L1 L2 L3 L4 L5]. by constructor.
Qed.

Lemma offsets_of_lookup (m : gmap Z nat) p : offsets_of dt m !! (dt, p) = Z.of_nat <$> m !! p.
Proof. unfold offsets_of. rewrite (lookup_kmap (fun p => (dt, p))). by rewrite lookup_fmap. Qed.

Lemma replay_complete_pos (ts : gmap Z nat) (f : TopicPartition -> Z) lst :
  try_map (fun tp => p ← (Ok (f tp) : result ConsumerError Z); Ok (tp, p)) (map_to_list (offsets_of dt ts)).*1 = Ok lst ->
  replay_complete (offsets_of dt ts) (list_to_map lst) = true ->
  ts <> ∅ /\ forall p t, ts !! p = Some t -> Z.of_nat t <= f (dt, p).
Proof.
  intros Hl%try_map_Ok [Hne Hall]%andb_true_iff. split.
  { intros ->. apply bool_decide_eq_true in Hne. apply Hne. unfold offsets_of. by rewrite fmap_empty, kmap_empty. }
  intros p t Ht. rewrite forallb_forall in Hall.
  specialize (Hall ((dt, p), Z.of_nat t)). simpl in Hall.
  assert (Hin : In ((dt, p), Z.of_nat t) (map_to_list (offsets_of dt ts))).
  { apply list_elem_of_In, elem_of_map_to_list. by rewrite offsets_of_lookup, Ht. }
  specialize (Hall Hin). destruct (list_to_map lst !! (dt, p)) as [z|] eqn:Hz; [|done].
  apply elem_of_list_to_map_2 in Hz. apply list_elem_of_lookup in Hz as (j & Hz).
  destruct (Forall2_lookup_r _ _ _ _ _ Hl Hz) as (tp & _ & [= -> <-]). bool_prop. done.
Qed.

Lemma turn_inv n b l i r s' res :
  rinv n b l i r -> prepared r = ∅ -> captured r = None ->
  ownership_turn (store r) (offsets_of dt (targets r)) []
    (fun tp => Ok (Z.of_nat (default 0%nat (position r !! tp.2)))) = (s', res) ->
  rinv n b l i (with_store r s').
Proof.
  intros [[G1 G2 G3 Gc G4] Hp] Hprep Hcap (Ho & Hm & Hn & Hr & Hw)%ownership_turn_nil. split.
  - constructor; simpl; rewrite ?Ho, ?Hm, ?Hn; try done. intros [?|(lst & Hl & Hc)]%Hw; [auto|]. split_and!; [done..|].
    destruct (replay_complete_pos _ _ _ Hl Hc) as [Hne Hall]. destruct G3 as [?|G3]; [done|].
    intros p (t & Ht)%G3. exists t. split; [done|]. apply Hall in Ht. unfold pos. simpl in *. lia.
  - intros q. eapply pinv_frame; [|apply Hp]. by constructor; try apply ages_refl; simpl; rewrite ?Ho, ?Hm, ?Hr.
Qed.

Lemma exit_inv n b l i r :
  rinv n b l i r ->
  rinv n b l i {| store := ownership_exit (store r); targets := targets r; position := position r;
                  slots := slots r; busy := busy r; prepared := ∅; captured := None |}.
Proof.
  intros [[G1 G2 G3 Gc G4] Hp]. split.
  - constructor; simpl; try done. right. set_solver.
  - intros q. destruct (Hp q) as [H1 H2 H3 H4 H5 H6 H7 H8]. constructor; simpl; try done.
    intros Hl. destruct (H8 Hl) as [L1 L2 L3 L4 L5]. constructor; simpl; try done.
    intros _. split; [set_solver|]. right. right. set_solver.
Qed.

Lemma fresh_inv n b l i w s : DedupStore_new n w = Some s -> rinv n b l i (fresh s).
Proof.
  unfold DedupStore_new. destruct (partitions_ok n); [|done]. intros [= <-].
  split; [constructor; simpl; try done; by left|].
  intros q. constructor; unfold pos; simpl; try done; [by apply Nat.le_0_l|].
  intros _. constructor; simpl; try done. intros _. split; set_solver.
Qed.

Lemma doubt_broker n b b' l i r p k e c :
  rinv n b l i r -> binv n b p -> busy r !! p = Some (InTxn k e) -> bstep b (BDoubt p e (k, c)) b' ->
  binv n b' p /\ l p = Some i.
Proof.
  intros [_ Hp] Hbi Hb Hs. pose proof Hs as (-> & He & Hd & Hl)%bstep_doubt. destruct (Hp p) as [H1 _ H3 H4 _ _ _ H8].
  assert (Hlp : l p = Some i) by (by apply (H3 _ _ (H4 _ _ Hb))). split; [|done].
  destruct (rl_txn _ _ _ (H8 Hlp) _ _ Hb) as [Hk _]. specialize (H1 _ Hb).
  eapply binv_same; [done..|]. rewrite Hd. by intros x [= <-].
Qed.

(** What a step of replica [i] leaves: the broker's logs, the replica itself and
    every other replica keep their invariants. *)
Definition keeps (n : Z) (i : nat) (b : broker) (l : Leads) (b' : broker) (l' : Leads) (r' : Replica) : Prop :=
  (forall p, binv n b' p) /\ rinv n b' l' i r' /\ forall j r, i <> j -> rinv n b l j r -> rinv n b' l' j r.

Lemma keeps_local n i b l r' : (forall p, binv n b p) -> rinv n b l i r' -> keeps n i b l b l r'.
Proof. by intros. Qed.

Lemma keeps_broker n i b l b' l' r' lb :
  bstep b lb b' -> (forall p, binv n b p) -> binv n b' (blabel_part lb) -> rinv n b' l' i r' ->
  (forall q, q <> blabel_part lb -> l' q = l q) -> l' (blabel_part lb) = Some i ->
  (epoch b (blabel_part lb) < epoch b' (blabel_part lb) \/
   epoch b' (blabel_part lb) = epoch b (blabel_part lb) /\ l (blabel_part lb) = Some i) ->
  keeps n i b l b' l' r'.
Proof.
  intros Hs Hbi Hb' Hr Hl Hlp He. split_and!; [|done|].
  - intros q. destruct (decide (q = blabel_part lb)) as [->|]; [done|]. by eapply binv_other.
  - intros j r Hij Hj. eapply other_replica; eauto using bstep_change.
Qed.

Lemma init_keeps n i b l b' p r' :
  bstep b (BInit p) b' -> (forall q, binv n b q) -> rinv n b' (<[p := Some i]> l) i r' ->
  keeps n i b l b' (<[p := Some i]> l) r'.
Proof.
  intros Hs Hbi Hr. eapply keeps_broker; eauto; simpl.
  - by eapply binv_init.
  - intros q Hq. by rewrite fn_lookup_insert_ne.
  - by rewrite fn_lookup_insert.
  - left. by apply bstep_init in Hs as [? _].
Qed.

Lemma end_txn_keeps n i b l b' r s' m p k e :
  (forall q, binv n b q) -> rinv n b l i r -> busy r !! p = Some (InTxn k e) -> shut (store r) s' ->
  (b' = b \/ exists c, bstep b (BDoubt p e (k, c)) b') ->
  (m = delete p (slots r) /\ (restart_required s' = true \/ b' = b) \/ m = <[p := (e, true)]> (slots r)) ->
  keeps n i b l b' l (unlock (with_slots (with_store r s') m) p).
Proof.
  intros Hbi Hi Hb Hsh Hbr Hm. destruct Hbr as [->|(c & Hs)].
  - apply keeps_local; [done|]. eapply end_txn_inv; eauto.
    + constructor; [intros q; apply ages_refl|by left|done|lia].
    + destruct Hm as [[-> _]| ->]; auto.
  - destruct (doubt_broker _ _ _ _ _ _ _ _ _ _ Hi (Hbi p) Hb Hs) as [Hb' Hl].
    pose proof Hs as (_ & He & Hd & Hlog)%bstep_doubt.
    eapply (keeps_broker _ _ _ _ _ _ _ _ Hs); [done|done| |done|done|by right]. eapply end_txn_inv; eauto; [apply (bstep_change _ _ _ Hs)|].
    destruct Hm as [[-> [?| ->]]| ->]; auto.
Qed.

Section Guarded.
  Context (n : Z) (i : nat) (Hguard : forall o, may_reinit o i -> o = Some i).

Lemma rstep_keeps b l r b' l' r' :
  (forall p, binv n b p) -> rinv n b l i r -> rstep i b l r b' l' r' -> keeps n i b l b' l' r'.
Proof.
  intros Hbi Hi Hst. destruct Hst.
  - apply keeps_local; [done|]. by apply lock_inv.
  - apply keeps_local; [done|]. by apply begin_inv.
  - eapply init_keeps; [done..|]. eapply reinit_inv; eauto.
  - apply keeps_local; [done|]. unfold fail_slot. eapply (end_locked_inv _ _ _ _ _ _ _ _ k); eauto using shut_begin.
    right. split; [done|]. intros (e' & He'). assert (d = true) as -> by congruence.
    unfold txn_begin. rewrite H3, (H4 eq_refl). done.
  - destruct (commit_fresh _ _ _ _ _ _ _ _ _ _ Hi H1 H2) as (Hl & Hk & Hn & Hkey).
    pose proof H2 as (_ & He & Hd & Hlog)%bstep_commit.
    eapply (keeps_broker _ _ _ _ _ _ _ _ H2); [done| | |done|done|by right]; simpl.
    + eapply binv_append; [done|apply Hbi|done|congruence|done|done].
    + by eapply commit_inv.
  - apply keeps_local; [done|]. by apply apply_inv.
  - eapply (end_txn_keeps _ _ _ _ _ _ _ _ _ _ _ Hbi Hi H1); eauto using shut_abort.
  - eapply (end_txn_keeps _ _ _ _ _ _ _ _ _ _ _ Hbi Hi H1); eauto using shut_abort.
    left. split; [done|]. left. unfold settle_abort. by rewrite H2.
  - eapply (end_txn_keeps _ _ _ _ _ r (store r) _ _ _ _ Hbi Hi H1) in H2; eauto using shut_refl.
  - apply keeps_local; [done|]. eapply (end_locked_inv _ _ _ _ r (store r) (slots r) _ k) in Hi; eauto using shut_refl.
  - apply keeps_local; [done|]. by apply revoke_inv.
  - apply keeps_local; [done|]. by apply release_inv.
  - eapply init_keeps; [done..|]. by eapply prepare_inv.
  - apply keeps_local; [done|]. by apply capture_inv.
  - apply keeps_local; [done|]. by eapply assigned_inv.
  - apply keeps_local; [done|]. by eapply read_inv.
  - apply keeps_local; [done|]. by apply skip_inv.
  - apply keeps_local; [done|]. by eapply turn_inv.
  - apply keeps_local; [done|]. by apply exit_inv.
  - apply keeps_local; [done|]. destruct Hi as [Hg _]. rewrite (gi_n _ _ _ Hg) in H1. by eapply fresh_inv.
Qed.
End Guarded.

Lemma sys_step_inv n S S' :
  (forall o i, may_reinit o i -> o = Some i) -> sys_step S S' -> sys_inv n S -> sys_inv n S'.
Proof.
  intros Hguard Hst [Hb Hr]. destruct Hst as [S i b' l' r' Hst|S p b' Hst|S p b' Hst].
  - destruct (rstep_keeps n i (fun o => Hguard o i) _ _ _ _ _ _ Hb (Hr i) Hst) as (Hb' & Hi & Ho).
    split; [done|]. intros j. simpl. destruct (decide (i = j)) as [<-|Hne].
    + by rewrite fn_lookup_insert.
    + rewrite fn_lookup_insert_ne by done. auto.
  - split; simpl; [|intros i; by eapply settle_replica].
    intros q. destruct (decide (q = p)) as [->|]; [by eapply binv_settle|by eapply binv_other].
  - split; simpl; [|intros i; by eapply clean_replica].
    intros q. destruct (decide (q = p)) as [->|]; [by eapply binv_clean|by eapply binv_other].
Qed.

(** A broker with empty logs and processes that have just started. *)
Definition initial (n : Z) (S : Sys) : Prop :=
  (forall p, log (br S) p = [] /\ in_doubt (br S) p = None) /\
  forall i, exists w s, DedupStore_new n w = Some s /\ reps S i = fresh s.

Lemma initial_inv n S : initial n S -> sys_inv n S.
Proof.
  intros [Hb Hr]. split.
  - intros p. destruct (Hb p) as [Hl Hd]. constructor; rewrite ?Hl, ?Hd; [done|simpl; lia|done|].
    intros x [Hx|?]; [by apply not_elem_of_nil in Hx|done].
  - intros i. destruct (Hr i) as (w & s & Hs & ->). by eapply fresh_inv.
Qed.
End System.

Lemma sys_step_mono `{TxnBroker} `{Serde ClaimValue} dt (g g' : option nat -> nat -> Prop) S S' :
  (forall o i, g o i -> g' o i) -> sys_step dt g S S' -> sys_step dt g' S S'.
Proof.
  intros Hg [S0 i b' l' r' Hst|S0 p b' Hst|S0 p b' Hst]; [|by eapply sys_settle|by eapply sys_clean]. apply sys_replica.
  destruct Hst; eauto using rstep.
Qed.

(** ** Properties *)

(** The replica that initialised the partition last. *)
Definition last_initialiser (o : option nat) (i : nat) : Prop := o = Some i.

(** C1.  Exactly once within the horizon: in every run in which a producer is
    initialised again from within a request only by the replica that initialised
    it last, a key is committed a second time only after its first claim has left
    the topic, and that is later than the claim's timestamp by the retention at
    least.  Rebalances may move partitions at any time and be noticed late or
    never, requests may be cancelled, aborts and commits may fail or stay in
    doubt, processes may crash and restart. *)
Theorem exactly_once `{TxnBroker} `{Serde ClaimValue} dt n S S' p m m' k c c' :
  initial n S -> steps (sys_step dt last_initialiser) S S' ->
  (m < m')%nat -> log (br S') p !! m = Some (k, c) -> log (br S') p !! m' = Some (k, c') ->
  expired (br S') p m = true /\ stamp (br S') p m + retention <= committed_at (br S') p m'.
Proof.
  intros Hi%(initial_inv last_initialiser) Hst. apply (steps_invariant _ (sys_inv n)) in Hst; [| |done].
  - apply (bi_spaced _ _ _ (proj1 Hst p)).
  - intros S1 S2. by apply sys_step_inv.
Qed.


(** ** A concrete broker *)

Record MemBroker := {
  mem_log : Z -> list Entry;
  mem_expired : Z -> nat -> bool;
  mem_date : Z -> nat -> Z;
  mem_now : Z;
  mem_doubt : Z -> option Entry;
  mem_epoch : Z -> Z;
}.

(** One day, in milliseconds. *)
Definition mem_retention : Z := 86400000.

Definition mem_append (b : MemBroker) (p : Z) (x : Entry) : MemBroker :=
  let m := length (mem_log b p) in
  {| mem_log := <[p := mem_log b p ++ [x]]> (mem_log b);
     mem_expired := <[p := <[m := false]> (mem_expired b p)]> (mem_expired b);
     mem_date := <[p := <[m := mem_now b]> (mem_date b p)]> (mem_date b); mem_now := mem_now b;
     mem_doubt := mem_doubt b; mem_epoch := mem_epoch b |}.
Definition mem_set_doubt (b : MemBroker) (p : Z) (d : option Entry) : MemBroker :=
  {| mem_log := mem_log b; mem_expired := mem_expired b; mem_date := mem_date b; mem_now := mem_now b;
     mem_doubt := <[p := d]> (mem_doubt b); mem_epoch := mem_epoch b |}.
Definition mem_bump (b : MemBroker) (p : Z) : MemBroker :=
  {| mem_log := mem_log b; mem_expired := mem_expired b; mem_date := mem_date b; mem_now := mem_now b;
     mem_doubt := mem_doubt b; mem_epoch := <[p := mem_epoch b p + 1]> (mem_epoch b) |}.
(** [d] milliseconds pass, and the cleaner removes what is old enough. *)
Definition mem_cleaned (b : MemBroker) (p d : Z) : MemBroker :=
  {| mem_log := mem_log b;
     mem_expired := <[p := fun m => mem_expired b p m || (mem_date b p m + mem_retention <=? mem_now b + d)]> (mem_expired b);
     mem_date := mem_date b; mem_now := mem_now b + d; mem_doubt := mem_doubt b; mem_epoch := mem_epoch b |}.

(** An outcome in doubt is settled either way. *)
Inductive mem_settled (p : Z) : MemBroker -> MemBroker -> Prop :=
| settled_drop b : mem_settled p b (mem_set_doubt b p None)
| settled_commit b x : mem_doubt b p = Some x -> mem_settled p b (mem_set_doubt (mem_append b p x) p None).

Inductive mem_step : MemBroker -> blabel -> MemBroker -> Prop :=
| mem_init b p b' : mem_settled p b b' -> mem_step b (BInit p) (mem_bump b' p)
| mem_commit b p x : mem_step b (BCommit p (mem_epoch b p) x) (mem_append b p x)
| mem_in_doubt b p x : mem_step b (BDoubt p (mem_epoch b p) x) (mem_set_doubt b p (Some x))
| mem_settle b p b' : mem_settled p b b' -> mem_step b (BSettle p) b'
| mem_clean b p d : 0 <= d -> mem_step b (BClean p) (mem_cleaned b p d).

Ltac mem_inv :=
  inversion 1; subst;
  repeat match goal with H : mem_settled _ _ _ |- _ => inversion H; clear H; subst end;
  simpl; rewrite ?fn_lookup_insert, ?fn_lookup_insert_ne by done.

(** What every step does to the logs and their dates. *)
Lemma mem_step_log b l b' p :
  mem_step b l b' -> mem_now b <= mem_now b' /\
  (mem_log b' p = mem_log b p /\ mem_date b' p = mem_date b p /\
     (mem_expired b' p = mem_expired b p \/ exists d, 0 <= d /\ mem_now b' = mem_now b + d /\
        mem_expired b' p = fun m => mem_expired b p m || (mem_date b p m + mem_retention <=? mem_now b + d))
   \/ exists x, mem_log b' p = mem_log b p ++ [x] /\ mem_now b' = mem_now b /\
       mem_date b' p = <[length (mem_log b p) := mem_now b]> (mem_date b p) /\
       mem_expired b' p = <[length (mem_log b p) := false]> (mem_expired b p)).
Proof.
  mem_inv; (split; [lia|]);
    match goal with |- context [<[?q := _]> _ p] => destruct (decide (p = q)) as [->|]; rewrite ?fn_lookup_insert, ?fn_lookup_insert_ne by done | _ => idtac end;
    eauto 10.
Qed.

#[export] Instance mem_broker : TxnBroker.
Proof.
  refine {| broker := MemBroker; log := mem_log; expired := mem_expired; stamp := mem_date; committed_at := mem_date;
            now := mem_now; retention := mem_retention; in_doubt := mem_doubt; epoch := mem_epoch; bstep := mem_step |}.
  - intros b p b'. mem_inv; (split; [lia|eauto]).
  - intros b p e x b'. mem_inv. done.
  - intros b p e x b'. mem_inv. done.
  - intros b p b'. mem_inv; (split_and!; [done|done|eauto]).
  - intros b p b'. mem_inv. done.
  - intros b l b' Hs. apply (mem_step_log _ _ _ 0 Hs).
  - intros b l b' p m Hs Hm. destruct (mem_step_log _ _ _ p Hs) as (_ & [(Hl & _)|(x & Hl & -> & Hd & Hx)]); [rewrite Hl in Hm; lia|].
    rewrite Hl, length_app in Hm. simpl in Hm. assert (m = length (mem_log b p)) as -> by lia.
    by rewrite Hd, Hx, !fn_lookup_insert.
  - intros b l b' p m Hs Hm. destruct (mem_step_log _ _ _ p Hs) as (_ & [(_ & Hd & _)|(x & _ & _ & Hd & _)]); rewrite Hd; [done|].
    by rewrite fn_lookup_insert_ne by lia.
  - intros b l b' p m Hs Hm He.
    destruct (mem_step_log _ _ _ p Hs) as (_ & [(_ & _ & [->|(d & _ & _ & ->)])|(x & _ & _ & _ & ->)]); [done|by rewrite He|].
    by rewrite fn_lookup_insert_ne by lia.
  - intros b l b' p m k c Hs Hm He He'. left.
    destruct (mem_step_log _ _ _ p Hs) as (_ & [(_ & _ & [Hx|(d & _ & -> & Hx)])|(x & _ & _ & _ & Hx)]); rewrite Hx in He'.
    + congruence.
    + rewrite He in He'. by apply Z.leb_le in He'.
    + apply lookup_lt_Some in Hm. rewrite fn_lookup_insert_ne in He' by lia. congruence.
  - intros b l b' q. mem_inv; intros; rewrite ?fn_lookup_insert_ne by done; done.
Defined.

Definition store1 : DedupStore :=
  {| claim_map := ∅; partitions := 1; owned := ∅; warm := false; warmed_once := false;
     restart_required := false; warmup_empty_polls := 0; empty_polls := 0 |}.

(** One dedup partition, an empty log, and processes that have just started. *)
Definition start : Sys :=
  {| br := {| mem_log := fun _ => []; mem_expired := fun _ _ => false; mem_date := fun _ _ => 0; mem_now := 0;
              mem_doubt := fun _ => None; mem_epoch := fun _ => 0 |};
     lead := fun _ => None; reps := fun _ => fresh store1 |}.

Lemma start_initial : initial 1 start.
Proof. split; [done|]. intros i. by exists 0, store1. Qed.

(** ** Running the concrete system *)

Inductive action :=
| APrepare (p : Z)
| ACapture (ps : list Z)
| AAssigned
| ASkip (p : Z)
| ATurn
| ALock (k : string)
| ABegin (p : Z)
| AReinit (p : Z)
| ACommit (p : Z) (c : ClaimValue)
| AApply (p : Z)
| AAbort (p : Z)
| AClean (p d : Z).

Definition abort_confirmed : TxnAnswers :=
  {| ans_init := Ok 0; ans_begin := Ok (); ans_send := fun _ => Ok {| md_partition := 0; md_offset := 0 |};
     ans_commit := Ok (); ans_abort := Ok () |}.

Definition ends_of (b : MemBroker) (ps : list Z) : gmap Z nat :=
  map_imap (fun p _ => Some (length (mem_log b p))) (gset_to_gmap () (list_to_set ps)).

(** The state one action of replica [i] leads to, when it is possible.  [any]
    allows a replica that was fenced to initialise its producer again. *)
Definition exec (any : bool) (i : nat) (b : MemBroker) (l : Z -> option nat) (r : Replica) (a : action)
    : option (MemBroker * (Z -> option nat) * Replica) :=
  match a with
  | APrepare p =>
      guard (captured r = None);; guard (busy r !! p = None);;
      let b' := mem_bump (mem_set_doubt b p None) p in
      Some (b', <[p := Some i]> l,
            with_prepared (with_slots (with_store r (clear_warm (store r))) (<[p := (mem_epoch b' p, false)]> (slots r)))
              ({[p]} ∪ prepared r))
  | ACapture ps =>
      guard (captured r = None);; guard (Forall (fun p => p ∈ Dedup.owned (store r) \/ p ∈ prepared r) ps);;
      Some (b, l, {| store := clear_warm (store r); targets := targets r;
                     position := filter (fun kv => kv.1 ∉ prepared r) (position r);
                     slots := slots r; busy := busy r; prepared := prepared r; captured := Some (ps, ends_of b ps) |})
  | AAssigned =>
      match captured r with
      | Some (ps, ends) =>
          match on_partitions_assigned (store r) (offsets_of "dedup" (targets r)) "dedup" (Ok ())
                  ((("dedup"),.) <$> elements (prepared r)) (Ok ()) (("dedup",.) <$> ps)
                  (fun _ => Ok (offsets_of "dedup" ends)) with
          | (s', _, Ok _) =>
              Some (b, l, {| store := s'; targets := ends; position := position r;
                             slots := slots r; busy := busy r; prepared := ∅; captured := None |})
          | _ => None
          end
      | None => None
      end
  | ASkip p =>
      let m := default 0%nat (position r !! p) in
      guard (captured r = None);; guard (m < length (mem_log b p))%nat;; guard (mem_expired b p m = true);;
      Some (b, l, {| store := store r; targets := targets r; position := <[p := S m]> (position r);
                     slots := slots r; busy := busy r; prepared := prepared r; captured := captured r |})
  | ATurn =>
      guard (prepared r = ∅);; guard (captured r = None);;
      Some (b, l, with_store r (ownership_turn (store r) (offsets_of "dedup" (targets r)) []
        (fun tp => Ok (Z.of_nat (default 0%nat (position r !! tp.2))))).1)
  | ALock k =>
      let p := partition_for k (partitions (store r)) in
      guard (is_utf8 (as_bytes k) = true);; guard (busy r !! p = None);;
      match gate (store r) k p with
      | Ok None => Some (b, l, with_busy r (<[p := Locked k]> (busy r)))
      | _ => None
      end
  | ABegin p =>
      match busy r !! p, slots r !! p with
      | Some (Locked k), Some (e, false) => Some (b, l, with_busy r (<[p := InTxn k e]> (busy r)))
      | _, _ => None
      end
  | AReinit p =>
      guard (any = true \/ l p = Some i);;
      match busy r !! p, slots r !! p with
      | Some (Locked k), None =>
          let b' := mem_bump (mem_set_doubt b p None) p in
          Some (b', <[p := Some i]> l,
                with_busy (with_slots r (<[p := (mem_epoch b' p, false)]> (slots r))) (<[p := InTxn k (mem_epoch b' p)]> (busy r)))
      | _, _ => None
      end
  | ACommit p c =>
      match busy r !! p with
      | Some (InTxn k e) =>
          guard (e = mem_epoch b p);;
          Some (mem_append b p (k, c), l, with_busy r (<[p := Committed k c]> (busy r)))
      | _ => None
      end
  | AApply p =>
      match busy r !! p with
      | Some (Committed k c) => Some (b, l, unlock (with_store r (apply (store r) k c)) p)
      | _ => None
      end
  | AAbort p =>
      match busy r !! p with
      | Some (InTxn k e) => Some (b, l, fail_slot (with_store r (settle_abort (store r) abort_confirmed)) p)
      | _ => None
      end
  | AClean _ _ => None
  end.

Definition allowed (any : bool) (o : option nat) (i : nat) : Prop := any = true \/ o = Some i.

Lemma ends_of_lookup b ps p t : ends_of b ps !! p = Some t <-> p ∈ ps /\ t = length (mem_log b p).
Proof.
  unfold ends_of. rewrite map_lookup_imap, bind_Some. split.
  - intros (u & [Hin _]%lookup_gset_to_gmap_Some & [= <-]). split; [by apply elem_of_list_to_set in Hin|done].
  - intros [Hin ->]. exists (). split; [|done]. apply lookup_gset_to_gmap_Some.
    split; [by apply elem_of_list_to_set|done].
Qed.

Lemma exec_rstep any i b l r a b' l' r' :
  exec any i b l r a = Some (b', l', r') -> rstep "dedup" (allowed any) i b l r b' l' r'.
Proof.
  destruct a as [p|ps| |p| |k|p|p|p c|p|p|]; cbn [exec]; intros Hx; repeat case_guard; try discriminate Hx.
  - injection Hx as <- <- <-. apply (R_prepare (H:=mem_broker) _ _ _ _ _ _ _ (mem_bump (mem_set_doubt b p None) p)); [done..|].
    apply mem_init, settled_drop.
  - injection Hx as <- <- <-. eapply R_capture; [done|..].
    + by apply Forall_forall.
    + intros p. setoid_rewrite ends_of_lookup. naive_solver.
    + intros p t [_ ->]%ends_of_lookup. done.
  - destruct (captured r) as [[ps ends]|] eqn:Hc; [|done].
    destruct (on_partitions_assigned _ _ _ _ _ _ _ _) as [[s' ts] [[]|]] eqn:Ha; [|done].
    injection Hx as <- <- <-. by eapply R_assigned.
  - injection Hx as <- <- <-. by eapply (R_skip (H:=mem_broker)).
  - injection Hx as <- <- <-. eapply R_turn; [done..|]. apply surjective_pairing.
  - destruct (gate _ _ _) as [[]|] eqn:Hg; [done| |done]. injection Hx as <- <- <-. by apply R_lock.
  - destruct (busy r !! p) as [[k| |]|] eqn:Hb; try done. destruct (slots r !! p) as [[e []]|] eqn:Hs; try done.
    injection Hx as <- <- <-. by apply R_begin.
  - destruct (busy r !! p) as [[k| |]|] eqn:Hb; try done. destruct (slots r !! p) eqn:Hs; try done.
    injection Hx as <- <- <-. apply (R_reinit (H:=mem_broker) _ _ _ _ _ _ _ _ (mem_bump (mem_set_doubt b p None) p)); [done..|].
    apply mem_init, settled_drop.
  - destruct (busy r !! p) as [[|k e|]|] eqn:Hb; try done. case_guard as He; [|done].
    injection Hx as <- <- <-. eapply R_commit; [done|]. subst e. apply mem_commit.
  - destruct (busy r !! p) as [[| |k c]|] eqn:Hb; try done. injection Hx as <- <- <-. by apply R_apply.
  - destruct (busy r !! p) as [[|k e|]|] eqn:Hb; try done. injection Hx as <- <- <-. by eapply R_abort.
Qed.

Definition is_Some_b {A} (o : option A) : bool := match o with Some _ => true | None => false end.

(** Actions in order, each by the replica named with it. *)
Fixpoint run (any : bool) (S : Sys) (acts : list (nat * action)) : option Sys :=
  match acts with
  | [] => Some S
  | (_, AClean p d) :: acts =>
      guard (0 <= d);; run any {| br := mem_cleaned (br S) p d; lead := lead S; reps := reps S |} acts
  | (i, a) :: acts =>
      match exec any i (br S) (lead S) (reps S i) a with
      | Some (b', l', r') => run any {| br := b'; lead := l'; reps := <[i := r']> (reps S) |} acts
      | None => None
      end
  end.

Lemma run_steps any S acts S' : run any S acts = Some S' -> steps (sys_step "dedup" (allowed any)) S S'.
Proof.
  revert S. induction acts as [|[i a] acts IH]; intros S; cbn [run]; [intros [= <-]; constructor|].
  assert (Hexec : match exec any i (br S) (lead S) (reps S i) a with
                  | Some (b', l', r') => run any {| br := b'; lead := l'; reps := <[i := r']> (reps S) |} acts
                  | None => None
                  end = Some S' -> steps (sys_step "dedup" (allowed any)) S S').
  { destruct (exec _ _ _ _ _ _) as [[[b' l'] r']|] eqn:Hx; [|done]. intros Hr%IH.
    eapply steps_cons; [|done]. apply sys_replica. by eapply exec_rstep. }
  destruct a as [| | | | | | | | | | |p d]; try exact Hexec. case_guard; [|done]. intros Hr%IH.
  eapply steps_cons; [|done]. eapply (sys_clean (H:=mem_broker)). by apply mem_clean.
Qed.

Definition claim0 : ClaimValue := {| claim_topic := "orders"; claim_partition := 0; claim_offset := 41 |}.


(** Replica [i] takes partition 0 over: fence, assignment, replay. *)
Definition takeover (i : nat) : list (nat * action) := 
  [(i, APrepare 0); (i, ACapture [0]); (i, AAssigned); (i, ATurn)].
Definition write (i : nat) (k : string) : list (nat * action) :=
  [(i, ALock k); (i, ABegin 0); (i, ACommit 0 claim0); (i, AApply 0)].

Lemma run_last S acts S' : run false S acts = Some S' -> steps (sys_step "dedup" last_initialiser) S S'.
Proof.
  intros Hst%run_steps. induction Hst as [|S1 S2 S3 Hst _ IH]; [constructor|]. eapply steps_cons; [|exact IH].
  eapply sys_step_mono; [|exact Hst]. by intros o i [?|?].
Qed.

(** One replica takes the partition and commits a key.  A day later the claim has
    left the topic; another replica takes the partition over, finds nothing to
    read, and commits the key again. *)
Definition day_acts : list (nat * action) :=
  takeover 0 ++ write 0 "k"
  ++ [(0%nat, AClean 0 86400000); (1%nat, APrepare 0); (1%nat, ACapture [0]); (1%nat, AAssigned); (1%nat, ASkip 0); (1%nat, ATurn)]
  ++ write 1 "k".
Definition day_after : Sys := default start (run false start day_acts).

Lemma day_after_runs : run false start day_acts = Some day_after.
Proof.
  unfold day_after. destruct (run _ _ _) eqn:Hr; [done|].
  apply (f_equal is_Some_b) in Hr. vm_compute in Hr. discriminate Hr.
Qed.

Lemma day_after_twice : log (br day_after) 0 = [("k", claim0); ("k", claim0)].
Proof. vm_compute. reflexivity. Qed.

Lemma exactly_once_witness :
  keys (br day_after) 0 = ["k"; "k"] /\
  expired (br day_after) 0 0 = true /\ stamp (br day_after) 0 0 + retention <= committed_at (br day_after) 0 1.
Proof.
  split; [unfold keys; rewrite day_after_twice; reflexivity|].
  apply (exactly_once "dedup" 1 start day_after 0 0 1 "k" claim0 claim0 start_initial (run_last _ _ _ day_after_runs)).
  - lia.
  - rewrite day_after_twice. reflexivity.
  - rewrite day_after_twice. reflexivity.
Defined.


(** Replica 0 owns the partition and aborts a transaction, which empties its
    slot.  Replica 1 takes the partition over and commits a key.  Replica 0 has
    not noticed: its gate is still open and its map lacks the key. *)
Definition stale_acts : list (nat * action) :=
  takeover 0 ++ [(0, ALock "j"); (0, ABegin 0); (0, AAbort 0)]%nat ++ takeover 1 ++ write 1 "k"
  ++ [(0, ALock "k"); (0, AReinit 0); (0, ACommit 0 claim0); (0, AApply 0)]%nat.

(** C32.  Without that condition the guarantee fails: a replica that was fenced,
    has not noticed, and has an empty slot initialises a producer again from
    within a request, and commits a key its successor has committed, whose claim
    is still in the topic. *)
Theorem stale_owner_commits_twice :
  exists S, initial 1 start /\ steps (sys_step "dedup" (allowed true)) start S /\ keys (br S) 0 = ["k"; "k"] /\
    expired (br S) 0 0 = false /\ expired (br S) 0 1 = false.
Proof.
  exists (default start (run true start stale_acts)). split; [apply start_initial|].
  split; [|vm_compute; split_and!; reflexivity]. apply (run_steps true start stale_acts).
  destruct (run _ _ _) eqn:Hr; [done|]. apply (f_equal is_Some_b) in Hr. vm_compute in Hr. discriminate Hr.
Qed.
