(* ===== verification/Queue.v ===== *)
(** * Queue sessions over share groups (queue.rs)

    The table of sessions with its capacity, the one outstanding batch each
    session tracks, and the three handlers.  A session is an object that
    outlives its table entry while a request holds it: [heap] has the objects,
    [sessions] the table.  All work on a session's batch happens under its
    consumer mutex, so each handler's part after the lock is one step. *)

From S2P Require Import Prelude.
From S2P Require Import Types.

Definition MAX_SESSIONS : Z := 1024.
Definition MAX_MESSAGES : Z := 500.
Definition MAX_WAIT_MS : Z := 30000.
Definition SUPPORTED_QUEUE_LOCK_DURATION_MS : Z := 30000.
(** In milliseconds. *)
Definition SESSION_IDLE : Z := 60000.

Abbreviation QueueCoordinate := (string * Z * Z)%type (only parsing).

(** [QueueAcquisitions]: the coordinates of the outstanding batch. *)
Abbreviation QueueAcquisitions := (gset QueueCoordinate) (only parsing).

Definition can_poll (a : QueueAcquisitions) : bool := bool_decide (a = ∅).

(** The loop of [record_batch]: the coordinates tracked so far are kept on
    [Err]. *)
Fixpoint record_coordinates (a : QueueAcquisitions) (cs : list QueueCoordinate) (maximum : Z)
    : QueueAcquisitions * result unit unit :=
  match cs with
  | [] => (a, Ok ())
  | c :: cs =>
      if (Z.of_nat (size a) =? maximum) && negb (bool_decide (c ∈ a)) then (a, Err ())
      else record_coordinates ({[c]} ∪ a) cs maximum
  end.

Definition record_batch (a : QueueAcquisitions) (cs : list QueueCoordinate) (maximum : Z)
    : QueueAcquisitions * result unit unit :=
  if negb (can_poll a) then (a, Err ()) else record_coordinates a cs maximum.

Definition finish (a : QueueAcquisitions) (c : QueueCoordinate) : QueueAcquisitions := a ∖ {[c]}.

Record ShareConsumerRecord := {
  sr_topic : string;
  sr_partition : Z;
  sr_offset : Z;
  sr_timestamp : Z;
  sr_key : option Bytes;
  sr_value : option Bytes;
  sr_headers : list (string * option Bytes);
  sr_delivery_count : Z;
}.

Definition record_coordinate (r : ShareConsumerRecord) : QueueCoordinate :=
  (sr_topic r, sr_partition r, sr_offset r).

Inductive QueuePollError :=
| Outstanding
| Backend (e : ConsumerError)
| LimitExceeded.

(** [poll_tracked_batch]; the boolean says whether the consumer was polled. *)
Definition poll_tracked_batch (a : QueueAcquisitions) (maximum : Z)
    (poll : result ConsumerError (list ShareConsumerRecord))
    : QueueAcquisitions * bool * result QueuePollError (list ShareConsumerRecord) :=
  if negb (can_poll a) then (a, false, Err Outstanding)
  else
    match poll with
    | Err e => (a, true, Err (Backend e))
    | Ok records =>
        if maximum <? Z.of_nat (length records) then (a, true, Err LimitExceeded)
        else
          let '(a, r) := record_batch a (record_coordinate <$> records) maximum in
          (a, true, match r with Ok _ => Ok records | Err _ => Err LimitExceeded end)
    end.

(** ** Sessions *)

Record QueueSession := {
  principal : Principal;
  group_id : string;
  topics : list string;
  acquired : QueueAcquisitions;
  max_messages : Z;
  last_used : Z;
}.

Record QueueSessionTable := {
  heap : gmap nat QueueSession;
  sessions : gmap string nat;
  starting : nat;  (** permits of sessions whose consumer is being built *)
}.

Definition QueueSessionTable_default : QueueSessionTable := {| heap := ∅; sessions := ∅; starting := 0 |}.

(** A permit of the semaphore lives in each session object, and in each request
    that is starting one. *)
Definition permits_free (t : QueueSessionTable) : Z :=
  MAX_SESSIONS - Z.of_nat (size (heap t)) - Z.of_nat (starting t).

Definition set_session (t : QueueSessionTable) (n : nat) (s : QueueSession) : QueueSessionTable :=
  {| heap := <[n := s]> (heap t); sessions := sessions t; starting := starting t |}.

Definition with_last_used (s : QueueSession) (now : Z) : QueueSession :=
  {| principal := principal s; group_id := group_id s; topics := topics s; acquired := acquired s;
     max_messages := max_messages s; last_used := now |}.
Definition with_acquired (s : QueueSession) (a : QueueAcquisitions) : QueueSession :=
  {| principal := principal s; group_id := group_id s; topics := topics s; acquired := a;
     max_messages := max_messages s; last_used := last_used s |}.

Definition touch (t : QueueSessionTable) (n : nat) (now : Z) : QueueSessionTable :=
  match heap t !! n with Some s => set_session t n (with_last_used s now) | None => t end.

Definition is_expired (s : QueueSession) (now : Z) : bool := SESSION_IDLE <=? now - last_used s.

(** [remove_if(id, |_, current| Arc::ptr_eq(current, expected))]. *)
Definition remove (t : QueueSessionTable) (id : string) (expected : nat) : QueueSessionTable :=
  if bool_decide (sessions t !! id = Some expected)
  then {| heap := heap t; sessions := delete id (sessions t); starting := starting t |} else t.

Definition expired_at (t : QueueSessionTable) (now : Z) (n : nat) : bool :=
  match heap t !! n with Some s => is_expired s now | None => false end.

Definition remove_expired (t : QueueSessionTable) (now : Z) : QueueSessionTable :=
  {| heap := heap t; sessions := filter (fun kv => expired_at t now kv.2 = false) (sessions t); starting := starting t |}.

(** The last reference to a session object goes, and its permit with it: after
    the detached [close], when no request holds it and it left the table. *)
Definition drop_session (t : QueueSessionTable) (n : nat) : QueueSessionTable :=
  {| heap := delete n (heap t); sessions := sessions t; starting := starting t |}.

Definition reserve (t : QueueSessionTable) : QueueSessionTable * result ConnectError unit :=
  if 0 <? permits_free t then
    ({| heap := heap t; sessions := sessions t; starting := S (starting t) |}, Ok ())
  else (t, Err {| connect_code := ResourceExhausted; connect_message := "queue session limit reached" |}).

(** A request that fails to start its session drops the permit. *)
Definition release_permit (t : QueueSessionTable) : QueueSessionTable :=
  {| heap := heap t; sessions := sessions t; starting := pred (starting t) |}.

(** [id] is the new UUID and [n] the address of the new object, which the permit
    moves into. *)
Definition insert (t : QueueSessionTable) (id : string) (n : nat) (s : QueueSession) : QueueSessionTable :=
  {| heap := <[n := s]> (heap t); sessions := <[id := n]> (sessions t); starting := pred (starting t) |}.

Definition expired_error : ConnectError :=
  {| connect_code := FailedPrecondition; connect_message := "queue session expired; re-acquire" |}.

Definition get (t : QueueSessionTable) (id : string) (p : Principal) (now : Z)
    : QueueSessionTable * result ConnectError nat :=
  match sessions t !! id ≫= (fun n => (n,.) <$> heap t !! n) with
  | Some (n, s) =>
      if negb (is_expired s now) then
        if negb (bool_decide (principal s = p)) then
          (t, Err {| connect_code := PermissionDenied;
                     connect_message := "queue session belongs to another principal" |})
        else (touch t n now, Ok n)
      else (remove t id n, Err expired_error)
  | None => (t, Err expired_error)
  end.

(** ** Acquire *)

Record QueueAcquireRequest := {
  qa_session_id : string;
  qa_group_id : string;
  qa_topics : list string;
  qa_max_messages : Z;
  qa_wait_ms : Z;
  qa_lock_duration_ms : Z;
}.

Definition validate_lock_duration (ms : Z) : result string unit :=
  if ms =? SUPPORTED_QUEUE_LOCK_DURATION_MS then Ok ()
  else Err "queue lock_duration_ms must be 30000; per-acquire lock durations are not supported".

Definition deny (what : string) : ConnectError :=
  {| connect_code := PermissionDenied; connect_message := what |}.
Definition invalid (what : string) : ConnectError :=
  {| connect_code := InvalidArgument; connect_message := what |}.
Definition unavailable (what : string) : ConnectError :=
  {| connect_code := UnavailableCode; connect_message := what |}.

Definition authorize_queue `{Authorizer} (p : Principal) (host group : string) (ts : list string)
    : result ConnectError unit :=
  if negb (authorize p host GroupResource group Read) then Err (deny ("Read Group:" +:+ group))
  else try_fold (fun _ t => if negb (authorize p host TopicResource t Read)
                            then Err (deny ("Read Topic:" +:+ t)) else Ok ()) () ts.

(** [start_session]; [built] is what the share consumer's builder answers. *)
Definition start_session `{ClientDisplay} (p : Principal) (group : string) (ts : list string) (maxm : Z)
    (built : result ConsumerError unit) (now : Z) : result ConnectError QueueSession :=
  if bool_decide (group = EmptyString) then Err (invalid "queue group is required")
  else if bool_decide (ts = []) || existsb (fun t => bool_decide (t = EmptyString)) ts
  then Err (invalid "queue topic is required")
  else
    match built with
    | Err e => Err (unavailable (consumer_error_to_string e))
    | Ok _ => Ok {| principal := p; group_id := group; topics := ts; acquired := ∅; max_messages := maxm; last_used := now |}
    end.

Definition validate_session_subscription (sg : string) (st : list string) (rg : string) (rt : list string)
    : result ConnectError unit :=
  if bool_decide (sg = rg) && bool_decide (st = rt) then Ok ()
  else Err (invalid "group_id and topics are fixed when a queue session is created").

Definition clamp (lo hi x : Z) : Z := Z.max lo (Z.min hi x).
Definition requested_max (r : QueueAcquireRequest) : Z := clamp 1 MAX_MESSAGES (qa_max_messages r).
Definition is_new (r : QueueAcquireRequest) : bool := bool_decide (qa_session_id r = EmptyString).

(** A request to an existing session, up to the poll. *)
Definition resume `{Authorizer} (t : QueueSessionTable) (r : QueueAcquireRequest) (p : Principal) (now : Z)
    : QueueSessionTable * result ConnectError nat :=
  match get t (qa_session_id r) p now with
  | (t, Err e) => (t, Err e)
  | (t, Ok n) =>
      match heap t !! n with
      | None => (t, Err expired_error)
      | Some s =>
          (t, _ ← validate_session_subscription (group_id s) (topics s) (qa_group_id r) (qa_topics r);
              if negb (qa_max_messages r =? 0) && negb (requested_max r =? max_messages s)
              then Err (invalid "max_messages is fixed when a queue session is created")
              else Ok n)
      end
  end.

(** A request for a new session: authorization and the permit, then, after the
    consumer is built, the new object and its table entry. *)
Definition open_new `{Authorizer} (t : QueueSessionTable) (r : QueueAcquireRequest) (p : Principal) (host : string)
    : QueueSessionTable * result ConnectError unit :=
  match authorize_queue p host (qa_group_id r) (qa_topics r) with
  | Err e => (t, Err e)
  | Ok _ => reserve t
  end.

Definition start_new `{ClientDisplay} (t : QueueSessionTable) (r : QueueAcquireRequest) (p : Principal)
    (built : result ConsumerError unit) (id : string) (n : nat) (now : Z)
    : QueueSessionTable * result ConnectError nat :=
  match start_session p (qa_group_id r) (qa_topics r) (requested_max r) built now with
  | Err e => (release_permit t, Err e)
  | Ok s => (insert t id n s, Ok n)
  end.

(** [queued_message]. *)
Record QueuedMessage := {
  qm_topic : string; qm_partition : Z; qm_offset : Z; qm_key : option Bytes; qm_value : option Bytes;
  qm_headers : list (string * option Bytes); qm_timestamp_ms : Z; qm_delivery_count : Z;
}.
Definition queued_message (r : ShareConsumerRecord) : QueuedMessage :=
  {| qm_topic := sr_topic r; qm_partition := sr_partition r; qm_offset := sr_offset r; qm_key := sr_key r;
     qm_value := sr_value r; qm_headers := sr_headers r; qm_timestamp_ms := sr_timestamp r;
     qm_delivery_count := sr_delivery_count r |}.

(** The rest of [queue_acquire], under the consumer's lock and after it.
    [poll] answers for a wait in milliseconds; the boolean result says whether
    it was called. *)
Definition acquire_poll `{ClientDisplay} (t : QueueSessionTable) (id : string) (n : nat) (new : bool) (wait_ms : Z)
    (poll : Z -> result ConsumerError (list ShareConsumerRecord)) (now : Z)
    : QueueSessionTable * bool * result ConnectError (string * list QueuedMessage) :=
  match heap t !! n with
  | None => (t, false, Err expired_error)
  | Some s =>
      let '(a, polled, records) := poll_tracked_batch (acquired s) (max_messages s) (poll (Z.min wait_ms MAX_WAIT_MS)) in
      let t := set_session t n (with_acquired s a) in
      match records with
      | Err Outstanding =>
          (t, polled, Err {| connect_code := ResourceExhausted;
             connect_message := "acknowledge the outstanding queue batch before acquiring more; retry acknowledgements for expired messages or start a new session" |})
      | Err (Backend e) => (if new then remove t id n else t, polled, Err (unavailable (consumer_error_to_string e)))
      | Err LimitExceeded =>
          (remove t id n, polled, Err (unavailable "broker exceeded the queue session's outstanding record limit; re-acquire"))
      | Ok records => (touch t n now, polled, Ok (id, queued_message <$> records))
      end
  end.

(** What the outside answers to one acquire request. *)
Record AcquireEnv := {
  ae_built : result ConsumerError unit;
  ae_uuid : string;
  ae_address : nat;
  ae_poll : Z -> result ConsumerError (list ShareConsumerRecord);
  ae_now : Z;
  ae_later : Z;
}.

(** [queue_acquire] without interleaving; [identity] and [peer] are the request's
    extensions. *)
Definition queue_acquire `{Authorizer} `{ClientDisplay} (t : QueueSessionTable) (identity : option Principal)
    (peer : option string) (r : QueueAcquireRequest) (env : AcquireEnv)
    : QueueSessionTable * bool * result ConnectError (string * list QueuedMessage) :=
  match validate_lock_duration (qa_lock_duration_ms r) with
  | Err m => (t, false, Err (invalid m))
  | Ok _ =>
      let p := default anonymous_principal identity in
      let host := default unknown_host peer in
      let '(t, opened) :=
        if is_new r then
          match open_new t r p host with
          | (t, Err e) => (t, Err e)
          | (t, Ok _) => start_new t r p (ae_built env) (ae_uuid env) (ae_address env) (ae_now env)
          end
        else resume t r p (ae_now env) in
      match opened with
      | Err e => (t, false, Err e)
      | Ok n => acquire_poll t (if is_new r then ae_uuid env else qa_session_id r) n (is_new r)
                  (qa_wait_ms r) (ae_poll env) (ae_later env)
      end
  end.

(** ** Acknowledge and renew *)

Record QueueAckEntry := {
  entry_topic : string;
  entry_partition : Z;
  entry_offset : Z;
  entry_type : Z;
}.

Inductive ShareAckType := Accept | Release | Reject.

(** [pb::QueueAckType::try_from], with [Unspecified] and unknown values as
    [None]. *)
Definition ack_type (z : Z) : option ShareAckType :=
  if z =? 1 then Some Accept else if z =? 2 then Some Release else if z =? 3 then Some Reject else None.

Definition coordinate (e : QueueAckEntry) : QueueCoordinate :=
  (entry_topic e, entry_partition e, entry_offset e).

Definition contains_acquired (a : QueueAcquisitions) (e : QueueAckEntry) : bool :=
  bool_decide (coordinate e ∈ a).

Definition retriable_codes : list Z := [3; 5; 6; 7; 8; 9; 13; 14; 15; 16; 19; 20; 41; 56; 80; 88; 89].

Definition ack_error `{ClientDisplay} (e : ConsumerError) : ErrorInfo :=
  {| ei_code := match e with Server code => code | _ => 13 end;
     ei_message := consumer_error_to_string e;
     ei_retriable := match e with
                     | Client _ | CoordinatorUnavailable | CommitInvalid | RebalanceFailed _ => true
                     | Server code => bool_decide (code ∈ retriable_codes)
                     | _ => false
                     end |}.

Definition not_acquired_error : ErrorInfo :=
  {| ei_code := 9; ei_message := "record is not acquired by this session"; ei_retriable := false |}.

Inductive QueueOperation := Disposition | Renew.

Definition acknowledgement_releases_tracking (error : option ConsumerError) (op : QueueOperation) : bool :=
  match op, error with
  | Disposition, None => true
  | Disposition, Some (Server code) => code =? 121
  | _, _ => false
  end.

Arguments acknowledgement_releases_tracking : simpl never.

(** [acknowledge_entry]: the local acknowledgement, then the commit. *)
Definition acknowledge_entry (acknowledged committed : result ConsumerError unit) : option ConsumerError :=
  match acknowledged with
  | Err e => Some e
  | Ok _ => match committed with Err e => Some e | Ok _ => None end
  end.

(** A call the session makes to the broker about a coordinate. *)
Abbreviation BrokerCall := (QueueCoordinate * option ShareAckType)%type (only parsing).

Section Loops.
  Context `{ClientDisplay}.
  (** What the consumer answers to the [n]th call. *)
  Context (answer : nat -> result ConsumerError unit * result ConsumerError unit).

(** One iteration of [queue_acknowledge]: the batch, the calls made so far and
    the results so far. *)
Definition acknowledge_one (st : QueueAcquisitions * list BrokerCall * list (QueueAckEntry * option ErrorInfo))
    (e : QueueAckEntry) : QueueAcquisitions * list BrokerCall * list (QueueAckEntry * option ErrorInfo) :=
  let '(a, calls, results) := st in
  let ack := ack_type (entry_type e) in
  match ack with
  | Some ty =>
      if negb (contains_acquired a e) then (a, calls, results ++ [(e, Some not_acquired_error)])
      else
        let error := acknowledge_entry (answer (length calls)).1 (answer (length calls)).2 in
        (if acknowledgement_releases_tracking error Disposition then finish a (coordinate e) else a,
         calls ++ [(coordinate e, Some ty)], results ++ [(e, ack_error <$> error)])
  | None =>
      let error := IllegalState "queue acknowledgement type is required" in
      (if acknowledgement_releases_tracking (Some error) Disposition then finish a (coordinate e) else a,
       calls, results ++ [(e, Some (ack_error error))])
  end.

Definition renew_one (st : QueueAcquisitions * list BrokerCall * list (QueueAckEntry * option ErrorInfo))
    (e : QueueAckEntry) : QueueAcquisitions * list BrokerCall * list (QueueAckEntry * option ErrorInfo) :=
  let '(a, calls, results) := st in
  if negb (contains_acquired a e) then (a, calls, results ++ [(e, Some not_acquired_error)])
  else
    let error := match (answer (length calls)).1 with Err e => Some e | Ok _ => None end in
    (if acknowledgement_releases_tracking error Renew then finish a (coordinate e) else a,
     calls ++ [(coordinate e, None)], results ++ [(e, ack_error <$> error)]).

(** The body shared by [queue_acknowledge] and [queue_renew]. *)
Definition on_session
    (one : QueueAcquisitions * list BrokerCall * list (QueueAckEntry * option ErrorInfo) -> QueueAckEntry ->
           QueueAcquisitions * list BrokerCall * list (QueueAckEntry * option ErrorInfo))
    (t : QueueSessionTable) (identity : option Principal) (id : string) (entries : list QueueAckEntry) (now later : Z)
    : QueueSessionTable * list BrokerCall * result ConnectError (list (QueueAckEntry * option ErrorInfo)) :=
  match get t id (default anonymous_principal identity) now with
  | (t, Err e) => (t, [], Err e)
  | (t, Ok n) =>
      match heap t !! n with
      | None => (t, [], Err expired_error)
      | Some s =>
          let '(a, calls, results) := foldl one (acquired s, [], []) entries in
          (touch (set_session t n (with_acquired s a)) n later, calls, Ok results)
      end
  end.

Definition queue_acknowledge := on_session acknowledge_one.
Definition queue_renew := on_session renew_one.
End Loops.

(** ** The outstanding batch *)

Lemma record_coordinates_size cs a maximum :
  Z.of_nat (size a) <= maximum -> Z.of_nat (size (record_coordinates a cs maximum).1) <= maximum.
Proof.
  revert a. induction cs as [|c cs IH]; intros a Ha; simpl; [done|].
  destruct (_ && _) eqn:Hfull; [done|]. apply IH.
  destruct (decide (c ∈ a)) as [Hin|Hin]; [by replace ({[c]} ∪ a) with a by set_solver|].
  rewrite size_union by set_solver. rewrite size_singleton.
  apply andb_false_iff in Hfull as [?|Hn]; bool_prop; [lia|done].
Qed.

Lemma record_coordinates_Ok cs a maximum :
  Z.of_nat (size a) + Z.of_nat (length cs) <= maximum ->
  record_coordinates a cs maximum = (list_to_set cs ∪ a, Ok ()).
Proof.
  revert a. induction cs as [|c cs IH]; intros a Ha; simpl in *; [by rewrite union_empty_l_L|].
  destruct (Z.eqb_spec (Z.of_nat (size a)) maximum); [lia|]. simpl. rewrite IH; [f_equal; set_solver|].
  destruct (decide (c ∈ a)); [replace ({[c]} ∪ a) with a by set_solver; lia|].
  rewrite size_union by set_solver. rewrite size_singleton. lia.
Qed.

(** A poll that succeeds found the batch empty and tracks what it returns. *)
Lemma poll_tracked_Ok a maximum poll a' polled records :
  poll_tracked_batch a maximum poll = (a', polled, Ok records) ->
  a = ∅ /\ polled = true /\ poll = Ok records /\ a' = list_to_set (record_coordinate <$> records)
  /\ Z.of_nat (length records) <= maximum.
Proof.
  unfold poll_tracked_batch, can_poll. case_bool_decide as Ha; simpl; [|done].
  destruct poll as [rs|]; [|done]. destruct (Z.ltb_spec maximum (Z.of_nat (length rs))); [done|].
  unfold record_batch, can_poll. rewrite bool_decide_eq_true_2 by done. simpl.
  rewrite record_coordinates_Ok by (rewrite Ha, size_empty, length_fmap; lia).
  intros [= <- <- <-]. subst a. by rewrite union_empty_r_L.
Qed.

(** The tracking bound is what the broker is asked for: with a batch within it,
    tracking cannot fail. *)
Lemma poll_tracked_limit a maximum records :
  a = ∅ -> Z.of_nat (length records) <= maximum ->
  (poll_tracked_batch a maximum (Ok records)).2 = Ok records.
Proof.
  intros -> Hl. unfold poll_tracked_batch, record_batch, can_poll. rewrite bool_decide_eq_true_2 by done. simpl.
  destruct (Z.ltb_spec maximum (Z.of_nat (length records))); [lia|].
  by rewrite record_coordinates_Ok by (rewrite size_empty, length_fmap; lia).
Qed.

Lemma poll_tracked_size a maximum poll :
  0 <= maximum -> Z.of_nat (size a) <= maximum ->
  Z.of_nat (size (poll_tracked_batch a maximum poll).1.1) <= maximum.
Proof.
  intros Hm Ha. unfold poll_tracked_batch. destruct (negb (can_poll a)) eqn:Hc; [done|].
  destruct poll as [rs|]; [|done]. destruct (maximum <? _); [done|].
  pose proof (record_coordinates_size (record_coordinate <$> rs) a maximum Ha) as Hs.
  unfold record_batch. rewrite Hc. by destruct (record_coordinates _ _ _).
Qed.

Section LoopLemmas.
  Context `{ClientDisplay} (answer : nat -> result ConsumerError unit * result ConsumerError unit).

(** What answer [i] says about tracking. *)
Definition releases (i : nat) : bool :=
  acknowledgement_releases_tracking (acknowledge_entry (answer i).1 (answer i).2) Disposition.

(** What holds of the loop of [queue_acknowledge] after the entries [done]. *)
Record ack_inv (a0 : QueueAcquisitions) (finished : list QueueAckEntry)
    (st : QueueAcquisitions * list BrokerCall * list (QueueAckEntry * option ErrorInfo)) : Prop := {
  ai_results : st.2.*1 = finished;
  ai_sub : st.1.1 ⊆ a0;
  ai_calls i c ty : st.1.2 !! i = Some (c, ty) -> c ∈ a0;
  ai_gone c : c ∈ a0 -> c ∉ st.1.1 -> exists i ty, st.1.2 !! i = Some (c, Some ty) /\ releases i = true;
  ai_kept i c ty : st.1.2 !! i = Some (c, ty) -> releases i = true -> c ∉ st.1.1;
}.

Lemma acknowledge_one_inv a0 fin st e :
  ack_inv a0 fin st -> ack_inv a0 (fin ++ [e]) (acknowledge_one answer st e).
Proof.
  destruct st as [[a calls] results]. intros [H1 H2 H3 H4 H5]; simpl in *. unfold acknowledge_one.
  destruct (ack_type (entry_type e)) as [ty|]; [|constructor; simpl; rewrite ?fmap_app, ?H1; done].
  unfold contains_acquired. case_bool_decide as Hin; simpl; [|constructor; simpl; rewrite ?fmap_app, ?H1; done].
  fold (releases (length calls)).
  assert (Hcall : forall i c x, (calls ++ [(coordinate e, Some ty)]) !! i = Some (c, x) ->
    calls !! i = Some (c, x) \/ i = length calls /\ c = coordinate e /\ x = Some ty).
  { intros i c x [?|[? Hx]]%lookup_app_Some; [by left|]. apply list_lookup_singleton_Some in Hx as [? [= <- <-]].
    right. split; [lia|done]. }
  destruct (releases (length calls)) eqn:Hrel; unfold finish; (constructor; simpl; [by rewrite fmap_app, H1|..]).
  - intros x [Hx _]%elem_of_difference. by apply H2.
  - intros i c x [?|(_ & -> & _)]%Hcall; [eauto|by apply H2].
  - intros c Hc Hn. destruct (decide (c = coordinate e)) as [->|].
    + exists (length calls), ty. split; [by rewrite lookup_app_r, Nat.sub_diag|done].
    + destruct (H4 c Hc) as (i & x & Hi & ?).
      { intros Hx. apply Hn, elem_of_difference. by rewrite elem_of_singleton. } exists i, x. split; [by apply lookup_app_l_Some|done].
  - intros i c x [Hi|(-> & -> & _)]%Hcall Hr [Hx Hne]%elem_of_difference; [by apply (H5 _ _ _ Hi Hr)|].
    by apply Hne, elem_of_singleton.
  - done.
  - intros i c x [?|(_ & -> & _)]%Hcall; [eauto|by apply H2].
  - intros c Hc Hn. destruct (H4 c Hc Hn) as (i & x & Hi & ?). exists i, x. split; [by apply lookup_app_l_Some|done].
  - intros i c x [Hi|(-> & -> & _)]%Hcall Hr; [eauto|congruence].
Qed.

Lemma acknowledge_inv a0 entries : ack_inv a0 entries (foldl (acknowledge_one answer) (a0, [], []) entries).
Proof.
  induction entries as [|e es IH] using rev_ind; [|rewrite foldl_app; by apply acknowledge_one_inv].
  constructor; simpl; try done; set_solver.
Qed.

Lemma renew_keeps a0 entries :
  (foldl (renew_one answer) (a0, [], []) entries).1.1 = a0 /\
  (foldl (renew_one answer) (a0, [], []) entries).2.*1 = entries.
Proof.
  induction entries as [|e es [IH1 IH2]] using rev_ind; [done|]. rewrite foldl_app. cbn [foldl].
  destruct (foldl _ _ _) as [[a calls] results]; simpl in *. subst a. unfold renew_one.
  destruct (negb _); simpl; rewrite fmap_app, IH2; [done|]. by destruct (answer _).1.
Qed.
End LoopLemmas.

(** ** The table *)

Definition session_ok (s : QueueSession) : Prop :=
  1 <= max_messages s <= MAX_MESSAGES /\ Z.of_nat (size (acquired s)) <= max_messages s.

Record table_inv (t : QueueSessionTable) : Prop := {
  ti_permits : 0 <= permits_free t;
  ti_sessions n s : heap t !! n = Some s -> session_ok s;
  ti_table id n : sessions t !! id = Some n -> is_Some (heap t !! n);
}.

(** What happens to a table, in any interleaving of requests. *)
Inductive queue_step `{Authorizer} `{ClientDisplay} : QueueSessionTable -> QueueSessionTable -> Prop :=
| q_open t r p host : queue_step t (open_new t r p host).1
| q_start t r p built id n now :
    (0 < starting t)%nat -> heap t !! n = None -> queue_step t (start_new t r p built id n now).1
| q_resume t r p now : queue_step t (resume t r p now).1
| q_poll t id n new wait poll now : queue_step t (acquire_poll t id n new wait poll now).1.1
| q_acknowledge t answer identity id entries now later :
    queue_step t (queue_acknowledge answer t identity id entries now later).1.1
| q_renew t answer identity id entries now later :
    queue_step t (queue_renew answer t identity id entries now later).1.1
| q_sweep t now : queue_step t (remove_expired t now)
| q_drop t n : (forall id, sessions t !! id <> Some n) -> queue_step t (drop_session t n).

Lemma set_session_inv t n s s' :
  heap t !! n = Some s -> session_ok s' -> table_inv t -> table_inv (set_session t n s').
Proof.
  intros Hn Hs [T1 T2 T3]. constructor; simpl.
  - unfold permits_free in *. simpl. by rewrite map_size_insert, Hn.
  - intros m x [[_ <-]|[_ ?]]%lookup_insert_Some; eauto.
  - intros id m Hm. destruct (decide (n = m)) as [->|]; [rewrite lookup_insert_eq; eauto|].
    rewrite lookup_insert_ne by done. eauto.
Qed.

Lemma touch_inv t n now : table_inv t -> table_inv (touch t n now).
Proof.
  intros Ht. unfold touch. destruct (heap t !! n) as [s|] eqn:Hn; [|done].
  eapply set_session_inv; eauto. exact (ti_sessions _ Ht _ _ Hn).
Qed.

Lemma remove_inv t id n : table_inv t -> table_inv (remove t id n).
Proof.
  intros [T1 T2 T3]. unfold remove. case_bool_decide; [|done]. constructor; simpl; try done.
  intros id' m [_ ?]%lookup_delete_Some. eauto.
Qed.

Lemma get_inv t id p now : table_inv t -> table_inv (get t id p now).1.
Proof.
  intros Ht. unfold get. destruct (_ ≫= _) as [[n s]|]; [|done].
  destruct (negb _); [|by apply remove_inv]. destruct (negb _); [done|by apply touch_inv].
Qed.

#[export] Hint Resolve touch_inv remove_inv get_inv : gw.

Lemma on_session_inv one t identity id entries now later :
  (forall a, (foldl one (a, [], []) entries).1.1 ⊆ a) ->
  table_inv t -> table_inv (on_session one t identity id entries now later).1.1.
Proof.
  intros Hsub Ht. unfold on_session. set (p := default anonymous_principal identity).
  pose proof (get_inv t id p now Ht) as Hg. destruct (get t id p now) as [t' [n|]]; [|done].
  simpl in Hg. destruct (heap t' !! n) as [s|] eqn:Hn; [|done]. specialize (Hsub (acquired s)).
  destruct (foldl _ _ _) as [[a calls] results]. simpl in *. apply touch_inv.
  eapply set_session_inv; eauto. destruct (ti_sessions _ Hg _ _ Hn) as [??]. split; [done|].
  simpl. apply subseteq_size in Hsub. lia.
Qed.

Lemma acquire_poll_inv `{ClientDisplay} t id n new wait poll now :
  table_inv t -> table_inv (acquire_poll t id n new wait poll now).1.1.
Proof.
  intros Ht. unfold acquire_poll. destruct (heap t !! n) as [s|] eqn:Hn; [|done].
  destruct (ti_sessions _ Ht _ _ Hn) as [Hmax Hsz].
  pose proof (poll_tracked_size (acquired s) (max_messages s) (poll (Z.min wait MAX_WAIT_MS)) ltac:(lia) Hsz) as Hsz'.
  destruct (poll_tracked_batch _ _ _) as [[a polled] records]. simpl in Hsz'.
  assert (table_inv (set_session t n (with_acquired s a))) by (by eapply set_session_inv).
  destruct records as [rs|[| |]]; [|done|destruct new|]; simpl; auto with gw.
Qed.

Lemma start_new_inv `{ClientDisplay} t r p built id n now :
  (0 < starting t)%nat -> heap t !! n = None -> table_inv t -> table_inv (start_new t r p built id n now).1.
Proof.
  intros Hst Hn [T1 T2 T3]. unfold start_new, start_session. unfold permits_free in *.
  destruct (bool_decide (qa_group_id r = EmptyString)); [constructor; unfold permits_free; simpl; [lia|done..]|].
  destruct (_ || _); [constructor; unfold permits_free; simpl; [lia|done..]|].
  destruct built; [|constructor; unfold permits_free; simpl; [lia|done..]]. constructor; simpl.
  - unfold permits_free. simpl. rewrite map_size_insert_None by done. lia.
  - intros m x [[_ <-]|[_ ?]]%lookup_insert_Some; [|eauto]. split; cbn [acquired max_messages]; [unfold requested_max, clamp, MAX_MESSAGES; lia|].
    rewrite size_empty. unfold requested_max, clamp, MAX_MESSAGES. lia.
  - intros id' m [[_ <-]|[_ Hm]]%lookup_insert_Some; [rewrite lookup_insert_eq; eauto|].
    destruct (decide (n = m)) as [->|]; [rewrite lookup_insert_eq; eauto|]. rewrite lookup_insert_ne by done. eauto.
Qed.

Lemma queue_step_inv `{Authorizer} `{ClientDisplay} t t' : queue_step t t' -> table_inv t -> table_inv t'.
Proof.
  intros Hst Ht. destruct Hst.
  - unfold open_new, reserve. destruct (authorize_queue _ _ _ _); [|done].
    destruct (Z.ltb_spec 0 (permits_free t)); [|done]. destruct Ht as [T1 T2 T3].
    constructor; simpl; try done. unfold permits_free in *. simpl. lia.
  - by apply start_new_inv.
  - unfold resume. pose proof (get_inv t (qa_session_id r) p now Ht) as Hg.
    destruct (get _ _ _ _) as [t' [n|]]; [|done]. by destruct (heap t' !! n).
  - by apply acquire_poll_inv.
  - apply on_session_inv; [|done]. intros a. apply (ai_sub answer a entries), acknowledge_inv.
  - apply on_session_inv; [|done]. intros a. by rewrite (proj1 (renew_keeps answer a entries)).
  - destruct Ht as [T1 T2 T3]. constructor; simpl; try done.
    intros id n [? _]%map_lookup_filter_Some. eauto.
  - destruct Ht as [T1 T2 T3]. constructor; simpl.
    + unfold permits_free in *. simpl. rewrite map_size_delete. destruct (heap t !! n); simpl; lia.
    + intros m s [_ ?]%lookup_delete_Some. eauto.
    + intros id m Hm. rewrite lookup_delete_ne by (intros ->; by apply (H1 id)). eauto.
Qed.

(** ** Properties *)

(** C20.  In any interleaving of requests, sweeps and closes there are at most
    1,024 session objects (those being started included), no session tracks
    more coordinates than its fixed limit, and no limit exceeds 500. *)
Theorem queue_bounded `{Authorizer} `{ClientDisplay} t :
  steps queue_step QueueSessionTable_default t ->
  Z.of_nat (size (heap t)) + Z.of_nat (starting t) <= MAX_SESSIONS /\
  forall n s, heap t !! n = Some s ->
    Z.of_nat (size (acquired s)) <= max_messages s <= MAX_MESSAGES.
Proof.
  intros Hst. apply (steps_invariant _ table_inv) in Hst; [| |constructor; vm_compute; done].
  - destruct Hst as [T1 T2 _]. unfold permits_free in T1. split; [lia|]. intros n s [??]%T2. lia.
  - intros. by eapply queue_step_inv.
Qed.

(** An acquire on a session either finds a batch outstanding, and then does
    not poll and changes nothing; or polls.  When it succeeds the session tracks
    exactly the coordinates it hands out; when the broker returns more than the
    limit, the session leaves the table. *)
Theorem acquire_tracks_batch `{ClientDisplay} t id n new wait poll now s t' polled res :
  heap t !! n = Some s -> sessions t !! id = Some n ->
  acquire_poll t id n new wait poll now = (t', polled, res) ->
  match res with
  | Ok (id', ms) => acquired s = ∅ /\ polled = true /\ id' = id /\ exists rs,
      poll (Z.min wait MAX_WAIT_MS) = Ok rs /\ ms = queued_message <$> rs /\
      acquired <$> heap t' !! n = Some (list_to_set (record_coordinate <$> rs))
  | Err e =>
      (acquired s <> ∅ -> t' = t /\ polled = false /\ connect_code e = ResourceExhausted) /\
      (acquired s = ∅ -> forall rs, poll (Z.min wait MAX_WAIT_MS) = Ok rs ->
         max_messages s < Z.of_nat (length rs) /\ sessions t' !! id = None)
  end.
Proof.
  intros Hn Hid. unfold acquire_poll. rewrite Hn.
  destruct (poll_tracked_batch _ _ _) as [[a pol] recs] eqn:Hp. intros Hres. destruct recs as [rs|e].
  - injection Hres as <- <- <-. apply poll_tracked_Ok in Hp as (Ha & -> & Hpoll & -> & _).
    split_and!; [done..|]. exists rs. split_and!; [done..|]. unfold touch. simpl. rewrite lookup_insert_eq. simpl. by rewrite lookup_insert_eq.
  - assert (Hsame : acquired s <> ∅ -> a = acquired s /\ e = Outstanding /\ pol = false).
    { intros Ha. unfold poll_tracked_batch, can_poll in Hp. rewrite bool_decide_eq_false_2 in Hp by done. by simplify_eq/=. }
    assert (Hlim : acquired s = ∅ -> forall rs, poll (Z.min wait MAX_WAIT_MS) = Ok rs ->
      e = LimitExceeded /\ max_messages s < Z.of_nat (length rs)).
    { intros Ha rs Hrs. rewrite Hrs in Hp. destruct (Z.lt_ge_cases (max_messages s) (Z.of_nat (length rs))) as [Hlt|Hge].
      - unfold poll_tracked_batch, can_poll in Hp. rewrite bool_decide_eq_true_2 in Hp by done. simpl in Hp.
        destruct (Z.ltb_spec (max_messages s) (Z.of_nat (length rs))); [|lia]. by simplify_eq/=.
      - pose proof (poll_tracked_limit _ _ _ Ha Hge) as Hok. rewrite Hp in Hok. done. }
    destruct e; simplify_eq/=; split; try (intros Ha; specialize (Hsame Ha); naive_solver);
      try (intros Ha rs Hrs; specialize (Hlim Ha rs Hrs); naive_solver).
    + intros Ha. destruct (Hsame Ha) as (-> & _ & ->). split_and!; [|done..].
      destruct t, s; unfold set_session; simpl in *. f_equal. by apply insert_id.
    + intros Ha rs Hrs. split; [by apply Hlim|]. unfold remove. simpl. rewrite bool_decide_eq_true_2 by done.
      simpl. by rewrite lookup_delete_eq.
Qed.

(** Acknowledging: one result per entry, in order; the broker is called only
    for coordinates of the batch; a coordinate leaves the batch exactly when a
    call for it was accepted or answered INVALID_RECORD_STATE (121). *)
Theorem acknowledge_retires `{ClientDisplay} answer a entries :
  let '(a', calls, results) := foldl (acknowledge_one answer) (a, [], []) entries in
  results.*1 = entries /\ a' ⊆ a /\ (forall i c ty, calls !! i = Some (c, ty) -> c ∈ a) /\
  forall c, c ∈ a ->
    (c ∉ a' <-> exists i ty, calls !! i = Some (c, Some ty) /\
       match acknowledge_entry (answer i).1 (answer i).2 with
       | None => True
       | Some (Server code) => code = 121
       | Some _ => False
       end).
Proof.
  pose proof (acknowledge_inv answer a entries) as Hi. destruct (foldl _ _ _) as [[a' calls] results].
  destruct Hi as [H1 H2 H3 H4 H5]; simpl in *. split_and!; [done..|]. intros c Hc.
  assert (Hrel : forall i, releases answer i = true <->
    match acknowledge_entry (answer i).1 (answer i).2 with
    | None => True | Some (Server code) => code = 121 | Some _ => False end).
  { intros i. unfold releases, acknowledgement_releases_tracking.
    destruct (acknowledge_entry _ _) as [[]|]; try done. apply Z.eqb_eq. }
  split.
  - intros Hn. destruct (H4 c Hc Hn) as (i & ty & Hi & Hr). exists i, ty. split; [done|by apply Hrel].
  - intros (i & ty & Hi & Hr). apply (H5 i c (Some ty)); [done|by apply Hrel].
Qed.

(** Renewing never retires a coordinate and answers every entry, whatever
    the broker says. *)
Theorem renew_never_retires `{ClientDisplay} answer t identity id entries now later t1 n s :
  get t id (default anonymous_principal identity) now = (t1, Ok n) -> heap t1 !! n = Some s ->
  exists t' calls results,
    queue_renew answer t identity id entries now later = (t', calls, Ok results) /\
    results.*1 = entries /\ acquired <$> heap t' !! n = Some (acquired s).
Proof.
  intros Hg Hn. unfold queue_renew, on_session. rewrite Hg, Hn.
  destruct (renew_keeps answer (acquired s) entries) as [H1 H2].
  destruct (foldl _ _ _) as [[a calls] results]. simpl in *. subst a.
  eexists _, _, _. split_and!; [done..|]. unfold touch. simpl. rewrite lookup_insert_eq. simpl. by rewrite lookup_insert_eq.
Qed.

(** A session answers only to the principal that opened it: to anyone else
    every operation on a live session is refused with PERMISSION_DENIED, makes
    no broker call and changes nothing. *)
Theorem session_isolation `{Authorizer} `{ClientDisplay} answer t id n s p r entries now later :
  sessions t !! id = Some n -> heap t !! n = Some s -> is_expired s now = false -> principal s <> p ->
  let denied := deny "queue session belongs to another principal" in
  queue_acknowledge answer t (Some p) id entries now later = (t, [], Err denied) /\
  queue_renew answer t (Some p) id entries now later = (t, [], Err denied) /\
  (qa_session_id r = id -> resume t r p now = (t, Err denied)).
Proof.
  intros Hid Hn He Hp. assert (Hg : get t id p now = (t, Err (deny "queue session belongs to another principal"))).
  { unfold get. rewrite Hid. simpl. rewrite Hn. simpl. rewrite He. simpl. by rewrite bool_decide_eq_false_2. }
  cbv zeta. unfold queue_acknowledge, queue_renew, on_session, resume. simpl. rewrite Hg.
  split_and!; [done..|]. intros ->. by rewrite Hg.
Qed.

(** ** A concrete table *)

Definition sample_session (a : QueueAcquisitions) : QueueSession :=
  {| principal := alice; group_id := "workers"; topics := ["jobs"]; acquired := a; max_messages := 2; last_used := 0 |}.
Definition sample_table (a : QueueAcquisitions) : QueueSessionTable :=
  {| heap := {[0%nat := sample_session a]}; sessions := {["s" := 0%nat]}; starting := 0 |}.
Definition job (o : Z) : ShareConsumerRecord :=
  {| sr_topic := "jobs"; sr_partition := 0; sr_offset := o; sr_timestamp := 0; sr_key := None; sr_value := None;
     sr_headers := []; sr_delivery_count := 1 |}.
Definition new_request : QueueAcquireRequest :=
  {| qa_session_id := EmptyString; qa_group_id := "workers"; qa_topics := ["jobs"]; qa_max_messages := 2;
     qa_wait_ms := 100; qa_lock_duration_ms := 30000 |}.

(** A session is opened. *)
Definition opened : QueueSessionTable :=
  (start_new (H:=plain_display) (open_new (H:=allow_all) QueueSessionTable_default new_request alice "h").1
     new_request alice (Ok ()) "s" 0 0).1.

Lemma queue_bounded_witness : Z.of_nat (size (heap opened)) + Z.of_nat (starting opened) <= MAX_SESSIONS.
Proof.
  refine (proj1 (queue_bounded (H:=allow_all) (H0:=plain_display) opened _)).
  eapply steps_cons; [apply (q_open (H:=allow_all) _ new_request alice "h")|].
  eapply steps_cons; [|apply steps_refl].
  apply q_start; [vm_compute; lia|vm_compute; reflexivity].
Defined.

Lemma acquire_tracks_batch_witness :
  let '(t', _, _) := acquire_poll (H:=plain_display) (sample_table ∅) "s" 0 false 100 (fun _ => Ok [job 7; job 9]) 5 in
  acquired <$> heap t' !! 0%nat = Some (list_to_set [("jobs", 0, 7); ("jobs", 0, 9)]).
Proof.
  destruct (acquire_poll (H:=plain_display) (sample_table ∅) "s" 0 false 100 (fun _ => Ok [job 7; job 9]) 5)
    as [[t' polled] res] eqn:Hp.
  assert (Hr : res = Ok ("s", queued_message <$> [job 7; job 9]))
    by (apply (f_equal snd) in Hp; simpl snd in Hp; rewrite <- Hp; vm_compute; reflexivity).
  subst res.
  destruct (acquire_tracks_batch (H:=plain_display) (sample_table ∅) "s" 0 false 100 (fun _ => Ok [job 7; job 9]) 5
    (sample_session ∅) _ _ _ ltac:(vm_compute; reflexivity) ltac:(vm_compute; reflexivity) Hp)
    as (_ & _ & _ & rs & Hrs & _ & Ha). injection Hrs as <-. exact Ha.
Defined.

Definition one_job : QueueAcquisitions := {[("jobs", 0, 7)]}.
Definition job_entry : QueueAckEntry :=
  {| entry_topic := "jobs"; entry_partition := 0; entry_offset := 7; entry_type := 0 |}.

Lemma renew_never_retires_witness :
  exists t' calls results,
    queue_renew (H:=plain_display) (fun _ => (Err (Server 121), Ok ())) (sample_table one_job) (Some alice) "s"
      [job_entry] 5 5 = (t', calls, Ok results) /\
    results.*1 = [job_entry] /\ acquired <$> heap t' !! 0%nat = Some one_job.
Proof.
  exact (renew_never_retires (H:=plain_display) (fun _ => (Err (Server 121), Ok ())) (sample_table one_job)
    (Some alice) "s" [job_entry] 5 5 (touch (sample_table one_job) 0 5) 0 (with_last_used (sample_session one_job) 5)
    ltac:(vm_compute; reflexivity) ltac:(vm_compute; reflexivity)).
Defined.

Lemma session_isolation_witness :
  queue_acknowledge (H:=plain_display) (fun _ => (Ok (), Ok ())) (sample_table ∅) (Some bob) "s" [] 10 10
  = (sample_table ∅, [], Err (deny "queue session belongs to another principal")).
Proof.
  refine (proj1 (session_isolation (H:=allow_all) (H0:=plain_display) (fun _ => (Ok (), Ok ())) (sample_table ∅) "s" 0
    (sample_session ∅) bob new_request [] 10 10 _ _ _ _)); try (vm_compute; reflexivity). discriminate.
Defined.
