(* ===== verification/Produce.v ===== *)
(** * The produce core and forwarding between replicas (produce.rs, forward.rs)

    Routing of a record (plain, deduplicated here, or forwarded to the owner),
    the wire form of a forwarded record and the endpoint that receives it.
    [Effects] is what the core's collaborators answer: the three producers, the
    dedup engine of [Dedup], and the owner behind the forwarder. *)

From S2P Require Import Prelude.
From S2P Require Import Types.
From S2P Require Import Membership.
From S2P Require Import Dedup.

Inductive Acks := AcksAll | AcksOne | AcksZero.
#[export] Instance Acks_eq_dec : EqDecision Acks.
Proof. solve_decision. Defined.

Record Forwarding := {
  fwd_membership : MembershipStore;
  self_addr : string;
}.

Record ProduceCore := {
  pc_dedup : option DedupStore;
  forwarding : option Forwarding;
}.

Definition has_dedup (c : ProduceCore) : bool := match pc_dedup c with Some _ => true | None => false end.

Record Effects := {
  eff_send : Acks -> ProducerRecord -> result ProducerError RecordMetadata;
  eff_dedup : GatewayRecord -> Bytes -> result GatewayError RecordOutcome;
  eff_forward : string -> GatewayRecord -> Principal -> result GatewayError RecordOutcome;
}.

Definition sent (m : RecordMetadata) : RecordOutcome :=
  {| out_partition := md_partition m; out_offset := md_offset m; deduplicated := false |}.

Definition produce_plain (eff : Effects) (rec : GatewayRecord) (v : Bytes) (acks : Acks)
    : result GatewayError RecordOutcome :=
  meta ← map_err Producer (eff_send eff acks (to_producer_record rec v)); Ok (sent meta).

Definition produce_local_with_acks `{RecordCodec} (c : ProduceCore) (eff : Effects) (rec : GatewayRecord) (acks : Acks)
    : result GatewayError RecordOutcome :=
  v ← map_err Codec (encode (topic rec) (encode_body rec));
  match pc_dedup c, idempotency_key rec with
  | Some _, Some _ => eff_dedup eff rec v
  | _, _ => produce_plain eff rec v acks
  end.

Definition produce_local `{RecordCodec} (c : ProduceCore) (eff : Effects) (rec : GatewayRecord)
    : result GatewayError RecordOutcome := produce_local_with_acks c eff rec AcksAll.

(** The address to forward to; [None] is local. *)
Definition forward_addr (c : ProduceCore) (rec : GatewayRecord) : result GatewayError (option string) :=
  match pc_dedup c, forwarding c, idempotency_key rec with
  | Some dedup, Some fwd, Some key =>
      let p := partition_for key (partitions dedup) in
      if owns dedup p then Ok None
      else
        match owner_of (fwd_membership fwd) p with
        | Some addr => if bool_decide (addr = self_addr fwd) then Ok None else Ok (Some addr)
        | None => Err Unavailable
        end
  | _, _, _ => Ok None
  end.

Definition produce_with_acks `{RecordCodec} (c : ProduceCore) (eff : Effects) (rec : GatewayRecord)
    (p : Principal) (acks : Acks) : result GatewayError RecordOutcome :=
  if bool_decide (is_Some (idempotency_key rec)) && negb (bool_decide (acks = AcksAll))
  then Err (Other "idempotency_key requires ACKS_ALL")
  else
    addr ← forward_addr c rec;
    match addr with
    | Some addr =>
        match forwarding c with
        | None => Err (Other "forwarding route has no forwarder")
        | Some _ => eff_forward eff addr rec p
        end
    | None => produce_local_with_acks c eff rec acks
    end.

Definition produce `{RecordCodec} (c : ProduceCore) (eff : Effects) (rec : GatewayRecord) (p : Principal)
    : result GatewayError RecordOutcome := produce_with_acks c eff rec p AcksAll.

(** [enqueue_plain_with_acks] up to the enqueue: the record handed to the
    producer of [acks]. *)
Definition enqueue_plain_with_acks `{RecordCodec} (rec : GatewayRecord) : result GatewayError ProducerRecord :=
  match idempotency_key rec with
  | Some _ => Err (Other "idempotency_key requires the dedup produce path")
  | None => v ← map_err Codec (encode (topic rec) (encode_body rec)); Ok (to_producer_record rec v)
  end.

(** ** The forward wire *)

Record ForwardPrincipal := {
  fp_name : string;
  fp_auth_method : string;
  fp_groups : list string;
}.

Definition auth_method_to_str (m : AuthMethod) : string :=
  match m with
  | Anonymous => "Anonymous" | SaslPlain => "SaslPlain" | SaslScramSha256 => "SaslScramSha256"
  | SaslScramSha512 => "SaslScramSha512" | SaslOAuthBearer => "SaslOAuthBearer" | SaslGssapi => "SaslGssapi"
  | MTls => "MTls"
  end.

Definition auth_method_from_str (s : string) : AuthMethod :=
  if bool_decide (s = "SaslPlain") then SaslPlain
  else if bool_decide (s = "SaslScramSha256") then SaslScramSha256
  else if bool_decide (s = "SaslScramSha512") then SaslScramSha512
  else if bool_decide (s = "SaslOAuthBearer") then SaslOAuthBearer
  else if bool_decide (s = "SaslGssapi") then SaslGssapi
  else if bool_decide (s = "MTls") then MTls
  else Anonymous.

Definition from_principal (p : Principal) : ForwardPrincipal :=
  {| fp_name := pname p; fp_auth_method := auth_method_to_str (auth_method p); fp_groups := groups p |}.
Definition to_principal (p : ForwardPrincipal) : Principal :=
  {| pname := fp_name p; auth_method := auth_method_from_str (fp_auth_method p); groups := fp_groups p |}.

Record ForwardRecord := {
  fr_topic : string;
  fr_key : option Bytes;
  fr_value : Bytes;
  fr_headers : list (string * option Bytes);
  fr_partition : option Z;
  fr_timestamp_ms : option Z;
  fr_idempotency_key : option string;
  fr_principal : option ForwardPrincipal;
}.

Definition from_record (r : GatewayRecord) (p : Principal) : ForwardRecord :=
  {| fr_topic := topic r; fr_key := key r; fr_value := value r; fr_headers := headers r;
     fr_partition := partition r; fr_timestamp_ms := timestamp_ms r;
     fr_idempotency_key := idempotency_key r; fr_principal := Some (from_principal p) |}.

Definition into_record (f : ForwardRecord) : GatewayRecord :=
  {| topic := fr_topic f; key := fr_key f; value := fr_value f; body_structured := None;
     headers := fr_headers f; partition := fr_partition f; timestamp_ms := fr_timestamp_ms f;
     idempotency_key := fr_idempotency_key f |}.

Record ForwardError := { fe_message : string; fe_retriable : bool }.
Record ForwardResult := {
  fres_partition : Z;
  fres_offset : Z;
  fres_deduplicated : bool;
  fres_error : option ForwardError;
}.

(** An HTTP response as the forwarder reads it: the status, and the body as a
    [ForwardResult], or why it is none. *)
Inductive BodyError := BodyTimeout | BodyMalformed (m : string).
Record ForwardResponse := { status : Z; body : result BodyError ForwardResult }.

Definition is_success (s : Z) : bool := (200 <=? s) && (s <=? 299).

(** [Forwarder::forward]; [http] is the POST, [None] a transport failure. *)
Definition forward (http : string -> ForwardRecord -> option ForwardResponse) (owner_addr : string)
    (rec : GatewayRecord) (p : Principal) : result GatewayError RecordOutcome :=
  match http owner_addr (from_record rec p) with
  | None => Err Unavailable
  | Some resp =>
      match body resp with
      | Ok res =>
          match fres_error res with
          | None =>
              if is_success (status resp) then
                Ok {| out_partition := fres_partition res; out_offset := fres_offset res; deduplicated := fres_deduplicated res |}
              else Err Unavailable
          | Some e =>
              if fe_retriable e then Err Unavailable
              else if status resp =? 403 then Err (Unauthorized (fe_message e))
              else Err (Forward (fe_message e))
          end
      | Err BodyTimeout => Err Unavailable
      | Err (BodyMalformed m) =>
          if is_success (status resp) then Err (Forward ("decode forward result: " +:+ m)) else Err Unavailable
      end
  end.

Definition refusal (st : Z) (m : string) (retriable : bool) : ForwardResponse :=
  {| status := st;
     body := Ok {| fres_partition := -1; fres_offset := -1; fres_deduplicated := false;
                   fres_error := Some {| fe_message := m; fe_retriable := retriable |} |} |}.
Definition bare (st : Z) : ForwardResponse := {| status := st; body := Err (BodyMalformed EmptyString) |}.

(** [forward_handler]: [tls] is whether TLS is configured, [peer] the
    certificate's principal.  [req] is the request body: [None] when it is over
    the limit, [Some None] when it is not a [ForwardRecord]. *)
Definition forward_handler `{RecordCodec} `{Authorizer} `{ClientDisplay} (c : ProduceCore) (eff : Effects)
    (tls : bool) (peer : option Principal) (req : option (option ForwardRecord)) : ForwardResponse :=
  match req with
  | None => bare 413
  | Some None => bare 400
  | Some (Some req) =>
      if tls && negb (bool_decide (is_Some peer)) then refusal 403 "forward requires an authenticated mTLS peer" false
      else
        let caller := match fr_principal req with Some p => to_principal p | None => anonymous_principal end in
        if negb (authorize caller unknown_host TopicResource (fr_topic req) Write)
        then refusal 403 ("Write Topic:" +:+ fr_topic req) false
        else
          match produce_local c eff (into_record req) with
          | Ok o => {| status := 200;
                       body := Ok {| fres_partition := out_partition o; fres_offset := out_offset o;
                                     fres_deduplicated := deduplicated o; fres_error := None |} |}
          | Err e => refusal 200 (GatewayError_to_string e) (match e with Unavailable => true | _ => false end)
          end
  end.

(** ** Properties *)

Lemma principal_roundtrip p : to_principal (from_principal p) = p.
Proof. destruct p as [n m g]. unfold to_principal. simpl. f_equal. by destruct m. Qed.

(** A raw record survives the wire. *)
Lemma record_roundtrip rec p : body_structured rec = None -> into_record (from_record rec p) = rec.
Proof. destruct rec. simpl. by intros ->. Qed.

Lemma trusted_peer tls (peer : option Principal) :
  (tls = true -> is_Some peer) -> tls && negb (bool_decide (is_Some peer)) = false.
Proof. intros Htls. destruct tls; [|done]. simpl. by rewrite bool_decide_eq_true_2 by auto. Qed.

Section Owner.
  Context `{RecordCodec} `{Authorizer} `{ClientDisplay}.
  (** The owner: its core and collaborators, and its transport settings. *)
  Context (c : ProduceCore) (eff : Effects) (tls : bool) (peer : option Principal).

(** A transport that delivers to the owner. *)
Definition to_owner (addr : string) (f : ForwardRecord) : option ForwardResponse :=
  Some (forward_handler c eff tls peer (Some (Some f))).

(** C28.  Forwarding is the owner's local produce: for a raw record of a caller
    the owner authorizes, over a trusted connection, the origin answers what
    the owner's local produce of the same record answers, [Unavailable] stays
    retriable, and any other error is reported as a forward error. *)
Theorem forward_is_owner_produce addr rec p :
  body_structured rec = None -> (tls = true -> is_Some peer) ->
  authorize p unknown_host TopicResource (topic rec) Write = true ->
  forward to_owner addr rec p =
    match produce_local c eff rec with
    | Ok o => Ok o
    | Err Unavailable => Err Unavailable
    | Err e => Err (Forward (GatewayError_to_string e))
    end.
Proof.
  intros Hraw Htls Hauth. unfold forward, to_owner, forward_handler.
  rewrite trusted_peer by done.
  cbn [fr_principal from_record fr_topic]. rewrite principal_roundtrip, Hauth.
  rewrite record_roundtrip by done. simpl. destruct (produce_local c eff rec) as [[]|[]]; done.
Qed.

(** A caller the owner's ACLs deny gets a permanent [Unauthorized], and
    nothing is produced: the answer does not depend on the collaborators. *)
Theorem forward_denied addr rec p :
  (tls = true -> is_Some peer) -> authorize p unknown_host TopicResource (topic rec) Write = false ->
  forward to_owner addr rec p = Err (Unauthorized ("Write Topic:" +:+ topic rec)).
Proof.
  intros Htls Hauth. unfold forward, to_owner, forward_handler.
  rewrite trusted_peer by done.
  cbn [fr_principal from_record fr_topic]. by rewrite principal_roundtrip, Hauth.
Qed.
End Owner.

(** Routing of a keyed record with deduplication and forwarding on.  A
    request that does not ask for all acknowledgements is refused.  An owner
    produces locally.  A replica that does not own the partition forwards to the
    routed owner, never to itself, and without a route answers [Unavailable]. *)
Theorem produce_routes `{RecordCodec} c eff rec p acks dedup fwd key :
  pc_dedup c = Some dedup -> forwarding c = Some fwd -> idempotency_key rec = Some key ->
  produce_with_acks c eff rec p acks =
    let part := partition_for key (partitions dedup) in
    if negb (bool_decide (acks = AcksAll)) then Err (Other "idempotency_key requires ACKS_ALL")
    else if owns dedup part then produce_local c eff rec
    else match owner_of (fwd_membership fwd) part with
         | None => Err Unavailable
         | Some addr => if bool_decide (addr = self_addr fwd) then produce_local c eff rec
                        else eff_forward eff addr rec p
         end.
Proof.
  intros Hd Hf Hk. unfold produce_with_acks, forward_addr. rewrite Hd, Hf, Hk.
  rewrite bool_decide_eq_true_2 by eauto. simpl. case_bool_decide as Ha; simpl; [subst acks|done].
  destruct (owns _ _); simpl; [done|]. destruct (owner_of _ _); [|done]. by case_bool_decide.
Qed.

(** C37.  A structured body is lost on a forward.  Produced locally, the codec
    gets the JSON; forwarded, the owner's codec gets the raw [value], which the
    Connect handler leaves empty for a structured record. *)
Theorem forwarded_structured_body_lost c eff dedup rec key json schema p :
  pc_dedup c = Some dedup -> idempotency_key rec = Some key -> body_structured rec = Some (json, schema) ->
  produce_local (H:=RawCodec) c eff rec = eff_dedup eff rec json /\
  produce_local (H:=RawCodec) c eff (into_record (from_record rec p))
  = eff_dedup eff (into_record (from_record rec p)) (value rec).
Proof.
  intros Hd Hk Hs. unfold produce_local, produce_local_with_acks, encode_body. simpl. by rewrite Hs, Hd, Hk.
Qed.

(** ** Concrete replicas *)

(** A dedup engine that answers with the length of the value it was given. *)
Definition echo_effects : Effects :=
  {| eff_send := fun _ _ => Ok {| md_partition := 0; md_offset := 1 |};
     eff_dedup := fun _ v => Ok {| out_partition := 0; out_offset := Z.of_nat (length v); deduplicated := false |};
     eff_forward := fun _ _ _ => Err Unavailable |}.

Definition empty_store : DedupStore :=
  {| claim_map := ∅; partitions := 4; Dedup.owned := ∅; warm := true; warmed_once := true;
     restart_required := false; warmup_empty_polls := 3; empty_polls := 3 |}.

Definition owner_core : ProduceCore :=
  {| pc_dedup := Some empty_store;
     forwarding := Some {| fwd_membership := {| nodes := ∅; routing := {[0 := "a:1"; 1 := "a:1"; 2 := "a:1"; 3 := "a:1"]} |};
                           self_addr := "b:1" |} |}.

Definition structured_record : GatewayRecord :=
  {| topic := "orders"; key := None; value := [];
     body_structured := Some (as_bytes "{}", {| sel_subject := None; sel_id := None; sel_format := Json |});
     headers := []; partition := None; timestamp_ms := None; idempotency_key := Some "order-17" |}.

Lemma forward_is_owner_produce_witness :
  forward (to_owner (H:=RawCodec) (H0:=allow_all) (H1:=plain_display) owner_core echo_effects true (Some bob)) "a:1" sample_record alice
  = Ok {| out_partition := 0; out_offset := 1; deduplicated := false |}.
Proof.
  exact (forward_is_owner_produce (H:=RawCodec) (H0:=allow_all) (H1:=plain_display) owner_core echo_effects true (Some bob)
    "a:1" sample_record alice eq_refl (fun _ => ex_intro _ bob eq_refl) eq_refl).
Defined.

Lemma forward_denied_witness :
  forward (to_owner (H:=RawCodec) (H0:={| authorize := fun _ _ _ _ _ => false |}) (H1:=plain_display)
             owner_core echo_effects false None) "a:1" sample_record alice
  = Err (Unauthorized "Write Topic:orders").
Proof.
  exact (forward_denied (H:=RawCodec) (H0:={| authorize := fun _ _ _ _ _ => false |}) (H1:=plain_display)
    owner_core echo_effects false None "a:1" sample_record alice ltac:(discriminate) eq_refl).
Defined.

Lemma produce_routes_witness :
  produce_with_acks (H:=RawCodec) owner_core echo_effects sample_record alice AcksAll = Err Unavailable.
Proof.
  rewrite (produce_routes (H:=RawCodec) owner_core echo_effects sample_record alice AcksAll empty_store
    {| fwd_membership := {| nodes := ∅; routing := {[0 := "a:1"; 1 := "a:1"; 2 := "a:1"; 3 := "a:1"]} |};
       self_addr := "b:1" |} "order-17" eq_refl eq_refl eq_refl).
  vm_compute; reflexivity.
Defined.

Lemma forwarded_structured_body_lost_witness :
  produce_local (H:=RawCodec) owner_core echo_effects structured_record
    = Ok {| out_partition := 0; out_offset := 2; deduplicated := false |} /\
  produce_local (H:=RawCodec) owner_core echo_effects (into_record (from_record structured_record alice))
    = Ok {| out_partition := 0; out_offset := 0; deduplicated := false |}.
Proof.
  exact (forwarded_structured_body_lost owner_core echo_effects empty_store structured_record "order-17" (as_bytes "{}")
    {| sel_subject := None; sel_id := None; sel_format := Json |} alice eq_refl eq_refl eq_refl).
Defined.
