(* ===== verification/Handlers.v ===== *)
(** * The Connect [Send] handler (handlers.rs)

    Conversion of a wire record, the mapping of errors to per-record results,
    and the [Send] loop with its bounded window of deliveries.  The trace lists
    what the loop does to the outside, in order. *)

From stdpp Require Import pretty.
From S2P Require Import Prelude.
From S2P Require Import Types.
From S2P Require Import Dedup.
From S2P Require Import Produce.

(** [pb::Acks::try_from]: 0 all, 1 leader, 2 none. *)
Definition producer_acks_from_pb (acks : Z) : option Acks :=
  if acks =? 0 then Some AcksAll else if acks =? 1 then Some AcksOne else if acks =? 2 then Some AcksZero else None.

Record RecordResult := {
  rr_partition : Z;
  rr_offset : Z;
  rr_deduplicated : bool;
  rr_error : option ErrorInfo;
}.

Definition error_result `{ClientDisplay} (e : GatewayError) : RecordResult :=
  let retriable := match e with Unavailable | Codec (Registry _) => true | _ => false end in
  let code := match e with
              | Unavailable | Codec (Registry _) => 14
              | Unauthorized _ => 7
              | Codec _ => 3
              | _ => 1
              end in
  {| rr_partition := -1; rr_offset := -1; rr_deduplicated := false;
     rr_error := Some {| ei_code := code; ei_message := GatewayError_to_string e; ei_retriable := retriable |} |}.

(** [pb::SchemaFormat]: 2 JSON, 3 Protobuf; anything else is Avro. *)
Definition schema_format_from_pb (format : Z) : SchemaFormat :=
  if format =? 2 then Json else if format =? 3 then Protobuf else Avro.

Record PbSchemaSelector := { pbs_subject : string; pbs_id : Z; pbs_format : Z }.

Definition schema_selector_from_pb (sel : PbSchemaSelector) : SchemaSelector :=
  {| sel_subject := if bool_decide (pbs_subject sel = EmptyString) then None else Some (pbs_subject sel);
     sel_id := if pbs_id sel =? 0 then None else Some (pbs_id sel);
     sel_format := schema_format_from_pb (pbs_format sel) |}.

Inductive PbBody := BodyRaw (raw : Bytes) | BodyStructured (json : Bytes).

Record PbRecord := {
  pb_topic : string;
  pb_key : option Bytes;
  pb_body : option PbBody;
  pb_schema : option PbSchemaSelector;
  pb_headers : list (string * option Bytes);
  pb_partition : option Z;
  pb_timestamp_ms : option Z;
  pb_idempotency_key : option string;
}.

Definition to_gateway_record (r : PbRecord) : GatewayRecord :=
  let selector := schema_selector_from_pb <$> pb_schema r in
  let '(v, structured) :=
    match pb_body r with
    | Some (BodyStructured json) =>
        let schema := default {| sel_subject := None; sel_id := None; sel_format := Avro |} selector in
        ([], Some (json, schema))
    | Some (BodyRaw raw) => (raw, None)
    | None => ([], None)
    end in
  {| topic := pb_topic r; key := pb_key r; value := v; body_structured := structured; headers := pb_headers r;
     partition := pb_partition r; timestamp_ms := pb_timestamp_ms r; idempotency_key := pb_idempotency_key r |}.

Definition send_result `{ClientDisplay} (r : result GatewayError RecordOutcome) : RecordResult :=
  match r with
  | Ok o => {| rr_partition := out_partition o; rr_offset := out_offset o; rr_deduplicated := deduplicated o; rr_error := None |}
  | Err e => error_result e
  end.

(** ** The window *)

Definition SEND_WINDOW_CAPACITY : nat := 64.

(** [FuturesOrdered] yields in the order of pushing: a pending delivery is the
    result it will have. *)
Record SendWindow := { pending : list RecordResult; results : list RecordResult }.

Definition SendWindow_new : SendWindow := {| pending := []; results := [] |}.
Definition SendWindow_drain (w : SendWindow) : SendWindow := {| pending := []; results := results w ++ pending w |}.
Definition SendWindow_push (w : SendWindow) (d : RecordResult) : SendWindow :=
  let w := {| pending := pending w ++ [d]; results := results w |} in
  if (length (pending w) =? SEND_WINDOW_CAPACITY)%nat then SendWindow_drain w else w.

(** ** The loop *)

Inductive effect :=
| Keyed (i : nat)          (** [produce_with_acks] of record [i] *)
| Enqueued (i : nat)       (** the producer took plain record [i] *)
| Drained.                 (** every pending delivery was awaited *)

(** What the gateway's collaborators are and answer while the [i]th record is
    handled: the core with its stores, its effects, and the plain producer,
    which refuses a record or accepts it with the delivery it will have. *)
Record SendEnv := {
  env_core : nat -> ProduceCore;
  env_effects : nat -> Effects;
  env_enqueue : nat -> Acks -> ProducerRecord -> result ProducerError (result ProducerError RecordMetadata);
}.

(** Records handed to the producer since everything was last awaited. *)
Definition outstanding (t : list effect) : nat :=
  foldl (fun n e => match e with Enqueued _ => S n | Drained => 0%nat | Keyed _ => n end) 0%nat t.

Definition effect_index (e : effect) : option nat :=
  match e with Keyed i | Enqueued i => Some i | Drained => None end.

(** Every effect happens within the window, a keyed one with nothing pending. *)
Definition windowed (t : list effect) : Prop :=
  forall t1 e t2, t = t1 ++ e :: t2 ->
    (outstanding t1 <= SEND_WINDOW_CAPACITY)%nat /\ forall i, e = Keyed i -> outstanding t1 = 0%nat.

Lemma outstanding_snoc t e :
  outstanding (t ++ [e]) =
    match e with Enqueued _ => S (outstanding t) | Drained => 0%nat | Keyed _ => outstanding t end.
Proof. unfold outstanding. by rewrite foldl_app. Qed.

Lemma windowed_snoc t e :
  windowed t -> (outstanding t <= SEND_WINDOW_CAPACITY)%nat -> (forall i, e = Keyed i -> outstanding t = 0%nat) ->
  windowed (t ++ [e]).
Proof.
  intros Ht Hle Hk t1 e' t2 Heq.
  destruct t2 as [|x t2 _] using rev_ind.
  - apply app_inj_tail in Heq as [<- <-]. auto.
  - rewrite app_comm_cons, app_assoc in Heq. apply app_inj_tail in Heq as [-> _]. by eapply Ht.
Qed.

Lemma windowed_nil : windowed [].
Proof. intros [|??] ??; discriminate. Qed.

Lemma push_results w d : results (SendWindow_push w d) ++ pending (SendWindow_push w d) = (results w ++ pending w) ++ [d].
Proof. unfold SendWindow_push. case_match; simpl; by rewrite <- ?app_assoc, ?app_nil_r. Qed.

Lemma push_room w d :
  (length (pending w) < SEND_WINDOW_CAPACITY)%nat ->
  (length (pending (SendWindow_push w d)) < SEND_WINDOW_CAPACITY)%nat.
Proof.
  unfold SendWindow_push, SEND_WINDOW_CAPACITY. intros. case_match eqn:E; simpl; [lia|].
  apply Nat.eqb_neq in E. simpl in *. rewrite length_app in *. simpl in *. lia.
Qed.

Section Send.
  Context `{RecordCodec} `{Authorizer} `{ClientDisplay} (env : SendEnv).
  Context (eff : Principal) (host : string) (acks : Acks).

Definition allowed (rec : GatewayRecord) : bool := authorize eff host TopicResource (topic rec) Write.

Definition denied_result (rec : GatewayRecord) : RecordResult :=
  error_result (Unauthorized ("Write Topic:" +:+ topic rec)).

Definition keyed_result (i : nat) (rec : GatewayRecord) : result GatewayError RecordOutcome :=
  produce_with_acks (env_core env i) (env_effects env i) rec eff acks.

(** [enqueue_plain_with_acks], then the delivery. *)
Definition plain_result (i : nat) (rec : GatewayRecord) : result GatewayError RecordOutcome :=
  prec ← enqueue_plain_with_acks rec;
  delivery ← map_err Producer (env_enqueue env i acks prec);
  meta ← map_err Producer delivery;
  Ok (sent meta).

(** The producer saw the record. *)
Definition reached_producer (i : nat) (rec : GatewayRecord) : bool :=
  match enqueue_plain_with_acks rec with
  | Ok prec => is_ok (env_enqueue env i acks prec)
  | Err _ => false
  end.

(** [SendWindow::push], with the trace of its drain. *)
Definition pushed (w : SendWindow) (d : RecordResult) : SendWindow * list effect :=
  (SendWindow_push w d, if (length (pending w ++ [d]) =? SEND_WINDOW_CAPACITY)%nat then [Drained] else []).

(** One iteration: the window and the trace. *)
Definition send_one (i : nat) (st : SendWindow * list effect) (r : PbRecord) : SendWindow * list effect :=
  let '(w, trace) := st in
  let rec := to_gateway_record r in
  if negb (allowed rec) then
    let '(w, t) := pushed w (denied_result rec) in (w, trace ++ t)
  else
    match idempotency_key rec with
    | Some _ =>
        let w := SendWindow_drain w in
        ({| pending := pending w; results := results w ++ [send_result (keyed_result i rec)] |},
         trace ++ [Drained; Keyed i])
    | None =>
        let '(w, t) := pushed w (send_result (plain_result i rec)) in
        (w, trace ++ (if reached_producer i rec then [Enqueued i] else []) ++ t)
    end.

Fixpoint send_loop (i : nat) (st : SendWindow * list effect) (rs : list PbRecord) : SendWindow * list effect :=
  match rs with
  | [] => st
  | r :: rs => send_loop (S i) (send_one i st r) rs
  end.

(** ** The loop's invariant *)

(** What record [i] is answered, whatever the rest of the batch is. *)
Definition record_result (i : nat) (r : PbRecord) : RecordResult :=
  let rec := to_gateway_record r in
  if negb (allowed rec) then denied_result rec
  else send_result (match idempotency_key rec with Some _ => keyed_result i rec | None => plain_result i rec end).

(** Whether record [i] has an effect outside the gateway. *)
Definition acts (i : nat) (r : PbRecord) : bool :=
  let rec := to_gateway_record r in
  allowed rec && match idempotency_key rec with Some _ => true | None => reached_producer i rec end.

Definition acting (records : list PbRecord) : list nat :=
  omap id (imap (fun i r => if acts i r then Some i else None) records).

Record send_inv (handled : list PbRecord) (st : SendWindow * list effect) : Prop := {
  inv_results : results st.1 ++ pending st.1 = imap record_result handled;
  inv_room : (length (pending st.1) < SEND_WINDOW_CAPACITY)%nat;
  inv_outstanding : (outstanding st.2 <= length (pending st.1))%nat;
  inv_windowed : windowed st.2;
  inv_order : omap effect_index st.2 = acting handled;
}.

Lemma acting_snoc rs r :
  acting (rs ++ [r]) = acting rs ++ (if acts (length rs) r then [length rs] else []).
Proof.
  unfold acting. rewrite imap_app, omap_app. simpl. rewrite Nat.add_0_r. by destruct (acts _ _).
Qed.

Lemma record_result_snoc rs r : imap record_result (rs ++ [r]) = imap record_result rs ++ [record_result (length rs) r].
Proof. rewrite imap_app. simpl. by rewrite Nat.add_0_r. Qed.

(** A push after at most one enqueue keeps the trace part of the invariant. *)
Lemma pushed_trace w d tr w' t :
  pushed w d = (w', t) -> (length (pending w) < SEND_WINDOW_CAPACITY)%nat ->
  (outstanding tr <= S (length (pending w)))%nat -> windowed tr ->
  (outstanding (tr ++ t) <= length (pending w'))%nat /\ windowed (tr ++ t) /\
  omap effect_index (tr ++ t) = omap effect_index tr.
Proof.
  unfold pushed, SendWindow_push. simpl. intros [= <- <-] Hroom Hout Hw. rewrite omap_app.
  case_match eqn:E; simpl; rewrite !app_nil_r.
  - rewrite outstanding_snoc. split_and!; [done| |done].
    apply windowed_snoc; [done|lia|discriminate].
  - rewrite length_app. simpl. split_and!; [lia|done..].
Qed.

Lemma enqueued_trace tr i (b : bool) n :
  (outstanding tr <= n)%nat -> (n < SEND_WINDOW_CAPACITY)%nat -> windowed tr ->
  (outstanding (tr ++ if b then [Enqueued i] else []) <= S n)%nat /\
  windowed (tr ++ if b then [Enqueued i] else []) /\
  omap effect_index (tr ++ if b then [Enqueued i] else []) = omap effect_index tr ++ if b then [i] else [].
Proof.
  intros Hout Hn Hw. rewrite omap_app. destruct b; simpl; rewrite ?app_nil_r, ?outstanding_snoc;
    split_and!; try lia; try done. apply windowed_snoc; [done|lia|discriminate].
Qed.

(** The keyed branch: everything is awaited, then the record is produced. *)
Lemma keyed_trace tr i :
  (outstanding tr <= SEND_WINDOW_CAPACITY)%nat -> windowed tr ->
  outstanding (tr ++ [Drained; Keyed i]) = 0%nat /\ windowed (tr ++ [Drained; Keyed i]) /\
  omap effect_index (tr ++ [Drained; Keyed i]) = omap effect_index tr ++ [i].
Proof.
  intros Hout Hw. rewrite omap_app. change (tr ++ [Drained; Keyed i]) with (tr ++ [Drained] ++ [Keyed i]).
  rewrite app_assoc, !outstanding_snoc. split_and!; [done| |done].
  apply windowed_snoc; [apply windowed_snoc; [done|lia|discriminate]|..]; rewrite outstanding_snoc; [lia|done].
Qed.

Lemma send_one_inv handled st r :
  send_inv handled st -> send_inv (handled ++ [r]) (send_one (length handled) st r).
Proof.
  destruct st as [w tr]. intros [Hres Hroom Hout Hwin Hord]. simpl in *. unfold send_one.
  set (i := length handled). set (rec := to_gateway_record r).
  destruct (allowed rec) eqn:Ha; simpl; [destruct (idempotency_key rec) as [k|] eqn:Hk|].
  - destruct (keyed_trace tr i) as (H1' & H2' & H3'); [lia|done|].
    constructor; simpl; [|unfold SEND_WINDOW_CAPACITY; lia|lia|done|].
    + rewrite app_nil_r, record_result_snoc, Hres. unfold record_result. fold rec. by rewrite Ha, Hk.
    + rewrite H3', Hord, acting_snoc. unfold acts. fold rec. by rewrite Ha, Hk.
  - destruct (enqueued_trace tr i (reached_producer i rec) _ Hout Hroom Hwin) as (H1' & H2' & H3').
    destruct (pushed_trace w (send_result (plain_result i rec)) _ _ _ eq_refl Hroom H1' H2') as (H4' & H5' & H6').
    rewrite <- !app_assoc in *. constructor; simpl; [|by apply push_room|done|done|].
    + rewrite push_results, record_result_snoc, Hres. unfold record_result. fold rec. by rewrite Ha, Hk.
    + rewrite H6', H3', Hord, acting_snoc. unfold acts. fold rec. by rewrite Ha, Hk.
  - assert (outstanding tr <= S (length (pending w)))%nat as Hout' by lia.
    destruct (pushed_trace w (denied_result rec) _ _ _ eq_refl Hroom Hout' Hwin) as (H4' & H5' & H6').
    constructor; simpl; [|by apply push_room|done|done|].
    + rewrite push_results, record_result_snoc, Hres. unfold record_result. fold rec. by rewrite Ha.
    + rewrite H6', Hord, acting_snoc. unfold acts. fold rec. by rewrite Ha, app_nil_r.
Qed.

Lemma send_loop_inv handled st rs :
  send_inv handled st -> send_inv (handled ++ rs) (send_loop (length handled) st rs).
Proof.
  revert handled st. induction rs as [|r rs IH]; intros handled st Hst; simpl; [by rewrite app_nil_r|].
  apply (send_one_inv _ _ r) in Hst. apply IH in Hst. rewrite <- app_assoc, length_app in Hst. simpl in Hst.
  by rewrite Nat.add_1_r in Hst.
Qed.

Lemma send_inv_start : send_inv [] (SendWindow_new, []).
Proof. constructor; simpl; unfold SEND_WINDOW_CAPACITY; [done|lia|done|apply windowed_nil|done]. Qed.
End Send.

(** [send]: the results and the trace. *)
Definition send `{RecordCodec} `{Authorizer} `{ClientDisplay} (env : SendEnv) (identity : option Principal)
    (peer : option string) (acks : Z) (records : list PbRecord)
    : result ConnectError (list RecordResult * list effect) :=
  match producer_acks_from_pb acks with
  | None => Err {| connect_code := InvalidArgument;
                   connect_message := "unknown acknowledgement mode " +:+ pretty acks |}
  | Some a =>
      let '(w, trace) := send_loop env (default anonymous_principal identity) (default unknown_host peer) a 0
                           (SendWindow_new, []) records in
      Ok (results (SendWindow_drain w), trace ++ [Drained])
  end.

(** ** Properties *)

Section Theorems.
  Context `{RecordCodec} `{Authorizer} `{ClientDisplay} (env : SendEnv).
  Context (identity : option Principal) (peer : option string).

(** The caller as the handler sees it. *)
Definition effective : Principal := default anonymous_principal identity.
Definition effective_host : string := default unknown_host peer.

Lemma send_unfold acks a records :
  producer_acks_from_pb acks = Some a ->
  exists st, send_inv env effective effective_host a records st /\
    send env identity peer acks records = Ok (results (SendWindow_drain st.1), st.2 ++ [Drained]).
Proof.
  intros Ha. exists (send_loop env effective effective_host a 0 (SendWindow_new, []) records). split.
  - apply (send_loop_inv env effective effective_host a [] _ records), send_inv_start.
  - unfold send. rewrite Ha. by destruct (send_loop _ _ _ _ _ _ _).
Qed.

(** [Send] answers record by record, in input order: the [i]th result is
    the outcome of the [i]th record alone, and each record has exactly one.  A
    record the ACLs deny is answered [PERMISSION_DENIED] without failing the
    batch. *)
Theorem send_answers_in_order acks a records :
  producer_acks_from_pb acks = Some a ->
  exists trace, send env identity peer acks records
    = Ok (imap (record_result env effective effective_host a) records, trace).
Proof.
  intros Ha. destruct (send_unfold acks a records Ha) as (st & Hinv & ->).
  exists (st.2 ++ [Drained]). simpl. by rewrite (inv_results _ _ _ _ _ _ Hinv).
Qed.

(** C21.  The window of [Send].  Never more than 64 records are with the producer
    unawaited; a keyed record is produced only when every earlier record has
    been awaited; nothing is pending at the answer; and exactly the allowed
    records that reach a producer act on the outside, in input order. *)
Theorem send_window acks records results trace :
  send env identity peer acks records = Ok (results, trace) ->
  windowed trace /\ outstanding trace = 0%nat /\
  exists a, producer_acks_from_pb acks = Some a /\
    omap effect_index trace = acting env effective effective_host a records.
Proof.
  intros Hs. destruct (producer_acks_from_pb acks) as [a|] eqn:Ha; [|unfold send in Hs; by rewrite Ha in Hs].
  destruct (send_unfold acks a records Ha) as (st & [_ Hroom Hout Hwin Hord] & Heq).
  rewrite Hs in Heq. injection Heq as -> ->. split_and!.
  - apply windowed_snoc; [done|lia|discriminate].
  - by rewrite outstanding_snoc.
  - exists a. split; [done|]. by rewrite omap_app, app_nil_r.
Qed.
End Theorems.

(** A registry failure is retriable for the caller of the replica that ran
    the codec and permanent for the caller of a replica that forwarded to it. *)
Theorem forward_loses_registry_retry `{RecordCodec} `{Authorizer} `{ClientDisplay} c eff tls peer addr rec p m :
  (tls = true -> is_Some peer) -> authorize p unknown_host TopicResource (topic rec) Write = true ->
  body_structured rec = None -> encode (topic rec) (Raw (value rec)) = Err (Registry m) ->
  rr_error (send_result (produce_local c eff rec))
    = Some {| ei_code := 14; ei_message := GatewayError_to_string (Codec (Registry m)); ei_retriable := true |} /\
  (ei_retriable <$> rr_error (send_result (forward (to_owner c eff tls peer) addr rec p))) = Some false.
Proof.
  intros Htls Hauth Hraw Henc.
  assert (produce_local c eff rec = Err (Codec (Registry m))) as Hl.
  { unfold produce_local, produce_local_with_acks, encode_body. by rewrite Hraw, Henc. }
  rewrite Hl. split; [done|]. unfold forward, to_owner, forward_handler.
  rewrite trusted_peer by done.
  cbn [fr_principal from_record fr_topic]. rewrite principal_roundtrip, Hauth, record_roundtrip by done.
  by rewrite Hl.
Qed.

(** ** A batch *)

Definition pb_record (t : string) (key : option string) : PbRecord :=
  {| pb_topic := t; pb_key := None; pb_body := Some (BodyRaw (as_bytes "v")); pb_schema := None; pb_headers := [];
     pb_partition := None; pb_timestamp_ms := None; pb_idempotency_key := key |}.

(** Three plain records around a keyed one; topic [secret] is denied. *)
Definition sample_batch : list PbRecord :=
  [pb_record "a" None; pb_record "secret" None; pb_record "b" (Some "k"); pb_record "c" None].

Definition no_secret : Authorizer := {| authorize := fun _ _ _ r _ => negb (bool_decide (r = "secret")) |}.

Definition sample_env : SendEnv :=
  {| env_core := fun _ => {| pc_dedup := Some empty_store; forwarding := None |};
     env_effects := fun _ => echo_effects;
     env_enqueue := fun i _ _ => Ok (Ok {| md_partition := 0; md_offset := Z.of_nat i |}) |}.

Definition down_codec : RecordCodec :=
  {| encode := fun _ _ => Err (Registry "down"); decode := fun _ _ => Err (Registry "down") |}.

Lemma send_answers_in_order_witness :
  exists trace, send (H:=RawCodec) (H0:=no_secret) (H1:=plain_display) sample_env None None 0 sample_batch
    = Ok (imap (record_result (H:=RawCodec) (H0:=no_secret) (H1:=plain_display) sample_env anonymous_principal unknown_host AcksAll)
            sample_batch, trace).
Proof.
  exact (send_answers_in_order (H:=RawCodec) (H0:=no_secret) (H1:=plain_display) sample_env None None 0 AcksAll
    sample_batch eq_refl).
Defined.

Lemma send_window_witness :
  windowed [Enqueued 0; Drained; Keyed 2; Enqueued 3; Drained].
Proof.
  destruct (send (H:=RawCodec) (H0:=no_secret) (H1:=plain_display) sample_env None None 0 sample_batch)
    as [[rs tr]|e] eqn:E; [|vm_compute in E; discriminate].
  pose proof (send_window (H:=RawCodec) (H0:=no_secret) (H1:=plain_display) sample_env None None 0 sample_batch rs tr E)
    as [Hw _].
  vm_compute in E. injection E as _ <-. exact Hw.
Defined.

Lemma forward_loses_registry_retry_witness :
  (ei_retriable <$> rr_error (send_result (H:=plain_display)
     (forward (to_owner (H:=down_codec) (H0:=allow_all) (H1:=plain_display) owner_core echo_effects false None) "a:1"
        sample_record alice))) = Some false.
Proof.
  exact (proj2 (forward_loses_registry_retry (H:=down_codec) (H0:=allow_all) (H1:=plain_display) owner_core echo_effects
    false None "a:1" sample_record alice "down" ltac:(discriminate) eq_refl eq_refl eq_refl)).
Defined.
