(* ===== verification/Streaming.v ===== *)
(** * The streaming RPCs (streaming.rs)

    Filtering of a polled batch, [SendStream], and the loop of [Subscribe] over
    the session of [Consume].  The Arrow library and DataFusion's evaluation of
    a compiled filter are the classes [Arrow] and [ArrowFilter]. *)

From stdpp Require Import pretty.
From S2P Require Import Prelude.
From S2P Require Import RustStr.
From S2P Require Import RustNum.
From S2P Require Import Types.
From S2P Require Import Filter.
From S2P Require Import Wire.
From S2P Require Import Consume.
From S2P Require Import Produce.
From S2P Require Import Handlers.

(** ** Arrow *)

Record ArrowField := {
  af_name : string;
  af_type : string;                        (** its [Debug] text *)
  af_nullable : bool;
  af_metadata : list (string * string);
}.

Class Arrow := {
  RecordBatch : Type;
  num_rows : RecordBatch -> nat;
  schema_fields : RecordBatch -> list ArrowField;
  (** [StreamReader::try_new], then its batches. *)
  stream_reader : Bytes -> option (list (result string RecordBatch));
  concat_batches : RecordBatch -> list RecordBatch -> result string RecordBatch;
  json_rows_to_arrow_filter_batch : list Json -> result string RecordBatch;
}.

(** [evaluate_arrow_batch_for_schema_id] of a compiled filter; a mask value of
    [None] is null. *)
Class ArrowFilter `{Arrow} := {
  evaluate_arrow_batch : CompiledFilter -> option Z -> RecordBatch -> result FilterCompileError (list (option bool));
}.

Definition datafusion_error (e : string) : FilterCompileError := DataFusion e.

(** [arrow_ipc_stream_reader]: the length of the schema message is checked
    before the library sees the payload. *)
Definition continuation_marker : Bytes := replicate 4 (of_u8 255).
Definition arrow_ipc_stream_reader `{Arrow} (v : Bytes) : option (list (result string RecordBatch)) :=
  let framed := if bool_decide (take 4 v = continuation_marker) then drop 4 v else v in
  match framed with
  | b0 :: b1 :: b2 :: b3 :: message =>
      let n := i32_from_be b3 b2 b1 b0 in
      if (n <=? 0) || (Z.of_nat (length message) <? n) then None else stream_reader v
  | _ => None
  end.

(** ** Decisions *)

Inductive FilteredRecordDecision := DeliverRecord (r : DecodedConsumerRecord) | FilterRecord (r : DecodedConsumerRecord).
Definition decided (d : FilteredRecordDecision) : DecodedConsumerRecord :=
  match d with DeliverRecord r | FilterRecord r => r end.
Definition decide_record (deliver : bool) (r : DecodedConsumerRecord) : FilteredRecordDecision :=
  if deliver then DeliverRecord r else FilterRecord r.

Definition structured_json_or_unframed_value `{JsonLib} (r : DecodedConsumerRecord) : option Bytes :=
  match dr_json r with
  | Some j => Some j
  | None => match json_parse (dr_value r) with Some _ => Some (dr_value r) | None => None end
  end.

(** Without the feature [arrow]. *)
Definition filter_polled_records_with_json_fallback `{JsonLib} (f : CompiledFilter) (rs : list DecodedConsumerRecord)
    : list FilteredRecordDecision :=
  map (fun r => decide_record
    (is_unfiltered f || should_deliver (evaluate_json_decoded_record f (structured_json_or_unframed_value r))) r) rs.

Section ArrowGroups.
  Context `{JsonLib} `{ArrowFilter} (f : CompiledFilter).

Record ArrowIpcRecord := {
  ar_record : DecodedConsumerRecord;
  ar_batches : list RecordBatch;
  ar_row_count : nat;
}.
Record ArrowIpcRecordGroup := { ag_schema_key : option string; ag_records : list ArrowIpcRecord }.
Record SchemaJsonRecordGroup := { jg_schema_id : option Z; jg_records : list DecodedConsumerRecord }.
Definition no_arrow : ArrowIpcRecordGroup := {| ag_schema_key := None; ag_records := [] |}.
Definition no_json : SchemaJsonRecordGroup := {| jg_schema_id := None; jg_records := [] |}.

Definition ag_accepts (g : ArrowIpcRecordGroup) (k : string) : bool :=
  match ag_schema_key g with Some k' => bool_decide (k' = k) | None => true end.
Definition ag_push (g : ArrowIpcRecordGroup) (k : string) (r : ArrowIpcRecord) : ArrowIpcRecordGroup :=
  {| ag_schema_key := Some (default k (ag_schema_key g)); ag_records := ag_records g ++ [r] |}.
Definition jg_accepts (g : SchemaJsonRecordGroup) (id : Z) : bool :=
  match jg_schema_id g with Some id' => id' =? id | None => true end.
Definition jg_push (g : SchemaJsonRecordGroup) (id : Z) (r : DecodedConsumerRecord) : SchemaJsonRecordGroup :=
  {| jg_schema_id := Some (default id (jg_schema_id g)); jg_records := jg_records g ++ [r] |}.

Definition decode_arrow_ipc_record (r : DecodedConsumerRecord)
    : result FilterCompileError (option (list RecordBatch * nat)) :=
  match arrow_ipc_stream_reader (dr_value r) with
  | None => Ok None
  | Some items =>
      batches ← try_map (map_err datafusion_error) items;
      Ok (Some (batches, list_sum (map num_rows batches)))
  end.

(** The fields of a schema as one text. *)
Fixpoint insert_sorted (x : string) (l : list string) : list string :=
  match l with
  | [] => [x]
  | y :: l => match bytes_cmp (as_bytes x) (as_bytes y) with Gt => y :: insert_sorted x l | _ => x :: y :: l end
  end.
Definition sort_strings (l : list string) : list string := foldr insert_sorted [] l.
Definition field_key (a : ArrowField) : string :=
  let metadata := sort_strings (map (fun kv => kv.1 +:+ "=" +:+ kv.2) (af_metadata a)) in
  af_name a +:+ ":" +:+ af_type a +:+ ":" +:+ (if af_nullable a then "true" else "false") +:+ ":" +:+ join "," metadata.
Definition arrow_schema_compatibility_key (fields : list ArrowField) : string := join "|" (map field_key fields).
Definition arrow_ipc_record_schema_key (r : ArrowIpcRecord) : string :=
  match ar_batches r with
  | [] => "empty-arrow-ipc-stream"
  | b :: _ => arrow_schema_compatibility_key (schema_fields b)
  end.

Definition mask_true (mask : list (option bool)) (row : nat) : bool :=
  bool_decide (mask !! row = Some (Some true)).
Definition count_true_mask_values (mask : list (option bool)) (start n : nat) : nat :=
  length (List.filter (mask_true mask) (seq start n)).

Fixpoint arrow_decisions (mask : list (option bool)) (row_offset : nat) (rs : list ArrowIpcRecord)
    : list FilteredRecordDecision :=
  match rs with
  | [] => []
  | r :: rs =>
      decide_record (0 <? count_true_mask_values mask row_offset (ar_row_count r))%nat (ar_record r)
      :: arrow_decisions mask (row_offset + ar_row_count r) rs
  end.

Definition filter_arrow_ipc_group (rs : list ArrowIpcRecord) : result FilterCompileError (list FilteredRecordDecision) :=
  match concat (map ar_batches rs) with
  | [] => Ok (map (fun r => FilterRecord (ar_record r)) rs)
  | first :: _ =>
      batch ← map_err datafusion_error (concat_batches first (concat (map ar_batches rs)));
      mask ← evaluate_arrow_batch f None batch;
      Ok (arrow_decisions mask 0 rs)
  end.

Definition schema_json_row (r : DecodedConsumerRecord) : result FilterCompileError Json :=
  match dr_json r with
  | None => Err (DataFusion "schema-registry row bridge requires decoded JSON rows")
  | Some j => ok_or (DataFusion ("schema-registry row bridge JSON decode failed: " +:+ json_error j)) (json_parse j)
  end.

Definition filter_schema_json_group (id : option Z) (rs : list DecodedConsumerRecord)
    : result FilterCompileError (list FilteredRecordDecision) :=
  match rs with
  | [] => Ok []
  | _ =>
      rows ← try_map schema_json_row rs;
      batch ← map_err datafusion_error (json_rows_to_arrow_filter_batch rows);
      mask ← evaluate_arrow_batch f id batch;
      if bool_decide (length mask <> length rs)
      then Err (DataFusion ("schema-registry row bridge produced " +:+ pretty (Z.of_nat (length mask)) +:+ " filter rows for "
                            +:+ pretty (Z.of_nat (length rs)) +:+ " records"))
      else Ok (imap (fun row r => decide_record (mask_true mask row) r) rs)
  end.

Definition schema_json_filter_schema_id (r : DecodedConsumerRecord) : option Z :=
  match dr_json r with Some _ => meta_id <$> dr_schema r | None => None end.

Definition filter_json_fallback_record (r : DecodedConsumerRecord) : FilteredRecordDecision :=
  decide_record (is_unfiltered f || matches_structured_json f (structured_json_or_unframed_value r)) r.

(** [drain_filtering_into] of the two groups. *)
Definition drain_arrow (g : ArrowIpcRecordGroup) (ds : list FilteredRecordDecision)
    : result FilterCompileError (list FilteredRecordDecision) :=
  new ← filter_arrow_ipc_group (ag_records g); Ok (ds ++ new).
Definition drain_json (g : SchemaJsonRecordGroup) (ds : list FilteredRecordDecision)
    : result FilterCompileError (list FilteredRecordDecision) :=
  new ← filter_schema_json_group (jg_schema_id g) (jg_records g); Ok (ds ++ new).

(** The loop, with the two groups and the decisions so far. *)
Fixpoint filter_loop (rs : list DecodedConsumerRecord) (ag : ArrowIpcRecordGroup) (jg : SchemaJsonRecordGroup)
    (ds : list FilteredRecordDecision) : result FilterCompileError (list FilteredRecordDecision) :=
  match rs with
  | [] => ds ← drain_arrow ag ds; drain_json jg ds
  | r :: rs =>
      arrow ← decode_arrow_ipc_record r;
      match arrow with
      | None =>
          ds ← drain_arrow ag ds;
          match schema_json_filter_schema_id r with
          | Some id =>
              if jg_accepts jg id then filter_loop rs no_arrow (jg_push jg id r) ds
              else ds ← drain_json jg ds; filter_loop rs no_arrow (jg_push no_json id r) ds
          | None => ds ← drain_json jg ds; filter_loop rs no_arrow no_json (ds ++ [filter_json_fallback_record r])
          end
      | Some (batches, rows) =>
          ds ← drain_json jg ds;
          let ar := {| ar_record := r; ar_batches := batches; ar_row_count := rows |} in
          let k := arrow_ipc_record_schema_key ar in
          if ag_accepts ag k then filter_loop rs (ag_push ag k ar) no_json ds
          else ds ← drain_arrow ag ds; filter_loop rs (ag_push no_arrow k ar) no_json ds
      end
  end.

Definition filter_polled_records (rs : list DecodedConsumerRecord) : result FilterCompileError (list FilteredRecordDecision) :=
  filter_loop rs no_arrow no_json [].

(** ** Every record is decided once, in order *)

Lemma arrow_decisions_records mask n rs : map decided (arrow_decisions mask n rs) = map ar_record rs.
Proof. revert n. induction rs as [|r rs IH]; intros n; simpl; [done|]. rewrite IH. unfold decide_record. by case_match. Qed.

Lemma imap_decided (g : nat -> bool) rs : map decided (imap (fun row r => decide_record (g row) r) rs) = rs.
Proof.
  revert g. induction rs as [|r rs IH]; intros g; simpl; [done|]. f_equal; [unfold decide_record; by destruct (g 0%nat)|].
  exact (IH (fun n => g (S n))).
Qed.

Lemma filter_arrow_records rs ds : filter_arrow_ipc_group rs = Ok ds -> map decided ds = map ar_record rs.
Proof.
  unfold filter_arrow_ipc_group. case_match; [intros [= <-]; by rewrite List.map_map|].
  intros (batch & _ & (mask & _ & [= <-])%bind_Ok)%bind_Ok. apply arrow_decisions_records.
Qed.

Lemma filter_json_records id rs ds : filter_schema_json_group id rs = Ok ds -> map decided ds = rs.
Proof.
  unfold filter_schema_json_group. destruct rs as [|r0 rs0]; [by intros [= <-]|]. remember (r0 :: rs0) as rs eqn:E.
  intros (rows & _ & (batch & _ & (mask & _ & Hm)%bind_Ok)%bind_Ok)%bind_Ok. case_bool_decide; [done|].
  injection Hm as <-. apply imap_decided.
Qed.

Lemma drain_arrow_records g ds ds' :
  drain_arrow g ds = Ok ds' -> map decided ds' = map decided ds ++ map ar_record (ag_records g).
Proof. intros (new & Hn & [= <-])%bind_Ok. by rewrite List.map_app, (filter_arrow_records _ _ Hn). Qed.
Lemma drain_json_records g ds ds' :
  drain_json g ds = Ok ds' -> map decided ds' = map decided ds ++ jg_records g.
Proof. intros (new & Hn & [= <-])%bind_Ok. by rewrite List.map_app, (filter_json_records _ _ _ Hn). Qed.

(** At most one group is open at a time. *)
Lemma filter_loop_records rs ag jg ds out :
  ag_records ag = [] \/ jg_records jg = [] -> filter_loop rs ag jg ds = Ok out ->
  map decided out = map decided ds ++ map ar_record (ag_records ag) ++ jg_records jg ++ rs.
Proof.
  revert ag jg ds. induction rs as [|r rs IH]; intros ag jg ds Hone; cbn [filter_loop].
  - intros (ds1 & Hd1%drain_arrow_records & Hd2%drain_json_records)%bind_Ok. by rewrite Hd2, Hd1, app_nil_r, <- !app_assoc.
  - intros (arrow & _ & Hloop)%bind_Ok. destruct arrow as [[batches rows]|].
    + apply bind_Ok in Hloop as (ds1 & Hd1%drain_json_records & Hloop).
      assert (Hmid : map ar_record (ag_records ag) ++ jg_records jg = jg_records jg ++ map ar_record (ag_records ag))
        by (destruct Hone as [-> | ->]; simpl; by rewrite ?app_nil_r).
      case_match; [|apply bind_Ok in Hloop as (ds2 & Hd2%drain_arrow_records & Hloop)];
        apply IH in Hloop; try (by right); rewrite Hloop, ?Hd2, Hd1; simpl; rewrite ?List.map_app; simpl;
        rewrite <- ?app_assoc; simpl; by rewrite (app_assoc (map ar_record _)), Hmid, <- !app_assoc.
    + apply bind_Ok in Hloop as (ds1 & Hd1%drain_arrow_records & Hloop).
      case_match; [case_match|]; [|apply bind_Ok in Hloop as (ds2 & Hd2%drain_json_records & Hloop)..];
        apply IH in Hloop; try (by left); rewrite Hloop, ?List.map_app, ?Hd2, Hd1; simpl; rewrite <- ?app_assoc; simpl; [done..|].
      unfold filter_json_fallback_record, decide_record. by case_match.
Qed.

(** Filtering a polled batch neither loses, repeats nor reorders a record:
    whatever mixture of Arrow streams, registry rows and other payloads it
    holds, the decisions are one per record, in the order of the batch. *)
Theorem filter_keeps_batch rs ds : filter_polled_records rs = Ok ds -> map decided ds = rs.
Proof. intros Hf. by apply filter_loop_records in Hf; [|left]. Qed.
End ArrowGroups.

(** ** SendStream *)

Section SendStream.
  Context `{RecordCodec} `{Authorizer} `{ClientDisplay} (eff : Principal) (host : string).

(** One record of a request: no window, keyed and plain records alike. *)
Definition stream_result (env : SendEnv) (acks : Acks) (i : nat) (r : PbRecord) : RecordResult :=
  let rec := to_gateway_record r in
  if negb (allowed eff host rec) then denied_result rec else send_result (keyed_result env eff acks i rec).

(** The acknowledgements yielded for the inbound items; [envs n] is what the
    collaborators answer during the [n]th request. *)
Fixpoint send_stream_inner (envs : nat -> SendEnv) (n : nat) (items : list (result ConnectError (Z * list PbRecord)))
    : list (result ConnectError (list RecordResult)) :=
  match items with
  | [] => []
  | Err e :: _ => [Err e]
  | Ok (acks, records) :: items =>
      match producer_acks_from_pb acks with
      | None => [Err {| connect_code := InvalidArgument;
                        connect_message := "unknown acknowledgement mode " +:+ pretty acks |}]
      | Some a => Ok (imap (stream_result (envs n) a) records) :: send_stream_inner envs (S n) items
      end
  end.
End SendStream.

(** ** Subscribe: acknowledgement bookkeeping *)

Abbreviation DeliveredOffsets := (gmap TopicPartition (gset Z)) (only parsing).

Definition validate_ack (delivered : DeliveredOffsets) (acknowledged : gmap TopicPartition Z) (tp : TopicPartition) (offset : Z)
    : result string bool :=
  if match acknowledged !! tp with Some previous => offset <=? previous | None => false end then Ok false
  else if (offset <? 0) || negb (bool_decide (offset ∈ default ∅ (delivered !! tp)))
  then Err ("Ack targets a record that was not delivered: " +:+ tp.1 +:+ "-" +:+ pretty tp.2 +:+ "@" +:+ pretty offset)
  else Ok true.

(** The [while let] loop of [mark_acknowledged]. *)
Fixpoint pop_acknowledged (fuel : nat) (offsets : gset Z) (frontier : Z) : gset Z :=
  match fuel with
  | O => offsets
  | S fuel =>
      match set_first offsets with
      | None => offsets
      | Some o => if frontier <? o then offsets else pop_acknowledged fuel (offsets ∖ {[o]}) frontier
      end
  end.

Definition mark_acknowledged (delivered : DeliveredOffsets) (acknowledged : gmap TopicPartition Z) (tp : TopicPartition)
    (frontier : Z) : DeliveredOffsets * gmap TopicPartition Z :=
  if match acknowledged !! tp with Some previous => frontier <=? previous | None => false end
  then (delivered, acknowledged)
  else
    (match delivered !! tp with
     | None => delivered
     | Some offsets =>
         let offsets := pop_acknowledged (S (size offsets)) offsets frontier in
         if bool_decide (offsets = ∅) then delete tp delivered else <[tp := offsets]> delivered
     end, <[tp := frontier]> acknowledged).

(** ** Subscribe: one turn of the loop *)

Record Inbound := {
  in_topic : string; in_partition : Z; in_offset : Z; in_key : option Bytes; in_value : Bytes;
  in_headers : list (string * option Bytes); in_timestamp_ms : Z; in_structured : option Bytes;
  in_schema : option PbSchemaSelector;
}.
Definition schema_meta_to_pb (m : SchemaMeta) : PbSchemaSelector :=
  {| pbs_subject := meta_subject m; pbs_id := meta_id m;
     pbs_format := match meta_format m with Types.Avro => 1 | Types.Json => 2 | Types.Protobuf => 3 end |}.
Definition inbound_from_decoded_record (r : DecodedConsumerRecord) : Inbound :=
  {| in_topic := dr_topic r; in_partition := dr_partition r; in_offset := dr_offset r; in_key := dr_key r;
     in_value := raw_value r; in_headers := dr_headers r; in_timestamp_ms := dr_timestamp r;
     in_structured := dr_json r; in_schema := schema_meta_to_pb <$> dr_schema r |}.

Definition coord (r : DecodedConsumerRecord) : TopicPartition * Z := ((dr_topic r, dr_partition r), dr_offset r).

Inductive SubscribeFrame :=
| Start (group_id : string) (topics : list string) (auto_commit : bool) (filter : Bytes)
| Ack (tp : TopicPartition) (offset : Z)
| EmptyFrame.

(** Which arm of the [select!] resolved, and with what.  A control frame drops
    the future of [poll], whose decoding may be waiting for the registry: [taken]
    are the records the client had handed to it by then.  The position is past
    them, and nothing of the session knows of them. *)
Inductive Selected :=
| FrameArrived (taken : list ConsumerRecord) (f : option (result ConnectError SubscribeFrame))
| BatchPolled (b : result GatewayError (list DecodedConsumerRecord)).

Record SubState := {
  ss_session : ConsumeSession;
  ss_delivered : DeliveredOffsets;
  ss_acknowledged : gmap TopicPartition Z;
}.

(** What the outside does during one turn: the selected arm, the assignment and
    the answer at a commit of acknowledged offsets, the answer at a commit of
    the position. *)
Record TurnEnv := {
  te_selected : Selected;
  te_owned : gset TopicPartition;
  te_broker : gmap TopicPartition Z -> result ConsumerError unit;
  te_commit_sync : result ConsumerError unit;
}.

(** The variables set inside the [select!]. *)
Record Turn := {
  t_commit : bool;
  t_client_ack : option (TopicPartition * Z);
  t_deliveries : list (TopicPartition * Z);
  t_filtered_acks : list (TopicPartition * Z);
  t_frame_error : option ConnectError;
  t_stop : bool;
  t_to_emit : list Inbound;
  t_yielded : list (result ConnectError Inbound);
}.
Definition quiet_turn : Turn :=
  {| t_commit := false; t_client_ack := None; t_deliveries := []; t_filtered_acks := []; t_frame_error := None;
     t_stop := false; t_to_emit := []; t_yielded := [] |}.
Definition stop_turn (ys : list (result ConnectError Inbound)) : Turn :=
  {| t_commit := false; t_client_ack := None; t_deliveries := []; t_filtered_acks := []; t_frame_error := None;
     t_stop := true; t_to_emit := []; t_yielded := ys |}.
Definition failed_turn (e : ConnectError) : Turn :=
  {| t_commit := false; t_client_ack := None; t_deliveries := []; t_filtered_acks := []; t_frame_error := Some e;
     t_stop := true; t_to_emit := []; t_yielded := [] |}.

(** [Display] of a filter error, which prints its arguments with [Debug]. *)
Class FilterDisplay := { filter_error_to_string : FilterCompileError -> string }.

Definition connect (c : ConnectCode) (m : string) : ConnectError := {| connect_code := c; connect_message := m |}.

Section Subscribe.
  Context `{JsonLib} `{ArrowFilter} `{ClientDisplay} `{FilterDisplay}.
  Context (f : CompiledFilter) (auto_commit : bool).

(** The arm of a control frame. *)
Definition on_frame (st : SubState) (frame : option (result ConnectError SubscribeFrame)) : Turn :=
  match frame with
  | Some (Ok (Ack tp offset)) =>
      if auto_commit then quiet_turn
      else match validate_ack (ss_delivered st) (ss_acknowledged st) tp offset with
           | Ok true =>
               {| t_commit := false; t_client_ack := Some (tp, offset); t_deliveries := []; t_filtered_acks := [];
                  t_frame_error := None; t_stop := false; t_to_emit := []; t_yielded := [] |}
           | Ok false => quiet_turn
           | Err m => failed_turn (connect InvalidArgument m)
           end
  | Some (Ok _) => quiet_turn
  | Some (Err e) => stop_turn [Err e]
  | None => stop_turn []
  end.

(** The loop over the decisions: the offsets delivered to the client. *)
Definition note_delivered (m : DeliveredOffsets) (d : FilteredRecordDecision) : DeliveredOffsets :=
  match d with
  | DeliverRecord r =>
      let tp := (dr_topic r, dr_partition r) in <[tp := {[dr_offset r]} ∪ default ∅ (m !! tp)]> m
  | FilterRecord _ => m
  end.
Definition emitted (d : FilteredRecordDecision) : option Inbound :=
  match d with DeliverRecord r => Some (inbound_from_decoded_record r) | FilterRecord _ => None end.
Definition dropped (d : FilteredRecordDecision) : option (TopicPartition * Z) :=
  match d with DeliverRecord _ => None | FilterRecord r => Some (coord r) end.

(** The arm of a polled batch. *)
Definition on_batch (st : SubState) (b : result GatewayError (list DecodedConsumerRecord)) : Turn * DeliveredOffsets :=
  match b with
  | Err e => (stop_turn [Err (connect Internal (GatewayError_to_string e))], ss_delivered st)
  | Ok rs =>
      let '(ds, error) := match filter_polled_records f rs with
                          | Ok ds => (ds, None)
                          | Err e => ([], Some (connect InvalidArgument (filter_error_to_string e)))
                          end in
      ({| t_commit := auto_commit && negb (bool_decide (length rs = 0%nat));
          t_client_ack := None;
          t_deliveries := if auto_commit then [] else map (fun d => coord (decided d)) ds;
          t_filtered_acks := if auto_commit then [] else omap dropped ds;
          t_frame_error := error;
          t_stop := match error with Some _ => true | None => false end;
          t_to_emit := omap emitted ds;
          t_yielded := [] |},
       if auto_commit then ss_delivered st else foldl note_delivered (ss_delivered st) ds)
  end.

(** Registering the deliveries, until one is refused. *)
Fixpoint deliver_all (s : ConsumeSession) (ds : list (TopicPartition * Z)) : ConsumeSession * option GatewayError :=
  match ds with
  | [] => (s, None)
  | (tp, o) :: ds =>
      match ConsumeSession_record_delivery s tp o with
      | (s, Ok _) => deliver_all s ds
      | (s, Err e) => (s, Some e)
      end
  end.

(** The acknowledgements of a turn, until one is refused. *)
Fixpoint ack_all (st : SubState) (acks : list (TopicPartition * Z)) : SubState * option GatewayError :=
  match acks with
  | [] => (st, None)
  | (tp, o) :: acks =>
      match ConsumeSession_record_ack (ss_session st) tp o with
      | (s, Err e) => ({| ss_session := s; ss_delivered := ss_delivered st; ss_acknowledged := ss_acknowledged st |}, Some e)
      | (s, Ok _) =>
          let '(d, a) := match ack_frontier s tp with
                         | Some frontier => mark_acknowledged (ss_delivered st) (ss_acknowledged st) tp frontier
                         | None => (ss_delivered st, ss_acknowledged st)
                         end in
          ack_all {| ss_session := s; ss_delivered := d; ss_acknowledged := a |} acks
      end
  end.

(** [session.commit()]. *)
Definition commit_position (s : ConsumeSession) (answer : result ConsumerError unit) : result GatewayError unit :=
  if consumer_open s then map_err Consumer answer else Err (Other "consume session is closed").

Record TurnResult := {
  tr_state : SubState;
  tr_out : list (result ConnectError Inbound);
  (** The offsets sent to the broker, if any were. *)
  tr_request : option (gmap TopicPartition Z);
  tr_continue : bool;
}.
Definition ended (st : SubState) (out : list (result ConnectError Inbound)) : TurnResult :=
  {| tr_state := st; tr_out := out; tr_request := None; tr_continue := false |}.

(** The rest of the turn after the records are emitted. *)
Definition finish_turn (st : SubState) (t : Turn) (env : TurnEnv) (out : list (result ConnectError Inbound)) : TurnResult :=
  if auto_commit then
    match (if t_commit t then commit_position (ss_session st) (te_commit_sync env) else Ok ()) with
    | Ok _ => {| tr_state := st; tr_out := out; tr_request := None; tr_continue := negb (t_stop t) |}
    | Err e => ended st (out ++ [Err (connect Internal (GatewayError_to_string e))])
    end
  else
    let acks := t_filtered_acks t ++ option_list (t_client_ack t) in
    match ack_all st acks with
    | (st, Some e) => ended st (out ++ [Err (connect ResourceExhausted (GatewayError_to_string e))])
    | (st, None) =>
        if bool_decide (acks = []) then {| tr_state := st; tr_out := out; tr_request := None; tr_continue := negb (t_stop t) |}
        else
          let '(s, req, r) := commit_acked (ss_session st) (te_owned env) (te_broker env) in
          let st := {| ss_session := s; ss_delivered := ss_delivered st; ss_acknowledged := ss_acknowledged st |} in
          match r with
          | Ok _ => {| tr_state := st; tr_out := out; tr_request := req; tr_continue := negb (t_stop t) |}
          | Err e => {| tr_state := st; tr_out := out ++ [Err (connect Internal (GatewayError_to_string e))];
                        tr_request := req; tr_continue := false |}
          end
    end.

Definition sub_turn (st : SubState) (env : TurnEnv) : TurnResult :=
  let '(t, delivered) := match te_selected env with
                         | FrameArrived _ frame => (on_frame st frame, ss_delivered st)
                         | BatchPolled b => on_batch st b
                         end in
  let '(s, refused) := if auto_commit then (ss_session st, None) else deliver_all (ss_session st) (t_deliveries t) in
  let st := {| ss_session := s; ss_delivered := delivered; ss_acknowledged := ss_acknowledged st |} in
  let error := match refused with
               | Some e => Some (connect ResourceExhausted (GatewayError_to_string e))
               | None => t_frame_error t
               end in
  match error with
  | Some e => ended st (t_yielded t ++ [Err e])
  | None => finish_turn st t env (t_yielded t ++ map Ok (t_to_emit t))
  end.

(** The loop, over what happens in each turn. *)
Fixpoint sub_loop (st : SubState) (envs : list TurnEnv) : SubState * list (result ConnectError Inbound) :=
  match envs with
  | [] => (st, [])
  | env :: envs =>
      let r := sub_turn st env in
      if tr_continue r then let '(st, out) := sub_loop (tr_state r) envs in (st, tr_out r ++ out)
      else (tr_state r, tr_out r)
  end.
End Subscribe.

(** [subscribe_inner]: the first frame, authorization, the filter, the session,
    then the loop.  [built] is whether the consumer could be built. *)
Definition subscribe_inner `{JsonLib} `{ArrowFilter} `{ClientDisplay} `{FilterDisplay} `{Authorizer}
    (eff : Principal) (host : string) (first : option (result ConnectError SubscribeFrame))
    (built : result GatewayError unit) (envs : list TurnEnv) : list (result ConnectError Inbound) :=
  match first with
  | None => []
  | Some (Err e) => [Err e]
  | Some (Ok (Start group topics auto_commit sql)) =>
      if negb (authorize eff host GroupResource group Read)
      then [Err (connect PermissionDenied ("Read Group:" +:+ group))]
      else
        match find (fun t => negb (authorize eff host TopicResource t Read)) topics with
        | Some t => [Err (connect PermissionDenied ("Read Topic:" +:+ t))]
        | None =>
            match compile true sql with
            | Err e => [Err (connect InvalidArgument (filter_error_to_string e))]
            | Ok f =>
                match built with
                | Err e => [Err (connect Internal (GatewayError_to_string e))]
                | Ok _ => (sub_loop f auto_commit {| ss_session := session_new; ss_delivered := ∅; ss_acknowledged := ∅ |} envs).2
                end
            end
        end
  | Some (Ok _) => [Err (connect InvalidArgument "first Subscribe frame must be Start")]
  end.

(** ** Concrete instances *)

Module Sample.
(** The parser reads a text as the object whose only field it names. *)
#[export] Instance json : JsonLib :=
  {| json_parse := fun v => match v with [] => None | _ => Some (JObject [(v, JBool true)]) end;
     json_error := fun _ => "EOF while parsing a value" |}.
#[export] Instance arrow : Arrow :=
  {| RecordBatch := nat; num_rows := fun n => n; schema_fields := fun _ => []; stream_reader := fun _ => None;
     concat_batches := fun b _ => Ok b; json_rows_to_arrow_filter_batch := fun l => Ok (length l) |}.
#[export] Instance arrow_filter : ArrowFilter := {| evaluate_arrow_batch := fun _ _ n => Ok (replicate n (Some true)) |}.
#[export] Instance client_display : ClientDisplay :=
  {| producer_error_to_string := fun _ => "producer"; consumer_error_to_string := fun _ => "consumer" |}.
#[export] Instance filter_display : FilterDisplay := {| filter_error_to_string := fun _ => "filter" |}.

(** Keep the records whose value, standing for a JSON object, has a true [k]. *)
Definition keep_k : CompiledFilter :=
  {| cf_sql := list_ascii_of_string "k = true";
     cf_predicates := [{| field := list_ascii_of_string "k"; operator := Equal; expected := FLBool true |}] |}.
Definition no_filter : CompiledFilter := {| cf_sql := []; cf_predicates := [] |}.

Definition rec (p o : Z) (v : string) : DecodedConsumerRecord :=
  {| dr_topic := "t"; dr_partition := p; dr_offset := o; dr_timestamp := 0; dr_key := None;
     raw_value := list_ascii_of_string v; dr_value := list_ascii_of_string v; dr_headers := [];
     dr_schema := None; dr_json := None |}.

Lemma filter_keeps_batch_witness :
  filter_polled_records keep_k [rec 0 5 "k"; rec 0 6 "x"; rec 0 7 "k"]
  = Ok [DeliverRecord (rec 0 5 "k"); FilterRecord (rec 0 6 "x"); DeliverRecord (rec 0 7 "k")]
  /\ map decided [DeliverRecord (rec 0 5 "k"); FilterRecord (rec 0 6 "x"); DeliverRecord (rec 0 7 "k")]
     = [rec 0 5 "k"; rec 0 6 "x"; rec 0 7 "k"].
Proof. split; [vm_compute; reflexivity|]. apply (filter_keeps_batch keep_k). vm_compute. reflexivity. Defined.
End Sample.
