(* ===== verification/Subscribe.v ===== *)
(** * What a subscription commits

    The loop of [Subscribe] in explicit mode over the session of [Consume]: what
    it commits covers only records the client acknowledged, the filter dropped or
    a cancelled poll lost, as long as the partition stays assigned; and what
    happens when it does not. *)

From stdpp Require Import sorting.
From S2P Require Import Prelude.
From S2P Require Import Types.
From S2P Require Import Filter.
From S2P Require Import Consume.
From S2P Require Import Streaming.

(** ** Offsets in increasing order *)

(** Offsets above all those seen, each above the ones before it. *)
Fixpoint ascending (P : gset Z) (l : list Z) : Prop :=
  match l with [] => True | x :: l => (forall y, y ∈ P -> y < x) /\ ascending ({[x]} ∪ P) l end.
Definition seen (P : gset Z) (l : list Z) : gset Z := foldl (fun P x => {[x]} ∪ P) P l.

Lemma elem_of_seen P l o : o ∈ seen P l <-> o ∈ P \/ o ∈ l.
Proof. revert P. induction l as [|x l IH]; intros P; simpl; [set_solver|]. rewrite IH. set_solver. Qed.
Lemma seen_app P l k : seen P (l ++ k) = seen (seen P l) k.
Proof. apply foldl_app. Qed.
Lemma ascending_app P l k : ascending P (l ++ k) <-> ascending P l /\ ascending (seen P l) k.
Proof. revert P. induction l as [|x l IH]; intros P; simpl; [tauto|]. rewrite IH. tauto. Qed.
Lemma sorted_ascending P l : (forall x y, x ∈ P -> y ∈ l -> x < y) -> StronglySorted Z.lt l -> ascending P l.
Proof.
  intros HP Hl. revert P HP. induction Hl as [|x l Hl IH Hx]; intros P HP; simpl; [done|]. rewrite Forall_forall in Hx.
  split; [set_solver|]. apply IH. intros y z [->%elem_of_singleton|Hy]%elem_of_union Hz; [by apply Hx|].
  apply HP; set_solver.
Qed.

Lemma pop_acknowledged_sub n os fr : pop_acknowledged n os fr ⊆ os.
Proof.
  revert os. induction n as [|n IH]; intros os; simpl; [done|]. case_match; [|done]. case_match; [done|].
  etrans; [apply IH|set_solver].
Qed.

(** ** One partition's tracking, through the session's calls *)

Section Tracking.
  Context (tp : TopicPartition).

(** [P] are the offsets delivered and [A] allows for those acknowledged. *)
Definition tracked (A P : gset Z) (g : gmap TopicPartition Spec.t) : Prop :=
  match g !! tp with
  | None => P = ∅
  | Some sp => P <> ∅ /\ Spec.sdelivered sp = P /\ Spec.sacked sp ⊆ A
  end.

Definition tracks (A P : gset Z) (s : ConsumeSession) : Prop :=
  exists es, Forall event_ok es /\ s = session_run es /\ tracked A P (spec_run es).

Lemma tracks_mono A A' P s : A ⊆ A' -> tracks A P s -> tracks A' P s.
Proof.
  intros HA (es & Hok & -> & Ht). exists es. split_and!; [done..|]. unfold tracked in *.
  destruct (_ !! tp); [|done]. destruct Ht as (? & ? & ?). split_and!; [done..|set_solver].
Qed.

Lemma run_snoc es e : session_run (es ++ [e]) = session_step (session_run es) e.
Proof. unfold session_run. by rewrite foldl_app. Qed.
Lemma spec_snoc es e : spec_run (es ++ [e]) = spec_step (spec_run es) e.
Proof. unfold spec_run. by rewrite foldl_app. Qed.

Lemma tracks_step A P P' s e :
  event_ok e -> (forall es, Forall event_ok es -> s = session_run es -> tracked A P (spec_run es) ->
                   tracked A P' (spec_step (spec_run es) e)) ->
  tracks A P s -> tracks A P' (session_step s e).
Proof.
  intros He Hstep (es & Hok & -> & Ht). exists (es ++ [e]). split_and!.
  - apply Forall_app. by split; [|constructor].
  - by rewrite run_snoc.
  - rewrite spec_snoc. by apply Hstep.
Qed.

(** A partition whose deliveries are all below [o] has its frontier below. *)
Lemma frontier_below es sp P o f :
  Forall event_ok es -> spec_run es !! tp = Some sp -> P <> ∅ -> Spec.sdelivered sp = P ->
  (forall x, x ∈ P -> x < o) -> Spec.frontier sp = Some f -> f < o.
Proof.
  intros [Hs _]%session_run_refines Hsp Hne <- Hlt Hf. pose proof (Hs tp) as Ht. rewrite Hsp in Ht.
  inversion Ht as [st ? Hr|]; subst. pose proof (refines_frontier _ _ Hr) as Hfr. rewrite Hf in Hfr.
  destruct Hr as [[-> ->]|(f' & b & Hr & _)]; [done|]. rewrite (rc_frontier _ _ _ _ Hr) in Hfr. injection Hfr as ->.
  destruct (rc_self _ _ _ _ Hr) as [->|Hin]; [|by apply Hlt, (rc_sub _ _ _ _ Hr)].
  apply set_choose_L in Hne as [x Hx]. pose proof (rc_above _ _ _ _ Hr x Hx). pose proof (Hlt x Hx). lia.
Qed.

(** A registered delivery is one the specification accepts. *)
Lemma delivery_accepted es o s' :
  Forall event_ok es -> is_offset o -> 0 <= tp.2 ->
  ConsumeSession_record_delivery (session_run es) tp o = (s', Ok ()) ->
  (Spec.deliver (default Spec.init (spec_run es !! tp)) o).2 = Ok ().
Proof.
  intros [Hs _]%session_run_refines Ho Htp. unfold ConsumeSession_record_delivery, track.
  assert ((tp.2 <? 0) || (o <? 0) = false) as -> by (unfold is_offset in Ho; lia).
  pose proof (record_delivery_refines _ _ _ Ho (refines_default _ _ tp Hs)) as [_ <-].
  destruct (record_delivery _ o) as [st [[]|[]]]; [done|discriminate].
Qed.

Lemma tracks_deliver A P s tp' o s' :
  tracks A P s -> i64_min <= o <= i64_max ->
  (tp' = tp -> 0 <= tp.2 /\ 0 <= o /\ forall x, x ∈ P -> x < o) ->
  ConsumeSession_record_delivery s tp' o = (s', Ok ()) ->
  tracks A (if decide (tp' = tp) then {[o]} ∪ P else P) s'.
Proof.
  intros Ht Ho Hnew Hs'. assert (s' = session_step s (EDeliver tp' o)) as -> by (simpl; by rewrite Hs').
  revert Ht. apply tracks_step; [done|]. intros es Hok -> Ht. simpl. unfold spec_track.
  destruct (decide (tp' = tp)) as [->|Hne].
  - destruct (Hnew eq_refl) as (H0 & H1 & Hlt). clear Hnew.
    assert ((tp.2 <? 0) || (o <? 0) = false) as -> by lia.
    apply (delivery_accepted es o) in Hs'; [|done|split; lia|done].
    unfold tracked in *. rewrite lookup_insert_eq. revert Hs'. destruct (spec_run es !! tp) as [sp|] eqn:Hsp; simpl.
    + destruct Ht as (Hne & HP & HA). unfold Spec.deliver.
      assert (at_or_below (Spec.frontier sp) o = false) as ->.
      { destruct (Spec.frontier sp) as [f|] eqn:Hf; [|done]. simpl.
        pose proof (frontier_below _ _ _ _ _ Hok Hsp Hne HP Hlt Hf). lia. }
      destruct (_ && _); [done|]. intros _. simpl. rewrite HP. split_and!; [set_solver|done..].
    + subst P. intros _. simpl. split_and!; [set_solver|done|apply empty_subseteq].
  - unfold tracked in *. destruct (_ || _); [done|]. by rewrite lookup_insert_ne.
Qed.

Lemma tracks_ack A P s tp' o :
  tracks A P s -> i64_min <= o <= i64_max -> (tp' = tp -> o ∈ P /\ o ∈ A) ->
  tracks A P (ConsumeSession_record_ack s tp' o).1.
Proof.
  intros Ht Ho Hin. change (ConsumeSession_record_ack s tp' o).1 with (session_step s (EAck tp' o)).
  revert Ht. apply tracks_step; [done|]. intros es Hok -> Ht. simpl. unfold spec_track.
  destruct (_ || _); [done|]. unfold tracked in *. destruct (decide (tp' = tp)) as [->|Hne]; [|by rewrite lookup_insert_ne].
  destruct (Hin eq_refl) as [HoP HoA]. rewrite lookup_insert_eq.
  destruct (spec_run es !! tp) as [sp|] eqn:Hsp; simpl; [|set_solver]. destruct Ht as (Hne & HP & HA).
  unfold Spec.ack. assert (exists b, Spec.base sp = Some b) as [b Hb].
  { destruct (session_run_refines es Hok) as [Hs _]. pose proof (Hs tp) as Hr. rewrite Hsp in Hr.
    inversion Hr as [st ? Hr'|]; subst. destruct Hr' as [[_ ->]|(f & b & Hc & _)]; [done|]. exists b. apply Hc. }
  rewrite Hb. destruct (at_or_below _ _); [done|]. case_bool_decide; simpl; [|done].
  split_and!; [done..|set_solver].
Qed.

Lemma tracks_commit A P s owned broker :
  tracks A P s -> tp ∈ owned -> tracks A P (commit_acked s owned broker).1.1.
Proof.
  intros Ht Hown. change (commit_acked s owned broker).1.1 with (session_step s (ECommit owned broker)).
  revert Ht. apply tracks_step; [done|]. intros es Hok -> Ht. simpl. unfold tracked in *.
  destruct (spec_run es !! tp) as [sp|] eqn:Hsp.
  - by rewrite (map_lookup_filter_Some_2 _ _ tp sp).
  - by rewrite map_lookup_filter_None_2 by (by left).
Qed.

(** What a request covers was acknowledged. *)
Lemma tracks_request A P s owned broker req c o :
  tracks A P s -> (commit_acked s owned broker).1.2 = Some req -> req !! tp = Some c -> o ∈ P -> o < c -> o ∈ A.
Proof.
  intros (es & Hok & -> & Ht) ->%commit_acked_sent Hc Ho Hlt.
  apply request_covers in Hc as (_ & sp & Hsp & _ & Hcov); [|done]. unfold tracked in Ht. rewrite Hsp in Ht.
  destruct Ht as (_ & <- & HA). by apply HA, Hcov.
Qed.

Lemma tracks_new A : tracks A ∅ session_new.
Proof. exists []. split_and!; [constructor|done|done]. Qed.

(** The offsets of the partition, in order. *)
Definition offsets_of (l : list (TopicPartition * Z)) : list Z :=
  omap (fun x => if decide (x.1 = tp) then Some x.2 else None) l.

Lemma offsets_of_app l k : offsets_of (l ++ k) = offsets_of l ++ offsets_of k.
Proof. apply omap_app. Qed.
Lemma elem_of_offsets l o : o ∈ offsets_of l <-> (tp, o) ∈ l.
Proof.
  unfold offsets_of. rewrite list_elem_of_omap. split.
  - intros ([tp' o'] & Hin & Heq). simpl in Heq. case_decide; simplify_eq. done.
  - intros Hin. exists (tp, o). split; [done|]. simpl. by rewrite decide_True.
Qed.

(** Registering a batch of deliveries. *)
Lemma tracks_deliver_all A P s ds s' :
  0 <= tp.2 -> tracks A P s -> Forall (fun x => is_offset x.2) ds -> ascending P (offsets_of ds) ->
  deliver_all s ds = (s', None) -> tracks A (seen P (offsets_of ds)) s'.
Proof.
  intros Htp. revert P s. induction ds as [|[tp' o] ds IH]; intros P s Ht Hok Hasc; cbn [deliver_all].
  - by intros [= <-].
  - inversion Hok as [|? ? [Ho1 Ho2] Hok']; subst. simpl in Ho1, Ho2. destruct (ConsumeSession_record_delivery s tp' o) as [s1 [[]|e]] eqn:Hs; [|done].
    assert (offsets_of ((tp', o) :: ds) = (if decide (tp' = tp) then [o] else []) ++ offsets_of ds) as Heq
      by (unfold offsets_of; simpl; by case_decide).
    rewrite Heq, ascending_app in Hasc. destruct Hasc as [Hasc1 Hasc2]. rewrite Heq, seen_app.
    assert (tracks A (seen P (if decide (tp' = tp) then [o] else [])) s1) as Ht1.
    { replace (seen _ _) with (if decide (tp' = tp) then {[o]} ∪ P else P) by (by case_decide).
      apply (tracks_deliver _ _ s tp' o); [done|unfold i64_min, i64_max in *; lia| |done].
      intros ->. rewrite decide_True in Hasc1 by done. split_and!; [done..|]. apply Hasc1. }
    by apply IH.
Qed.

(** ** One turn, in explicit mode *)

Definition recorded (A P : gset Z) (st : SubState) : Prop :=
  tracks A P (ss_session st) /\ default ∅ (ss_delivered st !! tp) ⊆ P.

Lemma mark_acknowledged_sub d a tp' fr :
  default ∅ ((mark_acknowledged d a tp' fr).1 !! tp) ⊆ default ∅ (d !! tp).
Proof.
  unfold mark_acknowledged. case_match; [done|]. cbn [fst]. destruct (d !! tp') as [os|] eqn:Hd; [|done].
  pose proof (pop_acknowledged_sub (S (size os)) os fr) as Hsub.
  destruct (decide (tp' = tp)) as [->|Hne].
  - rewrite Hd. case_bool_decide; rewrite ?lookup_delete_eq, ?lookup_insert_eq; [set_solver|exact Hsub].
  - case_bool_decide; by rewrite ?lookup_delete_ne, ?lookup_insert_ne by done.
Qed.

Lemma recorded_ack_all A P st acks st' r :
  recorded A P st -> Forall (fun x => i64_min <= x.2 <= i64_max) acks ->
  (forall o, (tp, o) ∈ acks -> o ∈ P /\ o ∈ A) -> ack_all st acks = (st', r) -> recorded A P st'.
Proof.
  revert st. induction acks as [|[tp' o] acks IH]; intros st Hr Hok Hin; cbn [ack_all]; [by intros [= <- <-]|].
  inversion Hok as [|? ? Ho Hok']; subst. simpl in Ho. destruct Hr as [Ht Hd].
  assert (tracks A P (ConsumeSession_record_ack (ss_session st) tp' o).1) as Ht1.
  { apply tracks_ack; [done..|]. intros ->. apply Hin. set_solver. }
  destruct (ConsumeSession_record_ack _ tp' o) as [s1 [[]|e]]; simpl in Ht1; [|intros [= <- <-]; by split].
  assert (exists d a, match ack_frontier s1 tp' with
                      | Some fr => mark_acknowledged (ss_delivered st) (ss_acknowledged st) tp' fr
                      | None => (ss_delivered st, ss_acknowledged st) end = (d, a)
                      /\ default ∅ (d !! tp) ⊆ P) as (d & a & -> & Hda).
  { case_match; [|by eauto]. eexists _, _. split; [apply surjective_pairing|].
    etrans; [apply mark_acknowledged_sub|done]. }
  apply IH; [by split|done|set_solver].
Qed.
End Tracking.

(** ** The loop *)

Section Loop.
  Context `{JsonLib} `{ArrowFilter} `{ClientDisplay} `{FilterDisplay} (f : CompiledFilter).

(** What a turn polls, what its client acknowledges, and what its filter drops. *)
Definition polled (env : TurnEnv) : list (TopicPartition * Z) :=
  match te_selected env with BatchPolled (Ok rs) => map coord rs | _ => [] end.
Definition client_acks (env : TurnEnv) : list (TopicPartition * Z) :=
  match te_selected env with FrameArrived _ (Some (Ok (Ack tp o))) => [(tp, o)] | _ => [] end.
Definition filtered (env : TurnEnv) : list (TopicPartition * Z) :=
  match te_selected env with
  | BatchPolled (Ok rs) => match filter_polled_records f rs with Ok ds => omap dropped ds | Err _ => [] end
  | _ => []
  end.
Definition settled (env : TurnEnv) : list (TopicPartition * Z) := client_acks env ++ filtered env.

(** The records a poll had taken from the client when a control frame cancelled
    it, and all that a turn takes from the client. *)
Definition lost (env : TurnEnv) : list (TopicPartition * Z) :=
  match te_selected env with
  | FrameArrived taken _ => map (fun r => ((cr_topic r, cr_partition r), cr_offset r)) taken
  | BatchPolled _ => []
  end.
Definition fetched (env : TurnEnv) : list (TopicPartition * Z) := polled env ++ lost env.

(** Offsets are what the protocols carry: those of records are not negative. *)
Definition env_ok (env : TurnEnv) : Prop :=
  Forall (fun x => is_offset x.2) (polled env) /\ Forall (fun x => i64_min <= x.2 <= i64_max) (client_acks env).

(** The state after the turns, all of which continued. *)
Fixpoint sub_run (st : SubState) (envs : list TurnEnv) : option SubState :=
  match envs with
  | [] => Some st
  | env :: envs => let r := sub_turn f false st env in if tr_continue r then sub_run (tr_state r) envs else None
  end.

Section Partition.
  Context (tp : TopicPartition).

(** What a turn must show: the tracking it leaves, and what it commits. *)
Definition turn_ok (A P : gset Z) (env : TurnEnv) (r : TurnResult) : Prop :=
  (tr_continue r = true -> tp ∈ te_owned env -> recorded tp A P (tr_state r))
  /\ (forall req c o, tr_request r = Some req -> req !! tp = Some c -> o ∈ P -> o < c -> o ∈ A).

Lemma ended_ok A P env st out : turn_ok A P env (ended st out).
Proof. by split. Qed.

Lemma finish_turn_ok A P st t env out :
  recorded tp A P st ->
  Forall (fun x => i64_min <= x.2 <= i64_max) (t_filtered_acks t ++ option_list (t_client_ack t)) ->
  (forall o, (tp, o) ∈ t_filtered_acks t ++ option_list (t_client_ack t) -> o ∈ P /\ o ∈ A) ->
  turn_ok A P env (finish_turn false st t env out).
Proof.
  intros Hr Hok Hin. unfold finish_turn. destruct (ack_all _ _) as [st1 e] eqn:Hack.
  pose proof (recorded_ack_all tp _ _ _ _ _ _ Hr Hok Hin Hack) as [Ht Hd].
  destruct e as [e|]; [apply ended_ok|]. case_bool_decide; [by split|].
  destruct (commit_acked _ _ _) as [[s req] r] eqn:Hc.
  assert (tp ∈ te_owned env -> tracks tp A P s) as Ht'.
  { intros Hown. pose proof (tracks_commit tp _ _ _ _ (te_broker env) Ht Hown) as Hx. by rewrite Hc in Hx. }
  assert (forall q c o, req = Some q -> q !! tp = Some c -> o ∈ P -> o < c -> o ∈ A) as Hreq.
  { intros q c o Hq. apply (tracks_request tp A P _ (te_owned env) (te_broker env) q c o Ht). by rewrite Hc. }
  destruct r; (split; [|exact Hreq]); [|done]. intros _ Hown. split; [by apply Ht'|done].
Qed.

Lemma recorded_settle A P st l : recorded tp A P st -> recorded tp (seen A l) P st.
Proof. intros [Ht Hd]. split; [|done]. eapply tracks_mono; [|done]. intros x Hx. apply elem_of_seen. auto. Qed.

Lemma note_delivered_sub ds d o :
  o ∈ default ∅ (foldl note_delivered d ds !! tp) ->
  o ∈ default ∅ (d !! tp) \/ (tp, o) ∈ map (fun x => coord (decided x)) ds.
Proof.
  revert d. induction ds as [|x ds IH]; intros d; simpl; [by left|]. intros [Hin|Hin]%IH; [|set_solver].
  destruct x as [r|r]; simpl in *; [|by left]. destruct (decide ((dr_topic r, dr_partition r) = tp)) as [<-|Hne].
  - rewrite lookup_insert_eq in Hin. simpl in Hin. apply elem_of_union in Hin as [->%elem_of_singleton|?]; [|by left].
    right. apply elem_of_cons. by left.
  - rewrite lookup_insert_ne in Hin by done. by left.
Qed.

Lemma dropped_polled ds x : x ∈ omap dropped ds -> x ∈ map (fun x => coord (decided x)) ds.
Proof.
  intros ([r|r] & Hin & [= <-])%list_elem_of_omap. apply list_elem_of_fmap. by exists (FilterRecord r).
Qed.

Lemma validate_ack_delivered d a tp' o : validate_ack d a tp' o = Ok true -> o ∈ default ∅ (d !! tp').
Proof.
  unfold validate_ack. case_match; [done|]. destruct (_ || _) eqn:Hb; [done|]. intros _.
  apply orb_false_iff in Hb as [_ Hb]. by apply negb_false_iff, bool_decide_eq_true in Hb.
Qed.

(** A turn that a control frame starts. *)
Lemma frame_turn_ok A P st env taken fr :
  te_selected env = FrameArrived taken fr -> env_ok env -> recorded tp A P st ->
  turn_ok (seen A (offsets_of tp (settled env))) P env (sub_turn f false st env).
Proof.
  intros Hsel [_ Hok] Hr. pose proof (recorded_settle _ _ _ (offsets_of tp (settled env)) Hr) as Hr'.
  unfold sub_turn, settled, client_acks, filtered in *. rewrite Hsel in *. destruct st as [s d a].
  destruct fr as [[[|tp' o|]|e]|]; simpl in *; try by split.
  unfold on_frame. destruct (validate_ack d a tp' o) as [[|]|m] eqn:Hv; [|by split|apply ended_ok].
  cbn [t_deliveries t_frame_error deliver_all].
  apply finish_turn_ok; [done..|]. intros o' Hin%list_elem_of_singleton. simplify_eq. split.
  - destruct Hr as [_ Hd]. apply Hd. exact (validate_ack_delivered _ _ _ _ Hv).
  - apply elem_of_seen. right. rewrite decide_True by done. by apply list_elem_of_singleton.
Qed.

(** A turn that a batch starts. *)
Lemma batch_turn_ok A P st env b :
  te_selected env = BatchPolled b -> env_ok env -> 0 <= tp.2 -> ascending P (offsets_of tp (polled env)) ->
  recorded tp A P st ->
  turn_ok (seen A (offsets_of tp (settled env))) (seen P (offsets_of tp (polled env))) env (sub_turn f false st env).
Proof.
  intros Hsel [Hok _] Htp Hasc Hr. pose proof (recorded_settle _ _ _ (offsets_of tp (settled env)) Hr) as Hr'.
  unfold sub_turn, settled, client_acks, filtered, polled in *. rewrite Hsel in *.
  destruct b as [rs|e]; [|by split].
  unfold on_batch. destruct (filter_polled_records f rs) as [ds|e] eqn:Hf; [|apply ended_ok].
  assert (map (fun d => coord (decided d)) ds = map coord rs) as Hds.
  { apply filter_loop_records in Hf; [|by left]. simpl in Hf. by rewrite <- Hf, List.map_map. }
  cbn [t_deliveries t_frame_error]. rewrite Hds.
  destruct (deliver_all (ss_session st) (map coord rs)) as [s' [e|]] eqn:Hdel; [apply ended_ok|].
  destruct Hr' as [Ht' Hd']. assert (forall x, x ∈ omap dropped ds -> x ∈ map coord rs) as Hdrop
    by (intros x Hx; rewrite <- Hds; by apply dropped_polled).
  apply finish_turn_ok; cbn [t_filtered_acks t_client_ack option_list]; rewrite ?app_nil_r.
  - split; cbn [ss_session ss_delivered].
    + by apply (tracks_deliver_all tp _ _ (ss_session st)).
    + intros o [Ho|Ho]%note_delivered_sub; apply elem_of_seen; [left; by apply Hd'|right].
      rewrite <- Hds. by apply elem_of_offsets.
  - apply Forall_forall. intros x Hx%Hdrop. rewrite Forall_forall in Hok. specialize (Hok x Hx).
    unfold is_offset, i64_min, i64_max in *. lia.
  - intros o Ho. split; apply elem_of_seen; right; apply elem_of_offsets; [by apply Hdrop|done].
Qed.

Lemma turn_tracked A P st env :
  env_ok env -> 0 <= tp.2 -> ascending P (offsets_of tp (polled env)) -> recorded tp A P st ->
  turn_ok (seen A (offsets_of tp (settled env))) (seen P (offsets_of tp (polled env))) env (sub_turn f false st env).
Proof.
  intros. destruct (te_selected env) as [taken fr|b] eqn:Hsel; [|by eapply batch_turn_ok].
  replace (polled env) with (@nil (TopicPartition * Z)) by (unfold polled; by rewrite Hsel). by eapply frame_turn_ok.
Qed.

Lemma run_tracked envs A P st st' :
  0 <= tp.2 -> Forall env_ok envs -> Forall (fun env => tp ∈ te_owned env) envs ->
  ascending P (offsets_of tp (mjoin (map polled envs))) -> recorded tp A P st -> sub_run st envs = Some st' ->
  recorded tp (seen A (offsets_of tp (mjoin (map settled envs)))) (seen P (offsets_of tp (mjoin (map polled envs)))) st'.
Proof.
  intros Htp. revert A P st. induction envs as [|env envs IH]; intros A P st Hok Hown Hasc Hr; cbn [sub_run]; [by intros [= <-]|].
  inversion Hok as [|? ? Ho Hok']; inversion Hown as [|? ? Hw Hown']; subst.
  cbn [map mjoin list_join] in *. rewrite offsets_of_app in *. apply ascending_app in Hasc as [Hasc1 Hasc2].
  destruct (turn_tracked A P st env Ho Htp Hasc1 Hr) as [Hnext _].
  destruct (tr_continue _) eqn:Hcont; [|done]. rewrite offsets_of_app, !seen_app. apply IH; auto.
Qed.
End Partition.

Definition sub_start : SubState := {| ss_session := session_new; ss_delivered := ∅; ss_acknowledged := ∅ |}.

(** What is polled is fetched, in order. *)
Lemma polled_sublist tp envs :
  offsets_of tp (mjoin (map polled envs)) `sublist_of` offsets_of tp (mjoin (map fetched envs)).
Proof.
  induction envs as [|env envs IH]; [done|]. cbn [map mjoin list_join]. rewrite !offsets_of_app.
  apply sublist_app; [|done]. unfold fetched. rewrite offsets_of_app. apply sublist_inserts_r. done.
Qed.

Lemma sorted_sublist (l k : list Z) : l `sublist_of` k -> StronglySorted Z.lt k -> StronglySorted Z.lt l.
Proof.
  induction 1 as [|x l k Hs IH|x l k Hs IH]; intros Hk; [done| |]; inversion Hk; subst; [|auto].
  constructor; [auto|]. rewrite Forall_forall in *. intros y Hy. eauto using elem_of_sublist.
Qed.

Lemma fetched_split envs x :
  x ∈ mjoin (map fetched envs) -> x ∈ mjoin (map polled envs) \/ x ∈ mjoin (map lost envs).
Proof.
  induction envs as [|env envs IH]; [by left|]. cbn [map mjoin list_join]. unfold fetched at 1.
  rewrite !elem_of_app. tauto.
Qed.

(** C4.  The offsets an explicit subscription asks to be committed: after any
    sequence of turns during which a partition stayed assigned, with its offsets
    taken from the client in increasing order, the offset the next turn commits
    for it lies only above records that the client acknowledged, that the filter
    dropped, or that were lost with a poll a control frame had cancelled. *)
Theorem subscribe_at_least_once tp envs env st req c o :
  0 <= tp.2 -> Forall env_ok (envs ++ [env]) -> Forall (fun env => tp ∈ te_owned env) envs ->
  StronglySorted Z.lt (offsets_of tp (mjoin (map fetched (envs ++ [env])))) ->
  sub_run sub_start envs = Some st -> tr_request (sub_turn f false st env) = Some req -> req !! tp = Some c ->
  (tp, o) ∈ mjoin (map fetched (envs ++ [env])) -> o < c ->
  (tp, o) ∈ mjoin (map settled (envs ++ [env])) \/ (tp, o) ∈ mjoin (map lost (envs ++ [env])).
Proof.
  intros Htp [Hok [He _]%Forall_cons]%Forall_app Hown Hasc Hrun Hreq Hc [Ho|?]%fetched_split Hlt; [left|by right].
  apply (sorted_sublist _ _ (polled_sublist _ _)), (sorted_ascending ∅) in Hasc; [|set_solver]. revert Hasc Ho.
  rewrite !map_app, !join_app. simpl. rewrite !app_nil_r, offsets_of_app, ascending_app.
  intros [Hasc1 Hasc2] Ho. eapply (run_tracked tp _ ∅) in Hrun; [|done..| |].
  - destruct (turn_tracked tp _ _ _ env He Htp Hasc2 Hrun) as [_ Hcov]. specialize (Hcov _ _ o Hreq Hc).
    rewrite <- !seen_app, <- !offsets_of_app, !elem_of_seen, !elem_of_offsets in Hcov. set_solver.
  - done.
  - split; [apply tracks_new|done].
Qed.
End Loop.

(** ** Concrete runs *)

Import Sample.

Definition turn (owned : list Z) (s : Selected) : TurnEnv :=
  {| te_selected := s; te_owned := list_to_set (map (fun p => ("t", p)) owned); te_broker := fun _ => Ok ();
     te_commit_sync := Ok () |}.
Definition poll (owned : list Z) (rs : list DecodedConsumerRecord) : TurnEnv := turn owned (BatchPolled (Ok rs)).
Definition raw (p o : Z) : ConsumerRecord :=
  {| cr_topic := "t"; cr_partition := p; cr_offset := o; cr_timestamp := 0; cr_key := None;
     cr_value := Some (list_ascii_of_string "k"); cr_headers := [] |}.
(** An acknowledgement, which finds a poll that has taken [taken]. *)
Definition ack_over (taken : list ConsumerRecord) (owned : list Z) (p o : Z) : TurnEnv :=
  turn owned (FrameArrived taken (Some (Ok (Ack ("t", p) o)))).
Definition ack : list Z -> Z -> Z -> TurnEnv := ack_over [].

(** Records 5 to 9 of which the filter drops 6; the client acknowledges 5 while a
    poll decodes 7, then 8, whose turn commits 9. *)
Lemma subscribe_at_least_once_witness :
  let envs := [poll [0] [rec 0 5 "k"; rec 0 6 "x"]; ack_over [raw 0 7] [0] 0 5;
               poll [0] [rec 0 8 "k"; rec 0 9 "k"]] in
  exists st req, sub_run keep_k sub_start envs = Some st
    /\ tr_request (sub_turn keep_k false st (ack [0] 0 8)) = Some req /\ req !! ("t", 0) = Some 9
    /\ forall o, (("t", 0), o) ∈ mjoin (map fetched (envs ++ [ack [0] 0 8])) -> o < 9 ->
         (("t", 0), o) ∈ mjoin (map (settled keep_k) (envs ++ [ack [0] 0 8]))
         \/ (("t", 0), o) ∈ mjoin (map lost (envs ++ [ack [0] 0 8])).
Proof.
  intros envs. destruct (sub_run keep_k sub_start envs) as [st|] eqn:Hrun; [|vm_compute in Hrun; discriminate].
  assert (tr_request (sub_turn keep_k false st (ack [0] 0 8)) = Some {[ ("t", 0) := 9 ]}) as Hreq.
  { vm_compute in Hrun. injection Hrun as <-. vm_compute. reflexivity. }
  exists st, {[ ("t", 0) := 9 ]}. split_and!; [done..|]. intros o.
  apply (subscribe_at_least_once keep_k ("t", 0) envs (ack [0] 0 8) st {[ ("t", 0) := 9 ]} 9 o); [done| | | |done..].
  - repeat constructor; done.
  - repeat constructor; apply (bool_decide_unpack _); vm_compute; exact I.
  - repeat constructor; done.
Defined.

(** ** Cancelled polls *)

(** Record 5 is delivered.  The acknowledgement arrives while a poll, having taken
    record 6 from the client, decodes it.  The next poll brings record 7. *)
Definition cancelled_run : list TurnEnv :=
  [poll [0] [rec 0 5 "a"]; ack_over [raw 0 6] [0] 0 5; poll [0] [rec 0 7 "c"]].


(** ** Reassignment *)

(** Records 5 and 6 of partition 0 are delivered; a commit while it is revoked
    drops its tracking; once it is assigned again, 6 is acknowledged. *)
Definition revoked_run : list TurnEnv := [poll [0; 1] [rec 0 5 "a"; rec 0 6 "b"; rec 1 1 "c"]; ack [1] 1 1].

(** C34.  After a revocation the bookkeeping of delivered offsets outlives the
    tracking: an acknowledgement of record 6 commits offset 7 once the
    partition is assigned again, although record 5 was delivered and never
    acknowledged. *)
Theorem reassignment_skips_record :
  exists st req, sub_run no_filter sub_start revoked_run = Some st
    /\ tr_request (sub_turn no_filter false st (ack [0; 1] 0 6)) = Some req /\ req !! ("t", 0) = Some 7
    /\ (("t", 0), 5) ∈ mjoin (map polled revoked_run)
    /\ (("t", 0), 5) ∉ mjoin (map (settled no_filter) (revoked_run ++ [ack [0; 1] 0 6])).
Proof.
  destruct (sub_run no_filter sub_start revoked_run) as [st|] eqn:Hrun; [|vm_compute in Hrun; discriminate].
  vm_compute in Hrun. injection Hrun as <-. eexists _, _. split; [reflexivity|]. split; [vm_compute; reflexivity|].
  split_and!; [vm_compute; reflexivity|apply (bool_decide_unpack _)..]; vm_compute; exact I.
Qed.

(** The client acknowledges record 5 while the partition is revoked; 5 and 6 are
    then delivered again, and both acknowledged. *)
Definition redelivered_run : list TurnEnv :=
  [poll [0] [rec 0 5 "a"]; ack [] 0 5; poll [0] [rec 0 5 "a"; rec 0 6 "b"]; ack [0] 0 5].

(** An acknowledgement received while the partition is revoked makes the
    later one of the same, redelivered record be ignored: the client has
    acknowledged every record it was sent, yet no offset is committed, the
    frontier staying below the first of them. *)
Theorem reassignment_stalls_commits :
  exists st, sub_run no_filter sub_start redelivered_run = Some st
    /\ (forall x, x ∈ mjoin (map polled redelivered_run) -> x ∈ mjoin (map client_acks (redelivered_run ++ [ack [0] 0 6])))
    /\ tr_continue (sub_turn no_filter false st (ack [0] 0 6)) = true
    /\ tr_request (sub_turn no_filter false st (ack [0] 0 6)) = None
    /\ ack_frontier (ss_session (tr_state (sub_turn no_filter false st (ack [0] 0 6)))) ("t", 0) = Some 4.
Proof.
  destruct (sub_run no_filter sub_start redelivered_run) as [st|] eqn:Hrun; [|vm_compute in Hrun; discriminate].
  vm_compute in Hrun. injection Hrun as <-. eexists _. split; [reflexivity|].
  split; [intros x Hx; exact Hx|]. split_and!; vm_compute; reflexivity.
Qed.
