(* ===== verification/ArrowFilter.v ===== *)
(** * Filters on Arrow batches (filter.rs)

    What [filter.rs] does with the feature [arrow]: the projection of enum
    columns to their symbols, the quoting of column names, the lowering of
    predicates to DataFusion expressions, the cache of compiled filters, and the
    evaluation of a batch.  An Arrow array is the list of its optional values
    with its type, a dictionary array its keys and values.  DataFusion is the
    class [DataFusion], and what its documentation says of the expressions used
    here the class [DataFusionLaws]. *)

From stdpp Require Import pretty.
From S2P Require Import Prelude.
From S2P Require Import RustStr.
From S2P Require Import RustNum.
From S2P Require Import Types.
From S2P Require Import Filter.
From S2P Require Import FilterText.
From S2P Require Import Wire.
From S2P Require Import Consume.
From S2P Require Import Streaming.

(** ** Arrow *)

Inductive DataType :=
| Boolean | Int8 | Int16 | Int32 | Int64 | UInt8 | UInt16 | UInt32 | UInt64 | Float32 | Float64 | Utf8
| DictionaryOf (key value : DataType)
| OtherType (name : string).
#[export] Instance DataType_eq_dec : EqDecision DataType.
Proof. solve_decision. Defined.

Record Field := { f_name : string; f_type : DataType; f_nullable : bool; f_metadata : list (string * string) }.
Abbreviation Schema := (list Field).

Inductive Scalar := SBool (b : bool) | SInt (z : Z) | SFloat (f : f64) | SText (s : Bytes).

Inductive Array :=
| Flat (ty : DataType) (cells : list (option Scalar))
| Dict (key : DataType) (keys : list (option Z)) (values : Array).

Fixpoint array_type (a : Array) : DataType :=
  match a with Flat ty _ => ty | Dict k _ values => DictionaryOf k (array_type values) end.
Definition array_len (a : Array) : nat := match a with Flat _ cells => length cells | Dict _ keys _ => length keys end.

(** The value of a row; [None] is null. *)
Fixpoint cell (a : Array) (row : nat) : option Scalar :=
  match a with
  | Flat _ cells => mjoin (cells !! row)
  | Dict _ keys values => k ← mjoin (keys !! row); if k <? 0 then None else cell values (Z.to_nat k)
  end.

Record Batch := { b_schema : Schema; b_columns : list Array; b_rows : nat }.

(** [Debug] and [Display] of a type, [RecordBatch::try_new], the error of
    [Schema::field_with_name], the integer stored in a slot that is null, and the
    [f32] that the text of a number reads as. *)
Class ArrowLib := {
  debug_type : DataType -> string;
  display_type : DataType -> string;
  try_new : Schema -> list Array -> result string Batch;
  field_not_found : Schema -> Bytes -> string;
  slot_under_null : Array -> nat -> Z;
  f32_of_number : NumericValue -> option f64;
}.

Inductive Operator := OpEq | OpNotEq | OpGt | OpGtEq | OpLt | OpLtEq | OpAnd.

(** [DFSchema::try_from], the constructors of physical expressions, the SQL
    parser, and evaluation to an array. *)
Class DataFusion := {
  Expr : Type;
  df_schema : Schema -> result string unit;
  df_col : string -> Schema -> result string Expr;
  df_lit : DataType -> Scalar -> Expr;
  df_binary : Expr -> Operator -> Expr -> Schema -> result string Expr;
  df_is_null : Expr -> result string Expr;
  df_is_not_null : Expr -> result string Expr;
  df_parse_sql : Bytes -> Schema -> result string Expr;
  df_evaluate : Expr -> Batch -> result string Array;
}.

(** ** Column names *)

(** [sort_by_key] of the lengths, longest first, which is stable. *)
Fixpoint insert_longest (x : Bytes) (l : list Bytes) : list Bytes :=
  match l with
  | [] => [x]
  | y :: l => if (length y <? length x)%nat then x :: y :: l else y :: insert_longest x l
  end.
Definition longest_first (l : list Bytes) : list Bytes := foldl (fun acc x => insert_longest x acc) [] l.

Definition double_quote : ascii := of_u8 34.
Fixpoint double_double_quotes (s : Bytes) : Bytes :=
  match s with
  | [] => []
  | c :: s => if bool_decide (c = double_quote) then c :: c :: double_double_quotes s else c :: double_double_quotes s
  end.

Definition is_complex (name : Bytes) : bool := existsb (fun c => bool_decide (c ∈ ["."; "["; "]"]%char)) name.

(** The loop from position [index]; a complex name is not empty. *)
Fixpoint quote_loop (fuel : nat) (complex : list Bytes) (sql : Bytes) (index : nat) (in_string : bool) : Bytes :=
  match fuel, drop index sql with
  | S fuel, ch :: rest =>
      if bool_decide (ch = quote) then
        if in_string && bool_decide (head rest = Some quote)
        then quote :: quote :: quote_loop fuel complex sql (index + 2) in_string
        else ch :: quote_loop fuel complex sql (S index) (negb in_string)
      else if in_string then ch :: quote_loop fuel complex sql (S index) in_string
      else match List.find (starts_with_field_reference sql index) complex with
           | Some f => double_quote :: double_double_quotes f ++ double_quote :: quote_loop fuel complex sql (index + length f) in_string
           | None => ch :: quote_loop fuel complex sql (S index) in_string
           end
  | _, _ => []
  end.

Definition quote_complex_arrow_field_references (sql : Bytes) (s : Schema) : Bytes :=
  match List.filter is_complex (map (fun f => as_bytes (f_name f)) s) with
  | [] => sql
  | complex => quote_loop (length sql) (longest_first complex) sql 0 false
  end.

(** ** Enum columns *)

Record ArrowEnumSymbolColumn := { e_index : nat; e_field_name : string; e_symbols : gmap Z Bytes }.

Definition metadata_get (f : Field) (k : string) : option string :=
  snd <$> List.find (fun kv => bool_decide (kv.1 = k)) (f_metadata f).

Definition arrow_field_needs_enum_symbol_projection (f : Field) : bool :=
  (bool_decide (metadata_get f "krabka.enum" = Some "true") || bool_decide (is_Some (metadata_get f "krabka.enum.symbols")))
  && match f_type f with
     | DictionaryOf _ v => bool_decide (v = Int32) || bool_decide (v = Int64)
     | _ => false
     end.

Section Enums.
  Context `{JsonLib}.

Definition invalid_symbols (f : Field) : FilterCompileError :=
  Filter.DataFusion ("arrow enum field " +:+ f_name f +:+ " has invalid krabka.enum.symbols metadata").

Definition enum_symbol (f : Field) (e : Bytes * Json) : result FilterCompileError (Z * Bytes) :=
  number ← ok_or (invalid_symbols f) (parse_i64 e.1);
  name ← ok_or (invalid_symbols f) (as_str e.2);
  Ok (number, name).

(** Of two keys that read as one number, the later stays. *)
Definition parse_arrow_enum_symbols (f : Field) : result FilterCompileError (gmap Z Bytes) :=
  symbols ← ok_or (Filter.DataFusion ("arrow enum field " +:+ f_name f
              +:+ " stores numeric values but has no krabka.enum.symbols descriptor metadata")) (metadata_get f "krabka.enum.symbols");
  parsed ← ok_or (invalid_symbols f) (json_parse (as_bytes symbols));
  object ← ok_or (invalid_symbols f) (as_object parsed);
  entries ← try_map (enum_symbol f) object;
  Ok (foldl (fun m e => <[e.1 := e.2]> m) ∅ entries).

Definition arrow_enum_symbol_columns (s : Schema) : result FilterCompileError (list ArrowEnumSymbolColumn) :=
  try_map (fun '(i, f) => symbols ← parse_arrow_enum_symbols f; Ok {| e_index := i; e_field_name := f_name f; e_symbols := symbols |})
    (List.filter (fun '(_, f) => arrow_field_needs_enum_symbol_projection f) (imap pair s)).
End Enums.

Definition projects (cols : list ArrowEnumSymbolColumn) (i : nat) : option ArrowEnumSymbolColumn :=
  List.find (fun c => (e_index c =? i)%nat) cols.

Definition arrow_filter_schema (s : Schema) (cols : list ArrowEnumSymbolColumn) : Schema :=
  imap (fun i f => match projects cols i with
                   | None => f
                   | Some _ => {| f_name := f_name f; f_type := Utf8; f_nullable := f_nullable f; f_metadata := f_metadata f |}
                   end) s.

Definition symbol_name (c : ArrowEnumSymbolColumn) (number : Z) : Bytes :=
  default (as_bytes ("UNKNOWN_" +:+ pretty number)) (e_symbols c !! number).

Section Arrow.
  Context `{ArrowLib}.

(** [Int32Array::value] and [Int64Array::value]. *)
Definition number_at (values : Array) (index : nat) : Z :=
  match cell values index with Some (SInt z) => z | _ => slot_under_null values index end.

Definition enum_fault (c : ArrowEnumSymbolColumn) (m : string) : FilterCompileError :=
  Filter.DataFusion ("arrow enum field " +:+ e_field_name c +:+ m).

Definition symbol_at (c : ArrowEnumSymbolColumn) (values : Array) (key : option Z) : result FilterCompileError (option Bytes) :=
  match key with
  | None => Ok None
  | Some k =>
      if k <? 0 then Err (enum_fault c (" dictionary key " +:+ pretty k +:+ " is negative"))
      else if Z.of_nat (array_len values) <=? k
      then Err (enum_fault c (" dictionary key " +:+ pretty k +:+ " is out of bounds for "
                              +:+ pretty (Z.of_nat (array_len values)) +:+ " values"))
      else Ok (Some (symbol_name c (number_at values (Z.to_nat k))))
  end.
Definition symbol_names (c : ArrowEnumSymbolColumn) (keys : list (option Z)) (values : Array)
    : result FilterCompileError (list (option Bytes)) := try_map (symbol_at c values) keys.

(** The downcast of the values is to the type just matched. *)
Definition to_symbol_array (c : ArrowEnumSymbolColumn) (column : Array) : result FilterCompileError Array :=
  match column with
  | Dict Int32 keys values =>
      match array_type values with
      | Int32 | Int64 => names ← symbol_names c keys values; Ok (Flat Utf8 (map (fmap SText) names))
      | ty => Err (enum_fault c (" has unsupported dictionary value type " +:+ display_type ty))
      end
  | _ => Err (enum_fault c " expected Dictionary<Int32, Int32|Int64> array values")
  end.

(** ** Literals and predicates *)

Definition to_datafusion_operator (op : ComparisonOperator) : Operator :=
  match op with
  | Equal => OpEq | NotEqual => OpNotEq | GreaterThan => OpGt | GreaterThanOrEqual => OpGtEq | LessThan => OpLt | LessThanOrEqual => OpLtEq
  end.

(** [fract() == 0.0], and the integer the text of such a float reads as. *)
Definition float_as_integer (f : f64) : option Z :=
  match f with
  | S754_zero _ => Some 0
  | S754_finite s m e =>
      let signed z := if s : bool then - z else z in
      if 0 <=? e then Some (signed (Z.pos m * 2 ^ e))
      else if Z.pos m mod 2 ^ (- e) =? 0 then Some (signed (Z.pos m / 2 ^ (- e))) else None
  | _ => None
  end.
Definition as_integer (n : NumericValue) : option Z :=
  match n with
  | Integer z => Some z
  | Float f => z ← float_as_integer f; try_range (- 2 ^ 127) i128_max z
  end.

(** The range of an integer type. *)
Definition int_range (ty : DataType) : option (Z * Z) :=
  match ty with
  | Int8 => Some (- 2 ^ 7, 2 ^ 7 - 1)
  | Int16 => Some (- 2 ^ 15, 2 ^ 15 - 1)
  | Int32 => Some (i32_min, i32_max)
  | Int64 => Some (i64_min, i64_max)
  | UInt8 => Some (0, 2 ^ 8 - 1)
  | UInt16 => Some (0, 2 ^ 16 - 1)
  | UInt32 => Some (0, u32_max)
  | UInt64 => Some (0, u64_max)
  | _ => None
  end.

Definition numeric_literal_type_error (n : NumericValue) (ty : DataType) : FilterCompileError :=
  UnsupportedSql (UnrepresentableNumber n (display_type ty)).

Context `{DataFusion}.

Definition integer_datafusion_literal (n : NumericValue) (ty : DataType) (range : Z * Z) : result FilterCompileError Expr :=
  z ← ok_or (numeric_literal_type_error n ty) (as_integer n);
  z ← ok_or (numeric_literal_type_error n ty) (try_range range.1 range.2 z);
  Ok (df_lit ty (SInt z)).

Fixpoint numeric_datafusion_literal (n : NumericValue) (ty : DataType) : result FilterCompileError Expr :=
  match int_range ty with
  | Some range => integer_datafusion_literal n ty range
  | None =>
      match ty with
      | Float32 => match f32_of_number n with
                   | Some f => if is_finite f then Ok (df_lit Float32 (SFloat f)) else Err (numeric_literal_type_error n ty)
                   | None => Err (numeric_literal_type_error n ty)
                   end
      | Float64 => Ok (df_lit Float64 (SFloat (as_f64 n)))
      | DictionaryOf _ v => numeric_datafusion_literal n v
      | _ => Err (numeric_literal_type_error n ty)
      end
  end.

Definition to_datafusion_literal (v : FilterValue) (ty : DataType) : result FilterCompileError Expr :=
  match v with
  | FLString s => Ok (df_lit Utf8 (SText s))
  | FLNumber n => numeric_datafusion_literal n ty
  | FLBool b => Ok (df_lit Boolean (SBool b))
  | FLNull => Err (UnsupportedSql BareNull)
  end.

(** [Schema::field_with_name]. *)
Definition field_with_name (s : Schema) (name : Bytes) : option Field := List.find (fun f => bool_decide (as_bytes (f_name f) = name)) s.

Definition to_datafusion_expr (p : Predicate) (s : Schema) : result FilterCompileError Expr :=
  column ← map_err datafusion_error (df_col (of_bytes (field p)) s);
  match expected p with
  | FLNull =>
      match operator p with
      | Equal => map_err datafusion_error (df_is_null column)
      | NotEqual => map_err datafusion_error (df_is_not_null column)
      | _ => Err (UnsupportedSql OrderedNull)
      end
  | v =>
      f ← ok_or (datafusion_error (field_not_found s (field p))) (field_with_name s (field p));
      literal ← to_datafusion_literal v (f_type f);
      map_err datafusion_error (df_binary column (to_datafusion_operator (operator p)) literal s)
  end.

Definition and_predicate (s : Schema) (combined : Expr) (p : Predicate) : result FilterCompileError Expr :=
  e ← to_datafusion_expr p s; map_err datafusion_error (df_binary combined OpAnd e s).
Definition datafusion_predicate_for_schema (ps : list Predicate) (s : Schema) : result FilterCompileError Expr :=
  match ps with
  | [] => Ok (df_lit Boolean (SBool true))
  | p :: ps => first ← to_datafusion_expr p s; try_fold (and_predicate s) first ps
  end.

(** ** Compiling and evaluating *)

Context `{JsonLib}.

Record ArrowCompiledFilter := { ac_expr : Expr; ac_enum_symbol_columns : list ArrowEnumSymbolColumn }.

Definition ArrowCompiledFilter_compile (sql : Bytes) (s : Schema) : result FilterCompileError ArrowCompiledFilter :=
  cols ← arrow_enum_symbol_columns s;
  let transformed := arrow_filter_schema s cols in
  _ ← map_err datafusion_error (df_schema transformed);
  let sql := quote_complex_arrow_field_references sql s in
  expr ← match parse_legacy_predicates true sql with
         | Ok ps => datafusion_predicate_for_schema ps transformed
         | Err _ => map_err datafusion_error (df_parse_sql sql transformed)
         end;
  Ok {| ac_expr := expr; ac_enum_symbol_columns := cols |}.

Definition enum_symbol_filter_batch (c : ArrowCompiledFilter) (b : Batch) : result FilterCompileError Batch :=
  match ac_enum_symbol_columns c with
  | [] => Ok b
  | cols =>
      columns ← try_map (fun '(i, column) => match projects cols i with
                                             | None => Ok column
                                             | Some e => to_symbol_array e column
                                             end) (imap pair (b_columns b));
      map_err datafusion_error (try_new (arrow_filter_schema (b_schema b) cols) columns)
  end.

(** The cells of a [BooleanArray]. *)
Definition as_boolean (a : Array) : option (list bool) :=
  match a with
  | Flat Boolean cells => Some (map (fun c => match c with Some (SBool b) => b | _ => false end) cells)
  | _ => None
  end.

(** A null is not a match. *)
Definition ArrowCompiledFilter_evaluate (c : ArrowCompiledFilter) (b : Batch) : result FilterCompileError (list bool) :=
  filter_batch ← enum_symbol_filter_batch c b;
  values ← map_err datafusion_error (df_evaluate (ac_expr c) filter_batch);
  ok_or (Filter.DataFusion ("predicate returned " +:+ display_type (array_type values) +:+ ", expected Boolean")) (as_boolean values).

Definition to_arrow_field (f : Field) : ArrowField :=
  {| af_name := f_name f; af_type := debug_type (f_type f); af_nullable := f_nullable f; af_metadata := f_metadata f |}.
Definition arrow_schema_key (s : Schema) : string := join "|" (map (fun f => field_key (to_arrow_field f)) s).

(** [ArrowFilterCacheKey]: the schema's id and text. *)
Abbreviation ArrowFilterCache := (gmap (option Z * string) ArrowCompiledFilter).

(** The cache is left as it was when compilation fails. *)
Definition evaluate_arrow_batch_for_schema_id (f : CompiledFilter) (cache : ArrowFilterCache) (id : option Z) (b : Batch)
    : ArrowFilterCache * result FilterCompileError (list bool) :=
  if bool_decide (cf_sql f = []) then (cache, Ok (replicate (b_rows b) true))
  else
    let k := (id, arrow_schema_key (b_schema b)) in
    match cache !! k with
    | Some c => (cache, ArrowCompiledFilter_evaluate c b)
    | None =>
        match ArrowCompiledFilter_compile (cf_sql f) (b_schema b) with
        | Err e => (cache, Err e)
        | Ok c => (<[k := c]> cache, ArrowCompiledFilter_evaluate c b)
        end
    end.

(** The batches of a stream, up to the first that fails. *)
Fixpoint count_matching (f : CompiledFilter) (cache : ArrowFilterCache) (batches : list (result string Batch)) (rows matching : nat)
    : ArrowFilterCache * result FilterCompileError (nat * nat) :=
  match batches with
  | [] => (cache, Ok (rows, matching))
  | Err e :: _ => (cache, Err (datafusion_error e))
  | Ok b :: batches =>
      match evaluate_arrow_batch_for_schema_id f cache None b with
      | (cache, Err e) => (cache, Err e)
      | (cache, Ok mask) => count_matching f cache batches (rows + b_rows b) (matching + length (List.filter (fun x => x) mask))
      end
  end.

(** [matches_arrow_ipc_record]; [batches] is what [arrow_ipc_stream_reader] reads. *)
Definition matches_arrow_ipc_record (f : CompiledFilter) (cache : ArrowFilterCache) (batches : option (list (result string Batch)))
    : ArrowFilterCache * result FilterCompileError (option DecodedRecordFilterDecision) :=
  match batches with
  | None => (cache, Ok None)
  | Some batches =>
      let '(cache, counted) := count_matching f cache batches 0 0 in
      (cache, counts ← counted; Ok (Some (ArrowIpcBatch counts.1 counts.2)))
  end.

Definition evaluate_decoded_record (f : CompiledFilter) (cache : ArrowFilterCache) (json : option Bytes)
    (batches : option (list (result string Batch))) : ArrowFilterCache * result FilterCompileError DecodedRecordFilterDecision :=
  if bool_decide (cf_sql f = []) then (cache, Ok Deliver)
  else
    let '(cache, matched) := matches_arrow_ipc_record f cache batches in
    (cache,
     matched ← matched;
     match matched with
     | Some decision => Ok decision
     | None => if bool_decide (length (cf_predicates f) = 0%nat) then Ok Drop else Ok (evaluate_json_decoded_record f json)
     end).

(** [matches_decoded_record]. *)
Definition matches_decoded_record (f : CompiledFilter) (cache : ArrowFilterCache) (json : option Bytes)
    (batches : option (list (result string Batch))) : bool :=
  match (evaluate_decoded_record f cache json batches).2 with Ok d => should_deliver d | Err _ => false end.

Definition try_matches_arrow_batch (f : CompiledFilter) (cache : ArrowFilterCache) (b : Batch) (row : nat)
    : ArrowFilterCache * result FilterCompileError bool :=
  if bool_decide (cf_sql f = []) then (cache, Ok (row <? b_rows b)%nat)
  else if (b_rows b <=? row)%nat then (cache, Ok false)
  else
    let '(cache, mask) := evaluate_arrow_batch_for_schema_id f cache None b in
    (cache, mask ← mask; Ok (bool_decide (mask !! row = Some true))).
Definition matches_arrow_batch (f : CompiledFilter) (cache : ArrowFilterCache) (b : Batch) (row : nat) : bool :=
  match (try_matches_arrow_batch f cache b row).2 with Ok matched => matched | Err _ => false end.
End Arrow.

(** ** What the libraries promise *)

Fixpoint value_type (ty : DataType) : DataType := match ty with DictionaryOf _ v => value_type v | _ => ty end.
Definition exact_type (ty : DataType) : Prop := is_Some (int_range ty) \/ ty = Utf8 \/ ty = Boolean.

(** SQL comparison: null when a side is null. *)
Definition bool_compare (a b : bool) : comparison :=
  match a, b with false, true => Lt | true, false => Gt | _, _ => Eq end.
Definition compare_scalars (op : ComparisonOperator) (a b : option Scalar) : option Scalar :=
  match a, b with
  | Some (SInt a), Some (SInt b) => Some (SBool (compare_order op (a ?= b)))
  | Some (SText a), Some (SText b) => Some (SBool (compare_order op (bytes_cmp a b)))
  | Some (SBool a), Some (SBool b) => Some (SBool (compare_order op (bool_compare a b)))
  | _, _ => None
  end.
Definition kleene_and (a b : option Scalar) : option Scalar :=
  match a, b with
  | Some (SBool true), Some (SBool true) => Some (SBool true)
  | Some (SBool false), _ | _, Some (SBool false) => Some (SBool false)
  | _, _ => None
  end.
Definition is_none (c : option Scalar) : bool := match c with None => true | Some _ => false end.
Definition booleans (f : nat -> option Scalar) (n : nat) : Array := Flat Boolean (map f (seq 0 n)).

(** A schema has distinct names; a column evaluates to itself and a literal to
    itself on every row; columns and literals of one integer type, of texts or of
    booleans are compared row by row; conjunction is that of three values. *)
Class DataFusionLaws `{DataFusion} := {
  schema_distinct s : df_schema s = Ok () -> NoDup (map f_name s);
  col_column name s e : df_col name s = Ok e ->
    exists i f, s !! i = Some f /\ f_name f = name /\
      forall b a, b_schema b = s -> b_columns b !! i = Some a -> df_evaluate e b = Ok a;
  lit_constant ty v b : df_evaluate (df_lit ty v) b = Ok (Flat ty (replicate (b_rows b) (Some v)));
  compare_rows l op r s e b x y : df_binary l (to_datafusion_operator op) r s = Ok e -> b_schema b = s ->
    df_evaluate l b = Ok x -> df_evaluate r b = Ok y -> array_len x = b_rows b -> array_len y = b_rows b ->
    value_type (array_type x) = value_type (array_type y) -> exact_type (value_type (array_type y)) ->
    df_evaluate e b = Ok (booleans (fun i => compare_scalars op (cell x i) (cell y i)) (b_rows b));
  and_rows l r s e b x y : df_binary l OpAnd r s = Ok e -> b_schema b = s ->
    df_evaluate l b = Ok (Flat Boolean x) -> df_evaluate r b = Ok (Flat Boolean y) ->
    df_evaluate e b = Ok (Flat Boolean (zip_with kleene_and x y));
  null_rows e e' b x : df_is_null e = Ok e' -> df_evaluate e b = Ok x -> array_len x = b_rows b ->
    df_evaluate e' b = Ok (booleans (fun i => Some (SBool (is_none (cell x i)))) (b_rows b));
  not_null_rows e e' b x : df_is_not_null e = Ok e' -> df_evaluate e b = Ok x -> array_len x = b_rows b ->
    df_evaluate e' b = Ok (booleans (fun i => Some (SBool (negb (is_none (cell x i))))) (b_rows b));
}.

(** A column holds values of its type. *)
Definition scalar_ok (ty : DataType) (v : Scalar) : Prop :=
  match v with
  | SInt _ => is_Some (int_range ty)
  | SText _ => ty = Utf8
  | SBool _ => ty = Boolean
  | SFloat _ => ty = Float32 \/ ty = Float64
  end.
Definition column_ok (n : nat) (f : Field) (a : Array) : Prop :=
  array_type a = f_type f /\ array_len a = n /\ forall i v, cell a i = Some v -> scalar_ok (value_type (f_type f)) v.
Definition batch_ok (b : Batch) : Prop := Forall2 (column_ok (b_rows b)) (b_schema b) (b_columns b).

(** [RecordBatch::try_new] checks the types and lengths of its columns. *)
Class ArrowLaws `{ArrowLib} := {
  try_new_columns s cols b : try_new s cols = Ok b ->
    b_schema b = s /\ b_columns b = cols /\ Forall2 (fun f a => array_type a = f_type f /\ array_len a = b_rows b) s cols;
}.

(** ** One predicate on a batch *)

Definition to_field_value (c : option Scalar) : FieldValue :=
  match c with
  | None => FVNull
  | Some (SBool b) => FVBool b
  | Some (SInt z) => FVNumber (Integer z)
  | Some (SFloat f) => FVNumber (Float f)
  | Some (SText s) => FVString s
  end.

(** A row of a batch, as the filter of JSON rows reads rows. *)
Definition batch_row (b : Batch) (row : nat) : gmap Bytes FieldValue :=
  list_to_map (zip_with (fun f a => (as_bytes (f_name f), to_field_value (cell a row))) (b_schema b) (b_columns b)).

Definition is_true_cell (c : option Scalar) : bool := match c with Some (SBool b) => b | _ => false end.
Definition truth (cells : list (option Scalar)) : list bool := map is_true_cell cells.

(** A literal of the kind of its column: a text, an integer, a boolean; null fits
    every column. *)
Definition fits_type (ty : DataType) (v : FilterValue) : Prop :=
  match v with
  | FLString _ => ty = Utf8
  | FLNumber (Integer _) => is_Some (int_range ty)
  | FLNumber (Float _) => False
  | FLBool _ => ty = Boolean
  | FLNull => True
  end.
Definition fits (s : Schema) (p : Predicate) : Prop :=
  forall f, field_with_name s (field p) = Some f -> fits_type (value_type (f_type f)) (expected p).

Definition is_null_literal (v : FilterValue) : bool := match v with FLNull => true | _ => false end.
Definition to_scalar (v : FilterValue) : option Scalar :=
  match v with
  | FLString s => Some (SText s)
  | FLNumber (Integer z) => Some (SInt z)
  | FLNumber (Float f) => Some (SFloat f)
  | FLBool b => Some (SBool b)
  | FLNull => None
  end.

Lemma value_type_idem ty : value_type (value_type ty) = value_type ty.
Proof. by induction ty. Qed.

Lemma truth_and x y : truth (zip_with kleene_and x y) = zip_with andb (truth x) (truth y).
Proof.
  revert y. induction x as [|a x IH]; intros [|b y]; try done. cbn. f_equal; [|apply IH].
  destruct a as [[[]| | |]|], b as [[[]| | |]|]; done.
Qed.

Lemma truth_map f n : truth (map f (seq 0 n)) = map (fun i => is_true_cell (f i)) (seq 0 n).
Proof. unfold truth. by rewrite List.map_map. Qed.

Lemma zip_andb_map (f g : nat -> bool) l : zip_with andb (map f l) (map g l) = map (fun i => f i && g i) l.
Proof. induction l; cbn; by f_equal. Qed.

Lemma cell_replicate ty v n i : (i < n)%nat -> cell (Flat ty (replicate n (Some v))) i = Some v.
Proof. intros Hi. cbn. by rewrite (lookup_replicate_2 _ _ _ Hi). Qed.

Lemma integer_literal `{ArrowLib} `{DataFusion} z ty e :
  is_Some (int_range (value_type ty)) -> numeric_datafusion_literal (Integer z) ty = Ok e -> e = df_lit (value_type ty) (SInt z).
Proof.
  intros Hr. induction ty; cbn [value_type] in *; try (by destruct Hr);
    try (cbn; unfold integer_datafusion_literal; cbn; intros (z' & Hz & [= <-])%bind_Ok;
         destruct (try_range _ _ z) as [z1|] eqn:Ht; [|done]; apply try_range_Some in Ht as [-> _]; by injection Hz as <-).
  exact (IHty2 Hr).
Qed.

Lemma field_with_name_at s i f :
  NoDup (map f_name s) -> s !! i = Some f -> field_with_name s (as_bytes (f_name f)) = Some f.
Proof.
  revert i. induction s as [|g s IH]; intros i Hnd Hi; [done|]. cbn in Hnd. apply NoDup_cons in Hnd as [Hg Hnd].
  cbn. case_bool_decide as Hn; [|destruct i as [|i]; [cbn in Hi; congruence|exact (IH i Hnd Hi)]].
  destruct i as [|i]; [by simplify_eq|]. exfalso. apply Hg.
  assert (f_name g = f_name f) as -> by (rewrite <- (of_as_bytes (f_name g)), <- (of_as_bytes (f_name f)); by f_equal).
  apply (list_elem_of_fmap_2 f_name), (list_elem_of_lookup_2 _ i). exact Hi.
Qed.

Section Predicate.
  Context `{ArrowLib} `{DataFusion} `{!DataFusionLaws}.
  Context (b : Batch) (Hnd : NoDup (map f_name (b_schema b))) (Hb : batch_ok b).

Lemma batch_row_at i f a row :
  b_schema b !! i = Some f -> b_columns b !! i = Some a ->
  batch_row b row !! as_bytes (f_name f) = Some (to_field_value (cell a row)).
Proof.
  intros Hf Ha. apply elem_of_list_to_map_1'.
  - intros v Hv. apply elem_of_lookup_zip_with in Hv as (j & g & a' & [= Hn ->] & Hg & Ha').
    assert (j = i) as ->; [|by simplify_eq].
    assert (f_name f = f_name g) as Hn' by (rewrite <- (of_as_bytes (f_name g)), <- (of_as_bytes (f_name f)); by f_equal).
    apply (NoDup_lookup (map f_name (b_schema b)) j i (f_name f)); [done| |];
      rewrite (list_lookup_fmap f_name); [by rewrite Hg, Hn'|by rewrite Hf].
  - apply elem_of_lookup_zip_with. by exists i, f, a.
Qed.

Lemma column_at name e : df_col name (b_schema b) = Ok e ->
  exists f a, field_with_name (b_schema b) (as_bytes name) = Some f /\ column_ok (b_rows b) f a /\ df_evaluate e b = Ok a /\
    forall row, batch_row b row !! as_bytes name = Some (to_field_value (cell a row)).
Proof.
  intros (i & f & Hf & <- & He)%col_column. destruct (Forall2_lookup_l _ _ _ _ _ Hb Hf) as (a & Ha & Hok).
  exists f, a. split; [by eapply field_with_name_at|]. split; [done|]. split; [by apply He|].
  intros row. by apply (batch_row_at i).
Qed.

(** A cell compared with a literal that fits its column. *)
Lemma cell_matches f a row v c op :
  column_ok (b_rows b) f a -> accepts_literal op v = true -> fits_type (value_type (f_type f)) v -> to_scalar v = Some c ->
  is_true_cell (compare_scalars op (cell a row) (Some c)) = FilterValue_matches v op (to_field_value (cell a row)).
Proof.
  intros (_ & _ & Hcell) Hacc Hfit Hc. destruct (cell a row) as [x|] eqn:Hx.
  - apply Hcell in Hx. destruct v as [s|[z|fl]|w|], x as [y'|z'|fl'|s']; cbn in *; simplify_eq; try done;
      try (rewrite Hfit in Hx; by destruct Hx); try (rewrite Hx in Hfit; by destruct Hfit);
      try (destruct Hx as [Hx|Hx]; rewrite Hx in Hfit; by destruct Hfit).
    by destruct op, w, y'.
  - by destruct v as [s|[z|fl]|y|]; cbn in *; simplify_eq.
Qed.

Lemma literal_fits v ty e c :
  fits_type (value_type ty) v -> to_scalar v = Some c -> to_datafusion_literal v ty = Ok e -> e = df_lit (value_type ty) c.
Proof.
  intros Hfit Hc He. destruct v as [s|[z|fl]|w|]; cbn in *; simplify_eq; [by rewrite Hfit| |done|by rewrite Hfit].
  by apply integer_literal.
Qed.

Lemma fits_exact ty v c : fits_type ty v -> to_scalar v = Some c -> exact_type ty.
Proof. unfold exact_type. destruct v as [s|[z|fl]|w|]; cbn; [auto|auto|done|auto|done]. Qed.

Definition selects (e : Expr) (sel : nat -> bool) : Prop :=
  exists cells, df_evaluate e b = Ok (Flat Boolean cells) /\ truth cells = map sel (seq 0 (b_rows b)).

Lemma selects_booleans e cells sel :
  df_evaluate e b = Ok (booleans cells (b_rows b)) ->
  (forall i, (i < b_rows b)%nat -> is_true_cell (cells i) = sel i) -> selects e sel.
Proof.
  intros He Hc. exists (map cells (seq 0 (b_rows b))). split; [done|]. rewrite truth_map.
  apply List.map_ext_in. intros i Hi%List.in_seq. apply Hc. lia.
Qed.

Lemma literal_predicate p col e :
  df_col (of_bytes (field p)) (b_schema b) = Ok col -> expected p <> FLNull ->
  accepts_literal (operator p) (expected p) = true -> fits (b_schema b) p ->
  (f ← ok_or (datafusion_error (field_not_found (b_schema b) (field p))) (field_with_name (b_schema b) (field p));
   literal ← to_datafusion_literal (expected p) (f_type f);
   map_err datafusion_error (df_binary col (to_datafusion_operator (operator p)) literal (b_schema b))) = Ok e ->
  selects e (fun i => Predicate_matches (batch_row b i) p).
Proof.
  intros (f & a & Hf & Hok & Ha & Hrow)%column_at Hnn Hacc Hfit He. rewrite as_of_bytes in Hf, Hrow.
  rewrite Hf in He. cbn [ok_or] in He. apply bind_Ok in He as (f' & [= <-] & He).
  apply bind_Ok in He as (lit & Hlit & He).
  destruct (df_binary _ _ _ _) as [e'|] eqn:Hbin; [|done]. injection He as ->.
  specialize (Hfit f Hf). destruct (to_scalar (expected p)) as [c|] eqn:Hc; [|by destruct (expected p) as [|[]| |]].
  apply (literal_fits _ _ _ _ Hfit Hc) in Hlit as ->. pose proof Hok as (Hty & Hlen & _).
  apply (compare_rows _ _ _ _ _ b a _) with (2 := eq_refl) (3 := Ha) (4 := lit_constant _ _ _) in Hbin;
    [|done|cbn; by rewrite length_replicate|cbn; by rewrite Hty, value_type_idem
     |cbn; rewrite value_type_idem; exact (fits_exact _ _ _ Hfit Hc)].
  apply (selects_booleans _ _ _ Hbin). intros i Hi. rewrite cell_replicate by done.
  unfold Predicate_matches. rewrite Hrow. by apply (cell_matches f).
Qed.

Lemma predicate_selects p e :
  to_datafusion_expr p (b_schema b) = Ok e -> accepts_literal (operator p) (expected p) = true -> fits (b_schema b) p ->
  selects e (fun i => Predicate_matches (batch_row b i) p).
Proof.
  intros He Hacc Hfit. unfold to_datafusion_expr in He. apply bind_Ok in He as (col & Hcol & He).
  destruct (df_col _ _) as [col'|] eqn:Hcol'; [|done]. injection Hcol as ->.
  destruct (decide (is_null_literal (expected p))) as [Hn|Hn].
  - destruct (expected p) eqn:Hp; try done.
    destruct (column_at _ _ Hcol') as (f & a & Hf & Hok & Ha & Hrow). rewrite as_of_bytes in Hrow.
    destruct Hok as (Hty & Hlen & _). unfold Predicate_matches. 
    destruct (operator p); try done.
    + destruct (df_is_null col) as [e'|] eqn:Hnl; [|done]. injection He as ->.
      apply (null_rows _ _ _ _) with (2 := Ha) (3 := Hlen) in Hnl. apply (selects_booleans _ _ _ Hnl).
      intros i Hi. rewrite Hrow, Hp. by destruct (cell a i) as [[]|].
    + destruct (df_is_not_null col) as [e'|] eqn:Hnl; [|done]. injection He as ->.
      apply (not_null_rows _ _ _ _) with (2 := Ha) (3 := Hlen) in Hnl. apply (selects_booleans _ _ _ Hnl).
      intros i Hi. rewrite Hrow, Hp. by destruct (cell a i) as [[]|].
  - apply (literal_predicate p col e Hcol'); [by destruct (expected p)|done|done|]. by destruct (expected p).
Qed.

(** The conjunction of predicates. *)
Lemma and_selects ps e e' sel :
  selects e sel -> try_fold (and_predicate (b_schema b)) e ps = Ok e' ->
  Forall (fun p => accepts_literal (operator p) (expected p) = true /\ fits (b_schema b) p) ps ->
  selects e' (fun i => sel i && forallb (Predicate_matches (batch_row b i)) ps).
Proof.
  revert e sel. induction ps as [|p ps IH]; intros e sel Hsel Hfold Hps; cbn in Hfold.
  - injection Hfold as <-. destruct Hsel as (cells & He & Ht). exists cells. split; [done|]. rewrite Ht.
    apply List.map_ext. intros i. cbn. by rewrite andb_true_r.
  - apply Forall_cons in Hps as [[Hacc Hfit] Hps]. apply bind_Ok in Hfold as (e1 & Hand & Hfold).
    unfold and_predicate in Hand. apply bind_Ok in Hand as (ep & Hep & Hand).
    destruct (df_binary _ _ _ _) as [e1'|] eqn:Hbin; [|done]. injection Hand as ->.
    destruct Hsel as (cells & He & Ht). destruct (predicate_selects p ep Hep Hacc Hfit) as (cells' & He' & Ht').
    assert (Hboth : selects e1 (fun i => sel i && Predicate_matches (batch_row b i) p)).
    { exists (zip_with kleene_and cells cells'). split; [by apply (and_rows _ _ _ _ _ _ _ Hbin)|].
      by rewrite truth_and, Ht, Ht', zip_andb_map. }
    destruct (IH _ _ Hboth Hfold Hps) as (cells2 & He2 & Ht2). exists cells2. split; [done|]. rewrite Ht2.
    apply List.map_ext. intros i. cbn. by rewrite andb_assoc.
Qed.

Lemma predicates_select ps e :
  ps <> [] -> datafusion_predicate_for_schema ps (b_schema b) = Ok e ->
  Forall (fun p => accepts_literal (operator p) (expected p) = true /\ fits (b_schema b) p) ps ->
  selects e (fun i => forallb (Predicate_matches (batch_row b i)) ps).
Proof.
  intros Hne He Hps. destruct ps as [|p ps]; [done|]. apply Forall_cons in Hps as [[Hacc Hfit] Hps].
  apply bind_Ok in He as (first & Hfirst & He). by apply (and_selects ps first _ _ (predicate_selects _ _ Hfirst Hacc Hfit)).
Qed.
End Predicate.

(** ** Batches *)

Lemma parsed_accepted arrow sql ps :
  parse_legacy_predicates arrow sql = Ok ps -> Forall (fun p => accepts_literal (operator p) (expected p) = true) ps.
Proof.
  intros (clauses & _ & Hps)%bind_Ok. apply try_map_Ok in Hps. 
  induction Hps as [|clause p clauses' ps' Hp _ IH]; constructor; [|exact IH].
  unfold parse_predicate in Hp. case_bool_decide; [done|]. apply bind_Ok in Hp as ([[op f] literal] & _ & Hp).
  apply bind_Ok in Hp as (v & _ & Hp). destruct (accepts_literal op v) eqn:Hacc; [|done].
  apply bind_Ok in Hp as (f' & _ & [= <-]). exact Hacc.
Qed.

Lemma compiled_predicates sql f :
  compile true sql = Ok f -> cf_predicates f <> [] ->
  cf_sql f <> [] /\ parse_legacy_predicates true (cf_sql f) = Ok (cf_predicates f).
Proof.
  unfold compile. case_bool_decide as Hs; [by intros [= <-]|].
  destruct (sql_references_reserved_row_marker _); [done|]. cbn.
  destruct (parse_legacy_predicates true (trim sql)) as [ps|e] eqn:Hps; [by intros [= <-]|].
  destruct (sql_requires_arrow_datafusion _); by intros [= <-].
Qed.

Lemma simple_names_unquoted sql s :
  Forall (fun f => is_complex (as_bytes (f_name f)) = false) s -> quote_complex_arrow_field_references sql s = sql.
Proof.
  intros Hs. unfold quote_complex_arrow_field_references.
  enough (List.filter is_complex (map (fun f => as_bytes (f_name f)) s) = []) as -> by done.
  induction Hs as [|f s Hf _ IH]; [done|]. cbn [map List.filter]. by rewrite Hf.
Qed.

Lemma filter_schema_names s cols : map f_name (arrow_filter_schema s cols) = map f_name s.
Proof.
  apply list_eq. intros i. unfold arrow_filter_schema. rewrite !(list_lookup_fmap f_name), list_lookup_imap.
  destruct (s !! i) as [f|]; [|done]. cbn. by destruct (projects cols i).
Qed.

Section Batches.
  Context `{ArrowLib} `{!ArrowLaws} `{DataFusion} `{!DataFusionLaws} `{JsonLib}.

(** A projected column holds the symbol of each key's number. *)
Lemma symbol_array_cells c column a :
  to_symbol_array c column = Ok a ->
  exists keys values names, column = Dict Int32 keys values /\ a = Flat Utf8 (map (fmap SText) names) /\
    symbol_names c keys values = Ok names.
Proof.
  destruct column as [|k keys values]; [done|]. destruct k; try done. cbn.
  destruct (array_type values); try done; intros (names & Hn & [= <-])%bind_Ok; by exists keys, values, names.
Qed.

Lemma symbol_array_texts c column a i v : to_symbol_array c column = Ok a -> cell a i = Some v -> exists s, v = SText s.
Proof.
  intros (keys & values & names & _ & -> & _)%symbol_array_cells. cbn. rewrite (list_lookup_fmap (fmap SText)).
  destruct (names !! i) as [[s|]|]; cbn; [|done|done]. intros [= <-]. by exists s.
Qed.

Lemma projected_batch c b b' :
  enum_symbol_filter_batch c b = Ok b' -> batch_ok b ->
  b_schema b' = arrow_filter_schema (b_schema b) (ac_enum_symbol_columns c) /\ batch_ok b'.
Proof.
  unfold enum_symbol_filter_batch. intros Hb Hok. destruct (ac_enum_symbol_columns c) as [|e0 cols0] eqn:Hcols.
  { injection Hb as ->. split; [|done]. apply list_eq. intros i. unfold arrow_filter_schema.
    rewrite list_lookup_imap. by destruct (b_schema b' !! i). }
  rewrite <- Hcols in *. clear Hcols e0 cols0. apply bind_Ok in Hb as (columns & Hmap & Hb).
  destruct (try_new _ _) as [b1|] eqn:Hnew; [|done]. injection Hb as ->.
  destruct (try_new_columns _ _ _ Hnew) as (Hs & Hc & Hty). split; [done|]. unfold batch_ok. rewrite Hs, Hc.
  apply Forall2_same_length_lookup_2; [by eapply Forall2_length|]. intros i f a Hf Ha.
  destruct (Forall2_lookup_lr _ _ _ _ _ _ Hty Hf Ha) as [Ht Hl]. split; [done|]. split; [done|]. intros row v Hv.
  apply try_map_Ok in Hmap. destruct (Forall2_lookup_r _ _ _ _ _ Hmap Ha) as ([j column] & Hcol & Hto).
  rewrite list_lookup_imap in Hcol. destruct (b_columns b !! i) as [column'|] eqn:Hcol'; [|done]. injection Hcol as <- ->.
  unfold arrow_filter_schema in Hf. rewrite list_lookup_imap in Hf.
  destruct (b_schema b !! i) as [g|] eqn:Hg; [|done]. cbn in Hf, Hto.
  destruct (projects (ac_enum_symbol_columns c) i) as [e|]; simplify_eq.
  - destruct (symbol_array_texts _ _ _ _ _ Hto Hv) as [s ->]. done.
  - destruct (Forall2_lookup_lr _ _ _ _ _ _ Hok Hg Hcol') as (_ & _ & Hcell). by eapply Hcell.
Qed.

Definition batch_rows (b : Batch) : list (gmap Bytes FieldValue) := map (batch_row b) (seq 0 (b_rows b)).

Lemma parity sql f c b b' :
  compile true sql = Ok f -> cf_predicates f <> [] ->
  Forall (fun fl => is_complex (as_bytes (f_name fl)) = false) (b_schema b) ->
  ArrowCompiledFilter_compile (cf_sql f) (b_schema b) = Ok c -> batch_ok b ->
  enum_symbol_filter_batch c b = Ok b' -> Forall (fits (b_schema b')) (cf_predicates f) ->
  ArrowCompiledFilter_evaluate c b = Ok (map (matches_row f (batch_rows b')) (seq 0 (b_rows b'))).
Proof.
  intros Hf Hps Hnames Hc Hok Hb' Hfits. destruct (compiled_predicates _ _ Hf Hps) as [Hsql Hparse].
  unfold ArrowCompiledFilter_compile in Hc. apply bind_Ok in Hc as (cols & Hcols & Hc).
  apply bind_Ok in Hc as ([] & Hschema & Hc). rewrite simple_names_unquoted, Hparse in Hc by done.
  apply bind_Ok in Hc as (e & He & [= <-]). destruct (df_schema _) as [[]|] eqn:Hdf; [|done]. clear Hschema.
  destruct (projected_batch _ _ _ Hb' Hok) as [Hs' Hok']. cbn in Hs'. rewrite <- Hs' in *.
  destruct (predicates_select b' (schema_distinct _ Hdf) Hok' _ _ Hps He) as (cells & Hev & Ht).
  { apply Forall_and. split; [by eapply parsed_accepted|done]. }
  unfold ArrowCompiledFilter_evaluate. rewrite Hb'. cbn. rewrite Hev. trans (@Ok FilterCompileError _ (truth cells)); [done|]. f_equal. rewrite Ht.
  apply List.map_ext_in. intros i Hi%List.in_seq. unfold matches_row, is_unfiltered, batch_rows.
  rewrite bool_decide_eq_false_2 by done. rewrite (list_lookup_fmap (batch_row b')), lookup_seq_lt by lia. cbn.
  by destruct (cf_predicates f).
Qed.

(** *** The cache *)

(** Schemas with one key are compiled once: [known] are schemas the key tells
    apart, and the cache holds what they compile to. *)
Definition separated (known : Schema -> Prop) : Prop :=
  forall s s', known s -> known s' -> arrow_schema_key s = arrow_schema_key s' -> s = s'.
Definition cache_ok (known : Schema -> Prop) (f : CompiledFilter) (cache : gmap (option Z * string) ArrowCompiledFilter) : Prop :=
  forall id key c, cache !! (id, key) = Some c ->
    exists s, known s /\ key = arrow_schema_key s /\ ArrowCompiledFilter_compile (cf_sql f) s = Ok c.

(** Evaluation without a cache. *)
Definition evaluate_uncached (f : CompiledFilter) (b : Batch) : result FilterCompileError (list bool) :=
  if bool_decide (cf_sql f = []) then Ok (replicate (b_rows b) true)
  else c ← ArrowCompiledFilter_compile (cf_sql f) (b_schema b); ArrowCompiledFilter_evaluate c b.

Lemma cached_evaluation known f cache id b :
  separated known -> cache_ok known f cache -> known (b_schema b) ->
  cache_ok known f (evaluate_arrow_batch_for_schema_id f cache id b).1 /\
  (evaluate_arrow_batch_for_schema_id f cache id b).2 = evaluate_uncached f b.
Proof.
  intros Hsep Hok Hk. unfold evaluate_arrow_batch_for_schema_id, evaluate_uncached. case_bool_decide; [done|].
  destruct (cache !! (id, arrow_schema_key (b_schema b))) as [c|] eqn:Hc.
  - split; [done|]. destruct (Hok _ _ _ Hc) as (s & Hs & Hkey & Hcomp). apply Hsep in Hkey as <-; [|done..]. by rewrite Hcomp.
  - destruct (ArrowCompiledFilter_compile _ _) as [c|e] eqn:Hcomp; [|done]. split; [|done]. intros id' key c'.
    cbn [fst]. destruct (decide ((id, arrow_schema_key (b_schema b)) = (id', key))) as [[= <- <-]|Hne].
    + rewrite lookup_insert_eq. intros [= <-]. by exists (b_schema b).
    + rewrite lookup_insert_ne by done. apply Hok.
Qed.

(** Rows and matching rows of a stream, without a cache. *)
Definition count_uncached (f : CompiledFilter) : nat * nat -> Batch -> result FilterCompileError (nat * nat) :=
  fun counts b => mask ← evaluate_uncached f b; Ok ((counts.1 + b_rows b)%nat, (counts.2 + length (List.filter (fun x => x) mask))%nat).

Lemma cached_counts known f cache bs rows matching :
  separated known -> cache_ok known f cache -> Forall (fun b => known (b_schema b)) bs ->
  cache_ok known f (count_matching f cache (map Ok bs) rows matching).1 /\
  (count_matching f cache (map Ok bs) rows matching).2 = try_fold (count_uncached f) (rows, matching) bs.
Proof.
  intros Hsep. revert cache rows matching. induction bs as [|b bs IH]; intros cache rows matching Hok Hk; [done|].
  apply Forall_cons in Hk as [Hb Hk]. destruct (cached_evaluation known f cache None b Hsep Hok Hb) as [Hok' Hev].
  cbn. unfold count_uncached at 2. destruct (evaluate_arrow_batch_for_schema_id f cache None b) as [cache' r]. cbn in *. subst r.
  destruct (evaluate_uncached f b) as [mask|e]; [|done]. by apply IH.
Qed.

(** A record of Arrow batches counts their rows and their matching rows. *)
Lemma decoded_arrow_record known f cache json bs :
  cf_sql f <> [] -> separated known -> cache_ok known f cache -> Forall (fun b => known (b_schema b)) bs ->
  (evaluate_decoded_record f cache json (Some (map Ok bs))).2 =
    (counts ← try_fold (count_uncached f) (0, 0)%nat bs; Ok (ArrowIpcBatch counts.1 counts.2)).
Proof.
  intros Hsql Hsep Hok Hk. unfold evaluate_decoded_record. rewrite bool_decide_eq_false_2 by done. cbn.
  destruct (cached_counts known f cache bs 0 0 Hsep Hok Hk) as [_ Hc].
  destruct (count_matching f cache (map Ok bs) 0 0) as [cache' r]. cbn in *. subst r. by destruct (try_fold _ _ bs).
Qed.

(** The class of [Streaming] that evaluates batches, for batches of this file:
    the evaluation without a cache, which is what the cached one answers. *)
Definition batches (reader : Bytes -> option (list (result string Batch))) (concat : Batch -> list Batch -> result string Batch)
    (from_json : list Json -> result string Batch) : Arrow := {|
  RecordBatch := Batch;
  num_rows := b_rows;
  schema_fields := fun b => map to_arrow_field (b_schema b);
  stream_reader := reader;
  concat_batches := concat;
  json_rows_to_arrow_filter_batch := from_json;
|}.
Definition uncached_filter reader concat from_json : @Streaming.ArrowFilter (batches reader concat from_json) :=
  @Build_ArrowFilter (batches reader concat from_json) (fun f _ b => mask ← evaluate_uncached f b; Ok (map Some mask)).

Lemma streaming_masks known reader concat from_json f cache id b :
  separated known -> cache_ok known f cache -> known (b_schema b) ->
  @evaluate_arrow_batch (batches reader concat from_json) (uncached_filter reader concat from_json) f id b =
    (mask ← (evaluate_arrow_batch_for_schema_id f cache id b).2; Ok (map Some mask)).
Proof. intros Hsep Hok Hk. by destruct (cached_evaluation known f cache id b Hsep Hok Hk) as [_ ->]. Qed.

(** C19.  A filter compiled once selects the same rows of an Arrow batch, through
    DataFusion and whatever is in the cache, as its predicates select of the rows
    read as JSON fields.  Enum columns are compared by their symbols; a null is
    no match.  The literals fit their columns (float literals are left out:
    Arrow orders floats totally), and the cache's keys tell the schemas apart. *)
Theorem arrow_filter_parity known sql f cache id c b b' :
  separated known -> cache_ok known f cache -> known (b_schema b) ->
  compile true sql = Ok f -> cf_predicates f <> [] ->
  Forall (fun fl => is_complex (as_bytes (f_name fl)) = false) (b_schema b) ->
  ArrowCompiledFilter_compile (cf_sql f) (b_schema b) = Ok c -> batch_ok b ->
  enum_symbol_filter_batch c b = Ok b' -> Forall (fits (b_schema b')) (cf_predicates f) ->
  cache_ok known f (evaluate_arrow_batch_for_schema_id f cache id b).1 /\
  (evaluate_arrow_batch_for_schema_id f cache id b).2 = Ok (map (matches_row f (batch_rows b')) (seq 0 (b_rows b'))).
Proof.
  intros Hsep Hok Hk Hf Hps Hnames Hc Hb Hb' Hfits.
  destruct (cached_evaluation known f cache id b Hsep Hok Hk) as [Hok' ->]. split; [done|].
  destruct (compiled_predicates _ _ Hf Hps) as [Hsql _]. unfold evaluate_uncached. rewrite bool_decide_eq_false_2 by done.
  rewrite Hc. by apply (parity sql).
Qed.
End Batches.

(** ** A reference engine *)

Module Engine.
Inductive Ex :=
| Col (i : nat) | Lit (ty : DataType) (v : Scalar) | Bin (l : Ex) (op : Operator) (r : Ex) | IsNull (e : Ex) | IsNotNull (e : Ex).

Definition comparison_of (op : Operator) : option ComparisonOperator :=
  match op with
  | OpEq => Some Equal | OpNotEq => Some NotEqual | OpGt => Some GreaterThan | OpGtEq => Some GreaterThanOrEqual
  | OpLt => Some LessThan | OpLtEq => Some LessThanOrEqual | OpAnd => None
  end.

Fixpoint evaluate (e : Ex) (b : Batch) : result string Array :=
  match e with
  | Col i => ok_or "no column" (b_columns b !! i)
  | Lit ty v => Ok (Flat ty (replicate (b_rows b) (Some v)))
  | Bin l op r =>
      x ← evaluate l b; y ← evaluate r b;
      match comparison_of op, x, y with
      | Some op, _, _ => Ok (booleans (fun i => compare_scalars op (cell x i) (cell y i)) (b_rows b))
      | None, Flat Boolean x, Flat Boolean y => Ok (Flat Boolean (zip_with kleene_and x y))
      | None, _, _ => Err "not booleans"
      end
  | IsNull e => x ← evaluate e b; Ok (booleans (fun i => Some (SBool (is_none (cell x i)))) (b_rows b))
  | IsNotNull e => x ← evaluate e b; Ok (booleans (fun i => Some (SBool (negb (is_none (cell x i))))) (b_rows b))
  end.

#[local] Instance engine : DataFusion := {|
  Expr := Ex;
  df_schema := fun s => if bool_decide (NoDup (map f_name s)) then Ok () else Err "duplicate field";
  df_col := fun name s => match list_find (fun f => f_name f = name) s with Some (i, _) => Ok (Col i) | None => Err "no field" end;
  df_lit := Lit;
  df_binary := fun l op r _ => Ok (Bin l op r);
  df_is_null := fun e => Ok (IsNull e);
  df_is_not_null := fun e => Ok (IsNotNull e);
  df_parse_sql := fun _ _ => Err "unsupported";
  df_evaluate := evaluate;
|}.

Lemma comparison_of_operator op : comparison_of (to_datafusion_operator op) = Some op.
Proof. by destruct op. Qed.

#[local] Instance engine_laws : DataFusionLaws.
Proof.
  split; cbn.
  - intros s Hs. by case_bool_decide.
  - intros name s e Hs. destruct (list_find _ s) as [[i f]|] eqn:Hf; [|done]. injection Hs as <-.
    apply list_find_Some in Hf as (Hi & Hn & _). exists i, f. split; [done|]. split; [done|]. intros b a _ Ha. cbn. by rewrite Ha.
  - done.
  - intros l op r s e b x y [= <-] _ Hx Hy _ _ _ _. cbn. rewrite Hx. cbn. rewrite Hy. cbn. by rewrite comparison_of_operator.
  - intros l r s e b x y [= <-] _ Hx Hy. cbn. rewrite Hx. cbn. by rewrite Hy.
  - intros e e' b x [= <-] Hx _. cbn. by rewrite Hx.
  - intros e e' b x [= <-] Hx _. cbn. by rewrite Hx.
Qed.

Definition column_fits (n : nat) (f : Field) (a : Array) : Prop := array_type a = f_type f /\ array_len a = n.
#[local] Instance column_fits_dec n f a : Decision (column_fits n f a).
Proof. unfold column_fits. apply _. Defined.

#[local] Instance arrays : ArrowLib := {|
  debug_type := fun ty => match ty with Int64 => "Int64" | Int32 => "Int32" | Utf8 => "Utf8" | _ => "Other" end;
  display_type := fun _ => "type";
  try_new := fun s cols =>
    let n := match cols with a :: _ => array_len a | [] => 0%nat end in
    if bool_decide (Forall2 (column_fits n) s cols) then Ok {| b_schema := s; b_columns := cols; b_rows := n |} else Err "mismatch";
  field_not_found := fun _ _ => "no field";
  slot_under_null := fun _ _ => 0;
  f32_of_number := fun _ => None;
|}.
#[local] Instance arrays_laws : ArrowLaws.
Proof. split. cbn. intros s cols b. case_bool_decide; [|done]. by intros [= <-]. Qed.

(** Orders with an enum status, and an amount that may be null. *)
Definition symbols : JsonLib :=
  {| json_parse := fun _ => Some (JObject [(as_bytes "1", JString (as_bytes "ACTIVE"))]); json_error := fun _ => EmptyString |}.
#[local] Existing Instance symbols.
Definition orders_schema : Schema :=
  [{| f_name := "status"; f_type := DictionaryOf Int32 Int32; f_nullable := true; f_metadata := [("krabka.enum.symbols", "map")] |};
   {| f_name := "amount"; f_type := Int64; f_nullable := true; f_metadata := [] |}].
Definition orders : Batch :=
  {| b_schema := orders_schema; b_rows := 4;
     b_columns := [Dict Int32 [Some 0; Some 0; Some 1; Some 0] (Flat Int32 [Some (SInt 1); Some (SInt 7)]);
                   Flat Int64 [Some (SInt 10); Some (SInt 2); Some (SInt 10); None]] |}.
Definition orders_sql : Bytes := as_bytes "status = 'ACTIVE' AND amount > 5".
Definition orders_filter : CompiledFilter :=
  {| cf_sql := orders_sql;
     cf_predicates := [{| field := as_bytes "status"; operator := Equal; expected := FLString (as_bytes "ACTIVE") |};
                       {| field := as_bytes "amount"; operator := GreaterThan; expected := FLNumber (Integer 5) |}] |}.
Definition orders_expr : Ex :=
  Bin (Bin (Col 0) OpEq (Lit Utf8 (SText (as_bytes "ACTIVE")))) OpAnd (Bin (Col 1) OpGt (Lit Int64 (SInt 5))).
Definition orders_compiled : ArrowCompiledFilter :=
  {| ac_expr := orders_expr;
     ac_enum_symbol_columns := [{| e_index := 0; e_field_name := "status"; e_symbols := {[ 1 := as_bytes "ACTIVE" ]} |}] |}.
Definition orders_projected : Batch :=
  {| b_schema := [{| f_name := "status"; f_type := Utf8; f_nullable := true; f_metadata := [("krabka.enum.symbols", "map")] |};
                  {| f_name := "amount"; f_type := Int64; f_nullable := true; f_metadata := [] |}];
     b_rows := 4;
     b_columns := [Flat Utf8 (map (fun s => Some (SText (as_bytes s))) ["ACTIVE"; "ACTIVE"; "UNKNOWN_7"; "ACTIVE"]);
                   Flat Int64 [Some (SInt 10); Some (SInt 2); Some (SInt 10); None]] |}.

Lemma orders_ok : batch_ok orders.
Proof.
  repeat constructor; cbn.
  - intros i v. destruct i as [|[|[|[|i]]]]; cbn; try (intros [= <-]; by eexists); by rewrite ?lookup_nil.
  - intros i v. destruct i as [|[|[|[|i]]]]; cbn; try (intros [= <-]; by eexists); by rewrite ?lookup_nil.
Qed.

Lemma orders_fit : Forall (fits (b_schema orders_projected)) (cf_predicates orders_filter).
Proof. repeat constructor; intros f Hf; vm_compute in Hf; injection Hf as <-; cbn; [done|by eexists]. Qed.

Lemma arrow_filter_parity_witness :
  (evaluate_arrow_batch_for_schema_id orders_filter ∅ None orders).2 = Ok [true; false; false; false].
Proof.
  destruct (arrow_filter_parity (fun s => s = orders_schema) orders_sql orders_filter ∅ None orders_compiled orders orders_projected)
    as [_ ->].
  - by intros s s' -> ->.
  - intros id key c Hc. by rewrite lookup_empty in Hc.
  - done.
  - vm_compute; reflexivity.
  - done.
  - repeat constructor.
  - vm_compute; reflexivity.
  - exact orders_ok.
  - vm_compute; reflexivity.
  - exact orders_fit.
  - vm_compute; reflexivity.
Defined.

(** An entry of a dictionary that is null is null to a query, but not to the
    projection, which names whatever number its slot holds. *)
Lemma null_entry_named c :
  to_symbol_array c (Dict Int32 [Some 0] (Flat Int32 [None])) = Ok (Flat Utf8 [Some (SText (symbol_name c 0))]) /\
  cell (Dict Int32 [Some 0] (Flat Int32 [None])) 0 = None.
Proof. done. Qed.

(** The key joins names, types and metadata without quoting, so a name can spell
    another field: these two schemas share their cache entry. *)
Lemma schema_keys_collide :
  let int32 name := {| f_name := name; f_type := Int32; f_nullable := true; f_metadata := [] |} in
  arrow_schema_key [int32 "a"; int32 "b"] = arrow_schema_key [int32 "a:Int32:true:|b"].
Proof. vm_compute; reflexivity. Qed.
End Engine.
