(* ===== verification/Schema.v ===== *)
(** * The schema formats and the registry codec (schema/format, schema/codec.rs)

    The three formats over their libraries, [PreparedSchema], the bounded cache
    of prepared schemas, and [SchemaRegistryCodec] as a [RecordCodec].  The
    Avro, JSON Schema, Protobuf and JSON libraries are the fields of [Libs]. *)

From stdpp Require Import pretty.
From S2P Require Import Prelude.
From S2P Require Import RustStr.
From S2P Require Import Types.
From S2P Require Import Wire.

(** The format libraries.  A fallible call answers its error as text. *)
Class Libs := {
  JsonValue : Type;
  json_from_slice : Bytes -> result string JsonValue;
  json_from_str : string -> result string JsonValue;
  json_to_vec : JsonValue -> result string Bytes;

  AvroSchema : Type;
  AvroValue : Type;
  parse_str : string -> result string AvroSchema;
  avro_try_from : JsonValue -> result string AvroValue;
  resolve : AvroValue -> AvroSchema -> result string AvroValue;
  write_value_to_vec : AvroSchema -> AvroValue -> result string Bytes;
  read_value : AvroSchema -> Bytes -> result string AvroValue;
  json_try_from : AvroValue -> result string JsonValue;

  Validator : Type;
  validator_for : JsonValue -> result string Validator;
  iter_errors : Validator -> JsonValue -> list string;

  FileDescriptor : Type;
  MessageDescriptor : Type;
  DynamicMessage : Type;
  protox_parse : string -> result string FileDescriptor;
  (** [from_file_descriptor_set], then [all_messages] of the pool. *)
  pool_messages : FileDescriptor -> result string (list MessageDescriptor);
  (** [DynamicMessage::deserialize]; what follows the value is not read. *)
  message_from_json : MessageDescriptor -> Bytes -> result string DynamicMessage;
  encode_to_vec : DynamicMessage -> Bytes;
  message_decode : MessageDescriptor -> Bytes -> result string DynamicMessage;
  message_to_json : DynamicMessage -> result string Bytes;
}.

Definition serialize_err (what e : string) : CodecError := Serialize (what +:+ e).
Definition validate_err (what e : string) : CodecError := Validate (what +:+ e).

(** ** format/avro.rs *)
Module Avro.
Section Avro.
  Context `{Libs}.

Definition prepare (schema : string) : result CodecError AvroSchema :=
  map_err (serialize_err "Avro schema parse: ") (parse_str schema).

Definition serialize_prepared (s : AvroSchema) (json : Bytes) : result CodecError Bytes :=
  v ← map_err (serialize_err "JSON parse: ") (json_from_slice json);
  a ← map_err (serialize_err "JSON to Avro: ") (avro_try_from v);
  a ← map_err (serialize_err "resolve: ") (resolve a s);
  map_err (serialize_err "Avro encode: ") (write_value_to_vec s a).

Definition deserialize_prepared (s : AvroSchema) (payload : Bytes) : result CodecError Bytes :=
  a ← map_err (serialize_err "Avro decode: ") (read_value s payload);
  v ← map_err (serialize_err "avro→json conversion: ") (json_try_from a);
  map_err (serialize_err "JSON serialize: ") (json_to_vec v).

Definition serialize (schema : string) (json : Bytes) : result CodecError Bytes :=
  s ← prepare schema; serialize_prepared s json.
Definition deserialize (schema : string) (payload : Bytes) : result CodecError Bytes :=
  s ← prepare schema; deserialize_prepared s payload.

Definition validate (schema : string) (json : Bytes) : result CodecError unit :=
  match serialize schema json with
  | Ok _ => Ok ()
  | Err e => Err (Validate (CodecError_to_string e))
  end.
End Avro.
End Avro.

(** ** format/json.rs *)


Module JsonSchema.
Section JsonSchema.
  Context `{Libs}.

Definition prepare (schema : string) : result CodecError Validator :=
  v ← map_err (validate_err "schema is not valid JSON: ") (json_from_str schema);
  map_err (validate_err "invalid JSON Schema: ") (validator_for v).

Definition validate_prepared (validator : Validator) (json : Bytes) : result CodecError unit :=
  v ← map_err (validate_err "payload is not valid JSON: ") (json_from_slice json);
  match iter_errors validator v with
  | [] => Ok ()
  | errors => Err (Validate (join "; " errors))
  end.

Definition validate (schema : string) (json : Bytes) : result CodecError unit :=
  v ← prepare schema; validate_prepared v json.
Definition serialize (schema : string) (json : Bytes) : result CodecError Bytes :=
  _ ← validate schema json; Ok json.
Definition deserialize (schema : string) (payload : Bytes) : result CodecError Bytes :=
  _ ← validate schema payload; Ok payload.
End JsonSchema.
End JsonSchema.

(** ** format/protobuf.rs *)
Module Proto.
Section Proto.
  Context `{Libs}.

Definition first_message_desc (schema : string) : result CodecError MessageDescriptor :=
  fdp ← map_err (serialize_err "protobuf parse error: ") (protox_parse schema);
  messages ← map_err (serialize_err "protobuf descriptor error: ") (pool_messages fdp);
  ok_or (Serialize "no message type defined in schema") (head messages).

Definition serialize_prepared (d : MessageDescriptor) (json : Bytes) : result CodecError Bytes :=
  m ← map_err (serialize_err "JSON->proto deserialize error: ") (message_from_json d json);
  Ok (encode_to_vec m).

Definition deserialize_prepared (d : MessageDescriptor) (payload : Bytes) : result CodecError Bytes :=
  m ← map_err (serialize_err "proto decode error: ") (message_decode d payload);
  map_err (serialize_err "proto->JSON serialize error: ") (message_to_json m).

Definition serialize (schema : string) (json : Bytes) : result CodecError Bytes :=
  d ← first_message_desc schema; serialize_prepared d json.
Definition deserialize (schema : string) (payload : Bytes) : result CodecError Bytes :=
  d ← first_message_desc schema; deserialize_prepared d payload.

Definition validate (schema : string) (json : Bytes) : result CodecError unit :=
  match serialize schema json with
  | Ok _ => Ok ()
  | Err (Serialize m) => Err (Validate m)
  | Err e => Err e
  end.
End Proto.
End Proto.

(** ** format/mod.rs *)

Inductive PreparedSchema `{Libs} :=
| PreparedAvro (s : AvroSchema)
| PreparedJson (v : Validator)
| PreparedProtobuf (d : MessageDescriptor).

(** The address of a slot of the cache below. *)
Abbreviation slot_ref := nat (only parsing).

Section Formats.
  Context `{Libs}.

Definition format_serialize (fmt : SchemaFormat) (schema : string) (json : Bytes) : result CodecError Bytes :=
  match fmt with
  | Avro => Avro.serialize schema json
  | Json => JsonSchema.serialize schema json
  | Protobuf => Proto.serialize schema json
  end.

Definition format_deserialize (fmt : SchemaFormat) (schema : string) (payload : Bytes) : result CodecError Bytes :=
  match fmt with
  | Avro => Avro.deserialize schema payload
  | Json => JsonSchema.deserialize schema payload
  | Protobuf => Proto.deserialize schema payload
  end.

Definition format_validate (fmt : SchemaFormat) (schema : string) (json : Bytes) : result CodecError unit :=
  match fmt with
  | Avro => Avro.validate schema json
  | Json => JsonSchema.validate schema json
  | Protobuf => Proto.validate schema json
  end.

Definition PreparedSchema_new (fmt : SchemaFormat) (schema : string) : result CodecError PreparedSchema :=
  match fmt with
  | Avro => s ← Avro.prepare schema; Ok (PreparedAvro s)
  | Json => v ← JsonSchema.prepare schema; Ok (PreparedJson v)
  | Protobuf => d ← Proto.first_message_desc schema; Ok (PreparedProtobuf d)
  end.

Definition prepared_serialize (p : PreparedSchema) (json : Bytes) : result CodecError Bytes :=
  match p with
  | PreparedAvro s => Avro.serialize_prepared s json
  | PreparedJson v => _ ← JsonSchema.validate_prepared v json; Ok json
  | PreparedProtobuf d => Proto.serialize_prepared d json
  end.

Definition prepared_deserialize (p : PreparedSchema) (payload : Bytes) : result CodecError Bytes :=
  match p with
  | PreparedAvro s => Avro.deserialize_prepared s payload
  | PreparedJson v => _ ← JsonSchema.validate_prepared v payload; Ok payload
  | PreparedProtobuf d => Proto.deserialize_prepared d payload
  end.

(** ** The cache of prepared schemas *)

Definition PREPARED_SCHEMA_CAPACITY : nat := 1024.

(** A slot is shared ([Arc]) between the cache and the callers that took it, so
    it lives in a store of its own and outlives its eviction. *)
Record PreparedCache := {
  entries : gmap Z slot_ref;
  insertion_order : list Z;
  slots : list (option PreparedSchema);
}.

Definition PreparedCache_default : PreparedCache := {| entries := ∅; insertion_order := []; slots := [] |}.

(** The entries and the order once there is room for another id. *)
Definition evict (c : PreparedCache) : gmap Z slot_ref * list Z :=
  if (size (entries c) =? PREPARED_SCHEMA_CAPACITY)%nat then
    match insertion_order c with
    | oldest :: order => (delete oldest (entries c), order)
    | [] => (entries c, [])
    end
  else (entries c, insertion_order c).

(** [PreparedCache::slot], under the cache's lock. *)
Definition slot (c : PreparedCache) (id : Z) : PreparedCache * slot_ref :=
  match entries c !! id with
  | Some r => (c, r)
  | None =>
      let r := length (slots c) in
      let '(es, order) := evict c in
      ({| entries := <[id := r]> es; insertion_order := order ++ [id]; slots := slots c ++ [None] |}, r)
  end.

(** [PreparedSlot::get_or_prepare], under the slot's lock. *)
Definition get_or_prepare (c : PreparedCache) (r : slot_ref) (fmt : SchemaFormat) (schema : string)
    : PreparedCache * result CodecError PreparedSchema :=
  match slots c !! r with
  | Some (Some p) => (c, Ok p)
  | _ =>
      match PreparedSchema_new fmt schema with
      | Ok p => ({| entries := entries c; insertion_order := insertion_order c; slots := <[r := Some p]> (slots c) |}, Ok p)
      | Err e => (c, Err e)
      end
  end.

(** [SchemaRegistryCodec::prepared]. *)
Definition prepared (c : PreparedCache) (id : Z) (fmt : SchemaFormat) (schema : string)
    : PreparedCache * result CodecError PreparedSchema :=
  let '(c, r) := slot c id in get_or_prepare c r fmt schema.
End Formats.

(** ** schema/codec.rs *)

(** The trait [SchemaResolver], answering for one call. *)
Record SchemaResolver := {
  by_id : Z -> result CodecError (string * SchemaFormat);
  latest : string -> result CodecError (Z * string * SchemaFormat);
}.

Definition subject_for (topic : string) : string := topic +:+ "-value".

Section Codec.
  Context `{Libs} (client : SchemaResolver) (frame_raw : bool).

(** The registry's answer for a structured body: by id when the selector names
    one, else the latest version of the subject. *)
Definition resolve_selector (subject : string) (id : option Z) : result CodecError (Z * string * SchemaFormat) :=
  match id with
  | Some id => '(schema, fmt) ← by_id client id; Ok (id, schema, fmt)
  | None =>
      map_err (fun e => match e with
                        | Registry _ => Registry ("no schema registered for subject " +:+ subject)
                        | other => other
                        end) (latest client subject)
  end.

Definition codec_encode (c : PreparedCache) (topic : string) (body : EncodeBody)
    : PreparedCache * result CodecError Bytes :=
  match body with
  | Raw bytes =>
      (c, if frame_raw then
            '(id, _, fmt) ← latest client (subject_for topic); Ok (encode_frame id fmt bytes)
          else Ok bytes)
  | Structured json schema =>
      let subject := default (subject_for topic) (sel_subject schema) in
      match resolve_selector subject (sel_id schema) with
      | Err e => (c, Err e)
      | Ok (id, schema_str, fmt) =>
          let '(c, p) := prepared c id fmt schema_str in
          (c, p ← p; payload ← prepared_serialize p json; Ok (encode_frame id fmt payload))
      end
  end.

Definition framed (value : Bytes) : bool :=
  match value with
  | [] => false
  | b :: _ => bool_decide (b = of_u8 0)
  end.

(** The part of [decode] before the prepared schema is used. *)
Definition open_frame (value : Bytes) : result CodecError (Z * string * SchemaFormat * Bytes) :=
  '(id, rest) ← decode_frame_bytes value;
  '(schema_str, fmt) ← by_id client id;
  payload ← (if bool_decide (fmt = Protobuf) then strip_proto_index_bytes rest else Ok rest);
  Ok (id, schema_str, fmt, payload).

Definition codec_decode (c : PreparedCache) (topic : string) (value : Bytes)
    : PreparedCache * result CodecError Decoded :=
  if negb (framed value) then (c, Ok {| dec_value := value; dec_schema := None; dec_json := None |})
  else
    match open_frame value with
    | Err e => (c, Err e)
    | Ok (id, schema_str, fmt, payload) =>
        let '(c, p) := prepared c id fmt schema_str in
        (c, p ← p;
            json ← prepared_deserialize p payload;
            Ok {| dec_value := payload;
                  dec_schema := Some {| meta_subject := subject_for topic; meta_id := id; meta_format := fmt |};
                  dec_json := Some json |})
    end.
End Codec.

(** ** The formats *)

Section FormatProperties.
  Context `{Libs}.

Lemma bind_assoc {E A B C} (r : result E A) (f : A -> result E B) (g : B -> result E C) :
  (y ← (x ← r; f x); g y) = (x ← r; y ← f x; g y).
Proof. by destruct r. Qed.

(** The prepared routes compute what the one-shot functions of the formats
    compute, errors included: preparing a schema and then serializing or
    deserializing with it is the format's [serialize] or [deserialize]. *)
Theorem prepared_agrees fmt schema b :
  (p ← PreparedSchema_new fmt schema; prepared_serialize p b) = format_serialize fmt schema b /\
  (p ← PreparedSchema_new fmt schema; prepared_deserialize p b) = format_deserialize fmt schema b.
Proof.
  destruct fmt; simpl; rewrite !bind_assoc; simpl; [done| |done].
  unfold JsonSchema.serialize, JsonSchema.deserialize, JsonSchema.validate. by rewrite !bind_assoc.
Qed.

(** ** The cache under concurrent callers *)

(** The registry: the schema of an id, which never changes. *)
Context (reg : Z -> option (string * SchemaFormat)).

(** A caller takes the slot of an id, and later prepares in it. *)
Inductive cache_step : PreparedCache * list (Z * slot_ref) -> PreparedCache * list (Z * slot_ref) -> Prop :=
| take_slot c held id :
    cache_step (c, held) ((slot c id).1, (id, (slot c id).2) :: held)
| fill_slot c held id r schema fmt :
    (id, r) ∈ held -> reg id = Some (schema, fmt) ->
    cache_step (c, held) ((get_or_prepare c r fmt schema).1, held).

(** [owner] names the id every slot was made for. *)
Record cache_inv (owner : list Z) (c : PreparedCache) : Prop := {
  ci_order : list_to_set (insertion_order c) = (dom (entries c) : gset Z);
  ci_nodup : NoDup (insertion_order c);
  ci_size : (size (entries c) <= PREPARED_SCHEMA_CAPACITY)%nat;
  ci_length : length owner = length (slots c);
  ci_entry : forall id r, entries c !! id = Some r -> owner !! r = Some id;
  ci_slot : forall id r p, owner !! r = Some id -> slots c !! r = Some (Some p) ->
    exists schema fmt, reg id = Some (schema, fmt) /\ PreparedSchema_new fmt schema = Ok p;
}.

Definition held_inv (owner : list Z) (held : list (Z * slot_ref)) : Prop :=
  forall id r, (id, r) ∈ held -> owner !! r = Some id.

Lemma size_order owner c : cache_inv owner c -> length (insertion_order c) = size (entries c).
Proof.
  intros Hc. rewrite <- size_dom, <- (ci_order _ _ Hc).
  symmetry. apply size_list_to_set, (ci_nodup _ _ Hc).
Qed.

Lemma evict_inv owner c :
  cache_inv owner c ->
  let '(es, order) := evict c in
  list_to_set order = (dom es : gset Z) /\ NoDup order /\ (size es < PREPARED_SCHEMA_CAPACITY)%nat /\ es ⊆ entries c.
Proof.
  intros Hc. unfold evict. pose proof (size_order _ _ Hc) as Hsz. destruct Hc as [Ho Hn Hs _ _ _].
  destruct (Nat.eqb_spec (size (entries c)) PREPARED_SCHEMA_CAPACITY) as [Hfull|Hroom].
  - destruct (insertion_order c) as [|oldest order]; [simpl in Hsz; unfold PREPARED_SCHEMA_CAPACITY in *; lia|].
    apply NoDup_cons in Hn as [Hnot Hn]. simpl in Ho.
    assert (list_to_set order = (dom (delete oldest (entries c)) : gset Z)) as Hd.
    { rewrite dom_delete_L, <- Ho. set_solver. }
    split_and!; [done|done| |apply delete_subseteq].
    rewrite <- size_dom, <- Hd, size_list_to_set by done. simpl in Hsz. lia.
  - split_and!; [done..|lia|done].
Qed.

Lemma slot_inv owner c id :
  cache_inv owner c ->
  exists owner', cache_inv owner' (slot c id).1 /\ owner `prefix_of` owner' /\ owner' !! (slot c id).2 = Some id.
Proof.
  intros Hc. unfold slot. destruct (entries c !! id) as [r|] eqn:Hid.
  - exists owner. split_and!; [done..|by eapply ci_entry].
  - pose proof (evict_inv _ _ Hc) as Hev. destruct (evict c) as [es order].
    destruct Hev as (Ho & Hn & Hs & Hsub). destruct Hc as [_ _ _ Hl He Hsl].
    assert (id ∉ order).
    { intros Hin. apply (elem_of_list_to_set (C:=gset Z)) in Hin. rewrite Ho in Hin.
      apply elem_of_dom in Hin as [r Hr]. eapply lookup_weaken in Hr; [|exact Hsub]. congruence. }
    exists (owner ++ [id]). split_and!; [constructor; simpl| |].
    + rewrite list_to_set_app_L, dom_insert_L, Ho. set_solver.
    + apply NoDup_app. split_and!; [done| |apply NoDup_singleton]. intros x Hx ->%list_elem_of_singleton. done.
    + rewrite map_size_insert. case_match; simpl; lia.
    + by rewrite !length_app, Hl.
    + intros id' r' Hr'. apply lookup_insert_Some in Hr' as [[<- <-]|[_ Hr']].
      * rewrite <- Hl. apply list_lookup_middle. done.
      * apply lookup_app_l_Some, He. by eapply lookup_weaken.
    + intros id' r' p Hr' Hp. apply lookup_app_Some in Hp as [Hp|[_ Hp]]; [|by apply list_lookup_singleton_Some in Hp as [_ [=]]].
      apply (Hsl id' r' p); [|done]. apply lookup_app_Some in Hr' as [?|[Hge _]]; [done|].
      apply lookup_lt_Some in Hp. lia.
    + by exists [id].
    + simpl. rewrite <- Hl. by apply list_lookup_middle.
Qed.

Lemma get_or_prepare_inv owner c id r schema fmt :
  cache_inv owner c -> owner !! r = Some id -> reg id = Some (schema, fmt) ->
  cache_inv owner (get_or_prepare c r fmt schema).1 /\
  (get_or_prepare c r fmt schema).2 = PreparedSchema_new fmt schema.
Proof.
  intros Hc Hr Hreg. unfold get_or_prepare. destruct (slots c !! r) as [[p|]|] eqn:Hs.
  - destruct (ci_slot _ _ Hc _ _ _ Hr Hs) as (schema' & fmt' & Hreg' & Hp). by simplify_eq.
  - destruct (PreparedSchema_new fmt schema) as [p|] eqn:Hp; simpl; [|done]. split; [|done].
    destruct Hc as [Ho Hn Hsz Hl He Hsl]. constructor; simpl; try done; [by rewrite length_insert|].
    intros id' r' p' Hr' Hp'. apply list_lookup_insert_Some in Hp' as [(<- & [= <-] & _)|[_ Hp']]; [|by eapply Hsl].
    simplify_eq. by exists schema, fmt.
  - apply lookup_ge_None in Hs. apply lookup_lt_Some in Hr. rewrite (ci_length _ _ Hc) in Hr. lia.
Qed.

Definition shared_inv (s : PreparedCache * list (Z * slot_ref)) : Prop :=
  exists owner, cache_inv owner s.1 /\ held_inv owner s.2.

Lemma default_inv : cache_inv [] PreparedCache_default.
Proof. constructor; simpl; [done|constructor|unfold PREPARED_SCHEMA_CAPACITY; vm_compute; lia|done|done|done]. Qed.

Lemma cache_step_inv s s' : cache_step s s' -> shared_inv s -> shared_inv s'.
Proof.
  intros Hstep (owner & Hc & Hh). destruct Hstep as [c held id|c held id r schema fmt Hin Hreg]; simpl in *.
  - destruct (slot_inv _ _ id Hc) as (owner' & Hc' & Hpre & Hr). exists owner'. split; [done|].
    intros id' r' [[= -> ->]|Hin]%elem_of_cons; [done|]. eapply prefix_lookup_Some; [by apply Hh|done].
  - exists owner. split; [|done]. eapply get_or_prepare_inv; eauto.
Qed.

Lemma cache_reachable s : steps cache_step (PreparedCache_default, []) s -> shared_inv s.
Proof.
  intros Hs. eapply steps_invariant; [exact cache_step_inv|exact Hs|].
  exists []. split; [apply default_inv|]. intros id r Hin. by apply elem_of_nil in Hin.
Qed.

(** The cache of prepared schemas is transparent and bounded under every
    interleaving of callers: whoever took the slot of an id, at any time before,
    prepares exactly the schema the registry has for that id, also after the
    slot was filled by another caller or evicted; and the cache holds at most
    1024 ids, each queued for eviction once. *)
Theorem prepared_cache_transparent c held :
  steps cache_step (PreparedCache_default, []) (c, held) ->
  (forall id r schema fmt, (id, r) ∈ held -> reg id = Some (schema, fmt) ->
     (get_or_prepare c r fmt schema).2 = PreparedSchema_new fmt schema) /\
  (size (entries c) <= PREPARED_SCHEMA_CAPACITY)%nat /\
  NoDup (insertion_order c) /\ list_to_set (insertion_order c) = (dom (entries c) : gset Z).
Proof.
  intros Hs%cache_reachable. destruct Hs as (owner & Hc & Hh). simpl in *.
  split_and!; [|by eapply ci_size|by eapply ci_nodup|by eapply ci_order].
  intros id r schema fmt Hin Hreg. eapply get_or_prepare_inv; eauto.
Qed.

Lemma prepared_inv owner c id schema fmt :
  cache_inv owner c -> reg id = Some (schema, fmt) ->
  exists owner' c', prepared c id fmt schema = (c', PreparedSchema_new fmt schema) /\ cache_inv owner' c'.
Proof.
  intros Hc Hreg. destruct (slot_inv _ _ id Hc) as (owner' & Hc' & _ & Hr). unfold prepared.
  destruct (slot c id) as [c1 r]. simpl in *.
  destruct (get_or_prepare_inv _ _ _ _ _ _ Hc' Hr Hreg) as [H1' H2'].
  destruct (get_or_prepare c1 r fmt schema) as [c2 p]. simpl in *. subst. eauto.
Qed.
End FormatProperties.

(** ** The codec *)

Section CodecProperties.
  Context `{Libs} (reg : Z -> option (string * SchemaFormat)) (client : SchemaResolver) (frame_raw : bool).

(** What the registry documents: an id names one schema for ever, the latest
    version of a subject is a registered schema, and ids are 32 bits wide. *)
Record registry_serves : Prop := {
  serves_by_id : forall id x, by_id client id = Ok x -> reg id = Some x /\ i32_min <= id <= i32_max;
  serves_latest : forall subject id schema fmt,
    latest client subject = Ok (id, schema, fmt) -> by_id client id = Ok (schema, fmt);
}.

Lemma resolve_selector_sound subject sid id schema fmt :
  registry_serves -> resolve_selector client subject sid = Ok (id, schema, fmt) ->
  by_id client id = Ok (schema, fmt) /\ reg id = Some (schema, fmt) /\ i32_min <= id <= i32_max.
Proof.
  intros Hr Hs. assert (by_id client id = Ok (schema, fmt)) as Hid.
  { unfold resolve_selector in Hs. destruct sid as [i|].
    - destruct (by_id client i) as [[]|] eqn:E; simpl in Hs; [|done]. by injection Hs as -> -> ->.
    - destruct (latest client subject) as [[[]]|] eqn:E; simpl in Hs; [|done].
      injection Hs as -> -> ->. by apply (serves_latest Hr) in E. }
  split; [done|]. by apply (serves_by_id Hr).
Qed.

(** Opening the frame of a payload gives back the payload and its schema. *)
Lemma open_encode_frame id schema fmt payload :
  by_id client id = Ok (schema, fmt) -> i32_min <= id <= i32_max ->
  framed (encode_frame id fmt payload) = true /\
  open_frame client (encode_frame id fmt payload) = Ok (id, schema, fmt, payload).
Proof.
  intros Hid Hrange. split; [done|]. unfold open_frame.
  change decode_frame_bytes with decode_frame. rewrite decode_encode_frame by done. simpl. rewrite Hid. simpl.
  change strip_proto_index_bytes with strip_proto_index. by destruct fmt.
Qed.

Lemma open_frame_by_id value id schema fmt payload :
  open_frame client value = Ok (id, schema, fmt, payload) -> by_id client id = Ok (schema, fmt).
Proof.
  unfold open_frame. destruct (decode_frame_bytes value) as [[i rest]|]; simpl; [|done].
  destruct (by_id client i) as [[s f]|] eqn:E; simpl; [|done].
  destruct (if bool_decide (f = Protobuf) then _ else _); simpl; [|done]. congruence.
Qed.

Lemma json_deserialize_serialized v json payload :
  prepared_serialize (PreparedJson v) json = Ok payload ->
  payload = json /\ prepared_deserialize (PreparedJson v) payload = Ok json.
Proof.
  simpl. destruct (JsonSchema.validate_prepared v json) eqn:E; simpl; [|done]. intros [= <-]. by rewrite E.
Qed.

(** C15.  Codec round trip.  What [encode] frames for a structured body, [decode]
    opens with the same schema id, format and payload, whatever selector was
    used and whatever the cache holds by then; its JSON view is what the
    schema's own decoder makes of the payload.  For JSON Schema that is the
    caller's document, byte for byte. *)
Theorem codec_roundtrip owner c topic json sel c1 frame owner2 c2 :
  registry_serves -> cache_inv reg owner c -> cache_inv reg owner2 c2 ->
  codec_encode client frame_raw c topic (Structured json sel) = (c1, Ok frame) ->
  exists id schema fmt p payload,
    reg id = Some (schema, fmt) /\ PreparedSchema_new fmt schema = Ok p /\
    prepared_serialize p json = Ok payload /\
    (codec_decode client c2 topic frame).2 =
      (view ← prepared_deserialize p payload;
       Ok {| dec_value := payload;
             dec_schema := Some {| meta_subject := subject_for topic; meta_id := id; meta_format := fmt |};
             dec_json := Some view |}) /\
    (fmt = Json -> payload = json /\ prepared_deserialize p payload = Ok json).
Proof.
  intros Hr Hc Hc2. unfold codec_encode. destruct (resolve_selector _ _ _) as [[[id schema] fmt]|] eqn:Hsel; [|done].
  destruct (resolve_selector_sound _ _ _ _ _ Hr Hsel) as (Hid & Hreg & Hrange).
  destruct (prepared_inv reg _ _ _ _ _ Hc Hreg) as (? & ? & -> & _).
  destruct (PreparedSchema_new fmt schema) as [p|] eqn:Hp; simpl; [|done].
  destruct (prepared_serialize p json) as [payload|] eqn:Hser; simpl; [|done]. intros [= _ <-].
  exists id, schema, fmt, p, payload. split_and!; [done..| |].
  - destruct (open_encode_frame _ _ _ payload Hid Hrange) as [Hf Ho]. unfold codec_decode. rewrite Hf. simpl.
    rewrite Ho. destruct (prepared_inv reg _ _ _ _ _ Hc2 Hreg) as (? & ? & -> & _). by rewrite Hp.
  - intros ->. simpl in Hp. destruct (JsonSchema.prepare schema); simpl in Hp; [|done]. injection Hp as <-.
    by apply json_deserialize_serialized.
Qed.

(** Encoding and decoding keep the cache's invariant. *)
Lemma codec_encode_inv owner c topic body :
  registry_serves -> cache_inv reg owner c ->
  exists owner', cache_inv reg owner' (codec_encode client frame_raw c topic body).1.
Proof.
  intros Hr Hc. destruct body as [b|json sel]; simpl; [by exists owner|].
  destruct (resolve_selector _ _ _) as [[[id schema] fmt]|] eqn:Hsel; [|by exists owner].
  destruct (resolve_selector_sound _ _ _ _ _ Hr Hsel) as (_ & Hreg & _).
  destruct (prepared_inv reg _ _ _ _ _ Hc Hreg) as (o & c' & -> & Hc'). by exists o.
Qed.

Lemma codec_decode_inv owner c topic value :
  registry_serves -> cache_inv reg owner c ->
  exists owner', cache_inv reg owner' (codec_decode client c topic value).1.
Proof.
  intros Hr Hc. unfold codec_decode. destruct (framed value); simpl; [|by exists owner].
  destruct (open_frame client value) as [[[[id schema] fmt] payload]|] eqn:Ho; [|by exists owner].
  apply open_frame_by_id, (serves_by_id Hr) in Ho as [Hreg _].
  destruct (prepared_inv reg _ _ _ _ _ Hc Hreg) as (o & c' & -> & Hc'). by exists o.
Qed.

(** A failing registry is reported as a missing schema: for a structured
    body without a schema id, every registry failure, whatever its cause,
    becomes the answer for a subject that was never registered. *)
Theorem outage_reported_as_missing c topic json sel m :
  sel_id sel = None -> latest client (default (subject_for topic) (sel_subject sel)) = Err (Registry m) ->
  codec_encode client frame_raw c topic (Structured json sel)
  = (c, Err (Registry ("no schema registered for subject " +:+ default (subject_for topic) (sel_subject sel)))).
Proof. intros Hid Hl. unfold codec_encode, resolve_selector. by rewrite Hid, Hl. Qed.
End CodecProperties.

(** ** Libraries for the concrete examples

    JSON values are their bytes, every document is valid, Avro and Protobuf
    write the document as it is. *)
Definition plain_libs : Libs :=
  {| JsonValue := Bytes; json_from_slice := Ok; json_from_str := fun s => Ok (as_bytes s); json_to_vec := Ok;
     AvroSchema := string; AvroValue := Bytes; parse_str := Ok; avro_try_from := Ok; resolve := fun v _ => Ok v;
     write_value_to_vec := fun _ v => Ok v; read_value := fun _ v => Ok v; json_try_from := Ok;
     Validator := Bytes; validator_for := Ok; iter_errors := fun _ _ => [];
     FileDescriptor := string; MessageDescriptor := string; DynamicMessage := Bytes;
     protox_parse := Ok; pool_messages := fun s => Ok [s]; message_from_json := fun _ b => Ok b;
     encode_to_vec := id; message_decode := fun _ b => Ok b; message_to_json := Ok |}.

Definition one_schema (id : Z) : option (string * SchemaFormat) :=
  if id =? 7 then Some ("{}", Json) else None.
Definition one_resolver : SchemaResolver :=
  {| by_id := fun id => if id =? 7 then Ok ("{}", Json) else Err (Registry "not found");
     latest := fun s => if bool_decide (s = "orders-value") then Ok (7, "{}", Json) else Err (Registry "timed out") |}.
Definition no_selector : SchemaSelector := {| sel_subject := None; sel_id := None; sel_format := Avro |}.

Lemma one_resolver_serves : registry_serves one_schema one_resolver.
Proof.
  constructor; unfold one_schema; simpl.
  - intros id x. destruct (Z.eqb_spec id 7) as [->|]; [|done]. intros [= <-]. split; [done|vm_compute; split; discriminate].
  - intros s id schema fmt. case_bool_decide; [|done]. by intros [= <- <- <-].
Qed.

Lemma prepared_cache_transparent_witness :
  (get_or_prepare (H:=plain_libs) (slot (H:=plain_libs) PreparedCache_default 7).1 0 Json "{}").2
  = PreparedSchema_new (H:=plain_libs) Json "{}".
Proof.
  refine (proj1 (prepared_cache_transparent (H:=plain_libs) one_schema _ [(7, 0%nat)] _) 7 0%nat "{}" Json _ eq_refl).
  - eapply steps_cons; [apply take_slot|]. apply steps_refl.
  - apply list_elem_of_singleton. reflexivity.
Defined.

Lemma codec_roundtrip_witness :
  exists c1 frame, codec_encode (H:=plain_libs) one_resolver false PreparedCache_default "orders"
      (Structured (as_bytes "{}") no_selector) = (c1, Ok frame) /\
  exists id schema fmt p payload,
    one_schema id = Some (schema, fmt) /\ PreparedSchema_new (H:=plain_libs) fmt schema = Ok p /\
    prepared_serialize (H:=plain_libs) p (as_bytes "{}") = Ok payload /\
    (codec_decode (H:=plain_libs) one_resolver PreparedCache_default "orders" frame).2 =
      (view ← prepared_deserialize (H:=plain_libs) p payload;
       Ok {| dec_value := payload;
             dec_schema := Some {| meta_subject := subject_for "orders"; meta_id := id; meta_format := fmt |};
             dec_json := Some view |}) /\
    (fmt = Json -> payload = as_bytes "{}" /\ prepared_deserialize (H:=plain_libs) p payload = Ok (as_bytes "{}")).
Proof.
  eexists _, _. split; [vm_compute; reflexivity|].
  eapply (codec_roundtrip (H:=plain_libs) one_schema one_resolver false [] PreparedCache_default "orders" (as_bytes "{}")
    no_selector _ _ [] PreparedCache_default one_resolver_serves (default_inv (H:=plain_libs) one_schema)
    (default_inv (H:=plain_libs) one_schema)).
  vm_compute; reflexivity.
Defined.

Lemma outage_reported_as_missing_witness :
  codec_encode (H:=plain_libs) one_resolver false PreparedCache_default "payments" (Structured [] no_selector)
  = (PreparedCache_default, Err (Registry "no schema registered for subject payments-value")).
Proof.
  exact (outage_reported_as_missing (H:=plain_libs) one_resolver false PreparedCache_default "payments" [] no_selector
    "timed out" eq_refl eq_refl).
Defined.
