(* ===== verification/Registry.v ===== *)
(** * The schema registry client (schema/client.rs)

    The caching HTTP client: registration, lookup by id, and the latest version
    of a subject with its time to live.  URL building and percent-encoding, the
    HTTP exchange and the text of a status are parameters; an exchange is what
    the registry answers to one request. *)

From stdpp Require Import pretty.
From S2P Require Import Prelude.
From S2P Require Import Types.

(** A response: its status, its text when it can be read, and its body as JSON
    of the shape asked for. *)
Record Response (A : Type) := {
  resp_status : Z;
  resp_text : option string;
  resp_json : result string A;
}.
Arguments resp_status {A}.
Arguments resp_text {A}.
Arguments resp_json {A}.

(** The URL library and [StatusCode]'s [Display]. *)
Class Http := {
  base_join : string -> result string string;
  byte_serialize : string -> string;
  status_to_string : Z -> string;
}.

(** An exchange with the registry: the transport's error or a response. *)
Abbreviation exchange A := (string -> result string (Response A)) (only parsing).

Record RegisterBody := { rb_schema : string; rb_schema_type : string }.
Record RegisterResponse := { reg_id : Z }.
Record SchemaByIdResponse := { sid_schema : string; sid_schema_type : option string }.
Record LatestResponse := { lr_id : Z; lr_schema : string; lr_schema_type : option string }.

Definition fmt_to_str (fmt : SchemaFormat) : string :=
  match fmt with Avro => "AVRO" | Json => "JSON" | Protobuf => "PROTOBUF" end.

Definition str_to_fmt (s : option string) : SchemaFormat :=
  match s with
  | Some s => if bool_decide (s = "JSON") then Json else if bool_decide (s = "PROTOBUF") then Protobuf else Avro
  | None => Avro
  end.

Record SchemaRegistryClient := {
  by_id_cache : gmap Z (string * SchemaFormat);
  by_subject_latest : gmap string (Z * Z);      (** latest id, fetched at *)
  latest_cache_ttl : Z;
}.

Definition new_with_policy (url_ok : result string unit) (ttl : Z) : result CodecError SchemaRegistryClient :=
  _ ← map_err (fun e => Registry ("invalid schema registry URL: " +:+ e)) url_ok;
  Ok {| by_id_cache := ∅; by_subject_latest := ∅; latest_cache_ttl := ttl |}.

Definition status_success (s : Z) : bool := (200 <=? s) && (s <=? 299).
Definition status_client_error (s : Z) : bool := (400 <=? s) && (s <=? 499).

Definition insert_by_id (c : SchemaRegistryClient) (id : Z) (x : string * SchemaFormat) : SchemaRegistryClient :=
  {| by_id_cache := <[id := x]> (by_id_cache c); by_subject_latest := by_subject_latest c;
     latest_cache_ttl := latest_cache_ttl c |}.
Definition insert_latest (c : SchemaRegistryClient) (subject : string) (x : Z * Z) : SchemaRegistryClient :=
  {| by_id_cache := by_id_cache c; by_subject_latest := <[subject := x]> (by_subject_latest c);
     latest_cache_ttl := latest_cache_ttl c |}.

Section Client.
  Context `{Http}.

Definition http_error {A} (r : Response A) : string :=
  "(HTTP " +:+ status_to_string (resp_status r) +:+ "): " +:+ default EmptyString (resp_text r).

(** [base.join], then the exchange; both failures are registry errors. *)
Definition request {A} (x : exchange A) (path : string) : result CodecError (Response A) :=
  url ← map_err (fun e => Registry ("URL build error: " +:+ e)) (base_join path);
  map_err (fun e => Registry ("registry transport error: " +:+ e)) (x url).

Definition parsed {A} (r : Response A) : result CodecError A :=
  map_err (fun e => Registry ("registry response parse error: " +:+ e)) (resp_json r).

(** The answer to a GET, [missing] being the message of a 404. *)
Definition get_answer {A} (x : exchange A) (path missing : string) : result CodecError A :=
  r ← request x path;
  if resp_status r =? 404 then Err (Registry missing)
  else if negb (status_success (resp_status r)) then Err (Registry ("registry error " +:+ http_error r))
  else parsed r.

(** The answer to a registration; [x] also gets the body. *)
Definition register_answer (x : RegisterBody -> exchange RegisterResponse) (subject schema : string)
    (fmt : SchemaFormat) : result CodecError RegisterResponse :=
  r ← request (x {| rb_schema := schema; rb_schema_type := fmt_to_str fmt |})
        ("subjects/" +:+ byte_serialize subject +:+ "/versions");
  if status_success (resp_status r) then parsed r
  else if status_client_error (resp_status r)
  then Err (Validate ("registry rejected schema " +:+ http_error r))
  else Err (Registry ("registry error " +:+ http_error r)).

Definition register (c : SchemaRegistryClient) (x : RegisterBody -> exchange RegisterResponse)
    (subject schema : string) (fmt : SchemaFormat) : SchemaRegistryClient * result CodecError Z :=
  match register_answer x subject schema fmt with
  | Ok p => (insert_by_id c (reg_id p) (schema, fmt), Ok (reg_id p))
  | Err e => (c, Err e)
  end.

Definition schema_by_id (c : SchemaRegistryClient) (x : exchange SchemaByIdResponse) (id : Z)
    : SchemaRegistryClient * result CodecError (string * SchemaFormat) :=
  match by_id_cache c !! id with
  | Some entry => (c, Ok entry)
  | None =>
      match get_answer x ("schemas/ids/" +:+ pretty id) ("schema id " +:+ pretty id +:+ " not found") with
      | Ok p =>
          let entry := (sid_schema p, str_to_fmt (sid_schema_type p)) in
          (insert_by_id c id entry, Ok entry)
      | Err e => (c, Err e)
      end
  end.

(** The cached answer of [latest] at time [now]. *)
Definition latest_cached (c : SchemaRegistryClient) (now : Z) (subject : string) : option (Z * string * SchemaFormat) :=
  '(id, fetched_at) ← by_subject_latest c !! subject;
  if now - fetched_at <? latest_cache_ttl c then
    '(schema, fmt) ← by_id_cache c !! id; Some (id, schema, fmt)
  else None.

(** [now] is the clock at the cache check, [stored] at the insertion. *)
Definition latest (c : SchemaRegistryClient) (x : exchange LatestResponse) (now stored : Z) (subject : string)
    : SchemaRegistryClient * result CodecError (Z * string * SchemaFormat) :=
  match latest_cached c now subject with
  | Some hit => (c, Ok hit)
  | None =>
      match get_answer x ("subjects/" +:+ byte_serialize subject +:+ "/versions/latest")
              ("subject '" +:+ subject +:+ "' not found") with
      | Ok p =>
          let fmt := str_to_fmt (lr_schema_type p) in
          (insert_latest (insert_by_id c (lr_id p) (lr_schema p, fmt)) subject (lr_id p, stored),
           Ok (lr_id p, lr_schema p, fmt))
      | Err e => (c, Err e)
      end
  end.
End Client.

(** ** The caches against the registry *)

Section Soundness.
  Context `{Http}.
  (** The registry: the schema of an id, for ever; the latest id of a subject at
      a time.  No exchange takes longer than [d]. *)
  Context (reg : Z -> option (string * SchemaFormat)) (latest_at : Z -> string -> option Z) (d : Z).

(** What a registry documents of its answers. *)
Definition honest_by_id (x : exchange SchemaByIdResponse) (id : Z) : Prop :=
  forall path missing p, get_answer x path missing = Ok p -> reg id = Some (sid_schema p, str_to_fmt (sid_schema_type p)).
Definition honest_latest (x : exchange LatestResponse) (subject : string) (now stored : Z) : Prop :=
  forall path missing p, get_answer x path missing = Ok p ->
    reg (lr_id p) = Some (lr_schema p, str_to_fmt (lr_schema_type p)) /\
    exists t, now <= t <= stored /\ latest_at t subject = Some (lr_id p).
Definition honest_register (x : RegisterBody -> exchange RegisterResponse) (subject schema : string) (fmt : SchemaFormat) : Prop :=
  forall p, register_answer x subject schema fmt = Ok p -> reg (reg_id p) = Some (schema, fmt).

(** The client's calls, in any order, with the clock. *)
Inductive client_step : SchemaRegistryClient * Z -> SchemaRegistryClient * Z -> Prop :=
| tick c now now' : now <= now' -> client_step (c, now) (c, now')
| call_by_id c now x id : honest_by_id x id -> client_step (c, now) ((schema_by_id c x id).1, now)
| call_latest c now stored x subject :
    now <= stored <= now + d -> honest_latest x subject now stored ->
    client_step (c, now) ((latest c x now stored subject).1, stored)
| call_register c now x subject schema fmt :
    honest_register x subject schema fmt ->
    client_step (c, now) ((register c x subject schema fmt).1, now).

Record client_inv (ttl : Z) (s : SchemaRegistryClient * Z) : Prop := {
  inv_ttl : latest_cache_ttl s.1 = ttl;
  inv_by_id : forall id e, by_id_cache s.1 !! id = Some e -> reg id = Some e;
  inv_latest : forall subject id f, by_subject_latest s.1 !! subject = Some (id, f) ->
    f <= s.2 /\ exists t, f - d <= t <= f /\ latest_at t subject = Some id;
}.

Lemma insert_by_id_inv ttl c now id e :
  client_inv ttl (c, now) -> reg id = Some e -> client_inv ttl (insert_by_id c id e, now).
Proof.
  intros [Ht Hb Hl] Hreg. constructor; simpl; [done| |done].
  intros id' e' [[<- <-]|[_ ?]]%lookup_insert_Some; [done|by apply Hb].
Qed.

Lemma client_inv_later ttl c now now' : client_inv ttl (c, now) -> now <= now' -> client_inv ttl (c, now').
Proof.
  intros [Ht Hb Hl] Hle. constructor; simpl; [done..|]. intros s id f Hs. destruct (Hl _ _ _ Hs) as [? ?]. simpl in *.
  split; [lia|done].
Qed.

Lemma schema_by_id_sound ttl c now x id :
  client_inv ttl (c, now) -> honest_by_id x id ->
  client_inv ttl ((schema_by_id c x id).1, now) /\
  forall e, (schema_by_id c x id).2 = Ok e -> reg id = Some e.
Proof.
  intros Hc Hx. unfold schema_by_id. destruct (by_id_cache c !! id) as [e|] eqn:He; simpl.
  - split; [done|]. intros ? [= <-]. by apply (inv_by_id _ _ Hc).
  - destruct (get_answer _ _ _) as [p|] eqn:Hp; simpl; [|done]. apply Hx in Hp.
    split; [by apply insert_by_id_inv|]. by intros ? [= <-].
Qed.

Lemma latest_sound ttl c now stored x subject :
  client_inv ttl (c, now) -> now <= stored <= now + d -> honest_latest x subject now stored ->
  client_inv ttl ((latest c x now stored subject).1, stored) /\
  forall id schema fmt, (latest c x now stored subject).2 = Ok (id, schema, fmt) ->
    reg id = Some (schema, fmt) /\
    exists t, t <= stored /\ (now <= t \/ now - ttl - d < t) /\ latest_at t subject = Some id.
Proof.
  intros Hc Htime Hx. unfold latest. destruct (latest_cached c now subject) as [[[id schema] fmt]|] eqn:Hh; simpl.
  - split; [eapply client_inv_later; [done|lia]|]. intros ? ? ? [= <- <- <-]. unfold latest_cached in Hh.
    destruct (by_subject_latest c !! subject) as [[i f]|] eqn:Hs; simpl in Hh; [|done].
    destruct (Z.ltb_spec (now - f) (latest_cache_ttl c)) as [Hf|]; [|done].
    destruct (by_id_cache c !! i) as [[s' f']|] eqn:Hi; simpl in Hh; [|done]. injection Hh as <- <- <-.
    apply (inv_by_id _ _ Hc) in Hi. destruct (inv_latest _ _ Hc _ _ _ Hs) as (Hle & t & Ht & Hlat).
    pose proof (inv_ttl _ _ Hc). simpl in *. split; [done|]. exists t. split_and!; [lia|right; lia|done].
  - destruct (get_answer _ _ _) as [p|] eqn:Hp; simpl; [|split; [eapply client_inv_later; [done|lia]|done]].
    destruct (Hx _ _ _ Hp) as (Hreg & t & Ht & Hlat). split.
    + assert (client_inv ttl (insert_by_id c (lr_id p) (lr_schema p, str_to_fmt (lr_schema_type p)), stored)) as [Ha Hb Hl].
      { eapply client_inv_later; [by apply insert_by_id_inv|lia]. }
      constructor; simpl; [done..|]. intros s id f [[<- [= <- <-]]|[_ ?]]%lookup_insert_Some; [|by eapply Hl].
      split; [lia|]. exists t. split; [lia|done].
    + intros ? ? ? [= <- <- <-]. split; [done|]. exists t. split_and!; [lia|left; lia|done].
Qed.

Lemma client_step_inv ttl s s' : client_step s s' -> client_inv ttl s -> client_inv ttl s'.
Proof.
  destruct 1 as [| |c now stored x subject Ht Hx|c now x subject schema fmt Hx]; intros Hc.
  - by eapply client_inv_later.
  - by apply schema_by_id_sound.
  - by apply latest_sound.
  - unfold register. destruct (register_answer _ _ _ _) as [p|] eqn:Hp; simpl; [|done].
    apply insert_by_id_inv; [done|]. by apply Hx.
Qed.

Lemma fresh_client_inv c ttl now : new_with_policy (Ok ()) ttl = Ok c -> client_inv ttl (c, now).
Proof. intros [= <-]. by constructor. Qed.

Lemma client_reachable ttl c0 t0 s :
  new_with_policy (Ok ()) ttl = Ok c0 -> steps client_step (c0, t0) s -> client_inv ttl s.
Proof.
  intros Hc Hs. eapply steps_invariant; [|exact Hs|by apply fresh_client_inv]. apply client_step_inv.
Qed.

(** Lookups by id are sound: after any calls, a schema the client answers
    for an id, cached or fetched, is the one the registry has for it. *)
Theorem schema_by_id_agrees ttl c0 t0 c now x id e :
  new_with_policy (Ok ()) ttl = Ok c0 -> steps client_step (c0, t0) (c, now) ->
  honest_by_id x id -> (schema_by_id c x id).2 = Ok e -> reg id = Some e.
Proof. intros Hc Hs Hx. eapply schema_by_id_sound; [by eapply client_reachable|done]. Qed.

(** Bounded staleness: the id [latest] answers for a subject was the
    registry's latest at a moment no further back than the time to live plus
    the length of one exchange, and its schema is the registry's for that id. *)
Theorem latest_bounded_staleness ttl c0 t0 c now stored x subject id schema fmt :
  new_with_policy (Ok ()) ttl = Ok c0 -> steps client_step (c0, t0) (c, now) ->
  now <= stored <= now + d -> honest_latest x subject now stored ->
  (latest c x now stored subject).2 = Ok (id, schema, fmt) ->
  reg id = Some (schema, fmt) /\
  exists t, t <= stored /\ (now <= t \/ now - ttl - d < t) /\ latest_at t subject = Some id.
Proof. intros Hc Hs Ht Hx. eapply latest_sound; [by eapply client_reachable|done..]. Qed.
End Soundness.

(** A format survives the registry's [schemaType]. *)
Lemma fmt_roundtrip fmt : str_to_fmt (Some (fmt_to_str fmt)) = fmt.
Proof. by destruct fmt. Qed.

(** Registration classifies its failures: a URL, transport, parse or server
    failure is retriable ([Registry]), a client error of the registry is a
    permanent [Validate]; and no failure changes the caches. *)
Theorem register_errors `{Http} c x subject schema fmt :
  match register c x subject schema fmt with
  | (c', Ok id) => c' = insert_by_id c id (schema, fmt)
  | (c', Err e) => c' = c /\
      match e with
      | Validate _ => exists url r,
          x {| rb_schema := schema; rb_schema_type := fmt_to_str fmt |} url = Ok r /\ status_client_error (resp_status r) = true
      | Registry _ => True
      | _ => False
      end
  end.
Proof.
  unfold register, register_answer, request. destruct (base_join _) as [url|]; simpl; [|done].
  destruct (x _ url) as [r|] eqn:Hx; simpl; [|done].
  destruct (status_success _); [by destruct r as [? ? [|]]|]. destruct (status_client_error _) eqn:Hs; simpl; [|done]. eauto.
Qed.

(** ** A registry for the concrete examples *)

Definition plain_http : Http :=
  {| base_join := Ok; byte_serialize := id; status_to_string := fun s => pretty s |}.
Definition serve {A} (a : A) : exchange A := fun _ => Ok {| resp_status := 200; resp_text := None; resp_json := Ok a |}.
Definition orders_schema : SchemaByIdResponse := {| sid_schema := "{}"; sid_schema_type := Some "JSON" |}.
Definition orders_latest : LatestResponse := {| lr_id := 7; lr_schema := "{}"; lr_schema_type := Some "JSON" |}.
Definition only_seven (id : Z) : option (string * SchemaFormat) := if id =? 7 then Some ("{}", Json) else None.
Definition cold_client : SchemaRegistryClient :=
  {| by_id_cache := ∅; by_subject_latest := ∅; latest_cache_ttl := 60 |}.
(** After [latest] at time 10, answered at 12. *)
Definition warm_client : SchemaRegistryClient :=
  (latest (H:=plain_http) cold_client (serve orders_latest) 10 12 "orders-value").1.

Lemma serve_answer {A} (a : A) path missing p :
  get_answer (H:=plain_http) (serve a) path missing = Ok p -> p = a.
Proof. by intros [= <-]. Qed.

Lemma orders_latest_honest now stored :
  now <= stored -> honest_latest (H:=plain_http) only_seven (fun _ _ => Some 7) (serve orders_latest) "orders-value" now stored.
Proof. intros Hle path missing p ->%serve_answer. split; [done|]. exists now. split; [lia|done]. Qed.

Lemma orders_schema_honest : honest_by_id (H:=plain_http) only_seven (serve orders_schema) 7.
Proof. by intros path missing p ->%serve_answer. Qed.

Lemma warm_steps :
  steps (client_step (H:=plain_http) only_seven (fun _ _ => Some 7) 5) (cold_client, 10) (warm_client, 12).
Proof.
  eapply steps_cons; [|apply steps_refl]. apply call_latest; [lia|]. apply orders_latest_honest. lia.
Qed.

Lemma schema_by_id_agrees_witness :
  only_seven 7 = Some ("{}", Json).
Proof.
  exact (schema_by_id_agrees (H:=plain_http) only_seven (fun _ _ => Some 7) 5 60 cold_client 10 warm_client 12
    (serve orders_schema) 7 ("{}", Json) eq_refl warm_steps
    orders_schema_honest
    ltac:(vm_compute; reflexivity)).
Defined.

(** A hit, forty seconds later: the registry is not asked. *)
Lemma latest_bounded_staleness_witness :
  exists t, t <= 50 /\ (50 <= t \/ 50 - 60 - 5 < t) /\ (fun _ _ => Some 7) t "orders-value" = Some 7.
Proof.
  refine (proj2 (latest_bounded_staleness (H:=plain_http) only_seven (fun _ _ => Some 7) 5 60 cold_client 10 warm_client 50 50
    (serve orders_latest) "orders-value" 7 "{}" Json eq_refl _ _ _ _)).
  - eapply steps_trans; [exact warm_steps|]. eapply steps_cons; [|apply steps_refl]. apply tick. lia.
  - lia.
  - apply orders_latest_honest. lia.
  - vm_compute. reflexivity.
Defined.
