(* ===== verification/Settings.v ===== *)
(** * Validated settings and the internal topics (config_value.rs, config.rs,
    dedup/topic.rs)

    Range checks on configured values, their lowering to the integer units of
    the Kafka protocol, and the creation of the two internal topics over an
    administration client. *)

From stdpp Require Import pretty.
From S2P Require Import Prelude.
From S2P Require Import RustStr.
From S2P Require Import RustNum.
From S2P Require Import Types.

(** ** krabka-units: quantities over a double *)

Class Units := {
  Time : Type;
  (** [secs] and [Time::from_secs], [minutes], [millis] and [Time::from_millis]. *)
  from_secs : Z -> Time;
  minutes : Z -> Time;
  from_millis : Z -> Time;
  (** [millis_i64], and whether [secs_f64] is finite. *)
  millis_i64 : Time -> Z;
  time_finite : Time -> bool;
  (** Comparison. *)
  time_gt : Time -> Time -> bool;
  time_ge : Time -> Time -> bool;
  time_eq : Time -> Time -> bool;
  ByteSize : Type;
  mebibytes : Z -> ByteSize;
  size_gt : ByteSize -> ByteSize -> bool;
  zero_bytes : ByteSize;
  bytes_usize : ByteSize -> Z;
  Ratio : Type;
  percent : Z -> Ratio;
  (** Whether a ratio lies within [fraction(0.0)..=fraction(1.0)]. *)
  ratio_in_unit : Ratio -> bool;
  ratio_to_string : Ratio -> string;
}.

(** ** config_value.rs *)

(** [refined_integer!]: a value accepted by its rule; the library's message is
    not modelled, nor is [ParseIntError]'s. *)
Inductive ValueError := OutOfRange (v : Z) | NotAnInteger (s : string).

Definition refined_new (rule : Z -> bool) (v : Z) : result ValueError Z := if rule v then Ok v else Err (OutOfRange v).
Definition refined_from_str (rule : Z -> bool) (parse : Bytes -> option Z) (s : string) : result ValueError Z :=
  v ← ok_or (NotAnInteger s) (parse (as_bytes s)); refined_new rule v.

(** [parse] at the unsigned and signed types of the rules. *)
Definition parse_u32 (l : Bytes) : option Z :=
  let '(neg, l) := sign_split l in
  if neg then None else n ← parse_digits l; try_u32 n.
Definition parse_i16 (l : Bytes) : option Z :=
  let '(neg, l) := sign_split l in
  n ← parse_digits l; try_range (- 2 ^ 15) i16_max (if neg then - n else n).

Definition PositiveI16_new : Z -> result ValueError Z := refined_new (fun v => 0 <? v).
Definition PositiveU32_new : Z -> result ValueError Z := refined_new (fun v => 0 <? v).
Definition PartitionCount_new : Z -> result ValueError Z := refined_new (fun v => (1 <=? v) && (v <=? 2147483647)).
Definition PositiveI16_from_str : string -> result ValueError Z := refined_from_str (fun v => 0 <? v) parse_i16.
Definition PositiveU32_from_str : string -> result ValueError Z := refined_from_str (fun v => 0 <? v) parse_u32.
Definition PartitionCount_from_str : string -> result ValueError Z :=
  refined_from_str (fun v => (1 <=? v) && (v <=? 2147483647)) parse_u32.

Section Settings.
  Context `{Units}.

Definition positive_time (field : string) (v : Time) : result string Time :=
  if time_gt v (from_secs 0) then Ok v else Err (field +:+ " must be greater than zero").
Definition non_negative_time (field : string) (v : Time) : result string Time :=
  if time_ge v (from_secs 0) then Ok v else Err (field +:+ " must not be negative").
Definition positive_byte_size (field : string) (v : ByteSize) : result string ByteSize :=
  if size_gt v zero_bytes then Ok v else Err (field +:+ " must be greater than zero").
Definition unit_ratio (field : string) (v : Ratio) : result string Ratio :=
  if ratio_in_unit v then Ok v else Err (field +:+ " must be between 0% and 100%").

(** ** config.rs *)

Record GatewayRuntimeConfig := {
  client_dispatch_queue_capacity : Z;
  client_frame_max : Z;
  internal_topic_replication_factor : Z;
  internal_topic_allow_replication_fallback : bool;
  internal_topic_create_timeout : Time;
  internal_topic_segment : Time;
  internal_topic_min_cleanable_dirty_ratio : Ratio;
  consumer_poll_timeout : Time;
  ownership_warmup_empty_polls : Z;
  readiness_poll_interval : Time;
  produce_max_body : ByteSize;
  forward_max_body : ByteSize;
  schema_registry_latest_cache_ttl : Time;
  schema_registry_frame_raw : bool;
}.

(** [Default], given the client library's two defaults. *)
Definition GatewayRuntimeConfig_default (capacity frame_max : Z) : GatewayRuntimeConfig :=
  {| client_dispatch_queue_capacity := capacity; client_frame_max := frame_max;
     internal_topic_replication_factor := 3; internal_topic_allow_replication_fallback := true;
     internal_topic_create_timeout := from_secs 10; internal_topic_segment := minutes 1;
     internal_topic_min_cleanable_dirty_ratio := percent 1; consumer_poll_timeout := from_millis 500;
     ownership_warmup_empty_polls := 2; readiness_poll_interval := from_millis 250;
     produce_max_body := mebibytes 2; forward_max_body := mebibytes 2;
     schema_registry_latest_cache_ttl := from_secs 5; schema_registry_frame_raw := false |}.

Definition exact_millis (v : Time) : bool := time_finite v && time_eq (from_millis (millis_i64 v)) v.
Definition within (name kind : string) : string :=
  name +:+ " must be a positive whole number of milliseconds within 1..=" +:+ kind +:+ "::MAX".

Definition protocol_millis_i32 (name : string) (v : Time) : result string Z :=
  if negb (exact_millis v) then Err (within name "i32")
  else
    m ← ok_or (within name "i32") (try_i32 (millis_i64 v));
    if 0 <? m then Ok m else Err (within name "i32").

Definition FIRST_AMBIGUOUS_F64_MILLIS : Z := 9007199254740992.

Definition protocol_millis_i64 (name : string) (v : Time) : result string Z :=
  let m := millis_i64 v in
  if FIRST_AMBIGUOUS_F64_MILLIS <=? m
  then Err (name +:+ " must be below " +:+ pretty FIRST_AMBIGUOUS_F64_MILLIS +:+ "ms because UOM quantities use f64")
  else if negb (exact_millis v) then Err (within name "i64")
  else if 0 <? m then Ok m else Err (within name "i64").

Definition validate_protocol_units (c : GatewayRuntimeConfig) : result string unit :=
  _ ← protocol_millis_i32 "internal topic create timeout" (internal_topic_create_timeout c);
  _ ← protocol_millis_i64 "internal topic segment" (internal_topic_segment c);
  Ok ().

Definition validate_dedup_window (v : Time) : result string unit :=
  _ ← protocol_millis_i64 "dedup window" v; Ok ().

(** ** dedup/topic.rs *)

Record InternalTopicPolicy := {
  replication_factor : Z;
  allow_replication_fallback : bool;
  create_timeout : Time;
  segment : Time;
  min_cleanable_dirty_ratio : Ratio;
}.

Definition internal_topic_policy (c : GatewayRuntimeConfig) : InternalTopicPolicy :=
  {| replication_factor := internal_topic_replication_factor c;
     allow_replication_fallback := internal_topic_allow_replication_fallback c;
     create_timeout := internal_topic_create_timeout c; segment := internal_topic_segment c;
     min_cleanable_dirty_ratio := internal_topic_min_cleanable_dirty_ratio c |}.

Definition compaction_configs (p : InternalTopicPolicy) : gmap string string :=
  <["segment.ms" := pretty (millis_i64 (segment p))]>
  (<["min.cleanable.dirty.ratio" := ratio_to_string (min_cleanable_dirty_ratio p)]>
  (<["cleanup.policy" := "compact"]> ∅)).
Definition dedup_topic_configs (window : Time) (p : InternalTopicPolicy) : gmap string string :=
  <["retention.ms" := pretty (millis_i64 window)]> (<["cleanup.policy" := "compact,delete"]> (compaction_configs p)).

Definition INVALID_REPLICATION_FACTOR : Z := 38.
Definition TOPIC_ALREADY_EXISTS : Z := 36.

Definition topic_partition_count (partitions : Z) : result GatewayError Z :=
  ok_or (Other "internal topic partition count exceeds i32::MAX") (try_i32 partitions).

Record CreateTopicSpec := {
  spec_name : string;
  spec_partitions : Z;
  spec_replicas : Z;
  spec_configs : gmap string string;
}.

(** The administration client: the error codes of the [n]th request, one per
    topic, or a failure of the exchange. *)
Abbreviation AdminAnswers := (nat -> CreateTopicSpec -> Time -> result string (list (option Z))) (only parsing).

(** The loop over the outcomes: done, failed, or to be tried with one replica. *)
Inductive Verdict := Created | Failed (code : Z) | TryOneReplica.
Fixpoint outcomes_verdict (p : InternalTopicPolicy) (outcomes : list (option Z)) : Verdict :=
  match outcomes with
  | [] => Created
  | o :: outcomes =>
      match o with
      | None => outcomes_verdict p outcomes
      | Some code =>
          if (code =? 0) || (code =? TOPIC_ALREADY_EXISTS) then outcomes_verdict p outcomes
          else if (code =? INVALID_REPLICATION_FACTOR) && allow_replication_fallback p && (1 <? replication_factor p)
          then TryOneReplica
          else Failed code
      end
  end.

Definition one_replica (p : InternalTopicPolicy) : InternalTopicPolicy :=
  {| replication_factor := 1; allow_replication_fallback := allow_replication_fallback p;
     create_timeout := create_timeout p; segment := segment p; min_cleanable_dirty_ratio := min_cleanable_dirty_ratio p |}.

(** [create_with_rf], with the requests it sent; [None] is out of fuel. *)
Fixpoint create_with_rf (fuel : nat) (admin : AdminAnswers) (n : nat) (name : string) (partitions : Z)
    (p : InternalTopicPolicy) (configs : gmap string string) : option (list CreateTopicSpec * result GatewayError unit) :=
  match fuel with
  | O => None
  | S fuel =>
      match topic_partition_count partitions with
      | Err e => Some ([], Err e)
      | Ok count =>
          let spec := {| spec_name := name; spec_partitions := count; spec_replicas := replication_factor p;
                         spec_configs := configs |} in
          match admin n spec (create_timeout p) with
          | Err e => Some ([spec], Err (Other ("create_topics: " +:+ e)))
          | Ok outcomes =>
              match outcomes_verdict p outcomes with
              | Created => Some ([spec], Ok ())
              | Failed code => Some ([spec], Err (Other ("create internal topic failed: code " +:+ pretty code)))
              | TryOneReplica =>
                  '(specs, r) ← create_with_rf fuel admin (S n) name partitions (one_replica p) configs;
                  Some (spec :: specs, r)
              end
          end
      end
  end.

(** [ensure_dedup_topic_with_policy] and [ensure_membership_topic_with_policy]:
    [connected] is the connection's outcome. *)
Definition ensure_topic (connected : result string unit) (admin : AdminAnswers) (name : string) (partitions : Z)
    (p : InternalTopicPolicy) (configs : gmap string string) : option (list CreateTopicSpec * result GatewayError unit) :=
  match connected with
  | Err e => Some ([], Err (Other ("admin connect: " +:+ e)))
  | Ok _ => create_with_rf 2 admin 0 name partitions p configs
  end.
Definition ensure_dedup_topic (connected : result string unit) (admin : AdminAnswers) (name : string) (partitions : Z)
    (window : Time) (p : InternalTopicPolicy) : option (list CreateTopicSpec * result GatewayError unit) :=
  ensure_topic connected admin name partitions p (dedup_topic_configs window p).
Definition ensure_membership_topic (connected : result string unit) (admin : AdminAnswers) (name : string)
    (p : InternalTopicPolicy) : option (list CreateTopicSpec * result GatewayError unit) :=
  ensure_topic connected admin name 1 p (compaction_configs p).

(** ** Lowering is exact *)

Lemma protocol_millis_i32_Ok name v m :
  protocol_millis_i32 name v = Ok m -> m = millis_i64 v /\ 1 <= m <= i32_max /\ time_eq (from_millis m) v = true.
Proof.
  unfold protocol_millis_i32, exact_millis. destruct (negb _) eqn:He; [done|]. bool_prop.
  destruct (try_i32 _) as [z|] eqn:Hz; [|done]. simpl. destruct (0 <? z) eqn:Hpos; [|done]. intros [= <-]. bool_prop.
  apply try_range_Some in Hz as [-> Hz]. split_and!; [done|lia|lia|done].
Qed.

Lemma protocol_millis_i64_Ok name v m :
  protocol_millis_i64 name v = Ok m -> m = millis_i64 v /\ 1 <= m < 2 ^ 53 /\ time_eq (from_millis m) v = true.
Proof.
  unfold protocol_millis_i64, exact_millis, FIRST_AMBIGUOUS_F64_MILLIS. destruct (_ <=? _) eqn:Hb; [done|].
  destruct (negb _) eqn:He; [done|]. destruct (0 <? _) eqn:Hpos; [|done]. intros [= <-]. bool_prop. split_and!; [done|lia|lia|done].
Qed.

(** C30.  A validated configuration reaches Kafka exactly: the create timeout is
    a positive 32-bit number of milliseconds that equals the configured time, and
    the retention and segment settings of the topics are the decimal text of a
    positive number of milliseconds, below 2^53, that equals the configured
    time. *)
Theorem settings_lowered_exactly c window :
  validate_protocol_units c = Ok () -> validate_dedup_window window = Ok () ->
  let p := internal_topic_policy c in
  (1 <= millis_i64 (create_timeout p) <= i32_max
   /\ time_eq (from_millis (millis_i64 (create_timeout p))) (internal_topic_create_timeout c) = true)
  /\ exists retention seg,
    (1 <= retention < 2 ^ 53 /\ time_eq (from_millis retention) window = true)
    /\ (1 <= seg < 2 ^ 53 /\ time_eq (from_millis seg) (internal_topic_segment c) = true)
    /\ dedup_topic_configs window p !! "retention.ms" = Some (pretty retention)
    /\ dedup_topic_configs window p !! "segment.ms" = Some (pretty seg)
    /\ compaction_configs p !! "segment.ms" = Some (pretty seg)
    /\ dedup_topic_configs window p !! "cleanup.policy" = Some "compact,delete"
    /\ compaction_configs p !! "cleanup.policy" = Some "compact" /\ compaction_configs p !! "retention.ms" = None.
Proof.
  intros Hc Hw p. unfold validate_protocol_units, validate_dedup_window in *.
  apply bind_Ok in Hc as (t & Ht%protocol_millis_i32_Ok & (seg & Hs%protocol_millis_i64_Ok & _)%bind_Ok).
  apply bind_Ok in Hw as (ret & Hr%protocol_millis_i64_Ok & _).
  destruct Ht as (-> & Ht), Hs as (Hseg & Hs), Hr as (Hret & Hr). split; [done|].
  exists ret, seg. rewrite Hret, Hseg in *. split; [exact Hr|]. split; [exact Hs|]. by split_and!.
Qed.

(** ** Creating a topic *)

Lemma topic_partition_count_Ok n count : topic_partition_count n = Ok count -> count = n.
Proof. unfold topic_partition_count. destruct (try_i32 n) eqn:Hn; [|done]. apply try_range_Some in Hn as [-> _]. by intros [= <-]. Qed.

Lemma verdict_one_replica p outcomes : outcomes_verdict (one_replica p) outcomes <> TryOneReplica.
Proof.
  induction outcomes as [|[code|] outcomes IH]; simpl; [done| |done]. destruct (_ || _); [done|].
  by rewrite andb_false_r.
Qed.

Lemma verdict_created p outcomes :
  outcomes_verdict p outcomes = Created -> Forall (fun o => o = None \/ o = Some 0 \/ o = Some TOPIC_ALREADY_EXISTS) outcomes.
Proof.
  induction outcomes as [|[code|] outcomes IH]; simpl; [by constructor| |].
  2: { intros Hv%IH. constructor; auto. }
  destruct ((code =? 0) || _) eqn:Hok; [|by destruct (_ && _)]. intros Hv%IH. constructor; [|done]. right.
  apply orb_true_iff in Hok as [->%Z.eqb_eq| ->%Z.eqb_eq]; auto.
Qed.

(** Creating an internal topic always ends, after at most two requests, the
    second of which asks for one replica; and it succeeds only when the broker
    answered, for every topic of the last request, that it exists. *)
Theorem ensure_topic_total connected admin name partitions p configs :
  exists specs r, ensure_topic connected admin name partitions p configs = Some (specs, r)
    /\ (length specs <= 2)%nat
    /\ Forall (fun s => spec_name s = name /\ spec_partitions s = partitions /\ spec_configs s = configs) specs
    /\ spec_replicas <$> head specs ∈ [None; Some (replication_factor p)]
    /\ spec_replicas <$> specs !! 1%nat ∈ [None; Some 1]
    /\ (r = Ok () -> exists spec outcomes, last specs = Some spec
         /\ admin (length specs - 1)%nat spec (create_timeout p) = Ok outcomes
         /\ Forall (fun o => o = None \/ o = Some 0 \/ o = Some TOPIC_ALREADY_EXISTS) outcomes).
Proof.
  unfold ensure_topic. destruct connected as [[]|e]; [|by eexists _, _; split_and!; [done|simpl; lia|constructor|set_solver..|]].
  cbn [create_with_rf]. destruct (topic_partition_count partitions) as [count|e] eqn:Hc;
    [|by eexists _, _; split_and!; [done|simpl; lia|constructor|set_solver..|]].
  set (spec := {| spec_replicas := replication_factor p |}). set (spec1 := {| spec_replicas := replication_factor (one_replica p) |}).
  assert (Hs : forall s, s ∈ [spec; spec1] -> spec_name s = name /\ spec_partitions s = partitions /\ spec_configs s = configs).
  { apply topic_partition_count_Ok in Hc as ->. set_solver. }
  destruct (admin 0%nat spec _) as [outcomes|e] eqn:Ha;
    [|by eexists _, _; split_and!; [done|simpl; lia|by repeat constructor; apply Hs; set_solver|set_solver..|]].
  destruct (outcomes_verdict p outcomes) as [|code|] eqn:Hv.
  - eexists _, _; split_and!; [done|simpl; lia|by repeat constructor; apply Hs; set_solver|set_solver..|].
    intros _. exists spec, outcomes. split_and!; [done..|by apply (verdict_created p)].
  - by eexists _, _; split_and!; [done|simpl; lia|by repeat constructor; apply Hs; set_solver|set_solver..|].
  - cbn [create_timeout one_replica]. destruct (admin 1%nat spec1 _) as [outcomes1|e] eqn:Ha1;
      [|by eexists _, _; split_and!; [done|simpl; lia|by repeat constructor; apply Hs; set_solver|set_solver..|]].
    pose proof (verdict_one_replica p outcomes1). destruct (outcomes_verdict (one_replica p) outcomes1) eqn:Hv1; [..|done];
      eexists _, _; split_and!; try (done || (simpl; lia) || (by repeat constructor; apply Hs; set_solver) || set_solver).
    intros _. exists spec1, outcomes1. split_and!; [done..|by apply (verdict_created (one_replica p))].
Qed.
End Settings.

(** ** Concrete settings *)

Module Plain.
(** Times in milliseconds, sizes in bytes, ratios in percent. *)
#[export] Instance units : Units :=
  {| Time := Z; from_secs := fun n => 1000 * n; minutes := fun n => 60000 * n; from_millis := id; millis_i64 := id;
     time_finite := fun _ => true; time_gt := Z.gtb; time_ge := Z.geb; time_eq := Z.eqb;
     ByteSize := Z; mebibytes := fun n => 1048576 * n; size_gt := Z.gtb; zero_bytes := 0; bytes_usize := id;
     Ratio := Z; percent := id; ratio_in_unit := fun r => (0 <=? r) && (r <=? 100); ratio_to_string := fun r => "0." +:+ pretty r |}.

Lemma settings_lowered_exactly_witness :
  let c := GatewayRuntimeConfig_default 1 1 in
  validate_protocol_units c = Ok () /\ validate_dedup_window (from_secs 3600) = Ok ()
  /\ (1 <= millis_i64 (create_timeout (internal_topic_policy c)) <= i32_max
      /\ time_eq (from_millis (millis_i64 (create_timeout (internal_topic_policy c)))) (internal_topic_create_timeout c) = true)
  /\ exists retention, dedup_topic_configs (from_secs 3600) (internal_topic_policy c) !! "retention.ms" = Some (pretty (retention : Z)).
Proof.
  intros c. split; [reflexivity|]. split; [reflexivity|].
  destruct (settings_lowered_exactly c (from_secs 3600) eq_refl eq_refl) as (Ht & ret & seg & _ & _ & Hr & _).
  split; [exact Ht|]. exists ret. exact Hr.
Defined.
End Plain.
