(* ===== verification/CloudEvents.v ===== *)
(** * CloudEvents bindings (ce_translate.rs)

    Classification of a request, translation of its headers between the HTTP
    and the Kafka binding, and conversion of an event between binary and
    structured mode.  A [HeaderMap] is the list of its entries in iteration
    order, one per value, under their lower-case names. *)

From S2P Require Import Prelude.
From S2P Require Import RustStr.
From S2P Require Import RustNum.
From S2P Require Import Filter.

(** ** The libraries *)

Abbreviation HeaderMap := (list (string * Bytes)) (only parsing).

(** The http crate. *)
Class HttpLib := {
  (** [HeaderValue::to_str]: the value as text, if it is all visible ASCII. *)
  to_str : Bytes -> option string;
  (** [HeaderName::from_bytes], which lower-cases; [HeaderValue::from_bytes]. *)
  header_name : string -> option string;
  header_value : Bytes -> option Bytes;
  to_str_bytes : forall v s, to_str v = Some s -> as_bytes s = v;
  header_name_lower : forall s n, header_name s = Some n -> lower n = n;
  header_value_bytes : forall v w, header_value v = Some w -> w = v;
}.

(** The base64 crate's standard alphabet, and serde_json's printing. *)
Class CeLib `{JsonLib} := {
  base64_encode : Bytes -> Bytes;
  base64_decode : Bytes -> option Bytes;
  json_to_vec : Json -> option Bytes;
  number_to_string : JsonNumber -> Bytes;
  (** [Map::insert] on the entries in iteration order. *)
  object_insert : Bytes -> Json -> list (Bytes * Json) -> list (Bytes * Json);
  base64_decode_encode : forall v, base64_decode (base64_encode v) = Some v;
  json_to_vec_total : forall j, is_Some (json_to_vec j);
  object_insert_fresh : forall k j o, k ∉ o.*1 -> object_insert k j o ≡ₚ (k, j) :: o;
}.

(** How deep a value nests, and whether no number in it is a float. *)
Fixpoint depth (j : Json) : nat :=
  match j with
  | JArray l => S (foldr Nat.max 0%nat (map depth l))
  | JObject o => S (foldr Nat.max 0%nat (map (fun e => depth e.2) o))
  | _ => 0%nat
  end.
Fixpoint float_free (j : Json) : bool :=
  match j with
  | JNumber (JFloat _) => false
  | JArray l => forallb float_free l
  | JObject o => forallb (fun e => float_free e.2) o
  | _ => true
  end.

(** What reading a printed document relies on.  [json_value] holds of the values
    of [serde_json::Value]: texts are UTF-8, an object's entries are in the map's
    order.  The parser refuses a document of more than 127 levels; without the
    [float_roundtrip] feature it may read a float one unit off. *)
Class JsonLaws `{CeLib} := {
  json_value : Json -> Prop;
  json_value_string : forall s, is_utf8 s = true -> json_value (JString s);
  json_value_empty : json_value (JObject []);
  json_value_insert : forall k j o, is_utf8 k = true -> json_value j -> json_value (JObject o) -> json_value (JObject (object_insert k j o));
  json_value_parse : forall v j, json_parse v = Some j -> json_value j;
  base64_utf8 : forall v, is_utf8 (base64_encode v) = true;
  json_parse_print : forall j v, json_value j -> float_free j = true -> (depth j <= 127)%nat -> json_to_vec j = Some v ->
    json_parse v = Some j;
}.

(** ** Constants and errors *)

Definition CE_HTTP_PREFIX : string := "ce-".
Definition CE_KAFKA_PREFIX : string := "ce_".
Definition CONTENT_TYPE : string := "content-type".
Definition DATA_CONTENT_TYPE : string := "datacontenttype".
Definition REQUIRED_ATTRIBUTES : list string := ["id"; "source"; "type"; "specversion"].

Inductive IngressMode := Binary | StructuredMode | Batch | NotCloudEvent.

Inductive CeError :=
| MissingAttribute (a : string)
| NonUtf8Attribute (a : string)
| UnsupportedSpecVersion
| MalformedJson
| MalformedBase64
| ConflictingData
| NonScalarAttribute (a : string)
| InvalidHttpHeader (a : string).

(** ** Media types *)

Fixpoint until (c : ascii) (l : Bytes) : Bytes :=
  match l with
  | [] => []
  | b :: l => if bool_decide (b = c) then [] else b :: until c l
  end.
Definition base_media_type (media_type : string) : Bytes := map to_lower (trim (until ";"%char (as_bytes media_type))).

Definition starts_with (p l : Bytes) : bool := bool_decide (take (length p) l = p).
Definition ends_with (p l : Bytes) : bool := bool_decide (drop (length l - length p) l = p).

Definition detect_content_mode (media_type : option string) (has_ce_header : bool) : IngressMode :=
  let unstructured := if has_ce_header then Binary else NotCloudEvent in
  match media_type with
  | None => unstructured
  | Some m =>
      let base := base_media_type m in
      if starts_with (as_bytes "application/cloudevents-batch") base then Batch
      else if starts_with (as_bytes "application/cloudevents") base then StructuredMode
      else unstructured
  end.

Definition is_structured_media_type (media_type : string) : bool :=
  match detect_content_mode (Some media_type) false with StructuredMode => true | _ => false end.

Definition is_json_media_type (media_type : string) : bool :=
  let base := base_media_type media_type in
  bool_decide (base = as_bytes "application/json") || ends_with (as_bytes "+json") base.

(** ** Header translation *)

Fixpoint somes {B} (os : list (option B)) : list B :=
  match os with [] => [] | Some y :: os => y :: somes os | None :: os => somes os end.

(** A loop that pushes what [f] gives for each item, until an error. *)
Definition try_collect {E A B} (f : A -> result E (option B)) (l : list A) : result E (list B) :=
  os ← try_map f l; Ok (somes os).

Section Headers.
  Context `{HttpLib}.

Definition http_header_to_kafka (h : string * Bytes) : result CeError (option (string * Bytes)) :=
  match strip_prefix CE_HTTP_PREFIX h.1 with
  | Some attribute =>
      v ← ok_or (NonUtf8Attribute h.1) (to_str h.2);
      Ok (Some (if bool_decide (attribute = DATA_CONTENT_TYPE) then CONTENT_TYPE else CE_KAFKA_PREFIX +:+ attribute, as_bytes v))
  | None =>
      if bool_decide (h.1 = CONTENT_TYPE) then
        v ← ok_or (NonUtf8Attribute h.1) (to_str h.2); Ok (Some (CONTENT_TYPE, as_bytes v))
      else Ok None
  end.
Definition http_headers_to_kafka (hs : HeaderMap) : result CeError (list (string * Bytes)) :=
  try_collect http_header_to_kafka hs.

Definition kafka_header_to_http (h : string * option Bytes) : result CeError (option (string * Bytes)) :=
  match h.2 with
  | None => Ok None
  | Some v =>
      match strip_prefix CE_KAFKA_PREFIX h.1 with
      | Some attribute =>
          n ← (if bool_decide (attribute = DATA_CONTENT_TYPE) then Ok CONTENT_TYPE
               else ok_or (InvalidHttpHeader h.1) (header_name (CE_HTTP_PREFIX +:+ attribute)));
          v ← ok_or (InvalidHttpHeader h.1) (header_value v);
          Ok (Some (n, v))
      | None =>
          if bool_decide (h.1 = CONTENT_TYPE) then
            v ← ok_or (InvalidHttpHeader h.1) (header_value v); Ok (Some (CONTENT_TYPE, v))
          else Ok None
      end
  end.
Definition kafka_headers_to_http (hs : list (string * option Bytes)) : result CeError (list (string * Bytes)) :=
  try_collect kafka_header_to_http hs.
End Headers.

(** ** Validation *)

Definition ensure (b : bool) (e : CeError) : result CeError unit := if b then Ok () else Err e.

Definition validate_binary_required (hs : list (string * Bytes)) : result CeError unit :=
  _ ← try_map (fun h => ensure (negb (starts_with (as_bytes CE_KAFKA_PREFIX) (as_bytes h.1)) || is_utf8 h.2)
                               (NonUtf8Attribute h.1)) hs;
  _ ← try_map (fun a => ensure (existsb (fun h => bool_decide (h.1 = CE_KAFKA_PREFIX +:+ a) && negb (bool_decide (h.2 = []))) hs)
                               (MissingAttribute a)) REQUIRED_ATTRIBUTES;
  ensure (bool_decide (snd <$> List.find (fun h => bool_decide (h.1 = "ce_specversion")) hs = Some (as_bytes "1.0")))
        UnsupportedSpecVersion.

Definition event_get (o : list (Bytes * Json)) (k : string) : option Json := object_get o (as_bytes k).
Definition contains_key (o : list (Bytes * Json)) (k : string) : bool := bool_decide (is_Some (event_get o k)).

Definition validate_structured_json (event : Json) : result CeError unit :=
  o ← ok_or MalformedJson (as_object event);
  _ ← ensure (negb (contains_key o "data" && contains_key o "data_base64")) ConflictingData;
  _ ← try_map (fun a => ensure (match event_get o a ≫= as_str with Some v => negb (bool_decide (v = [])) | None => false end)
                               (MissingAttribute a)) REQUIRED_ATTRIBUTES;
  ensure (bool_decide (event_get o "specversion" ≫= as_str = Some (as_bytes "1.0"))) UnsupportedSpecVersion.

(** ** Between binary and structured mode *)

Section Events.
  Context `{CeLib}.

(** A header's entry of the event. *)
Definition attribute_entry (h : string * option Bytes) : result CeError (option (string * Json)) :=
  match h.2 with
  | None => Ok None
  | Some v =>
      v ← ok_or (NonUtf8Attribute h.1) (from_utf8 v);
      Ok (match strip_prefix CE_KAFKA_PREFIX h.1 with
          | Some attribute => Some (attribute, JString (as_bytes v))
          | None => if bool_decide (h.1 = CONTENT_TYPE) then Some (DATA_CONTENT_TYPE, JString (as_bytes v)) else None
          end)
  end.

Definition attributes_event (entries : list (string * Json)) : list (Bytes * Json) :=
  foldl (fun o e => object_insert (as_bytes e.1) e.2 o) [] entries.

(** The data of a JSON media type, when it parses. *)
Definition json_data (event : list (Bytes * Json)) (v : Bytes) : option Json :=
  m ← event_get event DATA_CONTENT_TYPE ≫= as_str;
  if is_json_media_type (of_bytes m) then json_parse v else None.

Definition structured_from_binary (hs : list (string * option Bytes)) (v : Bytes) : result CeError Bytes :=
  entries ← try_collect attribute_entry hs;
  let event := attributes_event entries in
  let event := match json_data event v with
               | Some data => object_insert (as_bytes "data") data event
               | None => object_insert (as_bytes "data_base64") (JString (base64_encode v)) event
               end in
  ok_or MalformedJson (json_to_vec (JObject event)).

Definition scalar_attribute_bytes (attribute : Bytes) (v : Json) : result CeError Bytes :=
  match v with
  | JString s => Ok s
  | JBool b => Ok (as_bytes (if b then "true" else "false"))
  | JNumber n => Ok (number_to_string n)
  | JNull | JArray _ | JObject _ => Err (NonScalarAttribute (of_bytes attribute))
  end.

(** The header of an entry of the event. *)
Definition entry_header (e : Bytes * Json) : result CeError (option (string * Bytes)) :=
  if bool_decide (e.1 = as_bytes "data") || bool_decide (e.1 = as_bytes "data_base64") then Ok None
  else
    v ← scalar_attribute_bytes e.1 e.2;
    Ok (Some (if bool_decide (e.1 = as_bytes DATA_CONTENT_TYPE) then CONTENT_TYPE else CE_KAFKA_PREFIX +:+ of_bytes e.1, v)).

Definition event_data (o : list (Bytes * Json)) : result CeError Bytes :=
  match event_get o "data_base64" with
  | Some encoded => s ← ok_or MalformedBase64 (as_str encoded); ok_or MalformedBase64 (base64_decode s)
  | None => match event_get o "data" with
            | Some data => ok_or MalformedJson (json_to_vec data)
            | None => Ok []
            end
  end.

Definition binary_from_structured (event : Json) : result CeError (list (string * Bytes) * Bytes) :=
  _ ← validate_structured_json event;
  o ← ok_or MalformedJson (as_object event);
  hs ← try_collect entry_header o;
  data ← event_data o;
  Ok (hs, data).
End Events.

(** ** The two header bindings *)

Lemma try_collect_Ok {E A B} (f : A -> result E (option B)) (g : A -> option B) l :
  Forall (fun x => f x = Ok (g x)) l -> try_collect f l = Ok (omap g l).
Proof.
  unfold try_collect. intros Hl. enough (try_map f l = Ok (map g l)) as ->; simpl.
  - f_equal. clear Hl. induction l as [|x l IH]; simpl; [done|]. destruct (g x); simpl; by rewrite IH.
  - induction Hl as [|x l Hx Hl IH]; simpl; [done|]. by rewrite Hx, IH.
Qed.

Lemma try_collect_inv {E A B} (f : A -> result E (option B)) l ys :
  try_collect f l = Ok ys -> exists os, Forall2 (fun x o => f x = Ok o) l os /\ ys = somes os.
Proof.
  intros (os & Hos & [= <-])%bind_Ok. exists os. split; [|done]. revert os Hos.
  induction l as [|x l IH]; intros os; simpl; [intros [= <-]; constructor|].
  intros (y & Hy & (ys & Hys & [= <-])%bind_Ok)%bind_Ok. constructor; auto.
Qed.

Section HeaderRoundTrip.
  Context `{HttpLib}.

(** An entry of a [HeaderMap] is a header name and value the library accepts. *)
Definition valid_header (h : string * Bytes) : Prop := header_name h.1 = Some h.1 /\ header_value h.2 = Some h.2.

(** What the bindings carry of a request: its context attributes and its
    content type, for which [datacontenttype] stands too. *)
Definition ce_header (h : string * Bytes) : option (string * Bytes) :=
  match strip_prefix CE_HTTP_PREFIX h.1 with
  | Some attribute => Some (if bool_decide (attribute = DATA_CONTENT_TYPE) then CONTENT_TYPE else h.1, h.2)
  | None => if bool_decide (h.1 = CONTENT_TYPE) then Some h else None
  end.

Lemma header_roundtrip h k :
  valid_header h -> http_header_to_kafka h = Ok (Some k) -> kafka_header_to_http (k.1, Some k.2) = Ok (ce_header h).
Proof.
  intros [Hn Hv]. unfold http_header_to_kafka, ce_header, kafka_header_to_http. destruct h as [n v]. simpl in *.
  destruct (strip_prefix CE_HTTP_PREFIX n) as [a|] eqn:Ha.
  - apply strip_prefix_Some in Ha. destruct (to_str v) as [s|] eqn:Hs; simpl; [|done]. apply to_str_bytes in Hs. simpl.
    intros [= <-]. rewrite Hs. cbn [fst snd]. case_bool_decide as Hd.
    + simpl. by rewrite Hv.
    + rewrite strip_prefix_app, (bool_decide_false _ Hd), <- Ha, Hn. simpl. by rewrite Hv.
  - case_bool_decide; [|done]. destruct (to_str v) as [s|] eqn:Hs; simpl; [|done]. apply to_str_bytes in Hs. simpl.
    intros [= <-]. simpl. rewrite Hs, Hv. simpl. by subst.
Qed.

Lemma header_untranslated h : http_header_to_kafka h = Ok None -> ce_header h = None.
Proof.
  unfold http_header_to_kafka, ce_header. case_match; [by destruct (to_str _); simpl|].
  case_bool_decide; [by destruct (to_str _); simpl|done].
Qed.

(** A CloudEvent's headers survive the Kafka binding: translating a
    request's headers to record headers and back gives its context attributes
    and content type, in order, with nothing added or lost. *)
Theorem ce_headers_roundtrip hs ks :
  Forall valid_header hs -> http_headers_to_kafka hs = Ok ks ->
  kafka_headers_to_http (map (fun k => (k.1, Some k.2)) ks) = Ok (omap ce_header hs).
Proof.
  intros Hv (os & Hos & ->)%try_collect_inv. unfold kafka_headers_to_http.
  enough (exists ws, Forall2 (fun k w => kafka_header_to_http k = Ok w)
                       (map (fun k => (k.1, Some k.2)) (somes os)) ws /\ somes ws = omap ce_header hs)
    as (ws & Hws & <-).
  { unfold try_collect. enough (try_map kafka_header_to_http (map (fun k => (k.1, Some k.2)) (somes os)) = Ok ws) as ->; [done|].
    induction Hws as [|k w ? ? Hk Hws IH]; simpl; [done|]. by rewrite Hk, IH. }
  revert Hv. induction Hos as [|h o hs os Ho Hos IH]; intros Hv; [by exists []|].
  inversion Hv as [|? ? Hh Hv']; subst. destruct (IH Hv') as (ws & Hws & Heq). destruct o as [k|]; simpl.
  - exists (ce_header h :: ws). split; [constructor; [by apply header_roundtrip|done]|].
    simpl. destruct (ce_header h); by rewrite Heq.
  - exists ws. rewrite (header_untranslated h) by done. done.
Qed.
End HeaderRoundTrip.

(** ** Binary to structured mode and back *)

Lemma object_get_elem (o : list (Bytes * Json)) k j : NoDup o.*1 -> (k, j) ∈ o -> object_get o k = Some j.
Proof.
  unfold object_get. induction o as [|[k' j'] o IH]; [by intros _ ?%not_elem_of_nil|].
  intros [Hk Hnd]%NoDup_cons [[= <- <-]|Hin]%elem_of_cons; simpl.
  - by rewrite bool_decide_true.
  - rewrite bool_decide_false; [by apply IH|]. intros ->. apply Hk. apply list_elem_of_fmap. by exists (k, j).
Qed.

Lemma object_get_None (o : list (Bytes * Json)) k : k ∉ o.*1 -> object_get o k = None.
Proof.
  unfold object_get. induction o as [|[k' j'] o IH]; simpl; [done|]. intros [Hne Hk]%not_elem_of_cons.
  rewrite bool_decide_false by done. by apply IH.
Qed.

Section EventRoundTrip.
  Context `{CeLib}.

(** The record headers of an event's attributes. *)
Definition attribute_name (a : string) : string :=
  if bool_decide (a = DATA_CONTENT_TYPE) then CONTENT_TYPE else CE_KAFKA_PREFIX +:+ a.
Definition record_headers (attrs : list (string * Bytes)) : list (string * Bytes) :=
  map (fun a => (attribute_name a.1, a.2)) attrs.
Definition event_entry (a : string * Bytes) : Bytes * Json := (as_bytes a.1, JString a.2).

(** Distinct attributes with textual names and values, none of them called like the data,
    among them the required ones. *)
Record ce_attributes (attrs : list (string * Bytes)) : Prop := {
  ca_distinct : NoDup attrs.*1;
  ca_names : Forall (fun a => is_utf8 (as_bytes a.1) = true) attrs;
  ca_text : Forall (fun a => is_utf8 a.2 = true) attrs;
  ca_no_data : ("data" ∉ attrs.*1) /\ ("data_base64" ∉ attrs.*1);
  ca_required : Forall (fun r => exists v, v <> [] /\ (r, v) ∈ attrs) REQUIRED_ATTRIBUTES;
  ca_version : ("specversion", as_bytes "1.0") ∈ attrs;
}.

Lemma entry_keys attrs : (map event_entry attrs).*1 = map as_bytes attrs.*1.
Proof. induction attrs; simpl; by f_equal. Qed.

Lemma entry_key_fresh attrs k : k ∉ attrs.*1 -> as_bytes k ∉ (map event_entry attrs).*1.
Proof. rewrite entry_keys. intros Hk Hin. apply Hk. by apply (list_elem_of_fmap_inj as_bytes) in Hin. Qed.

Lemma attribute_entry_of a :
  is_utf8 a.2 = true -> attribute_entry (attribute_name a.1, Some a.2) = Ok (Some (a.1, JString a.2)).
Proof.
  unfold attribute_entry, attribute_name, from_utf8. cbn [fst snd]. intros ->. cbn [ok_or mbind result_bind].
  rewrite as_of_bytes. case_bool_decide as Hd; [by rewrite Hd|]. by rewrite strip_prefix_app.
Qed.

Lemma attributes_collected attrs :
  Forall (fun a => is_utf8 a.2 = true) attrs ->
  try_collect attribute_entry (map (fun h => (h.1, Some h.2)) (record_headers attrs))
  = Ok (map (fun a => (a.1, JString a.2)) attrs).
Proof.
  intros Ht. unfold record_headers, try_collect. rewrite List.map_map. cbn [fst snd].
  assert (try_map attribute_entry (map (fun a => (attribute_name a.1, Some a.2)) attrs)
          = Ok (map (fun a : string * Bytes => Some (a.1, JString a.2)) attrs)) as ->.
  { induction Ht as [|a l Hu Ht IH]; cbn [map try_map]; [done|]. by rewrite attribute_entry_of, IH by done. }
  simpl. f_equal. clear. induction attrs; simpl; by f_equal.
Qed.

(** The event built from the attributes has exactly their entries. *)
Lemma attributes_event_perm attrs :
  NoDup attrs.*1 -> attributes_event (map (fun a => (a.1, JString a.2)) attrs) ≡ₚ map event_entry attrs.
Proof.
  intros Hnd. unfold attributes_event.
  enough (forall o, NoDup (o.*1 ++ (map event_entry attrs).*1) ->
    foldl (fun o (e : string * Json) => object_insert (as_bytes e.1) e.2 o) o (map (fun a => (a.1, JString a.2)) attrs)
    ≡ₚ o ++ map event_entry attrs) as Hgen.
  { apply Hgen. simpl. rewrite entry_keys. by apply (NoDup_fmap_2 as_bytes). }
  clear Hnd. induction attrs as [|a attrs IH]; intros o Hnd; simpl in *; [by rewrite app_nil_r|].
  assert (object_insert (as_bytes a.1) (JString a.2) o ≡ₚ event_entry a :: o) as Hins.
  { apply object_insert_fresh. intros Hin. apply NoDup_app in Hnd as (_ & Hd & _). apply (Hd _ Hin). by left. }
  rewrite IH; [|rewrite Hins; simpl; by rewrite <- Permutation_middle in Hnd].
  rewrite Hins. simpl. by rewrite Permutation_middle.
Qed.

Lemma entry_header_of a :
  a.1 <> "data" -> a.1 <> "data_base64" -> entry_header (event_entry a) = Ok (Some (attribute_name a.1, a.2)).
Proof.
  intros H1 H2. unfold entry_header, event_entry, attribute_name. cbn [fst snd].
  rewrite !bool_decide_false by (intros ?%(inj as_bytes); done). cbn [orb scalar_attribute_bytes mbind result_bind].
  rewrite of_as_bytes. do 3 f_equal. apply (f_equal (fun b : bool => if b then _ else _)).
  apply bool_decide_ext. split; [apply (inj as_bytes)|by intros ->].
Qed.

Section Event.
  Context (attrs : list (string * Bytes)) (Hattrs : ce_attributes attrs).
  Context (dk : string) (dj : Json) (o : list (Bytes * Json)).
  Context (Hdk : dk = "data" \/ dk = "data_base64") (Ho : o ≡ₚ (as_bytes dk, dj) :: map event_entry attrs).

Lemma event_keys : NoDup o.*1.
Proof.
  rewrite Ho. simpl. apply NoDup_cons. destruct Hattrs as [Hnd _ _ [Hd1 Hd2] _ _]. split.
  - apply entry_key_fresh. by destruct Hdk as [->| ->].
  - rewrite entry_keys. by apply (NoDup_fmap_2 as_bytes).
Qed.

Lemma event_get_attribute a v : (a, v) ∈ attrs -> event_get o a = Some (JString v).
Proof.
  intros Hin. apply object_get_elem; [apply event_keys|]. rewrite Ho. right.
  apply list_elem_of_fmap. by exists (a, v).
Qed.

Lemma event_get_data : event_get o dk = Some dj.
Proof. apply object_get_elem; [apply event_keys|]. rewrite Ho. by left. Qed.

Lemma event_get_other k : k <> dk -> k ∉ attrs.*1 -> event_get o k = None.
Proof.
  intros Hne Hk. apply object_get_None. rewrite Ho. simpl. intros [Heq|Hin]%elem_of_cons.
  - by apply Hne, (inj as_bytes).
  - by apply entry_key_fresh in Hin.
Qed.

Lemma event_valid : validate_structured_json (JObject o) = Ok ().
Proof.
  destruct Hattrs as [_ _ _ [Hd1 Hd2] Hreq Hver]. unfold validate_structured_json. cbn [as_object ok_or mbind result_bind].
  assert (contains_key o "data" && contains_key o "data_base64" = false) as ->.
  { unfold contains_key. apply andb_false_iff.
    destruct Hdk as [Heq|Heq]; [right|left]; apply bool_decide_eq_false; rewrite event_get_other by (done || by rewrite Heq); by intros [? ?]. }
  cbn [negb ensure].
  assert (forall r, r ∈ REQUIRED_ATTRIBUTES ->
    match event_get o r ≫= as_str with Some v => negb (bool_decide (v = [])) | None => false end = true) as Hr.
  { intros r Hin. rewrite Forall_forall in Hreq. destruct (Hreq r Hin) as (v & Hv & Hrv).
    rewrite (event_get_attribute r v Hrv). simpl. by rewrite bool_decide_false. }
  unfold REQUIRED_ATTRIBUTES in *. cbn [try_map]. rewrite !Hr by set_solver. simpl.
  rewrite (event_get_attribute _ _ Hver). simpl. done.
Qed.

Lemma event_headers : exists hs, try_collect entry_header o = Ok hs /\ hs ≡ₚ record_headers attrs.
Proof.
  set (g := fun e : Bytes * Json =>
    if bool_decide (e.1 = as_bytes "data") || bool_decide (e.1 = as_bytes "data_base64") then None
    else match e.2 with JString s => Some (attribute_name (of_bytes e.1), s) | _ => None end).
  assert (forall a, a ∈ attrs -> g (event_entry a) = Some (attribute_name a.1, a.2)
                                 /\ entry_header (event_entry a) = Ok (g (event_entry a))) as Hg.
  { intros [a v] Ha. destruct (ca_no_data _ Hattrs) as [Hd1 Hd2].
    assert (a ∈ attrs.*1) as Hin by (apply list_elem_of_fmap; by exists (a, v)).
    assert (g (event_entry (a, v)) = Some (attribute_name a, v)) as Heq.
    { unfold g, event_entry. cbn [fst snd]. rewrite !bool_decide_false by (intros ?%(inj as_bytes); set_solver).
      simpl. by rewrite of_as_bytes. }
    rewrite Heq. split; [done|]. apply (entry_header_of (a, v)); simpl; set_solver. }
  assert (g (as_bytes dk, dj) = None /\ entry_header (as_bytes dk, dj) = Ok None) as [Hgd Hed]
    by (by destruct Hdk as [->| ->]).
  exists (omap g o). split.
  - apply try_collect_Ok. rewrite Ho. constructor; [by rewrite Hgd|]. apply Forall_map, Forall_forall. by intros a [_ ?]%Hg.
  - rewrite Ho. simpl. rewrite Hgd. clear -Hg. induction attrs as [|a l IH]; simpl; [done|].
    destruct (Hg a) as [-> _]; [by left|]. rewrite IH; [done|]. intros b Hb. apply Hg. by right.
Qed.

(** Printing the event, and reading its headers back. *)
Lemma event_roundtrip :
  exists doc hs, json_to_vec (JObject o) = Some doc
    /\ binary_from_structured (JObject o) = (data ← event_data o; Ok (hs, data)) /\ hs ≡ₚ record_headers attrs.
Proof.
  destruct (json_to_vec_total (JObject o)) as [doc Hdoc]. destruct event_headers as (hs & Hhs & Hperm).
  exists doc, hs. split_and!; [done| |done]. unfold binary_from_structured. rewrite event_valid. simpl. by rewrite Hhs.
Qed.
End Event.

(** What the record declares to be JSON, and is. *)
Definition declared_json (attrs : list (string * Bytes)) (v : Bytes) : option Json :=
  m ← snd <$> List.find (fun a => bool_decide (a.1 = DATA_CONTENT_TYPE)) attrs;
  if is_json_media_type (of_bytes m) then json_parse v else None.

Lemma json_data_declared attrs ev v : NoDup attrs.*1 -> ev ≡ₚ map event_entry attrs -> json_data ev v = declared_json attrs v.
Proof.
  intros Hnd Hev. assert (NoDup ev.*1) as Hk by (rewrite Hev, entry_keys; by apply (NoDup_fmap_2 as_bytes)).
  unfold json_data, declared_json. destruct (List.find _ attrs) as [[a m]|] eqn:Hf; cbn.
  - apply find_some in Hf as [Hin%list_elem_of_In Ha]. cbn in Ha. apply bool_decide_eq_true in Ha as ->.
    unfold event_get. rewrite (object_get_elem _ (as_bytes DATA_CONTENT_TYPE) (JString m)); [done..|].
    rewrite Hev. apply list_elem_of_fmap. by exists (DATA_CONTENT_TYPE, m).
  - unfold event_get. rewrite object_get_None; [done|]. rewrite Hev. apply entry_key_fresh. intros (a & Ha & Hin)%list_elem_of_fmap.
    apply list_elem_of_In, (find_none _ _ Hf) in Hin. cbn in Hin. by rewrite <- Ha, bool_decide_true in Hin.
Qed.

(** The event is a value of the library, one level deeper than its data. *)
Lemma event_value `{!JsonLaws} attrs dk dj :
  ce_attributes attrs -> is_utf8 (as_bytes dk) = true -> json_value dj ->
  json_value (JObject (object_insert (as_bytes dk) dj (attributes_event (map (fun a => (a.1, JString a.2)) attrs)))).
Proof.
  intros Ha Hdk Hdj. apply json_value_insert; [done..|]. destruct Ha as [_ Hn Ht _ _ _]. unfold attributes_event.
  assert (forall o, json_value (JObject o) -> json_value (JObject (foldl (fun o e => object_insert (as_bytes e.1) e.2 o) o
    (map (fun a => (a.1, JString a.2)) attrs)))) as Hgo; [|apply Hgo, json_value_empty].
  induction attrs as [|a l IH]; intros o Ho; [done|]. apply Forall_cons in Hn as [Hn1 Hn], Ht as [Ht1 Ht]. cbn.
  apply IH; [done..|]. apply json_value_insert; [done|by apply json_value_string|done].
Qed.

Lemma event_shape attrs dk dj o : o ≡ₚ (as_bytes dk, dj) :: map event_entry attrs ->
  float_free (JObject o) = float_free dj /\ depth (JObject o) = S (depth dj).
Proof.
  intros Ho. cbn. split.
  - apply eq_true_iff_eq. rewrite forallb_forall. setoid_rewrite <- list_elem_of_In. setoid_rewrite Ho. split.
    + intros Hall. by apply (Hall (as_bytes dk, dj)), elem_of_cons; left.
    + intros Hd e [->|(a & -> & _)%list_elem_of_fmap]%elem_of_cons; done.
  - f_equal. assert (foldr Nat.max 0%nat (map (fun e : Bytes * Json => depth e.2) o)
      = foldr Nat.max 0%nat (map (fun e : Bytes * Json => depth e.2) ((as_bytes dk, dj) :: map event_entry attrs))) as ->.
    { apply (foldr_permutation (=) Nat.max); [solve_proper|intros; lia|by rewrite Ho]. }
    cbn. assert (foldr Nat.max 0%nat (map (fun e : Bytes * Json => depth e.2) (map event_entry attrs)) = 0%nat) as ->; [|lia].
    clear Ho. induction attrs as [|a l IH]; [done|]. cbn. apply IH.
Qed.

(** C29.  A binary-mode CloudEvent survives the structured mode.  The document
    built from a record is a valid event whose headers are the record's, in some
    order.  Its data are the record's own bytes, unless the content type is a JSON
    media type and the value parses: then they are a printing of the same JSON
    value.  Parsing the document gives the event back, and the printed data parse
    to the same value, if what the record declares to be JSON has no float and is
    less than 127 levels deep. *)
Theorem ce_structured_roundtrip `{!JsonLaws} attrs v :
  ce_attributes attrs ->
  exists doc event hs v',
    structured_from_binary (map (fun h => (h.1, Some h.2)) (record_headers attrs)) v = Ok doc
    /\ json_to_vec event = Some doc
    /\ binary_from_structured event = Ok (hs, v')
    /\ hs ≡ₚ record_headers attrs
    /\ match declared_json attrs v with Some d => json_to_vec d = Some v' | None => v' = v end
    /\ ((forall d, declared_json attrs v = Some d -> float_free d = true /\ (depth d < 127)%nat) ->
        json_parse doc = Some event /\ forall d, declared_json attrs v = Some d -> json_parse v' = Some d).
Proof.
  intros Ha. unfold structured_from_binary.
  rewrite attributes_collected by apply Ha.
  cbn [mbind result_bind]. pose proof (event_value attrs) as Hval. set (ev := attributes_event _) in *.
  assert (ev ≡ₚ map event_entry attrs) as Hev by apply attributes_event_perm, Ha.
  assert (forall dk dj, dk = "data" \/ dk = "data_base64" ->
    object_insert (as_bytes dk) dj ev ≡ₚ (as_bytes dk, dj) :: map event_entry attrs) as Hins.
  { intros dk dj Hdk. rewrite object_insert_fresh, Hev; [done|]. rewrite Hev. apply entry_key_fresh.
    destruct (ca_no_data _ Ha) as [? ?]. by destruct Hdk as [->| ->]. }
  rewrite (json_data_declared attrs ev v) by (done || apply Ha). destruct (declared_json attrs v) as [d|] eqn:Hd.
  - assert (json_value d) as Hdv.
    { unfold declared_json in Hd. destruct (snd <$> _); [|done]. cbn in Hd. case_match; [|done]. by eapply json_value_parse. }
    pose proof (or_introl eq_refl : "data" = "data" \/ "data" = "data_base64") as Hk. specialize (Hins "data" d Hk).
    destruct (event_roundtrip attrs Ha _ _ _ Hk Hins) as (doc & hs & Hdoc & Hb & Hhs). destruct (event_shape _ _ _ _ Hins) as [Hf Hde].
    destruct (json_to_vec_total d) as [v' Hv']. rewrite Hdoc. eexists doc, _, hs, v'.
    split_and!; [done|exact Hdoc| |done|done|].
    + rewrite Hb. unfold event_data.
      rewrite (event_get_other attrs _ _ _ Hins "data_base64"), (event_get_data attrs Ha _ _ _ Hk Hins) by (done || apply Ha).
      by rewrite Hv'.
    + intros Hr. destruct (Hr d eq_refl) as [Hfd Hdd]. split; [|intros d' [= <-]; apply json_parse_print; done || lia].
      apply json_parse_print; [by apply Hval|by rewrite Hf|lia|exact Hdoc].
  - pose proof (or_intror eq_refl : "data_base64" = "data" \/ "data_base64" = "data_base64") as Hk.
    specialize (Hins "data_base64" (JString (base64_encode v)) Hk). destruct (event_shape _ _ _ _ Hins) as [Hf Hde].
    destruct (event_roundtrip attrs Ha _ _ _ Hk Hins) as (doc & hs & Hdoc & Hb & Hhs).
    rewrite Hdoc. eexists doc, _, hs, v. split_and!; [done|exact Hdoc| |done|done|].
    + rewrite Hb. unfold event_data. rewrite (event_get_data attrs Ha _ _ _ Hk Hins). simpl. by rewrite base64_decode_encode.
    + intros _. split; [|done]. apply json_parse_print; [|by rewrite Hf|rewrite Hde; cbn; lia|exact Hdoc]. apply Hval; [done..|]. apply json_value_string, base64_utf8.
Qed.
End EventRoundTrip.

(** ** Concrete libraries *)

Definition visible_ascii (b : ascii) : bool := between 32 126 b.
Definition sample_http : HttpLib.
Proof.
  refine {| to_str := fun v => if forallb visible_ascii v then Some (of_bytes v) else None;
            header_name := fun s => Some (lower s); header_value := Some |}.
  - intros v s. destruct (forallb _ _); [|done]. intros [= <-]. apply as_of_bytes.
  - intros s n [= <-]. apply lower_lower.
  - by intros v w [= ->].
Defined.

Lemma ce_headers_roundtrip_witness :
  let hs := [("ce-id", as_bytes "7"); ("host", as_bytes "h"); ("content-type", as_bytes "text/plain"); ("ce-type", as_bytes "t")] in
  http_headers_to_kafka (H:=sample_http) hs
  = Ok [("ce_id", as_bytes "7"); ("content-type", as_bytes "text/plain"); ("ce_type", as_bytes "t")]
  /\ kafka_headers_to_http (H:=sample_http)
       [("ce_id", Some (as_bytes "7")); ("content-type", Some (as_bytes "text/plain")); ("ce_type", Some (as_bytes "t"))]
     = Ok [("ce-id", as_bytes "7"); ("content-type", as_bytes "text/plain"); ("ce-type", as_bytes "t")].
Proof.
  intros hs. split; [reflexivity|].
  apply (ce_headers_roundtrip (H:=sample_http) hs
    [("ce_id", as_bytes "7"); ("content-type", as_bytes "text/plain"); ("ce_type", as_bytes "t")]); [|reflexivity].
  repeat constructor.
Defined.

(** A parser of one document, and a printer of one text. *)
Definition sample_json : JsonLib :=
  {| json_parse := fun v => if bool_decide (v = as_bytes "{}") then Some (JObject []) else None; json_error := fun _ => "bad" |}.
Definition sample_ce : CeLib (H:=sample_json).
Proof.
  refine {| base64_encode := fun v => v ++ as_bytes "="; base64_decode := fun v => Some (take (length v - 1) v);
            json_to_vec := fun _ => Some (as_bytes "{}"); number_to_string := fun _ => as_bytes "0";
            object_insert := fun k j o => (k, j) :: o |}.
  - intros v. rewrite length_app. simpl. f_equal. by rewrite Nat.add_sub, take_app_length.
  - eauto.
  - done.
Defined.

(** A library that prints values as the bits of a numbering. *)
Module Numbered.
Fixpoint bits (p : positive) : Bytes :=
  match p with xH => [] | xO p => "0"%char :: bits p | xI p => "1"%char :: bits p end.
Fixpoint unbits (l : Bytes) : positive :=
  match l with [] => xH | b :: l => if bool_decide (b = "0"%char) then xO (unbits l) else xI (unbits l) end.
Lemma unbits_bits p : unbits (bits p) = p.
Proof. induction p; cbn; by rewrite ?IHp. Qed.
Lemma numbering_utf8 p : is_utf8 (bits p) = true.
Proof. unfold is_utf8, utf8_chunks. induction p; cbn; by rewrite ?drop_0. Qed.

Abbreviation Leaf := (option (bool + (bool * Z) + Bytes)) (only parsing).
Fixpoint to_tree (j : Json) : gen_tree Leaf :=
  match j with
  | JNull | JNumber (JFloat _) => GenLeaf None
  | JBool b => GenLeaf (Some (inl (inl b)))
  | JNumber (PosInt z) => GenLeaf (Some (inl (inr (true, z))))
  | JNumber (NegInt z) => GenLeaf (Some (inl (inr (false, z))))
  | JString s => GenLeaf (Some (inr s))
  | JArray l => GenNode 0 (map to_tree l)
  | JObject o => GenNode 1 (map (fun e => GenNode 2 [GenLeaf (Some (inr e.1)); to_tree e.2]) o)
  end.
Fixpoint of_tree (t : gen_tree Leaf) : Json :=
  match t with
  | GenLeaf None => JNull
  | GenLeaf (Some (inl (inl b))) => JBool b
  | GenLeaf (Some (inl (inr (pos, z)))) => JNumber (if pos then PosInt z else NegInt z)
  | GenLeaf (Some (inr s)) => JString s
  | GenNode 0 ts => JArray (map of_tree ts)
  | GenNode _ ts => JObject (map (fun t => match t with GenNode _ [GenLeaf (Some (inr k)); t] => (k, of_tree t) | _ => ([], JNull) end) ts)
  end.
Lemma of_to_tree : forall j, float_free j = true -> of_tree (to_tree j) = j.
Proof.
  fix IH 1. intros [|b|[z|z|f]|s|l|o]; cbn; try done; intros Hf; f_equal.
  - revert l Hf. fix IHl 1. intros [|j l]; cbn; [done|]. intros [Hj Hl]%andb_true_iff. f_equal; [by apply IH|by apply IHl].
  - revert o Hf. fix IHo 1. intros [|[k j] o]; cbn; [done|]. intros [Hj Ho]%andb_true_iff. f_equal; [f_equal; by apply IH|by apply IHo].
Qed.

Fixpoint texts (j : Json) : bool :=
  match j with
  | JString s => is_utf8 s
  | JArray l => forallb texts l
  | JObject o => forallb (fun e => is_utf8 e.1 && texts e.2) o
  | _ => true
  end.
#[export] Instance json : JsonLib :=
  {| json_parse := fun v => t ← decode (A:=gen_tree Leaf) (unbits v); if texts (of_tree t) then Some (of_tree t) else None;
     json_error := fun _ => "bad" |}.
#[export] Instance ce : CeLib.
Proof.
  refine {| base64_encode := fun v => bits (encode v); base64_decode := fun v => decode (unbits v);
            json_to_vec := fun j => Some (bits (encode (to_tree j))); number_to_string := fun _ => as_bytes "0";
            object_insert := fun k j o => (k, j) :: o |}.
  - intros v. by rewrite unbits_bits, decode_encode.
  - eauto.
  - done.
Defined.
#[export] Instance laws : JsonLaws.
Proof.
  refine {| json_value := fun j => texts j = true |}; [done|done| | |intros; apply numbering_utf8|].
  - intros k j o Hk Hj Ho. change (is_utf8 k && texts j && texts (JObject o) = true). by rewrite Hk, Hj, Ho.
  - intros v j (t & _ & Ht)%bind_Some. by destruct (texts (of_tree t)) eqn:Hx; simplify_eq.
  - intros j v Hj Hf _ [= <-]. cbn. rewrite unbits_bits, decode_encode. cbn. by rewrite of_to_tree, Hj.
Defined.

Definition empty : Bytes := default [] (json_to_vec (JObject [])).
Definition attrs : list (string * Bytes) :=
  [("id", as_bytes "7"); ("source", as_bytes "s"); ("type", as_bytes "t"); ("specversion", as_bytes "1.0");
   ("datacontenttype", as_bytes "application/vnd.order+json")].
Lemma ce_structured_roundtrip_witness :
  ce_attributes attrs /\ declared_json attrs empty = Some (JObject [])
  /\ exists doc event hs v',
    structured_from_binary (map (fun h => (h.1, Some h.2)) (record_headers attrs)) empty = Ok doc
    /\ binary_from_structured event = Ok (hs, v') /\ hs ≡ₚ record_headers attrs
    /\ json_parse doc = Some event /\ json_parse v' = Some (JObject []).
Proof.
  assert (ce_attributes attrs) as Ha.
  { split.
    - apply (bool_decide_unpack _). vm_compute. exact I.
    - repeat constructor.
    - repeat constructor.
    - split; apply (bool_decide_unpack _); vm_compute; exact I.
    - unfold REQUIRED_ATTRIBUTES. rewrite !Forall_cons. split_and!; [exists (as_bytes "7")|exists (as_bytes "s")
        |exists (as_bytes "t")|exists (as_bytes "1.0")|by constructor];
        (split; [discriminate|]); apply (bool_decide_unpack _); vm_compute; exact I.
    - apply (bool_decide_unpack _). vm_compute. exact I. }
  assert (declared_json attrs empty = Some (JObject [])) as Hd by (vm_compute; reflexivity).
  split; [exact Ha|]. split; [exact Hd|].
  destruct (ce_structured_roundtrip attrs empty Ha) as (doc & event & hs & v' & Hs & _ & Hb & Hp & _ & Hr).
  exists doc, event, hs, v'. split; [exact Hs|]. split; [exact Hb|]. split; [exact Hp|].
  destruct Hr as [Hdoc Hv].
  { intros d Hd'. rewrite Hd in Hd'. injection Hd' as <-. split; [reflexivity|cbn; lia]. }
  split; [exact Hdoc|]. exact (Hv _ Hd).
Defined.
End Numbered.
