(* ===== verification/Webhook.v ===== *)
(** * Webhook ingress (webhook_config.rs, standard_webhooks.rs, webhook.rs)

    Compilation of an endpoint's configuration, the two signature protocols,
    and the HTTP handlers, which hand a record to [Produce]. *)

From S2P Require Import Prelude.
From S2P Require Import RustStr.
From S2P Require Import RustNum.
From S2P Require Import Types.
From S2P Require Import Filter.
From S2P Require Import Produce.
From S2P Require Import Settings.
From S2P Require Import CloudEvents.

(** ** The libraries *)

(** HMAC-SHA256, which takes a key of any length, and the hex crate. *)
Class Crypto := {
  hmac_sha256 : Bytes -> Bytes -> Bytes;
  hex_encode : Bytes -> Bytes;
  hex_decode : Bytes -> option Bytes;
  hex_decode_encode : forall b, hex_decode (hex_encode b) = Some b;
}.

(** jsonpath-rust. *)
Class JsonPath := {
  JpQuery : Type;
  parse_json_path : string -> option JpQuery;
  js_path_process : JpQuery -> Json -> option (list Json);
}.

(** [HeaderMap::get_all] and [HeaderMap::get]: names are compared without case. *)
Definition get_all (hs : HeaderMap) (name : string) : list Bytes :=
  map snd (List.filter (fun h : string * Bytes => bool_decide (h.1 = lower name)) hs).
Definition header_get (hs : HeaderMap) (name : string) : option Bytes := head (get_all hs name).

(** ** webhook_config.rs *)

Section Ingress.
  Context `{Units} `{Crypto} `{JsonPath} `{CeLib} `{HttpLib}.

Inductive SignatureMode := StandardWebhooks.
Inductive SigEncoding := Hex | Base64.
Inductive Source := SourceHeader (name : string) | SourceJsonPath (q : JpQuery).

Record WebhookEndpoint := {
  e_name : string;
  e_target_topic : string;
  e_signature_mode : option SignatureMode;
  e_principal : option string;
  e_secret : option string;
  e_signature_header : option string;
  e_signature_encoding : option string;
  e_signature_prefix : option string;
  e_timestamp_header : option string;
  e_timestamp_tolerance : option Time;
  e_idempotency_source : option string;
  e_key_source : option string;
  e_forward_headers : option (list string);
  e_max_body : option ByteSize;
  e_schema_subject : option string;
  e_schema_format : option string;
}.

Record CompiledWebhook := {
  target_topic : string;
  signature_mode : option SignatureMode;
  w_principal : string;
  secret : option Bytes;
  signature_header : option string;
  signature_encoding : SigEncoding;
  signature_prefix : option string;
  timestamp_header : option string;
  timestamp_tolerance : Time;
  idempotency_source : option Source;
  key_source : option Source;
  forward_headers : list string;
  max_body : ByteSize;
  schema_subject : option string;
  schema_format : SchemaFormat;
}.

(** The messages, one constructor each, of the endpoint named first. *)
Inductive ConfigFault :=
| StandardSetsHeaders | StandardNeedsToken | BadToken | EmptyToken
| SecretWithoutHeader | EmptySecret | BadEncoding (got : string) | StandardDedupsById
| BadSource (field : string) | BadJsonPath (field expr : string)
| BadForwardName | ForwardsSecret | BadSchemaFormat (got : string)
| BadValue (message : string).
Abbreviation ConfigError := (string * ConfigFault)%type (only parsing).

Definition Source_parse (spec : string) (field : string) : result ConfigFault Source :=
  match strip_prefix "header:" spec with
  | Some h => Ok (SourceHeader h)
  | None =>
      match strip_prefix "json:" spec with
      | Some jp => SourceJsonPath <$> ok_or (BadJsonPath field jp) (parse_json_path jp)
      | None => Err (BadSource field)
      end
  end.

Definition parse_schema_format (spec : option string) : result ConfigFault SchemaFormat :=
  match spec with
  | None => Ok Types.Json
  | Some s =>
      if bool_decide (s = "json") then Ok Types.Json
      else if bool_decide (s = "avro") then Ok Types.Avro
      else if bool_decide (s = "protobuf") then Ok Types.Protobuf
      else Err (BadSchemaFormat s)
  end.

Definition require {E} (b : bool) (e : E) : result E unit := if b then Ok () else Err e.
Definition is_some {A} (o : option A) : bool := match o with Some _ => true | None => false end.
(** [o.map(f).transpose()]. *)
Definition transpose {E A B} (f : A -> result E B) (o : option A) : result E (option B) :=
  match o with Some a => Some <$> f a | None => Ok None end.

Definition standard_key (token : string) : result ConfigFault Bytes :=
  key ← ok_or BadToken (base64_decode (as_bytes (default token (strip_prefix "whsec_" token))));
  _ ← require (negb (bool_decide (key = []))) EmptyToken;
  Ok key.

Definition compile_secret (e : WebhookEndpoint) : result ConfigFault (option Bytes) :=
  match e_signature_mode e with
  | Some StandardWebhooks =>
      _ ← require (negb (is_some (e_signature_header e) || is_some (e_signature_encoding e)
                         || is_some (e_signature_prefix e) || is_some (e_timestamp_header e))) StandardSetsHeaders;
      token ← ok_or StandardNeedsToken (e_secret e);
      Some <$> standard_key token
  | None => Ok (as_bytes <$> e_secret e)
  end.

Definition compile_encoding (e : WebhookEndpoint) : result ConfigFault SigEncoding :=
  match e_signature_encoding e with
  | None => Ok Hex
  | Some s => if bool_decide (s = "hex") then Ok Hex
              else if bool_decide (s = "base64") then Ok Base64 else Err (BadEncoding s)
  end.

Definition secret_names : list string := ["authorization"; "cookie"; "x-gitlab-token"; "webhook-signature"].

Definition compile_forward (e : WebhookEndpoint) (name : string) : result ConfigFault string :=
  h ← ok_or BadForwardName (header_name name);
  _ ← require (negb (bool_decide (h ∈ secret_names)
                     || match e_signature_header e with
                        | Some s => eq_ignore_ascii_case (as_bytes s) (as_bytes h)
                        | None => false
                        end)) ForwardsSecret;
  Ok h.

Definition compile_endpoint (e : WebhookEndpoint) : result ConfigFault CompiledWebhook :=
  secret ← compile_secret e;
  _ ← require (is_some (e_signature_mode e) || bool_decide (is_some (e_secret e) = is_some (e_signature_header e)))
        SecretWithoutHeader;
  _ ← require (negb (bool_decide (e_secret e = Some EmptyString))) EmptySecret;
  encoding ← compile_encoding e;
  _ ← require (negb (is_some (e_signature_mode e)
                     && match e_idempotency_source e with
                        | Some s => negb (bool_decide (s = "header:webhook-id"))
                        | None => false
                        end)) StandardDedupsById;
  idempotency ← transpose (fun s => Source_parse s "idempotency_source")
    (match e_idempotency_source e with
     | Some s => Some s
     | None => match e_signature_mode e with Some _ => Some "header:webhook-id" | None => None end
     end);
  key ← transpose (fun s => Source_parse s "key_source") (e_key_source e);
  forward ← try_map (compile_forward e) (default [] (e_forward_headers e));
  format ← parse_schema_format (e_schema_format e);
  tolerance ← map_err BadValue (non_negative_time "timestamp_tolerance" (default (minutes 5) (e_timestamp_tolerance e)));
  limit ← map_err BadValue (positive_byte_size "max_body" (default (mebibytes 1) (e_max_body e)));
  Ok {| target_topic := e_target_topic e; signature_mode := e_signature_mode e;
        w_principal := default ("webhook:" +:+ e_name e) (e_principal e); secret := secret;
        signature_header := e_signature_header e; signature_encoding := encoding;
        signature_prefix := e_signature_prefix e; timestamp_header := e_timestamp_header e;
        timestamp_tolerance := tolerance; idempotency_source := idempotency; key_source := key;
        forward_headers := forward; max_body := limit; schema_subject := e_schema_subject e; schema_format := format |}.

(** [WebhooksFile::compile]. *)
Definition compile_webhooks (endpoints : list WebhookEndpoint) : result ConfigError (gmap string CompiledWebhook) :=
  try_fold (fun out e => w ← map_err (pair (e_name e)) (compile_endpoint e); Ok (<[e_name e := w]> out)) ∅ endpoints.

(** The digests the outbound deliveries carry. *)
Definition sign_hmac_hex (secret body : Bytes) : string := of_bytes (hex_encode (hmac_sha256 secret body)).
Definition sign_hmac_base64 (secret body : Bytes) : string := of_bytes (base64_encode (hmac_sha256 secret body)).

Definition verify_signature (secret body : Bytes) (provided : string) (encoding : SigEncoding) (prefix : option string) : bool :=
  let computed := hmac_sha256 secret body in
  match (match prefix with Some p => strip_prefix p provided | None => Some provided end) with
  | None => false
  | Some sig =>
      match (match encoding with Hex => hex_decode (as_bytes sig) | Base64 => base64_decode (as_bytes sig) end) with
      | None => false
      | Some decoded => bool_decide (length computed = length decoded) && bool_decide (computed = decoded)
      end
  end.

Definition scalar_source (j : Json) : option string :=
  match j with
  | JString s => if bool_decide (s = []) then None else Some (of_bytes s)
  | JNumber n => Some (of_bytes (number_to_string n))
  | _ => None
  end.
Definition extract_source (src : Source) (hs : HeaderMap) (body_json : option Json) : option string :=
  match src with
  | SourceHeader h => header_get hs h ≫= to_str
  | SourceJsonPath q => json ← body_json; refs ← js_path_process q json; head (omap scalar_source refs)
  end.

(** ** standard_webhooks.rs *)

Definition header (hs : HeaderMap) (name : string) : option string :=
  match get_all hs name with
  | [v] => s ← to_str v; if bool_decide (s = EmptyString) then None else Some s
  | _ => None
  end.

Definition is_ascii_whitespace (b : ascii) : bool :=
  bool_decide (u8 b = 32) || bool_decide (u8 b = 9) || bool_decide (u8 b = 10) || bool_decide (u8 b = 12) || bool_decide (u8 b = 13).
(** [split_ascii_whitespace]; [word] is the part read so far, reversed. *)
Fixpoint split_words (l word : Bytes) : list Bytes :=
  let flush := match word with [] => [] | _ => [reverse word] end in
  match l with
  | [] => flush
  | b :: l => if is_ascii_whitespace b then flush ++ split_words l [] else split_words l (b :: word)
  end.
Definition split_ascii_whitespace (s : string) : list string := map of_bytes (split_words (as_bytes s) []).

Definition dot : Bytes := as_bytes ".".
Definition signed_content (id timestamp : string) (body : Bytes) : Bytes :=
  as_bytes id ++ dot ++ as_bytes timestamp ++ dot ++ body.
Definition v1_matches (expected : Bytes) (signature : string) : bool :=
  match strip_prefix "v1," signature ≫= (fun s => base64_decode (as_bytes s)) with
  | Some decoded => bool_decide (expected = decoded)
  | None => false
  end.

Definition authenticate (cfg : CompiledWebhook) (hs : HeaderMap) (body : Bytes) (now : Z) : option (string * string) :=
  id ← header hs "webhook-id";
  if (512 <? length (as_bytes id))%nat then None
  else
    timestamp ← header hs "webhook-timestamp";
    if negb (forallb is_digit (as_bytes timestamp)) then None
    else
      epoch ← parse_i64 (as_bytes timestamp);
      let skew := Z.abs (now - epoch) in
      if (i64_max <? skew) || time_gt (from_secs skew) (timestamp_tolerance cfg) then None
      else
        signatures ← header hs "webhook-signature";
        key ← secret cfg;
        let expected := hmac_sha256 key (signed_content id timestamp body) in
        if existsb (v1_matches expected) (split_ascii_whitespace signatures) then Some (id, timestamp) else None.

(** ** webhook.rs: a record from a request *)

Definition needs_json (cfg : CompiledWebhook) : bool :=
  let json_src o := match o with Some (SourceJsonPath _) => true | _ => false end in
  json_src (idempotency_source cfg) || json_src (key_source cfg).

Record TranslatedIngress := {
  ti_headers : list (string * option Bytes);
  ti_value : Bytes;
  is_cloud_event : bool;
}.

(** HTTP status codes. *)
Definition OK := 200.
Definition BAD_REQUEST := 400.
Definition UNAUTHORIZED := 401.
Definition FORBIDDEN := 403.
Definition NOT_FOUND := 404.
Definition REQUEST_TIMEOUT := 408.
Definition PAYLOAD_TOO_LARGE := 413.
Definition UNSUPPORTED_MEDIA_TYPE := 415.
Definition INTERNAL_SERVER_ERROR := 500.
Definition SERVICE_UNAVAILABLE := 503.

Definition untranslated (body : Bytes) : TranslatedIngress :=
  {| ti_headers := []; ti_value := body; is_cloud_event := false |}.

Definition translate_cloudevent_ingress (hs : HeaderMap) (body : Bytes) : result Z TranslatedIngress :=
  let media_type := header_get hs "content-type" ≫= to_str in
  let has_ce_header := existsb (fun h : string * Bytes => starts_with (as_bytes "ce-") (as_bytes h.1)) hs in
  match detect_content_mode media_type has_ce_header with
  | Batch => Err UNSUPPORTED_MEDIA_TYPE
  | NotCloudEvent => Ok (untranslated body)
  | Binary =>
      translated ← map_err (fun _ => BAD_REQUEST) (http_headers_to_kafka hs);
      _ ← map_err (fun _ => BAD_REQUEST) (validate_binary_required translated);
      Ok {| ti_headers := map (fun h => (h.1, Some h.2)) translated; ti_value := body; is_cloud_event := true |}
  | StructuredMode =>
      event ← ok_or BAD_REQUEST (json_parse body);
      _ ← map_err (fun _ => BAD_REQUEST) (validate_structured_json event);
      Ok {| ti_headers := [("content-type", Some (as_bytes (default "application/cloudevents+json" media_type)))];
            ti_value := body; is_cloud_event := true |}
  end.

(** The replay guard and the HMAC of a generic endpoint. *)
Definition timestamp_fresh (cfg : CompiledWebhook) (hs : HeaderMap) (now : Z) : bool :=
  match timestamp_header cfg with
  | None => true
  | Some name =>
      match (header_get hs name ≫= to_str) ≫= (fun s => parse_i64 (as_bytes s)) with
      | None => false
      | Some ts => negb (time_gt (from_secs (Z.min (Z.abs (now - ts)) i64_max)) (timestamp_tolerance cfg))
      end
  end.
Definition generic_signature_ok (cfg : CompiledWebhook) (hs : HeaderMap) (body : Bytes) (now : Z) : bool :=
  match signature_header cfg with
  | None => true
  | Some name =>
      match header_get hs name ≫= to_str with
      | None => false
      | Some provided =>
          timestamp_fresh cfg hs now
          && verify_signature (default [] (secret cfg)) body provided (signature_encoding cfg) (signature_prefix cfg)
      end
  end.

Definition forwarded (cfg : CompiledWebhook) (hs : HeaderMap) : list (string * option Bytes) :=
  concat (map (fun name => map (fun v => (name, Some v)) (get_all hs name)) (forward_headers cfg)).
Definition signed_headers (cfg : CompiledWebhook) (hs : HeaderMap) : list (string * option Bytes) :=
  match signature_mode cfg with
  | None => []
  | Some _ =>
      map (fun name => (name, header_get hs name))
          (List.filter (fun name => negb (bool_decide (name ∈ forward_headers cfg))) ["webhook-id"; "webhook-timestamp"])
  end.

(** Steps 4 to 7: the record of an authenticated request, or a status with the
    labels counted for it. *)
Definition webhook_record (cfg : CompiledWebhook) (hs : HeaderMap) (body : Bytes) : result (Z * list string) GatewayRecord :=
  let body_json := if needs_json cfg then json_parse body else None in
  let extract labels src := ok_or (BAD_REQUEST, labels) (extract_source src hs body_json) in
  idempotency_key ← transpose (extract ["bad_request"]) (idempotency_source cfg);
  key ← transpose (extract []) (key_source cfg);
  translated ← match signature_mode cfg with
               | Some _ => Ok (untranslated body)
               | None => map_err (fun st => (st, ["bad_request"])) (translate_cloudevent_ingress hs body)
               end;
  Ok {| topic := target_topic cfg; key := as_bytes <$> key; value := ti_value translated;
        body_structured :=
          if is_cloud_event translated then None
          else (fun subject => (ti_value translated,
                  {| sel_subject := Some subject; sel_id := None; sel_format := schema_format cfg |})) <$> schema_subject cfg;
        headers := ti_headers translated ++ forwarded cfg hs ++ signed_headers cfg hs;
        partition := None; timestamp_ms := None; idempotency_key := idempotency_key |}.
End Ingress.

(** ** webhook.rs: the handlers *)

(** A response, the record that was handed to the producer, and the labels
    [record_webhook_in] counted. *)
Record Response := {
  r_status : Z;
  r_body : option RecordOutcome;
  r_produced : option GatewayRecord;
  r_recorded : list string;
}.
Definition reply (st : Z) (labels : list string) : Response :=
  {| r_status := st; r_body := None; r_produced := None; r_recorded := labels |}.

Section Handlers.
  Context `{Units} `{Crypto} `{JsonPath} `{CeLib} `{HttpLib} `{RecordCodec} `{Authorizer}.
  Context (core : ProduceCore) (eff : Effects).

Definition produce_status (r : result GatewayError RecordOutcome) : Z :=
  match r with
  | Ok _ => OK
  | Err (Unauthorized _) => FORBIDDEN
  | Err Unavailable | Err (Codec (Registry _)) => SERVICE_UNAVAILABLE
  | Err (Codec (Validate _)) | Err (Codec (Serialize _)) | Err (Codec (Framing _)) => BAD_REQUEST
  | Err _ => INTERNAL_SERVER_ERROR
  end.
Definition produce_label (r : result GatewayError RecordOutcome) : string :=
  match r with
  | Ok _ => "ok"
  | Err (Unauthorized _) => "unauthorized"
  | Err Unavailable | Err (Codec (Registry _)) => "error"
  | Err (Codec (Validate _)) | Err (Codec (Serialize _)) | Err (Codec (Framing _)) => "bad_request"
  | Err _ => "error"
  end.
Definition produce_and_respond (rec : GatewayRecord) (p : Principal) (host : string) : Response :=
  if negb (authorize p host TopicResource (topic rec) Write) then reply FORBIDDEN ["unauthorized"]
  else
    let r := produce core eff rec p in
    {| r_status := produce_status r; r_body := ok r; r_produced := Some rec; r_recorded := [produce_label r] |}.

(** [to_bytes(body, limit)] of a body that arrives whole or fails. *)
Definition to_bytes (body : option Bytes) (limit : Z) : option Bytes :=
  match body with
  | Some b => if Z.of_nat (length b) <=? limit then Some b else None
  | None => None
  end.

(** Of a signed endpoint, whether reading the body and producing beat the
    deadline; [now] is the clock. *)
Record Timing := { read_in_time : bool; produced_in_time : bool; now : Z }.

Definition webhook_principal (cfg : CompiledWebhook) : Principal :=
  {| pname := w_principal cfg; auth_method := MTls; groups := [] |}.

Definition webhook_handler (webhooks : gmap string CompiledWebhook) (name : string) (peer : option string)
    (hs : HeaderMap) (request_body : option Bytes) (t : Timing) : Response :=
  match webhooks !! name with
  | None => reply NOT_FOUND ["not_found"]
  | Some cfg =>
      let standard := is_some (signature_mode cfg) in
      if standard && negb (read_in_time t) then reply REQUEST_TIMEOUT []
      else
        match to_bytes request_body (bytes_usize (max_body cfg)) with
        | None => reply PAYLOAD_TOO_LARGE ["too_large"]
        | Some body =>
            if standard && negb (is_some (authenticate cfg hs body (now t))) then reply UNAUTHORIZED ["unauthenticated"]
            else if standard && negb (has_dedup core) then reply SERVICE_UNAVAILABLE []
            else if negb (generic_signature_ok cfg hs body (now t)) then reply UNAUTHORIZED ["unauthenticated"]
            else
              match webhook_record cfg hs body with
              | Err (st, labels) => reply st labels
              | Ok rec =>
                  let r := produce_and_respond rec (webhook_principal cfg) (default unknown_host peer) in
                  if standard && negb (produced_in_time t)
                  then {| r_status := SERVICE_UNAVAILABLE; r_body := None; r_produced := r_produced r; r_recorded := "error" :: r_recorded r |}
                  else r
              end
        end
  end.

Definition produce_handler (produce_max_body : ByteSize) (t : string) (peer : option string) (principal : option Principal)
    (hs : HeaderMap) (request_body : option Bytes) : Response :=
  match to_bytes request_body (bytes_usize produce_max_body) with
  | None => reply PAYLOAD_TOO_LARGE []
  | Some body =>
      match translate_cloudevent_ingress hs body with
      | Err st => reply st ["bad_request"]
      | Ok translated =>
          let rec := {| topic := t; key := None; value := ti_value translated; body_structured := None;
                        headers := ti_headers translated; partition := None; timestamp_ms := None;
                        idempotency_key := header_get hs "Idempotency-Key" ≫= to_str |} in
          produce_and_respond rec (default anonymous_principal principal) (default unknown_host peer)
      end
  end.
End Handlers.

(** ** What compilation guarantees *)

Section Compiled.
  Context `{Units} `{Crypto} `{JsonPath} `{CeLib} `{HttpLib}.

(** A signed endpoint has a key and deduplicates by the signed id; a generic
    one has a secret exactly when it has a signature header; no forwarded header
    carries a credential. *)
Record webhook_wf (w : CompiledWebhook) : Prop := {
  wf_standard : signature_mode w = Some StandardWebhooks ->
    signature_header w = None /\ (exists k, secret w = Some k /\ k <> [])
    /\ idempotency_source w = Some (SourceHeader "webhook-id");
  wf_generic : signature_mode w = None ->
    is_some (secret w) = is_some (signature_header w) /\ secret w <> Some [];
  wf_forward : forall h, h ∈ forward_headers w ->
    lower h = h /\ (h ∉ secret_names) /\ forall s, signature_header w = Some s -> lower s <> h;
}.

Lemma require_Ok {E} b (e : E) u : require b e = Ok u -> b = true.
Proof. by destruct b. Qed.

Lemma map_err_Ok {E F A} (f : E -> F) (r : result E A) a : map_err f r = Ok a -> r = Ok a.
Proof. by destruct r; cbn; intros [=<-]. Qed.

Lemma compile_secret_standard e k :
  e_signature_mode e = Some StandardWebhooks -> compile_secret e = Ok k ->
  e_signature_header e = None /\ exists key, k = Some key /\ key <> [].
Proof.
  unfold compile_secret. intros -> (? & Hr%require_Ok & (token & _ & Hk)%bind_Ok)%bind_Ok. split.
  - by destruct (e_signature_header e).
  - unfold standard_key in Hk. destruct (base64_decode _) as [key|]; [|done]. simpl in Hk.
    case_bool_decide as Hne; simpl in Hk; [done|]. injection Hk as <-. eauto.
Qed.

Lemma compile_forward_Ok e name h :
  compile_forward e name = Ok h ->
  lower h = h /\ (h ∉ secret_names) /\ forall s, e_signature_header e = Some s -> lower s <> h.
Proof.
  unfold compile_forward. intros (h' & Hh & (? & Hr%require_Ok & [= <-])%bind_Ok)%bind_Ok.
  destruct (header_name name) as [n|] eqn:Hn; [|done]. injection Hh as <-.
  apply negb_true_iff, orb_false_iff in Hr as [Hs Hsig]. apply header_name_lower in Hn as Hl.
  split_and!; [done|by apply bool_decide_eq_false in Hs|]. intros s Hse Heq. rewrite Hse in Hsig.
  apply bool_decide_eq_false in Hsig. apply Hsig. unfold lower in Heq, Hl. rewrite <- Heq at 1.
  rewrite as_of_bytes, List.map_map. apply map_ext. intros b. by rewrite to_lower_to_lower.
Qed.

Lemma try_map_elem {E A B} (f : A -> result E B) l ys y : try_map f l = Ok ys -> y ∈ ys -> exists x, x ∈ l /\ f x = Ok y.
Proof.
  revert ys. induction l as [|x l IH]; intros ys; simpl; [by intros [= <-] ?%not_elem_of_nil|].
  intros (y' & Hy & (ys' & Hys & [= <-])%bind_Ok)%bind_Ok [->|Hin]%elem_of_cons; [set_solver|].
  destruct (IH _ Hys Hin) as (x' & ? & ?). set_solver.
Qed.

Lemma compile_endpoint_wf e w : compile_endpoint e = Ok w -> webhook_wf w.
Proof.
  intros Hw. unfold compile_endpoint in Hw. res_inv.
  rename select (compile_secret _ = _) into Hsec. rename select (try_map _ _ = _) into Hfwd.
  rename select (transpose (fun s => Source_parse s "idempotency_source") _ = _) into Hidem.
  rename select (require _ SecretWithoutHeader = _) into Hboth. rename select (require _ EmptySecret = _) into Hempty.
  rename select (require _ StandardDedupsById = _) into Hid. apply require_Ok in Hboth, Hempty, Hid.
  split; cbn [signature_mode signature_header secret idempotency_source forward_headers].
  - intros Hmode. destruct (compile_secret_standard e _ Hmode Hsec) as (Hh & Hk). split; [exact Hh|split; [exact Hk|]].
    rewrite Hmode in Hidem, Hid. destruct (e_idempotency_source e) as [s|]; simpl in *.
    + case_bool_decide; [|done]. subst s. by injection Hidem as <-.
    + by injection Hidem as <-.
  - intros Hmode. unfold compile_secret in Hsec. rewrite Hmode in *. injection Hsec as <-. simpl in Hboth.
    apply bool_decide_eq_true in Hboth. apply negb_true_iff, bool_decide_eq_false in Hempty.
    destruct (e_secret e) as [s|]; simpl in *; [|done]. split; [done|]. intros [= Hs]. apply Hempty. f_equal.
    by apply (inj as_bytes).
  - intros h Hin. destruct (try_map_elem _ _ _ _ Hfwd Hin) as (name & _ & Hn). by apply compile_forward_Ok in Hn.
Qed.

Lemma compile_webhooks_wf es ws name w : compile_webhooks es = Ok ws -> ws !! name = Some w -> webhook_wf w.
Proof.
  unfold compile_webhooks. set (step := fun out e => _).
  enough (forall m, (forall n w, m !! n = Some w -> webhook_wf w) -> try_fold step m es = Ok ws -> ws !! name = Some w -> webhook_wf w) as Hgen.
  { apply Hgen. intros n ?. by rewrite lookup_empty. }
  induction es as [|e es IH]; intros m Hm; cbn [try_fold]; [intros [= <-]; apply Hm|].
  intros (m' & (w' & Hw' & [= <-])%bind_Ok & Hes)%bind_Ok. refine (IH _ _ Hes). intros n w0.
  destruct (compile_endpoint e) as [w1|] eqn:Hc; [|done]. injection Hw' as <-.
  intros [[_ <-]|[_ Hn]]%lookup_insert_Some; [by eapply compile_endpoint_wf|by eapply Hm].
Qed.
End Compiled.

(** ** Only authenticated requests are produced *)

Section Authenticity.
  Context `{Units} `{Crypto} `{JsonPath} `{CeLib} `{HttpLib} `{RecordCodec} `{Authorizer}.
  Context (core : ProduceCore) (eff : Effects).

Lemma header_one hs name s : header hs name = Some s -> get_all hs name = [as_bytes s] /\ s <> EmptyString /\ header_get hs name ≫= to_str = Some s.
Proof.
  unfold header, header_get. destruct (get_all hs name) as [|v [|]]; try done. simpl.
  destruct (to_str v) as [s'|] eqn:Hs; simpl; [|done]. case_bool_decide; [done|]. intros [= ->].
  apply to_str_bytes in Hs. by subst v.
Qed.

(** The request a Standard Webhooks signature covers. *)
Record signed_request (cfg : CompiledWebhook) (hs : HeaderMap) (body : Bytes) (now : Z) (id timestamp : string) : Prop := {
  sr_id : get_all hs "webhook-id" = [as_bytes id] /\ id <> EmptyString /\ (length (as_bytes id) <= 512)%nat;
  sr_timestamp : get_all hs "webhook-timestamp" = [as_bytes timestamp];
  sr_fresh : exists epoch, parse_i64 (as_bytes timestamp) = Some epoch
    /\ time_gt (from_secs (Z.abs (now - epoch))) (timestamp_tolerance cfg) = false;
  sr_signature : exists key signatures signature encoded,
    secret cfg = Some key /\ get_all hs "webhook-signature" = [as_bytes signatures]
    /\ signature ∈ split_ascii_whitespace signatures /\ signature = "v1," +:+ encoded
    /\ base64_decode (as_bytes encoded) = Some (hmac_sha256 key (as_bytes id ++ dot ++ as_bytes timestamp ++ dot ++ body));
}.

Lemma v1_matches_signed expected s :
  v1_matches expected s = true -> exists encoded, s = "v1," +:+ encoded /\ base64_decode (as_bytes encoded) = Some expected.
Proof.
  unfold v1_matches. destruct (strip_prefix "v1," s) as [encoded|] eqn:Hs; [|done]. apply strip_prefix_Some in Hs. simpl.
  destruct (base64_decode _) as [d|] eqn:Hd; [|done]. intros Heq%bool_decide_eq_true. subst. eauto.
Qed.

Lemma authenticate_signed cfg hs body now id ts :
  authenticate cfg hs body now = Some (id, ts) ->
  signed_request cfg hs body now id ts /\ header_get hs "webhook-id" ≫= to_str = Some id.
Proof.
  unfold authenticate. destruct (header hs "webhook-id") as [id'|] eqn:Hid; [|done]. cbn [mbind option_bind].
  destruct (512 <? _)%nat eqn:Hlen; [done|]. destruct (header hs "webhook-timestamp") as [ts'|] eqn:Hts; [|done]. cbn [mbind option_bind].
  destruct (negb _); [done|]. destruct (parse_i64 _) as [epoch|] eqn:Hep; [|done]. cbn [mbind option_bind].
  destruct (_ || _) eqn:Hskew; [done|]. apply orb_false_iff in Hskew as [_ Hskew].
  destruct (header hs "webhook-signature") as [sigs|] eqn:Hsig; [|done]. cbn [mbind option_bind].
  destruct (secret cfg) as [key|] eqn:Hkey; [|done]. cbn [mbind option_bind].
  destruct (existsb _ _) eqn:Hex; [|done]. intros [= <- <-].
  apply List.existsb_exists in Hex as (s & Hin%list_elem_of_In & (encoded & Hs & Hd)%v1_matches_signed).
  apply header_one in Hid as (Hid & Hne & Hget), Hts as (Hts & _ & _), Hsig as (Hsig & _ & _).
  apply Nat.ltb_ge in Hlen. split; [|done]. split; [done|done|by exists epoch|by exists key, sigs, s, encoded].
Qed.

(** What the handler has checked when it produced a record. *)
Lemma webhook_handler_produced ws name peer hs request_body t rec :
  r_produced (webhook_handler core eff ws name peer hs request_body t) = Some rec ->
  exists cfg body, ws !! name = Some cfg /\ to_bytes request_body (bytes_usize (max_body cfg)) = Some body
    /\ (is_some (signature_mode cfg) = true -> is_some (authenticate cfg hs body (now t)) = true /\ has_dedup core = true)
    /\ generic_signature_ok cfg hs body (now t) = true
    /\ webhook_record cfg hs body = Ok rec
    /\ authorize (webhook_principal cfg) (default unknown_host peer) TopicResource (topic rec) Write = true.
Proof.
  unfold webhook_handler. destruct (ws !! name) as [cfg|] eqn:Hw; [|done].
  destruct (is_some _ && negb (read_in_time t)); [done|]. destruct (to_bytes _ _) as [body|] eqn:Hb; [|done].
  destruct (is_some _ && negb (is_some _)) eqn:Hauth; [done|]. destruct (is_some _ && negb (has_dedup core)) eqn:Hded; [done|].
  destruct (negb (generic_signature_ok _ _ _ _)) eqn:Hgen; [done|]. apply negb_false_iff in Hgen.
  destruct (webhook_record cfg hs body) as [rec'|[]] eqn:Hrec; [|done]. intros Hp. exists cfg, body.
  assert (rec' = rec /\ authorize (webhook_principal cfg) (default unknown_host peer) TopicResource (topic rec') Write = true) as [-> Ha].
  { unfold produce_and_respond in Hp. destruct (authorize _ _ _ _ _), (is_some _ && negb (produced_in_time t)); simpl in Hp;
      first [discriminate | by injection Hp as ->]. }
  split_and!; [done..| |done|done|done]. intros Hm. rewrite Hm in Hauth, Hded. simpl in *.
  by apply negb_false_iff in Hauth, Hded.
Qed.

Lemma to_bytes_Some b n body : to_bytes b n = Some body -> b = Some body.
Proof. unfold to_bytes. destruct b; [|done]. case_match; congruence. Qed.

(** C6.  A Standard Webhooks endpoint produces only what its signing key
    vouches for: a record reaches the producer only with a dedup engine, and
    only when the request has one id, one timestamp within the tolerance and a
    v1 signature of id, timestamp and body; the record then carries the signed
    body under the signed id as its idempotency key. *)
Theorem webhook_signed_requests es ws name peer hs request_body t cfg rec :
  compile_webhooks es = Ok ws -> ws !! name = Some cfg -> signature_mode cfg = Some StandardWebhooks ->
  r_produced (webhook_handler core eff ws name peer hs request_body t) = Some rec ->
  has_dedup core = true /\ exists id timestamp body,
    request_body = Some body /\ signed_request cfg hs body (now t) id timestamp
    /\ idempotency_key rec = Some id /\ value rec = body /\ topic rec = target_topic cfg.
Proof.
  intros Hes Hw Hmode (cfg' & body & Hw' & Hb%to_bytes_Some & Hauth & _ & Hrec & _)%webhook_handler_produced.
  rewrite Hw in Hw'. injection Hw' as <-. rewrite Hmode in Hauth. destruct (Hauth eq_refl) as [Ha Hded]. split; [done|].
  destruct (authenticate _ _ _ _) as [[id ts]|] eqn:Hid; [|done]. apply authenticate_signed in Hid as [Hs Hget].
  destruct (wf_standard _ (compile_webhooks_wf _ _ _ _ Hes Hw) Hmode) as (_ & _ & Hidem).
  exists id, ts, body. split_and!; [done..| | |]; revert Hrec; unfold webhook_record; rewrite Hidem, Hmode;
    cbn [transpose extract_source]; rewrite Hget; intros; res_inv; simpl in *; by simplify_eq.
Qed.

Lemma timestamp_fresh_within cfg hs now :
  timestamp_fresh cfg hs now = true -> forall n, timestamp_header cfg = Some n -> exists ts,
    (header_get hs n ≫= to_str) ≫= (fun s => parse_i64 (as_bytes s)) = Some ts
    /\ time_gt (from_secs (Z.min (Z.abs (now - ts)) i64_max)) (timestamp_tolerance cfg) = false.
Proof.
  unfold timestamp_fresh. intros Hf n Hn. rewrite Hn in Hf. case_match eqn:Hts; [|done]. eexists. split; [done|].
  by apply negb_true_iff.
Qed.

(** C7.  A generic endpoint with a secret produces only bodies signed with it:
    the configured signature header decodes, in the configured encoding and
    after the configured prefix, to the HMAC of the body, and a configured
    timestamp header holds a time within the tolerance. *)
Theorem webhook_hmac_requests es ws name peer hs request_body t cfg key rec :
  compile_webhooks es = Ok ws -> ws !! name = Some cfg -> signature_mode cfg = None -> secret cfg = Some key ->
  r_produced (webhook_handler core eff ws name peer hs request_body t) = Some rec ->
  key <> []
  /\ (forall n, timestamp_header cfg = Some n -> exists ts,
       (header_get hs n ≫= to_str) ≫= (fun s => parse_i64 (as_bytes s)) = Some ts
       /\ time_gt (from_secs (Z.min (Z.abs (now t - ts)) i64_max)) (timestamp_tolerance cfg) = false)
  /\ exists header v body provided,
    signature_header cfg = Some header /\ header_get hs header = Some v /\ request_body = Some body
    /\ as_bytes (default EmptyString (signature_prefix cfg) +:+ provided) = v
    /\ match signature_encoding cfg with Hex => hex_decode (as_bytes provided) | Base64 => base64_decode (as_bytes provided) end
       = Some (hmac_sha256 key body).
Proof.
  intros Hes Hw Hmode Hkey (cfg' & body & Hw' & Hb%to_bytes_Some & _ & Hgen & _)%webhook_handler_produced.
  rewrite Hw in Hw'. injection Hw' as <-. destruct (wf_generic _ (compile_webhooks_wf _ _ _ _ Hes Hw) Hmode) as [Hsome Hne].
  rewrite Hkey in Hsome, Hne. split; [congruence|]. unfold generic_signature_ok in Hgen.
  destruct (signature_header cfg) as [h|]; [|done]. destruct (header_get hs h) as [v|] eqn:Hh; [|done]. simpl in Hgen.
  destruct (to_str v) as [s|] eqn:Hs; [|done]. apply to_str_bytes in Hs. apply andb_true_iff in Hgen as [Hfresh Hver].
  split; [by apply timestamp_fresh_within|]. rewrite Hkey in Hver. simpl in Hver. unfold verify_signature in Hver.
  assert (exists provided, s = default EmptyString (signature_prefix cfg) +:+ provided
    /\ match signature_prefix cfg with Some p => strip_prefix p s | None => Some s end = Some provided) as (provided & Hp & Heq).
  { destruct (signature_prefix cfg) as [p|]; [|by exists s]. destruct (strip_prefix p s) as [x|] eqn:Hx; [|done].
    exists x. split; [by apply strip_prefix_Some|done]. }
  rewrite Heq in Hver. exists h, v, body, provided. split_and!; [done..|by rewrite <- Hp|].
  destruct (match signature_encoding cfg with Hex => _ | Base64 => _ end) as [d|]; [|done].
  apply andb_true_iff in Hver as [_ Hd%bool_decide_eq_true]. by rewrite Hd.
Qed.
End Authenticity.

(** ** What a record carries of the request's headers *)

Section Carried.
  Context `{Units} `{Crypto} `{JsonPath} `{CeLib} `{HttpLib} `{RecordCodec} `{Authorizer}.
  Context (core : ProduceCore) (eff : Effects).

Lemma get_all_elem hs n v : v ∈ get_all hs n -> (lower n, v) ∈ hs.
Proof.
  unfold get_all. intros ([n' v'] & -> & Hin)%list_elem_of_fmap. apply list_elem_of_In, List.filter_In in Hin as [Hin Hn].
  apply bool_decide_eq_true in Hn. simpl in *. subst. by apply list_elem_of_In.
Qed.

Lemma header_get_elem hs n v : header_get hs n = Some v -> (lower n, v) ∈ hs.
Proof. unfold header_get. destruct (get_all hs n) eqn:Hg; [done|]. intros [= <-]. apply get_all_elem. rewrite Hg. by left. Qed.

(** A header of the CloudEvents binding. *)
Definition ce_bound (n : string) : bool := is_some (strip_prefix CE_HTTP_PREFIX n) || bool_decide (n = CONTENT_TYPE).

Lemma kafka_header_from hs ks k v :
  http_headers_to_kafka hs = Ok ks -> (k, v) ∈ ks -> exists n, (n, v) ∈ hs /\ ce_bound n = true.
Proof.
  intros (os & Hos & ->)%try_collect_inv Hin. induction Hos as [|[n w] o hs os Ho Hos IH]; [by apply not_elem_of_nil in Hin|].
  assert ((k, v) ∈ somes os -> exists n', (n', v) ∈ (n, w) :: hs /\ ce_bound n' = true) as Hrest by (intros ?%IH; set_solver).
  destruct o as [y|]; simpl in Hin; [|set_solver]. apply elem_of_cons in Hin as [<-|Hin]; [|set_solver].
  exists n. unfold http_header_to_kafka, ce_bound in *. simpl in Ho.
  destruct (strip_prefix _ n) as [a|]; simpl in *; [|case_bool_decide; [|done]];
    (destruct (to_str w) as [s|] eqn:Hs; [|done]); apply to_str_bytes in Hs; simpl in Ho; simplify_eq; set_solver.
Qed.

Lemma structured_has_media_type mt ce : detect_content_mode mt ce = StructuredMode -> exists m, mt = Some m.
Proof. destruct mt; [by eauto|]. by destruct ce. Qed.

Lemma translated_header_from hs body tr n v :
  translate_cloudevent_ingress hs body = Ok tr -> (n, Some v) ∈ ti_headers tr -> exists n', (n', v) ∈ hs /\ ce_bound n' = true.
Proof.
  unfold translate_cloudevent_ingress. destruct (detect_content_mode _ _) eqn:Hmode; [..|done|]; intros Htr Hin.
  - destruct (http_headers_to_kafka hs) as [ks|] eqn:Hks; [|done]. simpl in Htr. res_inv.
    apply list_elem_of_fmap in Hin as ([k w] & Heq & Hk). simplify_eq/=. by eapply kafka_header_from.
  - apply structured_has_media_type in Hmode as [m Hm]. rewrite Hm in Htr. res_inv.
    apply list_elem_of_singleton in Hin. apply to_str_bytes in Hm. simplify_eq/=. exists CONTENT_TYPE. split; [|done].
    rename select (header_get _ _ = _) into Hct. by apply header_get_elem in Hct.
  - res_inv. by apply not_elem_of_nil in Hin.
Qed.

Lemma ce_bound_not_secret n : ce_bound n = true -> n ∉ secret_names.
Proof.
  unfold ce_bound. intros Hn Hin. unfold secret_names in Hin.
  repeat (apply elem_of_cons in Hin as [->|Hin]; [by vm_compute in Hn|]). by apply not_elem_of_nil in Hin.
Qed.

(** An endpoint never hands a credential on: every header of a produced
    record has its value from a request header that is not one of the credential
    headers, nor the configured signature header unless that one is named like a
    CloudEvents header. *)
Theorem webhook_hides_secrets es ws name peer hs request_body t cfg rec n v :
  compile_webhooks es = Ok ws -> ws !! name = Some cfg ->
  r_produced (webhook_handler core eff ws name peer hs request_body t) = Some rec -> (n, Some v) ∈ headers rec ->
  exists n', (n', v) ∈ hs /\ (n' ∉ secret_names)
    /\ forall s, signature_header cfg = Some s -> ce_bound (lower s) = false -> n' <> lower s.
Proof.
  intros Hes Hw (cfg' & body & Hw' & _ & _ & _ & Hrec & _)%webhook_handler_produced Hin.
  rewrite Hw in Hw'. injection Hw' as <-. destruct (compile_webhooks_wf _ _ _ _ Hes Hw) as [Hstd _ Hfwd].
  unfold webhook_record in Hrec. res_inv. cbn [headers] in Hin. apply elem_of_app in Hin as [Hin|[Hin|Hin]%elem_of_app].
  - destruct (signature_mode cfg); [res_inv; by apply not_elem_of_nil in Hin|].
    eapply translated_header_from in Hin as (n' & Hn' & Hce); [|by eapply map_err_Ok]. exists n'.
    split_and!; [done|by apply ce_bound_not_secret|]. intros s _ Hs ->. congruence.
  - apply list_elem_of_In, List.in_concat in Hin as (l & Hl%list_elem_of_In & Hin%list_elem_of_In).
    apply list_elem_of_fmap in Hl as (h & -> & Hh). apply list_elem_of_fmap in Hin as (w & Heq & Hg%get_all_elem).
    simplify_eq. destruct (Hfwd h Hh) as (Hl & Hs & Hsig). rewrite Hl in Hg. exists h. split_and!; [done..|].
    intros s Hse _ ->. by apply (Hsig s).
  - unfold signed_headers in Hin. destruct (signature_mode cfg) as [[]|]; [|by apply not_elem_of_nil in Hin].
    apply list_elem_of_fmap in Hin as (h & Heq & Hh%list_elem_of_In%List.filter_In). injection Heq as -> Hv.
    exists (lower h). destruct Hh as [[<-|[<-|[]]] _]; (split_and!; [by apply header_get_elem|vm_compute; set_solver|]);
      intros s Hse; destruct (Hstd eq_refl) as [Hnone _]; congruence.
Qed.
End Carried.

(** ** Replays *)

Section Replay.
  Context `{Units} `{Crypto} `{JsonPath} `{CeLib} `{HttpLib} `{RecordCodec} `{Authorizer}.

(** The request with another value under the header [n]. *)
Definition retimed (n : string) (text : Bytes) (hs : HeaderMap) : HeaderMap :=
  map (fun h : string * Bytes => if bool_decide (h.1 = lower n) then (h.1, text) else h) hs.

(** Nothing but the guard reads the header [n]. *)
Record unread (cfg : CompiledWebhook) (n : string) : Prop := {
  ur_signature : forall m, signature_header cfg = Some m -> lower m <> lower n;
  ur_sources : forall m, (idempotency_source cfg = Some (SourceHeader m) \/ key_source cfg = Some (SourceHeader m)) -> lower m <> lower n;
  ur_forward : Forall (fun m => lower m <> lower n) (forward_headers cfg);
  ur_binding : ce_bound (lower n) = false;
}.

Lemma get_all_retimed n text hs m : lower m <> lower n -> get_all (retimed n text hs) m = get_all hs m.
Proof.
  intros Hm. unfold get_all, retimed. induction hs as [|[k v] hs IH]; [done|]. cbn. destruct (bool_decide (k = lower n)) eqn:Hk; cbn.
  - apply bool_decide_eq_true in Hk as ->. by rewrite bool_decide_false.
  - destruct (bool_decide (k = lower m)); cbn; by rewrite IH.
Qed.
Lemma header_get_retimed n text hs m : lower m <> lower n -> header_get (retimed n text hs) m = header_get hs m.
Proof. intros Hm. unfold header_get. by rewrite get_all_retimed. Qed.

Lemma header_get_new n text hs : is_Some (header_get hs n) -> header_get (retimed n text hs) n = Some text.
Proof.
  unfold header_get, get_all, retimed. induction hs as [|[k v] hs IH]; cbn; [by intros [? [=]]|].
  destruct (bool_decide (k = lower n)) eqn:Hk; cbn; rewrite Hk; [done|exact IH].
Qed.

Lemma lower_content_type : lower "content-type" = CONTENT_TYPE.
Proof. reflexivity. Qed.

Lemma translate_retimed n text hs body : ce_bound (lower n) = false ->
  translate_cloudevent_ingress (retimed n text hs) body = translate_cloudevent_ingress hs body.
Proof.
  unfold ce_bound. intros [Hce Hct]%orb_false_iff. apply bool_decide_eq_false in Hct. unfold translate_cloudevent_ingress.
  rewrite header_get_retimed by (rewrite lower_content_type; congruence).
  assert (forall f : string -> bool, existsb (fun h : string * Bytes => f h.1) (retimed n text hs) = existsb (fun h => f h.1) hs) as Hex.
  { intros f. unfold retimed. induction hs as [|[k v] hs IH]; [done|]. cbn. rewrite IH. by destruct (bool_decide _). }
  rewrite (Hex (fun k => starts_with (as_bytes "ce-") (as_bytes k))).
  assert (http_headers_to_kafka (retimed n text hs) = http_headers_to_kafka hs) as ->; [|done].
  clear Hex. unfold http_headers_to_kafka, try_collect. f_equal. unfold retimed. induction hs as [|[k v] hs IH]; [done|]. cbn [map try_map]. rewrite IH.
  destruct (bool_decide _) eqn:Hk; [|done]. apply bool_decide_eq_true in Hk. cbn in Hk. subst k. unfold http_header_to_kafka. cbn [fst snd].
  destruct (strip_prefix _ _); [done|]. by rewrite bool_decide_false.
Qed.

Lemma record_retimed cfg n text hs body : signature_mode cfg = None -> unread cfg n ->
  webhook_record cfg (retimed n text hs) body = webhook_record cfg hs body.
Proof.
  intros Hmode [_ Hsrc Hfw Hce]. unfold webhook_record, signed_headers. rewrite Hmode, translate_retimed by done.
  assert (forall src j, (idempotency_source cfg = Some src \/ key_source cfg = Some src) ->
    extract_source src (retimed n text hs) j = extract_source src hs j) as Hex.
  { intros [m|q] j Hm; [|done]. cbn. by rewrite header_get_retimed by (by apply Hsrc). }
  assert (forwarded cfg (retimed n text hs) = forwarded cfg hs) as ->.
  { unfold forwarded. f_equal. apply map_ext_in. intros m Hm%list_elem_of_In. rewrite Forall_forall in Hfw. by rewrite get_all_retimed by auto. }
  destruct (idempotency_source cfg) as [src|], (key_source cfg) as [src'|]; cbn [transpose]; rewrite ?Hex by auto; done.
Qed.

(** C36.  The replay guard of a generic endpoint does not stop a replay, as the
    signature covers the body only.  Whatever request the endpoint once produced
    a record for, sent again as it is past the tolerance it is refused; but with
    the timestamp header replaced by any text the guard reads as a current time,
    which takes no key, it hands the same record to the producer, at any later
    time and in any later state.  The header is one that only the guard reads. *)
Theorem replay_guard_bypassed core eff core' eff' ws name peer hs request_body t t' cfg sig n rec text s ts :
  ws !! name = Some cfg -> signature_mode cfg = None -> signature_header cfg = Some sig -> timestamp_header cfg = Some n -> unread cfg n ->
  r_produced (webhook_handler core eff ws name peer hs request_body t) = Some rec ->
  to_str text = Some s -> parse_i64 (as_bytes s) = Some ts ->
  time_gt (from_secs (Z.min (Z.abs (now t' - ts)) i64_max)) (timestamp_tolerance cfg) = false ->
  (forall old, (header_get hs n ≫= to_str) ≫= (fun s => parse_i64 (as_bytes s)) = Some old ->
     time_gt (from_secs (Z.min (Z.abs (now t' - old)) i64_max)) (timestamp_tolerance cfg) = true ->
     r_status (webhook_handler core' eff' ws name peer hs request_body t') = UNAUTHORIZED
     /\ r_produced (webhook_handler core' eff' ws name peer hs request_body t') = None)
  /\ r_produced (webhook_handler core' eff' ws name peer (retimed n text hs) request_body t') = Some rec.
Proof.
  intros Hw Hmode Hsig Hts Hun (cfg' & body & Hw' & Hb & _ & Hgen & Hrec & Hauth)%webhook_handler_produced Hs Hz Hnow.
  rewrite Hw in Hw'. injection Hw' as <-. unfold webhook_handler. rewrite Hw, Hmode, Hb. cbn [is_some andb].
  unfold generic_signature_ok in *. rewrite Hsig in *. destruct (header_get hs sig ≫= to_str) as [provided|] eqn:Hp; [|done].
  apply andb_true_iff in Hgen as [Hfresh Hver]. rewrite Hver. unfold timestamp_fresh in *. rewrite Hts in *. split.
  - intros old Hold Hstale. rewrite Hold, Hstale. done.
  - rewrite header_get_retimed by (by apply (ur_signature _ _ Hun)). rewrite Hp, header_get_new; cbn.
    + rewrite Hs. cbn. rewrite Hz, Hnow, Hver. cbn. rewrite record_retimed, Hrec by done. unfold produce_and_respond. by rewrite Hauth.
    + destruct (header_get hs n); [done|]. done.
Qed.
End Replay.

(** ** What is counted *)

Section Counted.
  Context `{Units} `{Crypto} `{JsonPath} `{CeLib} `{HttpLib} `{RecordCodec} `{Authorizer}.
  Context (core : ProduceCore) (eff : Effects).

(** The label of an answer. *)
Definition label_of (st : Z) : string :=
  if st =? OK then "ok"
  else if (st =? BAD_REQUEST) || (st =? UNSUPPORTED_MEDIA_TYPE) then "bad_request"
  else if st =? UNAUTHORIZED then "unauthenticated"
  else if st =? FORBIDDEN then "unauthorized"
  else if st =? NOT_FOUND then "not_found"
  else if st =? PAYLOAD_TOO_LARGE then "too_large"
  else "error".

Lemma produce_label_of r : produce_label r = label_of (produce_status r).
Proof. destruct r as [o|e]; [done|]. destruct e; try done. by match goal with e : CodecError |- _ => destruct e end. Qed.

Lemma responded_label rec p host : r_recorded (produce_and_respond core eff rec p host) = [label_of (r_status (produce_and_respond core eff rec p host))].
Proof. unfold produce_and_respond. destruct (negb _); [done|]. cbn. by rewrite produce_label_of. Qed.

Lemma ingress_status hs body st : translate_cloudevent_ingress hs body = Err st -> label_of st = "bad_request".
Proof.
  unfold translate_cloudevent_ingress. destruct (detect_content_mode _ _); try done; try (by intros [= <-]).
  - destruct (http_headers_to_kafka hs) as [tr|]; cbn; [|by intros [= <-]]. destruct (validate_binary_required tr); cbn; [done|by intros [= <-]].
  - destruct (json_parse body) as [ev|]; cbn; [|by intros [= <-]]. destruct (validate_structured_json ev); cbn; [done|by intros [= <-]].
Qed.

Lemma record_labels cfg hs body st labels : webhook_record cfg hs body = Err (st, labels) ->
  labels = [label_of st] \/ labels = [] /\ st = BAD_REQUEST /\ is_some (key_source cfg) = true.
Proof.
  unfold webhook_record. cbn zeta. destruct (idempotency_source cfg) as [src|]; cbn.
  1: destruct (extract_source src hs _) as [i|]; cbn; [|intros [= <- <-]; by left].
  all: destruct (key_source cfg) as [ksrc|]; cbn; [destruct (extract_source ksrc hs _) as [k|]; cbn; [|intros [= <- <-]; by right]|].
  all: destruct (signature_mode cfg); cbn; [done|]; destruct (translate_cloudevent_ingress hs body) as [tr|st'] eqn:Htr; cbn; [done|].
  all: intros [= <- <-]; left; by rewrite (ingress_status _ _ _ Htr).
Qed.

(** [webhook_in_total] counts an answered request once, under the label of
    its status, with two exceptions.  It misses a signed request whose body came
    late or that no dedup engine could take, and a request without the
    configured record key; and it counts a signed request twice when producing it
    outlasted the deadline. *)
Theorem webhook_in_counts ws name peer hs request_body t :
  let r := webhook_handler core eff ws name peer hs request_body t in
  r_recorded r = [label_of (r_status r)]
  \/ (exists cfg, ws !! name = Some cfg /\ r_recorded r = [] /\
        (is_some (signature_mode cfg) = true /\ (r_status r = REQUEST_TIMEOUT \/ r_status r = SERVICE_UNAVAILABLE /\ has_dedup core = false)
         \/ r_status r = BAD_REQUEST /\ is_some (key_source cfg) = true))
  \/ (exists cfg l, ws !! name = Some cfg /\ is_some (signature_mode cfg) = true /\ produced_in_time t = false /\
        r_status r = SERVICE_UNAVAILABLE /\ r_recorded r = ["error"; l]).
Proof.
  unfold webhook_handler. destruct (ws !! name) as [cfg|]; [|by left]. cbn zeta.
  destruct (is_some (signature_mode cfg) && negb (read_in_time t)) eqn:Hread.
  { right; left. exists cfg. bool_prop. split_and!; [done..|]. left. auto. }
  destruct (to_bytes _ _) as [body|]; [|by left]. destruct (is_some _ && negb (is_some _)); [by left|].
  destruct (is_some _ && negb (has_dedup core)) eqn:Hded.
  { right; left. exists cfg. bool_prop. split_and!; [done..|]. left. auto. }
  destruct (negb (generic_signature_ok _ _ _ _)); [by left|]. destruct (webhook_record cfg hs body) as [rec|[st labels]] eqn:Hrec.
  - pose proof (responded_label rec (webhook_principal cfg) (default unknown_host peer)) as Hl.
    destruct (is_some _ && negb (produced_in_time t)) eqn:Hlate; [|by left]. right; right. bool_prop. cbn. rewrite Hl. by repeat eexists.
  - destruct (record_labels _ _ _ _ _ Hrec) as [->|(-> & -> & Hk)]; [by left|]. right; left. exists cfg. auto.
Qed.
End Counted.

(** ** Concrete endpoints and requests *)

Module Hooks.
#[export] Existing Instance Plain.units.
(** A keyed checksum stands for the HMAC. *)
#[export] Instance crypto : Crypto :=
  {| hmac_sha256 := fun key msg => [of_u8 (foldr Z.add 0 (map u8 (key ++ msg)) mod 26 + 65)];
     hex_encode := id; hex_decode := Some; hex_decode_encode := fun _ => eq_refl |}.
#[export] Instance json_path : JsonPath :=
  {| JpQuery := unit; parse_json_path := fun _ => None; js_path_process := fun _ _ => None |}.
#[export] Existing Instance sample_json.
#[export] Existing Instance sample_ce.
#[export] Existing Instance sample_http.
#[export] Existing Instance RawCodec.
#[export] Existing Instance allow_all.

Definition endpoint (mode : option SignatureMode) (secret sig ts : option string) : WebhookEndpoint :=
  {| e_name := "hook"; e_target_topic := "events"; e_signature_mode := mode; e_principal := None; e_secret := secret;
     e_signature_header := sig; e_signature_encoding := None; e_signature_prefix := None; e_timestamp_header := ts;
     e_timestamp_tolerance := None; e_idempotency_source := None; e_key_source := None;
     e_forward_headers := Some ["X-Event"]; e_max_body := None; e_schema_subject := None; e_schema_format := None |}.
Definition compiled (e : WebhookEndpoint) : gmap string CompiledWebhook :=
  match compile_webhooks [e] with Ok ws => ws | Err _ => ∅ end.
Definition at_time (now : Z) : Timing := {| read_in_time := true; produced_in_time := true; now := now |}.

Definition generic : WebhookEndpoint := endpoint None (Some "s3cret") (Some "X-Signature") (Some "X-Timestamp").
Definition body : Bytes := as_bytes "hello".
Definition request (timestamp : string) : HeaderMap :=
  [("x-signature", hmac_sha256 (as_bytes "s3cret") body); ("x-timestamp", as_bytes timestamp); ("x-event", as_bytes "push")].
Definition handle (hs : HeaderMap) (now : Z) : Response :=
  webhook_handler owner_core echo_effects (compiled generic) "hook" None hs (Some body) (at_time now).

(** A request captured at second 1000, sent again a day later. *)
Lemma replay_guard_bypassed_witness : exists rec,
  r_produced (handle (request "1000") 1000) = Some rec
  /\ r_status (handle (request "1000") 87400) = UNAUTHORIZED
  /\ retimed "X-Timestamp" (as_bytes "87400") (request "1000") = request "87400"
  /\ r_produced (handle (request "87400") 87400) = Some rec.
Proof.
  destruct (compiled generic !! "hook") as [cfg|] eqn:Hc; [|vm_compute in Hc; discriminate].
  destruct (r_produced (handle (request "1000") 1000)) as [rec|] eqn:Hr; [|vm_compute in Hr; discriminate].
  pose proof (replay_guard_bypassed owner_core echo_effects owner_core echo_effects (compiled generic) "hook" None (request "1000") (Some body)
    (at_time 1000) (at_time 87400) cfg "X-Signature" "X-Timestamp" rec (as_bytes "87400") "87400" 87400 Hc) as Hreplay.
  vm_compute in Hc. injection Hc as <-. specialize (Hreplay eq_refl eq_refl eq_refl).
  destruct Hreplay as [Hstale Hagain]; [|exact Hr|reflexivity|reflexivity|reflexivity|].
  { split; [intros m [= <-]; discriminate|intros m [Hm|Hm]; discriminate Hm| |reflexivity]. constructor; [discriminate|constructor]. }
  exists rec. split; [reflexivity|]. split; [apply (proj1 (Hstale 1000 eq_refl eq_refl))|]. split; [reflexivity|exact Hagain].
Defined.

Lemma webhook_hmac_requests_witness :
  exists rec cfg, r_produced (handle (request "1000") 1000) = Some rec /\ compiled generic !! "hook" = Some cfg
    /\ exists header v b provided,
      signature_header cfg = Some header /\ header_get (request "1000") header = Some v /\ Some body = Some b
      /\ as_bytes (default EmptyString (signature_prefix cfg) +:+ provided) = v
      /\ match signature_encoding cfg with Hex => hex_decode (as_bytes provided) | Base64 => base64_decode (as_bytes provided) end
         = Some (hmac_sha256 (as_bytes "s3cret") b).
Proof.
  destruct (compiled generic !! "hook") as [cfg|] eqn:Hc; [|vm_compute in Hc; discriminate].
  destruct (r_produced (handle (request "1000") 1000)) as [rec|] eqn:Hr; [|vm_compute in Hr; discriminate].
  exists rec, cfg. split; [done|]. split; [done|].
  apply (webhook_hmac_requests owner_core echo_effects [generic] (compiled generic) "hook" None (request "1000") (Some body)
    (at_time 1000) cfg (as_bytes "s3cret") rec); [vm_compute; reflexivity|exact Hc| | |exact Hr];
    vm_compute in Hc; injection Hc as <-; vm_compute; reflexivity.
Defined.

Lemma webhook_hides_secrets_witness :
  exists rec cfg, r_produced (handle (request "1000") 1000) = Some rec /\ compiled generic !! "hook" = Some cfg
    /\ ("x-event", Some (as_bytes "push")) ∈ headers rec
    /\ exists n', (n', as_bytes "push") ∈ request "1000" /\ (n' ∉ secret_names)
       /\ forall s, signature_header cfg = Some s -> ce_bound (lower s) = false -> n' <> lower s.
Proof.
  destruct (compiled generic !! "hook") as [cfg|] eqn:Hc; [|vm_compute in Hc; discriminate].
  destruct (r_produced (handle (request "1000") 1000)) as [rec|] eqn:Hr; [|vm_compute in Hr; discriminate].
  assert (("x-event", Some (as_bytes "push")) ∈ headers rec) as Hin
    by (vm_compute in Hr; injection Hr as <-; apply (bool_decide_unpack _); vm_compute; exact I).
  exists rec, cfg. split_and!; [done..|].
  apply (webhook_hides_secrets owner_core echo_effects [generic] (compiled generic) "hook" None (request "1000") (Some body)
    (at_time 1000) cfg rec "x-event" (as_bytes "push")); [vm_compute; reflexivity|exact Hc|exact Hr|exact Hin].
Defined.

Definition standard : WebhookEndpoint := endpoint (Some StandardWebhooks) (Some "whsec_key=") None None.
Definition signed : HeaderMap :=
  [("webhook-id", as_bytes "msg-1"); ("webhook-timestamp", as_bytes "1000");
   ("webhook-signature", as_bytes "v1,A= v1," ++ hmac_sha256 (as_bytes "key") (signed_content "msg-1" "1000" body) ++ as_bytes "=");
   ("authorization", as_bytes "Bearer x")].
(** The dedup partition of the id is this replica's. *)
Definition here : ProduceCore := {| pc_dedup := Some empty_store; forwarding := None |}.

Lemma webhook_signed_requests_witness :
  exists rec cfg,
    r_produced (webhook_handler here echo_effects (compiled standard) "hook" None signed (Some body) (at_time 1100)) = Some rec
    /\ compiled standard !! "hook" = Some cfg
    /\ has_dedup here = true /\ exists id timestamp b,
      Some body = Some b /\ signed_request cfg signed b 1100 id timestamp
      /\ idempotency_key rec = Some id /\ value rec = b /\ topic rec = target_topic cfg.
Proof.
  destruct (compiled standard !! "hook") as [cfg|] eqn:Hc; [|vm_compute in Hc; discriminate].
  destruct (r_produced (webhook_handler here echo_effects (compiled standard) "hook" None signed (Some body) (at_time 1100)))
    as [rec|] eqn:Hr; [|vm_compute in Hr; discriminate].
  exists rec, cfg. split; [done|]. split; [done|].
  apply (webhook_signed_requests here echo_effects [standard] (compiled standard) "hook" None signed (Some body)
    (at_time 1100) cfg rec); [vm_compute; reflexivity|exact Hc| |exact Hr].
  vm_compute in Hc. injection Hc as <-. reflexivity.
Defined.

Definition keyed : WebhookEndpoint :=
  {| e_name := "hook"; e_target_topic := "events"; e_signature_mode := None; e_principal := None; e_secret := None;
     e_signature_header := None; e_signature_encoding := None; e_signature_prefix := None; e_timestamp_header := None;
     e_timestamp_tolerance := None; e_idempotency_source := None; e_key_source := Some "header:X-Key";
     e_forward_headers := None; e_max_body := None; e_schema_subject := None; e_schema_format := None |}.

(** A request without its key is answered and not counted; a signed one whose
    producing outlasts the deadline is produced, and counted as an error and as
    what it became. *)
Example miscounted :
  let refused := webhook_handler owner_core echo_effects (compiled keyed) "hook" None [] (Some body) (at_time 0) in
  let late := webhook_handler here echo_effects (compiled standard) "hook" None signed (Some body)
                {| read_in_time := true; produced_in_time := false; now := 1100 |} in
  r_status refused = BAD_REQUEST /\ r_recorded refused = []
  /\ r_status late = SERVICE_UNAVAILABLE /\ is_some (r_produced late) = true /\ r_recorded late = ["error"; "ok"].
Proof. split_and!; vm_compute; reflexivity. Qed.
End Hooks.
