(* ===== verification/Outbound.v ===== *)
(** * Outbound webhook delivery (outbound_config.rs, outbound.rs)

    Compilation of the subscriptions, rendering of a record, and the delivery
    loop: a batch is delivered partition by partition, each record retried and
    then dead-lettered, before the position is committed.  Partitions are
    delivered concurrently, so the events of a batch are an interleaving. *)

From Stdlib Require Import QArith Qcanon.
From stdpp Require Import pretty sorting.
From S2P Require Import Prelude.
From S2P Require Import RustStr.
From S2P Require Import RustNum.
From S2P Require Import Types.
From S2P Require Import Filter.
From S2P Require Import Consume.
From S2P Require Import Settings.
From S2P Require Import CloudEvents.
From S2P Require Import Webhook.
#[local] Open Scope Z_scope.

(** ** The libraries *)

(** [reqwest::Url::parse], [scheme] and [host_str]. *)
Class UrlLib := { url_parse : string -> option (string * option string) }.

(** Arithmetic on times: scaling by a double and addition, which agree with the
    order; halving is exact. *)
Class TimeArith `{Units} := {
  time_le : Time -> Time -> Prop;
  time_scale : Time -> Q -> Time;
  time_add : Time -> Time -> Time;
  time_le_preorder : PreOrder time_le;
  time_gt_false : forall a b, time_gt a b = false -> time_le a b;
  time_gt_true : forall a b, time_gt a b = true -> time_le b a;
  time_scale_mono : forall t q r, time_le (from_secs 0) t -> (0 <= q <= r)%Q -> time_le (time_scale t q) (time_scale t r);
  time_scale_one : forall t, time_scale t 1 = t;
  time_scale_zero : forall t, time_scale t 0 = from_secs 0;
  time_add_mono : forall a b c, time_le b c -> time_le (time_add a b) (time_add a c);
  time_add_zero : forall t, time_add t (from_secs 0) = t;
  time_halves : forall t, time_add (time_scale t (1 # 2)) (time_scale t (1 # 2)) = t;
}.

(** ** outbound_config.rs *)

Inductive OutboundContentMode := Envelope | CloudEventsBinary | CloudEventsStructured.
Definition is_cloudevents (m : OutboundContentMode) : bool := match m with Envelope => false | _ => true end.

Record AllowedTarget := { at_scheme : string; at_host : string }.

(** The static headers are in the map's iteration order. *)
Record OutboundSubscription `{Units} := {
  s_name : string;
  s_group_id : option string;
  s_source_topics : list string;
  s_target_url : string;
  s_signing_secret : option string;
  s_dead_letter_topic : option string;
  s_max_attempts : Z;
  s_base_backoff : Time;
  s_max_backoff : Time;
  s_request_timeout : Time;
  s_filter : option string;
  s_headers : list (string * string);
  s_content_mode : OutboundContentMode;
  s_decode_to_json : bool;
}.

Record CompiledSubscription `{Units} `{JsonPath} := {
  name : string;
  group_id : string;
  source_topics : list string;
  target_url : string;
  signing_secret : option Bytes;
  dead_letter_topic : option string;
  max_attempts : Z;
  base_backoff : Time;
  max_backoff : Time;
  request_timeout : Time;
  sub_filter : option JpQuery;
  sub_headers : list (string * string);
  content_mode : OutboundContentMode;
  decode_to_json : bool;
}.

(** The messages, one constructor each. *)
Inductive OutboundFault :=
| EmptyGroupId | BadMaxAttempts | BadSetting (message : string) | BackoffOrder
| BadUrl (url : string) | NoHost | TargetNotAllowed (scheme host : string)
| BadFilterPath | BadFilter | ReservedHeader (name : string) | DecodeWithBinary.

Definition default_max_attempts : Z := 5.
Definition default_base_backoff `{Units} : Time := from_millis 500.
Definition default_max_backoff `{Units} : Time := from_secs 30.
Definition default_request_timeout `{Units} : Time := from_secs 10.

Definition reserved_header (name : string) : bool :=
  let normalized := lower name in
  bool_decide (normalized = "content-type") || starts_with (as_bytes "ce-") (as_bytes normalized).
Definition reject_cloudevents_header_overrides (hs : list (string * string)) : result OutboundFault unit :=
  match List.find (fun h => reserved_header h.1) hs with
  | Some h => Err (ReservedHeader h.1)
  | None => Ok ()
  end.

Definition target_allowed (allowed : list AllowedTarget) (scheme host : string) : bool :=
  existsb (fun a => eq_ignore_ascii_case (as_bytes (at_scheme a)) (as_bytes scheme)
                    && eq_ignore_ascii_case (as_bytes (at_host a)) (as_bytes host)) allowed.

Lemma target_allowed_entry allowed scheme host :
  target_allowed allowed scheme host = true ->
  exists a, a ∈ allowed /\ lower (at_scheme a) = lower scheme /\ lower (at_host a) = lower host.
Proof.
  intros (a & Ha & [Hs Hh]%andb_true_iff)%existsb_exists. exists a. unfold lower.
  split_and!; [by apply list_elem_of_In|f_equal; by eapply bool_decide_eq_true..].
Qed.

Section Compile.
  Context `{Units} `{JsonPath} `{UrlLib}.

Definition compile_filter (filter : option string) : result OutboundFault (option JpQuery) :=
  match filter with
  | None => Ok None
  | Some f =>
      match strip_prefix "json:" f with
      | Some path => Some <$> ok_or BadFilterPath (parse_json_path path)
      | None => Err BadFilter
      end
  end.

Definition compile_subscription (allowed : list AllowedTarget) (s : OutboundSubscription)
    : result OutboundFault CompiledSubscription :=
  group ← match s_group_id s with
          | Some g => _ ← require (negb (bool_decide (g = EmptyString))) EmptyGroupId; Ok g
          | None => Ok ("__krabka_grpc_wh_" +:+ s_name s)
          end;
  attempts ← map_err (fun _ => BadMaxAttempts) (PositiveU32_new (s_max_attempts s));
  base ← map_err BadSetting (positive_time "base_backoff" (s_base_backoff s));
  max ← map_err BadSetting (positive_time "max_backoff" (s_max_backoff s));
  timeout ← map_err BadSetting (positive_time "request_timeout" (s_request_timeout s));
  _ ← require (negb (time_gt base max)) BackoffOrder;
  url ← ok_or (BadUrl (s_target_url s)) (url_parse (s_target_url s));
  host ← ok_or NoHost url.2;
  _ ← require (target_allowed allowed url.1 host) (TargetNotAllowed url.1 host);
  filter ← compile_filter (s_filter s);
  _ ← (if is_cloudevents (s_content_mode s) then reject_cloudevents_header_overrides (s_headers s) else Ok ());
  _ ← require (negb (match s_content_mode s with CloudEventsBinary => s_decode_to_json s | _ => false end)) DecodeWithBinary;
  Ok {| name := s_name s; group_id := group; source_topics := s_source_topics s; target_url := s_target_url s;
        signing_secret := as_bytes <$> s_signing_secret s; dead_letter_topic := s_dead_letter_topic s;
        max_attempts := attempts; base_backoff := base; max_backoff := max; request_timeout := timeout;
        sub_filter := filter; sub_headers := s_headers s; content_mode := s_content_mode s;
        decode_to_json := s_decode_to_json s |}.

(** [OutboundFile::compile]; an error names its subscription. *)
Definition compile_outbound (allowed : list AllowedTarget) (subs : list OutboundSubscription)
    : result (string * OutboundFault) (list CompiledSubscription) :=
  try_map (fun s => map_err (pair (s_name s)) (compile_subscription allowed s)) subs.
End Compile.

(** ** outbound.rs: rendering *)

Record RenderedDelivery := { rd_body : Bytes; rd_headers : list (string * Bytes) }.

Definition content_type_header (v : string) : string * Bytes := (CONTENT_TYPE, as_bytes v).
Definition CLOUDEVENTS_JSON_CONTENT_TYPE : string := "application/cloudevents+json; charset=UTF-8".

(** A JSON number from a signed integer. *)
Definition json_int (z : Z) : Json := JNumber (if 0 <=? z then PosInt z else NegInt z).
Definition json_str (s : string) : Json := JString (as_bytes s).

Section Render.
  Context `{CeLib} `{HttpLib} `{RecordCodec} `{Units} `{JsonPath}.

(** [json!] of an object: its entries inserted in order. *)
Definition json_object (entries : list (string * Json)) : Json :=
  JObject (foldl (fun o e => object_insert (as_bytes e.1) e.2 o) [] entries).
Definition b64_or_null (v : option Bytes) : Json := match v with Some b => JString (base64_encode b) | None => JNull end.

Definition value_field (rec : ConsumerRecord) : Json :=
  match cr_value rec with
  | None => JNull
  | Some v => default (json_object [("_base64", JString (base64_encode v))]) (json_parse v)
  end.

Definition envelope (event_id : string) (rec : ConsumerRecord) : Json :=
  json_object
    [("event_id", json_str event_id); ("topic", json_str (cr_topic rec)); ("partition", json_int (cr_partition rec));
     ("offset", json_int (cr_offset rec)); ("timestamp_ms", json_int (cr_timestamp rec));
     ("key", b64_or_null (cr_key rec)); ("value", value_field rec);
     ("headers", JArray (map (fun h => json_object [("key", json_str h.1); ("value", b64_or_null h.2)]) (cr_headers rec)))].
Definition render_envelope (event_id : string) (rec : ConsumerRecord) : Bytes := default [] (json_to_vec (envelope event_id rec)).

Definition decoded_body (sub : CompiledSubscription) (rec : ConsumerRecord) : option Bytes :=
  if negb (decode_to_json sub) then None
  else
    v ← cr_value rec;
    match decode (cr_topic rec) v with Ok d => dec_json d | Err _ => None end.

Fixpoint is_structured_at_rest (hs : list (string * option Bytes)) : result CeError bool :=
  match hs with
  | [] => Ok false
  | (k, v) :: hs =>
      if negb (bool_decide (k = "content-type")) then is_structured_at_rest hs
      else
        match v with
        | None => is_structured_at_rest hs
        | Some v =>
            s ← ok_or (NonUtf8Attribute k) (from_utf8 v);
            if is_structured_media_type s then Ok true else is_structured_at_rest hs
        end
  end.

Definition record_value (rec : ConsumerRecord) : Bytes := default [] (cr_value rec).
Definition parse_structured_record (rec : ConsumerRecord) : result CeError Json :=
  ok_or MalformedJson (json_parse (record_value rec)).
Definition validate_record_cloudevent (hs : list (string * option Bytes)) : result CeError unit :=
  validate_binary_required (omap (fun h => (fun v => (h.1, v)) <$> h.2) hs).

Definition render_cloudevents_binary (rec : ConsumerRecord) : result CeError RenderedDelivery :=
  structured ← is_structured_at_rest (cr_headers rec);
  '(hs, body) ←
    (if structured : bool then
       event ← parse_structured_record rec;
       '(hs, body) ← binary_from_structured event;
       Ok (map (fun h => (h.1, Some h.2)) hs, body)
     else
       _ ← validate_record_cloudevent (cr_headers rec);
       Ok (cr_headers rec, record_value rec));
  http ← kafka_headers_to_http hs;
  Ok {| rd_body := body; rd_headers := http |}.

Definition render_cloudevents_structured (rec : ConsumerRecord) : result CeError RenderedDelivery :=
  structured ← is_structured_at_rest (cr_headers rec);
  body ←
    (if structured : bool then
       event ← parse_structured_record rec;
       _ ← validate_structured_json event;
       Ok (record_value rec)
     else
       _ ← validate_record_cloudevent (cr_headers rec);
       structured_from_binary (cr_headers rec) (record_value rec));
  Ok {| rd_body := body; rd_headers := [content_type_header CLOUDEVENTS_JSON_CONTENT_TYPE] |}.

Definition render_delivery (sub : CompiledSubscription) (event_id : string) (rec : ConsumerRecord) : result CeError RenderedDelivery :=
  match content_mode sub with
  | Envelope => Ok {| rd_body := default (render_envelope event_id rec) (decoded_body sub rec);
                      rd_headers := [content_type_header "application/json"] |}
  | CloudEventsBinary => render_cloudevents_binary rec
  | CloudEventsStructured => render_cloudevents_structured rec
  end.

Definition passes_filter (q : JpQuery) (rec : ConsumerRecord) : bool :=
  match v ← cr_value rec; j ← json_parse v; js_path_process q j with
  | None | Some [] => false
  | Some refs => forallb (fun j => match j with JNull | JBool false => false | _ => true end) refs
  end.

Definition event_id (rec : ConsumerRecord) : string :=
  cr_topic rec +:+ "-" +:+ pretty (cr_partition rec) +:+ "-" +:+ pretty (cr_offset rec).
End Render.

(** ** outbound.rs: waiting between attempts *)

Definition saturating_pow2 (n : Z) : Z := Z.min (2 ^ n) u32_max.
Definition backoff_with_jitter `{TimeArith} (attempt : Z) (base max : Time) (jitter : Q) : Time :=
  let doubled := time_scale base (inject_Z (saturating_pow2 (attempt - 1))) in
  let capped := if time_gt doubled max then max else doubled in
  let half := time_scale capped (1 # 2) in
  time_add half (time_scale half jitter).

(** ** outbound.rs: delivery *)

Record HttpRequest := { rq_url : string; rq_headers : list (string * Bytes); rq_body : Bytes }.

Inductive Event :=
| Posted (rec : ConsumerRecord) (attempt : Z) (request : HttpRequest) (status : option Z)
| Waited (rec : ConsumerRecord) (attempt : Z)
| DeadLettered (rec : ConsumerRecord) (letter : ProducerRecord) (accepted : bool)
| Dropped (rec : ConsumerRecord).
Definition event_record (e : Event) : ConsumerRecord :=
  match e with Posted r _ _ _ | Waited r _ | DeadLettered r _ _ | Dropped r => r end.

(** What the outside answers: the status of an attempt ([None] when the request
    fails), whether the producer accepts a dead letter, and the clock. *)
Record World := {
  w_http : ConsumerRecord -> Z -> option Z;
  w_dlq : ConsumerRecord -> bool;
  w_now_ms : ConsumerRecord -> Z;
}.

Definition success (status : option Z) : bool := match status with Some s => (200 <=? s) && (s <=? 299) | None => false end.

Section Deliver.
  Context `{Units} `{Crypto} `{JsonPath} `{CeLib} `{HttpLib} `{RecordCodec}.
  Context (sub : CompiledSubscription) (w : World).

Definition dead_letter_record (dlq : string) (rec : ConsumerRecord) : ProducerRecord :=
  {| pr_topic := dlq; pr_partition := None; pr_key := cr_key rec; pr_value := cr_value rec;
     pr_headers := [("x-krabka-dlq-source", Some (as_bytes (event_id rec)));
                    ("x-krabka-dlq-reason", Some (as_bytes "delivery exhausted"))];
     pr_timestamp_ms := None |}.
Definition dead_letter (rec : ConsumerRecord) : list Event :=
  match dead_letter_topic sub with
  | None => [Dropped rec]
  | Some dlq => [DeadLettered rec (dead_letter_record dlq rec) (w_dlq w rec)]
  end.

Definition request_of (d : RenderedDelivery) (rec : ConsumerRecord) : HttpRequest :=
  {| rq_url := target_url sub;
     rq_headers :=
       [("X-Krabka-Event-Id", as_bytes (event_id rec)); ("X-Krabka-Timestamp", as_bytes (pretty (w_now_ms w rec)))]
       ++ rd_headers d
       ++ match signing_secret sub with
          | Some s => [("X-Krabka-Signature", as_bytes (sign_hmac_hex s (rd_body d)))]
          | None => []
          end
       ++ map (fun h => (h.1, as_bytes h.2)) (sub_headers sub);
     rq_body := rd_body d |}.

(** The attempts after the first [attempt]; [None] is out of fuel. *)
Fixpoint post_loop (fuel : nat) (attempt : Z) (request : HttpRequest) (rec : ConsumerRecord) : option (list Event) :=
  match fuel with
  | O => None
  | S fuel =>
      let attempt := attempt + 1 in
      let posted := Posted rec attempt request (w_http w rec attempt) in
      if success (w_http w rec attempt) then Some [posted]
      else if max_attempts sub <=? attempt then Some (posted :: dead_letter rec)
      else (fun es => posted :: Waited rec attempt :: es) <$> post_loop fuel attempt request rec
  end.

Definition filtered_out (rec : ConsumerRecord) : bool :=
  match sub_filter sub with Some q => negb (passes_filter q rec) | None => false end.

Definition deliver_one (rec : ConsumerRecord) : option (list Event) :=
  if filtered_out rec then Some []
  else
    match render_delivery sub (event_id rec) rec with
    | Err _ => Some (dead_letter rec)
    | Ok d => post_loop (Z.to_nat (max_attempts sub)) 0 (request_of d rec) rec
    end.

(** The records of one partition, in sequence. *)
Fixpoint deliver_partition (recs : list ConsumerRecord) : option (list Event) :=
  match recs with
  | [] => Some []
  | rec :: recs => es ← deliver_one rec; rest ← deliver_partition recs; Some (es ++ rest)
  end.

(** [sort_by_key] on offsets, which is stable. *)
Fixpoint insert_offset (rec : ConsumerRecord) (l : list ConsumerRecord) : list ConsumerRecord :=
  match l with
  | [] => [rec]
  | r :: l => if cr_offset rec <? cr_offset r then rec :: r :: l else r :: insert_offset rec l
  end.
Definition sort_by_offset (l : list ConsumerRecord) : list ConsumerRecord := foldl (fun l r => insert_offset r l) [] l.

Definition part_of (rec : ConsumerRecord) : TopicPartition := (cr_topic rec, cr_partition rec).
Definition by_part (batch : list ConsumerRecord) : gmap TopicPartition (list ConsumerRecord) :=
  foldl (fun m r => <[part_of r := default [] (m !! part_of r) ++ [r]]> m) ∅ batch.

(** The events of concurrent tasks: those of each in its order. *)
Inductive interleave {A} : list (list A) -> list A -> Prop :=
| interleave_done tss : Forall (eq []) tss -> interleave tss []
| interleave_step tss1 x ts tss2 tr :
    interleave (tss1 ++ ts :: tss2) tr -> interleave (tss1 ++ (x :: ts) :: tss2) (x :: tr).

Definition deliver_batch (batch : list ConsumerRecord) (tr : list Event) : Prop :=
  exists tasks, Forall2 (fun kr es => deliver_partition (sort_by_offset kr.2) = Some es) (map_to_list (by_part batch)) tasks
    /\ interleave tasks tr.

(** ** outbound.rs: the subscription's loop *)

Inductive RunEvent :=
| Polled (batch : list ConsumerRecord)
| Delivery (e : Event)
| Committed (accepted : bool)
| AutoCommitted.   (** the client's own commit of the polled position *)

(** What a poll resolves to. *)
Inductive PollAnswer := ShutDown | PollFailed (e : ConsumerError) | PolledBatch (batch : list ConsumerRecord) (commit : bool).

Inductive delivery_loop : list PollAnswer -> list RunEvent -> result GatewayError unit -> Prop :=
| run_shutdown rest : delivery_loop (ShutDown :: rest) [] (Ok ())
| run_failed e rest : delivery_loop (PollFailed e :: rest) [] (Err (Consumer e))
| run_empty commit rest tr r : delivery_loop rest tr r -> delivery_loop (PolledBatch [] commit :: rest) tr r
| run_batch batch commit rest es tr r :
    batch <> [] -> deliver_batch batch es -> delivery_loop rest tr r ->
    delivery_loop (PolledBatch batch commit :: rest) (Polled batch :: map Delivery es ++ Committed commit :: tr) r.

(** The client's own commits, at polls, when it joins the group and when it is
    closed: none of them is the loop's, so they fall anywhere. *)
Inductive with_auto_commits (auto : bool) : list RunEvent -> list RunEvent -> Prop :=
| auto_done : with_auto_commits auto [] []
| auto_event e tr tr' : with_auto_commits auto tr tr' -> with_auto_commits auto (e :: tr) (e :: tr')
| auto_commit tr tr' : auto = true -> with_auto_commits auto tr tr' -> with_auto_commits auto tr (AutoCommitted :: tr').

(** The builder of the consumer does not say whether the client is to commit on
    its own; [auto] is whether it then does. *)
Definition run_subscription (auto : bool) (polls : list PollAnswer) (tr : list RunEvent) (r : result GatewayError unit) : Prop :=
  exists loop, delivery_loop polls loop r /\ with_auto_commits auto loop tr.

(** ** One record *)

Definition attempts_of (es : list Event) : list Z := omap (fun e => match e with Posted _ n _ _ => Some n | _ => None end) es.
Definition letters_of (es : list Event) : list Event :=
  List.filter (fun e => match e with DeadLettered _ _ _ | Dropped _ => true | _ => false end) es.

Lemma letters_dead_letter rec : letters_of (dead_letter rec) = dead_letter rec /\ attempts_of (dead_letter rec) = [].
Proof. unfold dead_letter. by destruct (dead_letter_topic sub). Qed.

Lemma dead_letter_record_of rec e : e ∈ dead_letter rec -> event_record e = rec.
Proof. unfold dead_letter. destruct (dead_letter_topic sub); by intros ->%list_elem_of_singleton. Qed.

(** The retries of a request: attempts are numbered from [a + 1] on, stop at the
    first success, and give up after [max_attempts]. *)
Lemma post_loop_spec fuel a q rec es :
  post_loop fuel a q rec = Some es -> a < max_attempts sub ->
  (forall e, e ∈ es -> event_record e = rec)
  /\ exists k, a < k <= max_attempts sub /\ attempts_of es = seqZ (a + 1) (k - a)
    /\ Posted rec k q (w_http w rec k) ∈ es /\ (forall j, a < j < k -> success (w_http w rec j) = false)
    /\ if success (w_http w rec k) then letters_of es = []
       else k = max_attempts sub /\ letters_of es = dead_letter rec.
Proof.
  revert a es. induction fuel as [|fuel IH]; intros a es; [done|]. cbn [post_loop].
  destruct (letters_dead_letter rec) as [Hl Hat].
  destruct (success (w_http w rec (a + 1))) eqn:Hs; [|destruct (max_attempts sub <=? a + 1) eqn:Hm].
  - intros [= <-] Ha. split; [by intros e ->%list_elem_of_singleton|]. exists (a + 1). rewrite Hs.
    split_and!; [lia|lia| |by left|intros; lia|done]. by replace (a + 1 - a) with 1 by lia.
  - intros [= <-] Ha. bool_prop. split.
    { intros e [->|He]%elem_of_cons; [done|by apply dead_letter_record_of]. }
    exists (a + 1). rewrite Hs. split_and!; [lia|lia| |by left|intros; lia|lia|exact Hl].
    replace (a + 1 - a) with 1 by lia. change (attempts_of _) with (a + 1 :: attempts_of (dead_letter rec)). by rewrite Hat.
  - destruct (post_loop fuel (a + 1) q rec) as [es'|] eqn:He; [|done]. intros [= <-] Ha. bool_prop.
    destruct (IH _ _ He ltac:(lia)) as (Hrec & k & Hk & Hats & Hin & Hfail & Hend). split.
    { intros e [->|[->|He']%elem_of_cons]%elem_of_cons; auto. }
    exists k. split_and!; [lia|lia| |by do 2 right| |by destruct (success (w_http w rec k))].
    + change (attempts_of _) with (a + 1 :: attempts_of es'). rewrite Hats, (seqZ_cons (a + 1)) by lia.
      do 2 f_equal; lia.
    + intros j Hj. destruct (decide (j = a + 1)) as [->|]; [done|]. apply Hfail. lia.
Qed.

Lemma post_loop_total fuel a q rec : (0 < fuel)%nat -> max_attempts sub - a <= Z.of_nat fuel -> is_Some (post_loop fuel a q rec).
Proof.
  revert a. induction fuel as [|fuel IH]; intros a Hf Ha; [lia|]. cbn [post_loop].
  destruct (success _); [by eauto|]. destruct (_ <=? _) eqn:Hm; [by eauto|]. bool_prop.
  destruct (IH (a + 1)) as [es ->]; [lia|lia|]. simpl. by eauto.
Qed.

(** What the delivery of a record ends in. *)
Definition settled (rec : ConsumerRecord) (tr : list Event) : Prop :=
  filtered_out rec = true
  \/ (exists n q status, Posted rec n q status ∈ tr /\ success status = true)
  \/ (exists dlq, dead_letter_topic sub = Some dlq /\ DeadLettered rec (dead_letter_record dlq rec) (w_dlq w rec) ∈ tr)
  \/ (dead_letter_topic sub = None /\ Dropped rec ∈ tr).

Lemma settled_mono rec tr tr' : tr ⊆ tr' -> settled rec tr -> settled rec tr'.
Proof. unfold settled. intros Hsub [?|[(n & q & st & ? & ?)|[(dlq & ? & ?)|[? ?]]]]; [auto|right; left|do 2 right; left|do 3 right]; eauto 6. Qed.

Lemma dead_letter_settled rec tr : dead_letter rec ⊆ tr -> settled rec tr.
Proof.
  unfold settled, dead_letter. intros Hsub. do 2 right. destruct (dead_letter_topic sub) as [dlq|]; [left; exists dlq|right];
    (split; [done|]); apply Hsub; by left.
Qed.

Lemma deliver_one_settled rec es :
  0 < max_attempts sub -> deliver_one rec = Some es -> (forall e, e ∈ es -> event_record e = rec) /\ settled rec es.
Proof.
  intros Hmax. unfold deliver_one. destruct (filtered_out rec) eqn:Hf; [intros [= <-]; split; [by intros e ?%not_elem_of_nil|by left]|].
  destruct (render_delivery _ _ _) as [d|]; [|intros [= <-]; split; [by apply dead_letter_record_of|by apply dead_letter_settled]].
  intros (Hrec & k & _ & _ & Hin & _ & Hend)%post_loop_spec; [|done]. split; [done|].
  destruct (success (w_http w rec k)) eqn:Hs.
  - right. left. eauto.
  - destruct Hend as [_ Hl]. apply dead_letter_settled. rewrite <- Hl. intros e He.
    apply list_elem_of_In, List.filter_In in He as [He _]. by apply list_elem_of_In.
Qed.

Lemma deliver_one_total rec : 0 < max_attempts sub -> is_Some (deliver_one rec).
Proof.
  intros Hmax. unfold deliver_one. destruct (filtered_out rec); [by eauto|]. destruct (render_delivery _ _ _); [|by eauto].
  apply post_loop_total; lia.
Qed.

Lemma deliver_partition_concat recs es :
  deliver_partition recs = Some es <-> exists ess, Forall2 (fun r x => deliver_one r = Some x) recs ess /\ es = concat ess.
Proof.
  revert es. induction recs as [|r recs IH]; intros es; simpl.
  - split; [intros [= <-]; exists []; by split|]. intros (ess & Hall & ->). by inversion Hall.
  - destruct (deliver_one r) as [x|] eqn:Hr; simpl.
    + destruct (deliver_partition recs) as [rest|]; simpl; split.
      * intros [= <-]. destruct (proj1 (IH rest) eq_refl) as (ess & Hess & ->). exists (x :: ess). split; [by constructor|done].
      * intros (ess & Hall & ->). inversion Hall as [|? x' ? ess' Hx' Hess]; subst. simpl. f_equal.
        assert (Some rest = Some (concat ess')) as [= ->] by (apply IH; by exists ess'). congruence.
      * done.
      * intros (ess & Hall & ->). inversion Hall as [|? x' ? ess' Hx' Hess]; subst.
        assert (None = Some (concat ess')) by (apply IH; by exists ess'). done.
    + split; [done|]. intros (ess & Hall & ->). inversion Hall; subst. congruence.
Qed.

Lemma deliver_partition_total recs : 0 < max_attempts sub -> is_Some (deliver_partition recs).
Proof.
  intros Hmax. induction recs as [|r recs [rest Hrest]]; simpl; [by eauto|].
  destruct (deliver_one_total r Hmax) as [es ->]. simpl. rewrite Hrest. simpl. by eauto.
Qed.

(** ** A batch *)

Lemma insert_offset_perm r l : insert_offset r l ≡ₚ r :: l.
Proof. induction l as [|r' l IH]; simpl; [done|]. case_match; [done|]. rewrite IH. constructor. Qed.

Lemma sort_by_offset_perm l : sort_by_offset l ≡ₚ l.
Proof.
  unfold sort_by_offset. enough (forall acc, foldl (fun l r => insert_offset r l) acc l ≡ₚ acc ++ l) as -> by done.
  induction l as [|r l IH]; intros acc; simpl; [by rewrite app_nil_r|]. rewrite IH, insert_offset_perm. apply Permutation_middle.
Qed.

Definition offset_le (r r' : ConsumerRecord) : Prop := cr_offset r <= cr_offset r'.

Lemma insert_offset_sorted r l : StronglySorted offset_le l -> StronglySorted offset_le (insert_offset r l).
Proof.
  induction 1 as [|r' l Hl IH Hr']; simpl; [by repeat constructor|]. destruct (_ <? _) eqn:Hlt; bool_prop.
  - constructor; [by constructor|]. constructor; [unfold offset_le; lia|].
    eapply Forall_impl; [done|]. unfold offset_le. intros; simpl in *; lia.
  - constructor; [done|]. rewrite insert_offset_perm. constructor; [unfold offset_le; lia|done].
Qed.

Lemma sort_by_offset_sorted l : StronglySorted offset_le (sort_by_offset l).
Proof.
  unfold sort_by_offset. assert (StronglySorted offset_le []) as Hnil by constructor. revert Hnil. generalize (@nil ConsumerRecord).
  induction l as [|r l IH]; intros acc Hacc; simpl; [done|]. by apply IH, insert_offset_sorted.
Qed.

Lemma by_part_lookup batch k :
  default [] (by_part batch !! k) = List.filter (fun r => bool_decide (part_of r = k)) batch
  /\ (forall l, by_part batch !! k = Some l -> l <> []).
Proof.
  unfold by_part. induction batch as [|r batch [IH1 IH2]] using rev_ind; simpl; [done|].
  rewrite foldl_app, List.filter_app. simpl. destruct (decide (part_of r = k)) as [<-|Hne].
  - rewrite lookup_insert_eq, bool_decide_true by done. simpl. rewrite IH1. split; [done|]. intros l [= <-]. by destruct (List.filter _ _).
  - rewrite lookup_insert_ne, bool_decide_false by done. simpl. by rewrite app_nil_r.
Qed.

Lemma by_part_elem batch k l r : by_part batch !! k = Some l -> r ∈ l <-> r ∈ batch /\ part_of r = k.
Proof.
  intros Hl. destruct (by_part_lookup batch k) as [Heq _]. rewrite Hl in Heq. simpl in Heq. subst l.
  rewrite !list_elem_of_In, List.filter_In, bool_decide_eq_true. done.
Qed.

Lemma interleave_elem {A} (tss : list (list A)) tr x : interleave tss tr -> x ∈ tr <-> exists ts, ts ∈ tss /\ x ∈ ts.
Proof.
  induction 1 as [tss Hnil|tss1 y ts tss2 tr Hi IH].
  - rewrite Forall_forall in Hnil. split; [by intros ?%not_elem_of_nil|]. intros (ts & Hts & Hx). rewrite <- (Hnil ts Hts) in Hx. done.
  - rewrite elem_of_cons, IH. setoid_rewrite elem_of_app. setoid_rewrite elem_of_cons. split.
    + intros [->|(ts' & [?|[->|?]] & ?)]; [exists (y :: ts); set_solver|exists ts'|exists (y :: ts)|exists ts']; set_solver.
    + intros (ts' & [?|[->|?]] & Hx); [right; exists ts'; set_solver| |right; exists ts'; set_solver].
      apply elem_of_cons in Hx as [->|Hx]; [by left|]. right. exists ts. set_solver.
Qed.

(** Lists of which no two share a key. *)
Definition apart {A K} (key : A -> K) (tss : list (list A)) : Prop :=
  forall i j ts ts' x y, tss !! i = Some ts -> tss !! j = Some ts' -> i <> j -> x ∈ ts -> y ∈ ts' -> key x <> key y.

Lemma apart_mono {A K} (key : A -> K) tss tss' : Forall2 (fun ts' ts => ts' ⊆ ts) tss' tss -> apart key tss -> apart key tss'.
Proof.
  intros Hall Hap i j ts ts' x y Hi Hj Hne Hx Hy.
  destruct (Forall2_lookup_l _ _ _ _ _ Hall Hi) as (us & Hui & Hsub), (Forall2_lookup_l _ _ _ _ _ Hall Hj) as (us' & Huj & Hsub').
  eapply (Hap i j); eauto.
Qed.

(** What is in order within each list stays in order among those of its key. *)
Lemma interleave_sorted {A K} (key : A -> K) (R : A -> A -> Prop) tss tr :
  interleave tss tr -> apart key tss -> Forall (StronglySorted R) tss ->
  StronglySorted (fun x y => key x = key y -> R x y) tr.
Proof.
  induction 1 as [tss Hnil|tss1 x ts tss2 tr Hi IH]; intros Hap Hs; [constructor|].
  apply Forall_app in Hs as [Hs1 [Hsx Hs2]%Forall_cons]. inversion Hsx as [|? ? Hts Hx]; subst. constructor.
  - apply IH; [|by apply Forall_app; split; [|constructor]]. revert Hap. apply apart_mono.
    apply Forall2_app; [|constructor; [set_solver|]]; by apply Forall_Forall2_diag, Forall_true.
  - rewrite Forall_forall. intros y Hy Hkey. apply (interleave_elem _ _ _ Hi) in Hy as (ts' & Hts' & Hy).
    apply list_elem_of_lookup in Hts' as [j Hj]. destruct (decide (j = length tss1)) as [->|Hne].
    + rewrite list_lookup_middle in Hj by done. injection Hj as <-. rewrite Forall_forall in Hx. auto.
    + exfalso. apply (Hap (length tss1) j (x :: ts) ts' x y); try done; [by rewrite list_lookup_middle| |by left].
      revert Hj. rewrite !lookup_app. case_match; [done|]. destruct (j - length tss1)%nat eqn:Hd; [|done].
      apply lookup_ge_None in H6. lia.
Qed.

(** The tasks of a batch: the events of each partition's records, in order. *)
Lemma batch_task batch tasks i es :
  Forall2 (fun kr es => deliver_partition (sort_by_offset kr.2) = Some es) (map_to_list (by_part batch)) tasks ->
  tasks !! i = Some es ->
  exists k recs ess, map_to_list (by_part batch) !! i = Some (k, recs) /\ by_part batch !! k = Some recs
    /\ Forall2 (fun r x => deliver_one r = Some x) (sort_by_offset recs) ess /\ es = concat ess.
Proof.
  intros Hall Hi. destruct (Forall2_lookup_r _ _ _ _ _ Hall Hi) as ([k recs] & Hk & Hd).
  apply deliver_partition_concat in Hd as (ess & Hess & ->). exists k, recs, ess. split_and!; [done| |done..].
  apply elem_of_map_to_list. by eapply list_elem_of_lookup_2.
Qed.

Lemma batch_task_records batch recs k ess e :
  0 < max_attempts sub -> by_part batch !! k = Some recs ->
  Forall2 (fun r x => deliver_one r = Some x) (sort_by_offset recs) ess -> e ∈ concat ess ->
  event_record e ∈ batch /\ part_of (event_record e) = k.
Proof.
  intros Hmax Hk Hess He. apply list_elem_of_In, List.in_concat in He as (x & Hx%list_elem_of_In & He%list_elem_of_In).
  apply list_elem_of_lookup in Hx as [n Hn]. destruct (Forall2_lookup_r _ _ _ _ _ Hess Hn) as (r & Hr & Hd).
  destruct (deliver_one_settled r x Hmax Hd) as [Hrec _]. rewrite (Hrec e He).
  apply list_elem_of_lookup_2 in Hr. rewrite sort_by_offset_perm in Hr. by apply (by_part_elem batch k recs) in Hr.
Qed.

Lemma concat_sorted (rs : list ConsumerRecord) ess :
  0 < max_attempts sub -> Forall2 (fun r x => deliver_one r = Some x) rs ess -> StronglySorted offset_le rs ->
  StronglySorted (fun e e' => offset_le (event_record e) (event_record e')) (concat ess).
Proof.
  intros Hmax Hall Hs. induction Hall as [|r x rs ess Hx Hall IH]; simpl; [constructor|].
  inversion Hs as [|? ? Hs' Hr]; subst. destruct (deliver_one_settled r x Hmax Hx) as [Hrec _].
  apply StronglySorted_app_2; [|clear Hx|by apply IH].
  - intros e e' He He'. apply list_elem_of_In, List.in_concat in He' as (y & Hy%list_elem_of_In & He'%list_elem_of_In).
    apply list_elem_of_lookup in Hy as [n Hn]. destruct (Forall2_lookup_r _ _ _ _ _ Hall Hn) as (r' & Hr' & Hd).
    destruct (deliver_one_settled r' y Hmax Hd) as [Hrec' _]. rewrite (Hrec e He), (Hrec' e' He').
    rewrite Forall_forall in Hr. apply Hr. by eapply list_elem_of_lookup_2.
  - clear -Hrec. induction x as [|e x IH]; constructor; [apply IH; set_solver|].
    rewrite Forall_forall. intros e' He'. rewrite (Hrec e), (Hrec e') by set_solver. unfold offset_le. lia.
Qed.

Lemma batch_settled batch tr rec :
  0 < max_attempts sub -> deliver_batch batch tr -> rec ∈ batch -> settled rec tr.
Proof.
  intros Hmax (tasks & Hall & Hi) Hrec.
  destruct (by_part_lookup batch (part_of rec)) as [Hl _].
  assert (rec ∈ default [] (by_part batch !! part_of rec)) as Hin.
  { rewrite Hl. apply list_elem_of_In, List.filter_In. split; [by apply list_elem_of_In|by apply bool_decide_eq_true]. }
  destruct (by_part batch !! part_of rec) as [recs|] eqn:Hk; [|by apply not_elem_of_nil in Hin]. simpl in Hin.
  apply elem_of_map_to_list, list_elem_of_lookup in Hk as [i Hk]. destruct (Forall2_lookup_l _ _ _ _ _ Hall Hk) as (es & Hes & Hd).
  apply deliver_partition_concat in Hd as (ess & Hess & ->). rewrite <- sort_by_offset_perm in Hin. simpl in Hess.
  apply list_elem_of_lookup in Hin as [n Hn]. destruct (Forall2_lookup_l _ _ _ _ _ Hess Hn) as (x & Hx & Hd).
  destruct (deliver_one_settled rec x Hmax Hd) as [_ Hset]. revert Hset. apply settled_mono. intros e He.
  apply (interleave_elem _ _ _ Hi). exists (concat ess). split; [by eapply list_elem_of_lookup_2|].
  apply list_elem_of_In, List.in_concat. exists x. split; apply list_elem_of_In; [by eapply list_elem_of_lookup_2|done].
Qed.

(** Running the tasks one after the other is one interleaving. *)
Lemma interleave_concat {A} (tss : list (list A)) : interleave tss (concat tss).
Proof.
  enough (forall tss1, Forall (eq []) tss1 -> interleave (tss1 ++ tss) (concat tss)) as Hgen by (apply (Hgen []); constructor).
  induction tss as [|ts tss IH]; intros tss1 Hnil; simpl; [constructor; by rewrite app_nil_r|].
  induction ts as [|x ts IHts]; simpl; [|by apply interleave_step].
  replace (tss1 ++ [] :: tss) with ((tss1 ++ [[]]) ++ tss) by (by rewrite <- app_assoc). apply IH. apply Forall_app. by repeat constructor.
Qed.

Lemma deliver_batch_exists batch : 0 < max_attempts sub -> exists tr, deliver_batch batch tr.
Proof.
  intros Hmax. enough (exists tasks, Forall2 (fun kr es => deliver_partition (sort_by_offset kr.2) = Some es)
                                     (map_to_list (by_part batch)) tasks) as [tasks Htasks].
  { exists (concat tasks). exists tasks. split; [done|apply interleave_concat]. }
  induction (map_to_list (by_part batch)) as [|kr l [tasks IH]]; [by exists []|].
  destruct (deliver_partition_total (sort_by_offset kr.2) Hmax) as [es Hes]. exists (es :: tasks). by constructor.
Qed.

Definition is_commit (e : RunEvent) : bool := match e with Committed _ | AutoCommitted => true | _ => false end.
Definition deliveries (tr : list RunEvent) : list Event := omap (fun e => match e with Delivery e => Some e | _ => None end) tr.

Lemma deliveries_batch es tr : deliveries (map Delivery es ++ tr) = es ++ deliveries tr.
Proof. induction es; simpl; by f_equal. Qed.

Lemma loop_settled polls tr r pre ok post batch rec :
  0 < max_attempts sub -> delivery_loop polls tr r -> tr = pre ++ Committed ok :: post ->
  Polled batch ∈ pre -> rec ∈ batch -> settled rec (deliveries pre).
Proof.
  intros Hmax Hrun. revert pre. induction Hrun as [| |commit rest tr r Hrun IH|batch' commit rest es tr r Hne Hb Hrun IH];
    intros pre Htr Hin Hrec; [by destruct pre..|by apply (IH pre)|].
  destruct pre as [|ev pre]; [done|]. simpl in Htr. injection Htr as <- Htr.
  assert (exists pre', pre = map Delivery es ++ pre' /\ Committed commit :: tr = pre' ++ Committed ok :: post) as (pre' & -> & Htr').
  { clear -Htr. revert pre Htr. induction es as [|e es IHes]; intros pre Htr; [by exists pre|]. simpl in Htr.
    destruct pre as [|ev pre]; [done|]. injection Htr as <- Htr. destruct (IHes _ Htr) as (pre' & -> & ?). by exists pre'. }
  change (deliveries (Polled batch' :: map Delivery es ++ pre')) with (deliveries (map Delivery es ++ pre')). rewrite deliveries_batch.
  assert (batch = batch' \/ Polled batch ∈ pre') as [->|Hin'].
  { apply elem_of_cons in Hin as [[= ->]|Hin]; [by left|]. apply elem_of_app in Hin as [(e & ? & _)%list_elem_of_fmap|]; [done|by right]. }
  - apply (settled_mono rec es); [set_solver|]. by eapply batch_settled.
  - destruct pre' as [|ev pre'']; [by apply not_elem_of_nil in Hin'|]. injection Htr' as <- Htr'.
    apply (settled_mono rec (deliveries pre'')); [set_solver|]. apply (IH pre''); [done| |done].
    apply elem_of_cons in Hin' as [?|?]; done.
Qed.

Lemma deliveries_cons x tr :
  deliveries (x :: tr) = match x with Delivery e => [e] | _ => [] end ++ deliveries tr.
Proof. by destruct x. Qed.

Lemma with_auto_split auto tr tr' pre ok post :
  with_auto_commits auto tr tr' -> tr' = pre ++ Committed ok :: post ->
  exists pre0 post0, tr = pre0 ++ Committed ok :: post0 /\ deliveries pre = deliveries pre0
    /\ forall batch, Polled batch ∈ pre -> Polled batch ∈ pre0.
Proof.
  intros Ha. revert pre. induction Ha as [|e tr tr' Ha IH|tr tr' Hauto Ha IH]; intros pre Heq.
  - by destruct pre.
  - destruct pre as [|x pre]; injection Heq as -> Heq; [by exists [], tr|].
    destruct (IH _ Heq) as (pre0 & post0 & -> & Hd & Hp). exists (x :: pre0), post0. split_and!; [done| |set_solver].
    rewrite !(deliveries_cons x). by rewrite Hd.
  - destruct pre as [|x pre]; [done|]. injection Heq as <- Heq. destruct (IH _ Heq) as (pre0 & post0 & -> & Hd & Hp).
    exists pre0, post0. split_and!; [done..|]. intros batch [?|?]%elem_of_cons; [done|auto].
Qed.

Lemma without_auto tr tr' : with_auto_commits false tr tr' -> tr' = tr.
Proof. induction 1; congruence. Qed.
Lemma loop_explicit polls tr r : delivery_loop polls tr r -> AutoCommitted ∉ tr.
Proof. induction 1; set_solver. Qed.
Lemma with_auto_none auto tr : with_auto_commits auto tr tr.
Proof. induction tr; by constructor. Qed.

Lemma run_settled auto polls tr r pre ev post batch rec :
  0 < max_attempts sub -> run_subscription auto polls tr r -> tr = pre ++ ev :: post -> is_commit ev = true ->
  auto = false \/ ev <> AutoCommitted -> Polled batch ∈ pre -> rec ∈ batch -> settled rec (deliveries pre).
Proof.
  intros Hmax (loop & Hloop & Hauto) Htr Hev Hor Hin Hrec.
  assert (exists ok, ev = Committed ok) as [ok ->].
  { destruct ev as [| |ok|]; [done..|by exists ok|]. destruct Hor as [->|?]; [|done]. exfalso.
    apply without_auto in Hauto as ->. apply (loop_explicit _ _ _ Hloop). rewrite Htr. set_solver. }
  destruct (with_auto_split _ _ _ _ _ _ Hauto Htr) as (pre0 & post0 & -> & -> & Hp).
  by eapply loop_settled; [|done| |apply Hp|].
Qed.

Lemma post_loop_request fuel a q rec es : post_loop fuel a q rec = Some es -> forall r n q' st, Posted r n q' st ∈ es -> q' = q.
Proof.
  assert (forall r n q' st, Posted r n q' st ∉ dead_letter rec) as Hno
    by (unfold dead_letter; destruct (dead_letter_topic sub); set_solver).
  revert a es. induction fuel as [|fuel IH]; intros a es; [done|]. cbn [post_loop]. intros Hl r n q' st Hin. revert Hl.
  case_match; [intros [= <-]; set_solver|]. case_match; [intros [= <-]; set_solver|].
  destruct (post_loop fuel (a + 1) q rec) as [es'|] eqn:He; [|done]. intros [= <-].
  apply elem_of_cons in Hin as [[= -> _ ->]|[?|Hin]%elem_of_cons]; [done..|]. by eapply IH.
Qed.

Lemma deliver_one_request rec es r n q st :
  deliver_one rec = Some es -> Posted r n q st ∈ es -> exists d, render_delivery sub (event_id rec) rec = Ok d /\ q = request_of d rec.
Proof.
  unfold deliver_one. destruct (filtered_out rec); [intros [= <-] ?%not_elem_of_nil; done|].
  destruct (render_delivery _ _ _) as [d|].
  - intros Hl Hin. exists d. split; [done|]. by eapply post_loop_request.
  - intros [= <-]. unfold dead_letter. destruct (dead_letter_topic sub); set_solver.
Qed.

Lemma batch_request batch tr r n q st :
  0 < max_attempts sub -> deliver_batch batch tr -> Posted r n q st ∈ tr ->
  r ∈ batch /\ exists d, render_delivery sub (event_id r) r = Ok d /\ q = request_of d r.
Proof.
  intros Hmax (tasks & Hall & Hi) Hin. apply (interleave_elem _ _ _ Hi) in Hin as (es & Hes & Hin).
  apply list_elem_of_lookup in Hes as [i Hes]. destruct (batch_task _ _ _ _ Hall Hes) as (k & recs & ess & _ & Hk & Hess & ->).
  destruct (batch_task_records batch recs k ess _ Hmax Hk Hess Hin) as [Hr _]. split; [done|].
  apply list_elem_of_In, List.in_concat in Hin as (x & Hx%list_elem_of_In & Hin%list_elem_of_In).
  apply list_elem_of_lookup in Hx as [m Hm]. destruct (Forall2_lookup_r _ _ _ _ _ Hess Hm) as (r' & _ & Hd).
  assert (r = r') as <- by (destruct (deliver_one_settled r' x Hmax Hd) as [Hrec _]; exact (Hrec _ Hin)).
  by eapply deliver_one_request.
Qed.
End Deliver.

(** ** What a subscription guarantees *)

Section Guarantees.
  Context `{Units} `{Crypto} `{JsonPath} `{CeLib} `{HttpLib} `{RecordCodec} `{UrlLib}.

Lemma compile_subscription_Ok allowed s sub :
  compile_subscription allowed s = Ok sub ->
  0 < max_attempts sub /\ negb (time_gt (base_backoff sub) (max_backoff sub)) = true
  /\ time_gt (base_backoff sub) (from_secs 0) = true
  /\ exists scheme host, url_parse (target_url sub) = Some (scheme, Some host) /\ target_allowed allowed scheme host = true.
Proof.
  unfold compile_subscription. intros Hc. res_inv.
  repeat match goal with Hr : require _ _ = Ok _ |- _ => apply require_Ok in Hr end.
  cbn [max_attempts base_backoff max_backoff target_url].
  unfold PositiveU32_new, refined_new, positive_time in *. destruct (0 <? s_max_attempts s) eqn:Ha; [|done].
  destruct (time_gt (s_base_backoff s) (from_secs 0)) eqn:Hb; [|done]. destruct (url_parse (s_target_url s)) as [[scheme [host|]]|] eqn:Hu;
    simpl in *; res_inv; simpl in *; res_inv. bool_prop. split_and!; [done|by apply negb_true_iff|done|]. by do 2 eexists.
Qed.

Lemma compile_outbound_elem allowed subs cs sub :
  compile_outbound allowed subs = Ok cs -> sub ∈ cs -> exists s, s ∈ subs /\ compile_subscription allowed s = Ok sub.
Proof.
  intros Hc Hin. destruct (try_map_elem _ _ _ _ Hc Hin) as (s & Hs & Heq). exists s. split; [done|].
  by destruct (compile_subscription allowed s); simplify_eq/=.
Qed.

Section Subscription.
  Context (allowed : list AllowedTarget) (subs : list OutboundSubscription) (cs : list CompiledSubscription).
  Context (Hcompiled : compile_outbound allowed subs = Ok cs).
  Context (sub : CompiledSubscription) (w : World).

Lemma compiled_attempts : sub ∈ cs -> 0 < max_attempts sub.
Proof. intros Hin. destruct (compile_outbound_elem _ _ _ _ Hcompiled Hin) as (s & _ & Hs). by apply compile_subscription_Ok in Hs as [Hmax _]. Qed.

(** C5.  Outbound delivery is at least once as far as the loop commits: when it
    does, and whenever the consumer of a compiled subscription commits if the
    client does not commit on its own, every record polled before was rejected by
    the filter, accepted by the target with a 2xx, handed to the dead-letter
    topic, or dropped where none is configured; and a batch can always be
    delivered to its end. *)
Theorem outbound_at_least_once auto polls tr r :
  sub ∈ cs -> run_subscription sub w auto polls tr r ->
  (forall pre ev post batch rec, tr = pre ++ ev :: post -> is_commit ev = true -> auto = false \/ ev <> AutoCommitted ->
     Polled batch ∈ pre -> rec ∈ batch -> settled sub w rec (deliveries pre))
  /\ forall batch, exists es, deliver_batch sub w batch es.
Proof.
  intros Hin%compiled_attempts Hrun. split.
  - intros pre ev post batch rec Htr Hev Hauto Hp Hrec. by eapply run_settled.
  - intros batch. by apply deliver_batch_exists.
Qed.

(** Within a partition records are delivered in the order of their offsets,
    whatever the interleaving of the partitions: nothing is sent for a record
    after something was sent for a later one. *)
Theorem outbound_in_order batch tr :
  sub ∈ cs -> deliver_batch sub w batch tr ->
  StronglySorted (fun e e' => part_of (event_record e) = part_of (event_record e') ->
                    cr_offset (event_record e) <= cr_offset (event_record e')) tr.
Proof.
  intros Hin%compiled_attempts (tasks & Hall & Hi).
  apply (interleave_sorted (fun e => part_of (event_record e)) (fun e e' => offset_le (event_record e) (event_record e')) tasks); [done| |].
  - intros i j ts ts' x y Hi' Hj Hne Hx Hy Heq.
    destruct (batch_task _ _ _ _ _ _ Hall Hi') as (k & recs & ess & Hk & Hk' & Hess & ->).
    destruct (batch_task _ _ _ _ _ _ Hall Hj) as (k' & recs' & ess' & Hl & Hl' & Hess' & ->).
    apply (batch_task_records sub w batch recs k) in Hx as [_ Hx]; [|done..].
    apply (batch_task_records sub w batch recs' k') in Hy as [_ Hy]; [|done..].
    apply Hne. apply (NoDup_lookup (map_to_list (by_part batch)).*1 i j k); [apply NoDup_fst_map_to_list| |];
      rewrite list_lookup_fmap, ?Hk, ?Hl; simpl; congruence.
  - apply Forall_forall. intros es Hes. apply list_elem_of_lookup in Hes as [i Hes].
    destruct (batch_task _ _ _ _ _ _ Hall Hes) as (k & recs & ess & _ & _ & Hess & ->).
    eapply concat_sorted; [done..|apply sort_by_offset_sorted].
Qed.

(** A record that is to be sent is tried until the first 2xx, at most
    [max_attempts] times, with attempts numbered from one; it is dead-lettered
    exactly when all of them failed, and always settled. *)
Theorem outbound_retries rec d :
  sub ∈ cs -> filtered_out sub rec = false -> render_delivery sub (event_id rec) rec = Ok d ->
  exists es k, deliver_one sub w rec = Some es /\ 1 <= k <= max_attempts sub /\ attempts_of es = seqZ 1 k
    /\ (forall j, 1 <= j < k -> success (w_http w rec j) = false)
    /\ if success (w_http w rec k) then letters_of es = []
       else k = max_attempts sub /\ letters_of es = dead_letter sub w rec.
Proof.
  intros Hin%compiled_attempts Hf Hd. destruct (deliver_one_total sub w rec Hin) as [es Hes]. exists es.
  pose proof Hes as Hl. unfold deliver_one in Hl. rewrite Hf, Hd in Hl.
  apply post_loop_spec in Hl as (_ & k & Hk & Hats & _ & Hfail & Hend); [|done]. exists k. rewrite Z.sub_0_r in Hats.
  split_and!; [done|lia|lia|done| |done]. intros j Hj. apply Hfail. lia.
Qed.

(** Deliveries go to permitted targets only, signed when a secret is
    configured: every request of a batch is for a record of it, at a URL whose
    scheme and host match an entry of the allow-list, and its signature header
    is one that an endpoint configured with the same secret accepts. *)
Theorem outbound_requests batch tr rec n q st :
  sub ∈ cs -> deliver_batch sub w batch tr -> Posted rec n q st ∈ tr ->
  rec ∈ batch
  /\ (exists scheme host a, url_parse (rq_url q) = Some (scheme, Some host) /\ a ∈ allowed
       /\ lower (at_scheme a) = lower scheme /\ lower (at_host a) = lower host)
  /\ forall key, signing_secret sub = Some key ->
       exists v, ("X-Krabka-Signature", as_bytes v) ∈ rq_headers q /\ verify_signature key (rq_body q) v Hex None = true.
Proof.
  intros Hin Hb Hp. destruct (compile_outbound_elem _ _ _ _ Hcompiled Hin) as (s & _ & Hs%compile_subscription_Ok).
  destruct Hs as (Hmax & _ & _ & scheme & host & Hurl & Hallowed).
  apply target_allowed_entry in Hallowed as (a & Ha).
  destruct (batch_request sub w batch tr rec n q st Hmax Hb Hp) as (Hr & d & _ & ->). split_and!; [done|by exists scheme, host, a|].
  intros key Hkey. exists (sign_hmac_hex key (rd_body d)). split.
  - unfold request_of. rewrite Hkey. cbn [rq_headers]. apply elem_of_app. right. apply elem_of_app. right.
    apply elem_of_app. left. by left.
  - unfold verify_signature, sign_hmac_hex. cbn [rq_body]. rewrite as_of_bytes, hex_decode_encode.
    by rewrite !bool_decide_true.
Qed.
End Subscription.
End Guarantees.

(** ** The wait between attempts *)

(** The wait before a retry lies between half of the capped exponential
    delay and the whole of it, and never exceeds the configured maximum,
    whatever the number of the attempt. *)
Theorem backoff_bounds `{TimeArith} attempt base max jitter :
  time_le (from_secs 0) base -> time_le (from_secs 0) max -> 1 <= attempt -> (0 <= jitter <= 1)%Q ->
  let doubled := time_scale base (inject_Z (saturating_pow2 (attempt - 1))) in
  let capped := if time_gt doubled max then max else doubled in
  time_le (time_scale capped (1 # 2)) (backoff_with_jitter attempt base max jitter)
  /\ time_le (backoff_with_jitter attempt base max jitter) capped /\ time_le capped max.
Proof.
  intros Hb Hm Hat Hj doubled capped. pose proof time_le_preorder as Hpre.
  assert (0 <= inject_Z (saturating_pow2 (attempt - 1)))%Q as Hpow.
  { unfold saturating_pow2. change 0%Q with (inject_Z 0). rewrite <- Zle_Qle. pose proof (Z.pow_nonneg 2 (attempt - 1)). unfold u32_max. lia. }
  assert (forall t q, time_le (from_secs 0) t -> (0 <= q)%Q -> time_le (from_secs 0) (time_scale t q)) as Hnn.
  { intros t q Ht Hq. rewrite <- (time_scale_zero t). apply time_scale_mono; [done|]. split; [apply Qle_refl|done]. }
  assert (time_le (from_secs 0) capped /\ time_le capped max) as [Hc Hcm].
  { unfold capped. destruct (time_gt doubled max) eqn:Hg; [by split|]. split; [by apply Hnn|by apply time_gt_false]. }
  assert (time_le (from_secs 0) (time_scale capped (1 # 2))) as Hh by (apply Hnn; [done|discriminate]).
  unfold backoff_with_jitter. fold doubled. fold capped. split_and!; [| |done].
  - rewrite <- (time_add_zero (time_scale capped (1 # 2))) at 1. apply time_add_mono. apply Hnn; [done|apply Hj].
  - rewrite <- (time_halves capped) at 3. apply time_add_mono. rewrite <- (time_scale_one (time_scale capped (1 # 2))) at 2.
    apply time_scale_mono; done.
Qed.

(** ** Concrete subscriptions *)

Module Pushes.
Import Hooks.
#[export] Instance urls : UrlLib :=
  {| url_parse := fun u => (fun h => ("https", Some h)) <$> strip_prefix "https://" u |}.

Definition subscription : OutboundSubscription :=
  {| s_name := "s"; s_group_id := None; s_source_topics := ["t"]; s_target_url := "https://hooks.example.com";
     s_signing_secret := Some "key"; s_dead_letter_topic := Some "dlq"; s_max_attempts := 2;
     s_base_backoff := default_base_backoff; s_max_backoff := default_max_backoff; s_request_timeout := default_request_timeout;
     s_filter := None; s_headers := []; s_content_mode := Envelope; s_decode_to_json := false |}.
Definition allowed : list AllowedTarget := [{| at_scheme := "HTTPS"; at_host := "hooks.example.com" |}].
Definition sub : CompiledSubscription :=
  {| name := "s"; group_id := "__krabka_grpc_wh_s"; source_topics := ["t"]; target_url := "https://hooks.example.com";
     signing_secret := Some (as_bytes "key"); dead_letter_topic := Some "dlq"; max_attempts := 2;
     base_backoff := default_base_backoff; max_backoff := default_max_backoff; request_timeout := default_request_timeout;
     sub_filter := None; sub_headers := []; content_mode := Envelope; decode_to_json := false |}.

Lemma sub_compiled : compile_outbound allowed [subscription] = Ok [sub].
Proof. reflexivity. Qed.

Definition record (p o : Z) : ConsumerRecord :=
  {| cr_topic := "t"; cr_partition := p; cr_offset := o; cr_timestamp := 0; cr_key := None; cr_value := Some (as_bytes "x");
     cr_headers := [] |}.
(** The target fails the first attempt of each record, and every one of offset
    6; the producer refuses dead letters. *)
Definition world : World :=
  {| w_http := fun r n => if (cr_offset r =? 6) || (n =? 1) then Some 500 else Some 204;
     w_dlq := fun _ => false; w_now_ms := fun _ => 0 |}.
Definition batch : list ConsumerRecord := [record 0 6; record 1 3; record 0 5].
(** One schedule: the partitions one after the other. *)
Definition tasks : list (list Event) :=
  omap (fun kr => deliver_partition sub world (sort_by_offset kr.2)) (map_to_list (by_part batch)).
Definition events : list Event := concat tasks.

Lemma batch_delivered : deliver_batch sub world batch events.
Proof.
  exists tasks. split; [|apply interleave_concat].
  unfold tasks. induction (map_to_list (by_part batch)) as [|kr l IH]; simpl; [constructor|].
  destruct (deliver_partition_total sub world (sort_by_offset kr.2) ltac:(done)) as [es Hes]. rewrite Hes. by constructor.
Qed.

Definition polls : list PollAnswer := [PolledBatch batch true; PolledBatch [] true; ShutDown].
Definition trace : list RunEvent := Polled batch :: map Delivery events ++ [Committed true].

Lemma polls_run auto : run_subscription sub world auto polls trace (Ok ()).
Proof.
  exists trace. split; [|apply with_auto_none]. apply run_batch; [done|apply batch_delivered|]. apply run_empty, run_shutdown.
Qed.

Lemma outbound_at_least_once_witness :
  settled sub world (record 0 6) events /\ exists es, deliver_batch sub world batch es.
Proof.
  destruct (outbound_at_least_once allowed [subscription] [sub] sub_compiled sub world false polls trace (Ok ())
    ltac:(by left) (polls_run false)) as [Hset Hex].
  split; [|exact (Hex batch)].
  assert (deliveries (Polled batch :: map Delivery events) = events) as Heq.
  { change (deliveries (map Delivery events) = events). rewrite <- (app_nil_r (map Delivery events)), deliveries_batch. apply app_nil_r. }
  rewrite <- Heq. apply (Hset _ (Committed true) [] batch); [reflexivity|reflexivity|by left|by left|by left].
Defined.

Lemma outbound_in_order_witness :
  map (fun e => cr_offset (event_record e)) (List.filter (fun e => bool_decide (part_of (event_record e) = ("t", 0))) events)
  = [5; 5; 5; 6; 6; 6; 6]
  /\ StronglySorted (fun e e' => part_of (event_record e) = part_of (event_record e') ->
                       cr_offset (event_record e) <= cr_offset (event_record e')) events.
Proof.
  split; [vm_compute; reflexivity|].
  apply (outbound_in_order allowed [subscription] [sub] sub_compiled sub world batch events); [by left|apply batch_delivered].
Defined.

Lemma outbound_retries_witness :
  exists es k, deliver_one sub world (record 0 6) = Some es /\ 1 <= k <= max_attempts sub /\ attempts_of es = seqZ 1 k
    /\ (forall j, 1 <= j < k -> success (w_http world (record 0 6) j) = false)
    /\ if success (w_http world (record 0 6) k) then letters_of es = []
       else k = max_attempts sub /\ letters_of es = dead_letter sub world (record 0 6).
Proof.
  eapply (outbound_retries allowed [subscription] [sub] sub_compiled sub world (record 0 6)); [by left|reflexivity|reflexivity].
Defined.

Lemma outbound_requests_witness :
  exists q, Posted (record 1 3) 1 q (Some 500) ∈ events
  /\ record 1 3 ∈ batch
  /\ (exists scheme host a, url_parse (rq_url q) = Some (scheme, Some host) /\ a ∈ allowed
       /\ lower (at_scheme a) = lower scheme /\ lower (at_host a) = lower host)
  /\ forall key, signing_secret sub = Some key ->
       exists v, ("X-Krabka-Signature", as_bytes v) ∈ rq_headers q /\ verify_signature key (rq_body q) v Hex None = true.
Proof.
  destruct (render_delivery sub (event_id (record 1 3)) (record 1 3)) as [d|] eqn:Hd; [|discriminate Hd].
  exists (request_of sub world d (record 1 3)).
  assert (Posted (record 1 3) 1 (request_of sub world d (record 1 3)) (Some 500) ∈ events) as Hin.
  { vm_compute in Hd. injection Hd as <-. apply list_elem_of_In. vm_compute. repeat (first [left; reflexivity | right]). }
  split; [exact Hin|].
  apply (outbound_requests allowed [subscription] [sub] sub_compiled sub world batch events _ 1 _ (Some 500));
    [by left|apply batch_delivered|exact Hin].
Defined.

(** C35.  A record can be committed without having been delivered or
    dead-lettered: when the producer refuses the dead letter of an exhausted
    record, the batch is committed all the same, by the loop itself. *)
Theorem dead_letter_failure_loses_record :
  (forall auto, run_subscription sub world auto polls trace (Ok ())) /\ last trace = Some (Committed true)
  /\ Polled batch ∈ trace /\ record 0 6 ∈ batch
  /\ forallb (fun e => negb (match e with
                             | Posted r _ _ st => (cr_offset r =? 6) && success st
                             | DeadLettered r _ accepted => (cr_offset r =? 6) && accepted
                             | _ => false
                             end)) events = true.
Proof. split_and!; [apply polls_run|vm_compute; reflexivity|by left|by left|vm_compute; reflexivity]. Qed.
End Pushes.

(** Times as rational seconds. *)
Module Seconds.
Definition secs (n : Z) : Qc := Q2Qc (inject_Z n).
Definition units : Units :=
  {| Time := Qc; from_secs := secs; minutes := fun n => secs (60 * n); from_millis := fun n => Q2Qc (n # 1000);
     millis_i64 := fun t => (1000 * Qnum t) / Zpos (Qden t); time_finite := fun _ => true;
     time_gt := fun a b => if Qclt_le_dec b a then true else false;
     time_ge := fun a b => if Qclt_le_dec a b then false else true;
     time_eq := fun a b => if Qc_eq_dec a b then true else false;
     ByteSize := Z; mebibytes := fun n => 1048576 * n; size_gt := Z.gtb; zero_bytes := 0; bytes_usize := id;
     Ratio := Z; percent := id; ratio_in_unit := fun r => (0 <=? r) && (r <=? 100); ratio_to_string := fun r => "0." +:+ pretty r |}.

Definition arith : TimeArith (H:=units).
Proof.
  refine {| time_le := (Qcle : Time (Units:=units) -> Time (Units:=units) -> Prop);
            time_scale := (fun t q => t * Q2Qc q)%Qc : Time (Units:=units) -> Q -> Time (Units:=units);
            time_add := Qcplus : Time (Units:=units) -> Time (Units:=units) -> Time (Units:=units) |}.
  - intros a b. simpl. by destruct (Qclt_le_dec b a).
  - intros a b. simpl. destruct (Qclt_le_dec b a); [|done]. intros _. by apply Qclt_le_weak.
  - intros t q r Ht [Hq Hr]. simpl in *. rewrite !(Qcmult_comm t). apply Qcmult_le_compat_r; [|exact Ht].
    unfold Qcle. simpl. by rewrite !Qred_correct.
  - intros t. apply Qcmult_1_r.
  - intros t. apply Qc_is_canon. simpl. rewrite !Qred_correct. apply Qmult_0_r.
  - intros a b c Hbc. apply Qcplus_le_compat; [apply Qcle_refl|exact Hbc].
  - intros t. apply Qc_is_canon. simpl. rewrite !Qred_correct. apply Qplus_0_r.
  - intros t. apply Qc_is_canon. simpl. rewrite !Qred_correct. ring.
Defined.

Lemma backoff_bounds_witness :
  time_le (TimeArith:=arith) (backoff_with_jitter (H0:=arith) 7 (Q2Qc (1 # 2)) (secs 30) (3 # 4)) (secs 30).
Proof.
  destruct (backoff_bounds (H0:=arith) 7 (Q2Qc (1 # 2)) (secs 30) (3 # 4)) as (_ & Hle & Hmax);
    [discriminate|discriminate|lia|split; discriminate|].
  exact (Qcle_trans _ _ _ Hle Hmax).
Defined.
End Seconds.
