(* ===== verification/Access.v ===== *)
(** * Who calls, and what it may do (authz, serve.rs, bin/gateway.rs)

    The identity of a request: the address and the client certificate of its
    connection ([serve.rs]), overridden by a validated bearer token
    ([authz/auth_layer.rs]).  The ACL snapshot ([authz/mod.rs]) that decides what
    the identity may do, as the refresh task leaves it, and the settings that
    choose the authorizer ([bin/gateway.rs]).  [acl_authorizer] is the
    implementation of [Authorizer] the handlers run with. *)

From S2P Require Import Prelude.
From S2P Require Import RustStr.
From S2P Require Import RustNum.
From S2P Require Import Types.
From S2P Require Import Dedup.
From S2P Require Import Produce.
From S2P Require Import Handlers.
From S2P Require Import CloudEvents.
From S2P Require Import Webhook.

(** ** The ACL entries of the admin client and of the metadata *)

Module Admin.
Inductive ResourceType := Topic | Group | Cluster | TransactionalId | DelegationToken | User.
Inductive PatternType := Literal | Prefixed | Match.
Inductive AclOperation :=
| All | Read | Write | Create | Delete | Alter | Describe | ClusterAction | DescribeConfigs | AlterConfigs
| IdempotentWrite | TwoPhaseCommit | CreateTokens | DescribeTokens.
Inductive PermissionType := Allow | Deny.
Record AclEntry := {
  resource_type : ResourceType;
  resource_name : string;
  pattern_type : PatternType;
  principal : string;
  host : string;
  operation : AclOperation;
  permission_type : PermissionType;
}.
End Admin.

Module Metadata.
Inductive ResourceType := Topic | Group | Cluster | TransactionalId | DelegationToken | User.
Inductive PatternType := Literal | Prefixed.
Inductive AclOperation :=
| All | Read | Write | Create | Delete | Alter | Describe | ClusterAction | DescribeConfigs | AlterConfigs
| IdempotentWrite | TwoPhaseCommit | CreateTokens | DescribeTokens.
Inductive PermissionType := Allow | Deny.
Record AclEntry := {
  resource_type : ResourceType;
  resource_name : string;
  pattern_type : PatternType;
  principal : string;
  host : string;
  operation : AclOperation;
  permission_type : PermissionType;
}.
End Metadata.

Definition resource_type_from_admin (r : Admin.ResourceType) : Metadata.ResourceType :=
  match r with
  | Admin.Topic => Metadata.Topic
  | Admin.Group => Metadata.Group
  | Admin.Cluster => Metadata.Cluster
  | Admin.TransactionalId => Metadata.TransactionalId
  | Admin.DelegationToken => Metadata.DelegationToken
  | Admin.User => Metadata.User
  end.

Definition pattern_type_from_admin (p : Admin.PatternType) : result GatewayError Metadata.PatternType :=
  match p with
  | Admin.Literal => Ok Metadata.Literal
  | Admin.Prefixed => Ok Metadata.Prefixed
  | Admin.Match => Err (Other "DescribeAcls returned a filter-only Match pattern")
  end.

Definition operation_from_admin (o : Admin.AclOperation) : Metadata.AclOperation :=
  match o with
  | Admin.All => Metadata.All
  | Admin.Read => Metadata.Read
  | Admin.Write => Metadata.Write
  | Admin.Create => Metadata.Create
  | Admin.Delete => Metadata.Delete
  | Admin.Alter => Metadata.Alter
  | Admin.Describe => Metadata.Describe
  | Admin.ClusterAction => Metadata.ClusterAction
  | Admin.DescribeConfigs => Metadata.DescribeConfigs
  | Admin.AlterConfigs => Metadata.AlterConfigs
  | Admin.IdempotentWrite => Metadata.IdempotentWrite
  | Admin.TwoPhaseCommit => Metadata.TwoPhaseCommit
  | Admin.CreateTokens => Metadata.CreateTokens
  | Admin.DescribeTokens => Metadata.DescribeTokens
  end.

Definition permission_from_admin (p : Admin.PermissionType) : Metadata.PermissionType :=
  match p with Admin.Allow => Metadata.Allow | Admin.Deny => Metadata.Deny end.

Definition acl_entry_from_admin (e : Admin.AclEntry) : result GatewayError Metadata.AclEntry :=
  pattern ← pattern_type_from_admin (Admin.pattern_type e);
  Ok {| Metadata.resource_type := resource_type_from_admin (Admin.resource_type e);
        Metadata.resource_name := Admin.resource_name e;
        Metadata.pattern_type := pattern;
        Metadata.principal := Admin.principal e;
        Metadata.host := Admin.host e;
        Metadata.operation := operation_from_admin (Admin.operation e);
        Metadata.permission_type := permission_from_admin (Admin.permission_type e) |}.

(** ** The authorizer and its snapshot *)

(** [SimpleAclAuthorizer::authorize]: super users, snapshot, request. *)
Class AclLib := {
  simple_authorize : list string -> list Metadata.AclEntry -> Principal -> string -> ResourceType -> string -> AclOperation -> bool;
}.

Inductive AuthorizerKind := AllowAll | Simple (super_users : list string).

Record GatewayAuthz := { authorizer : AuthorizerKind; acl_cache : list Metadata.AclEntry }.
Definition GatewayAuthz_new (a : AuthorizerKind) : GatewayAuthz := {| authorizer := a; acl_cache := [] |}.

(** [authorize_resource]: [true] is [Allow]. *)
Definition authorize_resource `{AclLib} (az : GatewayAuthz) (p : Principal) (host : string) (rt : ResourceType) (name : string)
    (op : AclOperation) : bool :=
  match authorizer az with
  | AllowAll => true
  | Simple users => simple_authorize users (acl_cache az) p host rt name op
  end.
Definition acl_authorizer `{AclLib} (az : GatewayAuthz) : Authorizer := {| authorize := authorize_resource az |}.

(** What the broker answers to one refresh: connecting, then listing. *)
Record AclAnswer := { admin_connect : result string unit; describe_acls : result string (list Admin.AclEntry) }.

Definition fetch (a : AclAnswer) : result GatewayError (list Metadata.AclEntry) :=
  _ ← map_err (fun e => Other ("acl admin connect: " +:+ e)) (admin_connect a);
  entries ← map_err (fun e => Other ("describe_acls: " +:+ e)) (describe_acls a);
  try_map acl_entry_from_admin entries.

(** One turn of the refresh loop. *)
Definition acl_refresh (az : GatewayAuthz) (a : AclAnswer) : GatewayAuthz :=
  match fetch a with
  | Ok entries => {| authorizer := authorizer az; acl_cache := entries |}
  | Err _ => az
  end.
Definition run_acl_refresh (az : GatewayAuthz) (answers : list AclAnswer) : GatewayAuthz := foldl acl_refresh az answers.

(** ** bin/gateway.rs: the authorizer that is configured *)

Record AuthzSettings (Time : Type) := { super_users : list string; acl_refresh_every : Time }.
Arguments super_users {Time}.
Arguments acl_refresh_every {Time}.

Definition super_user_names (arg : string) : list string :=
  map of_bytes (List.filter (fun s => negb (bool_decide (s = []))) (map trim (split_char ","%char (as_bytes arg)))).

Definition build_authz_settings {Time} (authz users : string) (refresh : Time) : result string (option (AuthzSettings Time)) :=
  if bool_decide (authz = "off") then Ok None
  else if bool_decide (authz = "simple") then Ok (Some {| super_users := super_user_names users; acl_refresh_every := refresh |})
  else Err ("invalid --authz: " +:+ authz).

(** The state after [answers]; without settings no refresh task runs. *)
Definition build_gateway_authz {Time} (settings : option (AuthzSettings Time)) (answers : list AclAnswer) : GatewayAuthz :=
  match settings with
  | Some a => run_acl_refresh (GatewayAuthz_new (Simple (super_users a))) answers
  | None => GatewayAuthz_new AllowAll
  end.

(** ** serve.rs and auth_layer.rs: the identity of a request *)

(** [extract_principal_from_cert]. *)
Class CertLib := { extract_principal_from_cert : Bytes -> option string }.

Inductive Connection :=
| PlaintextConn (peer : string)
| TlsConn (peer : string) (certs : option (list Bytes)).
Definition conn_peer (c : Connection) : string := match c with PlaintextConn p => p | TlsConn p _ => p end.

Definition peer_principal `{CertLib} (certs : option (list Bytes)) : option Principal :=
  cert ← certs ≫= head;
  name ← extract_principal_from_cert cert;
  Some {| pname := name; auth_method := MTls; groups := [] |}.

(** The request extensions the gateway reads. *)
Record Extensions := { ext_peer : option string; ext_principal : option Principal }.

Definition connection_extensions `{CertLib} (c : Connection) : Extensions :=
  match c with
  | PlaintextConn peer => {| ext_peer := Some peer; ext_principal := None |}
  | TlsConn peer certs => {| ext_peer := Some peer; ext_principal := peer_principal certs |}
  end.

Definition bearer_token `{HttpLib} (hs : HeaderMap) : option string :=
  value ← header_get hs "authorization";
  s ← to_str value;
  token ← strip_prefix "Bearer " s;
  if bool_decide (token = EmptyString) then None else Some token.

(** [OAuthBearerValidator::validate] of a token at a time. *)
Definition Validator := string -> Z -> result string Principal.

Definition resolve_principal `{HttpLib} (validator : option Validator) (now : Z) (hs : HeaderMap) (ext : Extensions) : Extensions :=
  match validator, bearer_token hs with
  | Some validate, Some token =>
      match validate token now with
      | Ok p => {| ext_peer := ext_peer ext; ext_principal := Some p |}
      | Err _ => ext
      end
  | _, _ => ext
  end.

Definition peer_or_default (ext : Extensions) : string := default unknown_host (ext_peer ext).

(** ** The snapshot *)

#[export] Instance resource_type_from_admin_inj : Inj (=) (=) resource_type_from_admin.
Proof. by intros [] []. Qed.
#[export] Instance operation_from_admin_inj : Inj (=) (=) operation_from_admin.
Proof. by intros [] []. Qed.
#[export] Instance permission_from_admin_inj : Inj (=) (=) permission_from_admin.
Proof. by intros [] []. Qed.
Lemma pattern_type_from_admin_inj p p' m : pattern_type_from_admin p = Ok m -> pattern_type_from_admin p' = Ok m -> p = p'.
Proof. destruct p, p'; simpl; congruence. Qed.

Lemma acl_entry_from_admin_inj e e' m : acl_entry_from_admin e = Ok m -> acl_entry_from_admin e' = Ok m -> e = e'.
Proof.
  unfold acl_entry_from_admin. intros (p & Hp & [= <-])%bind_Ok (p' & Hp' & [=])%bind_Ok. subst p'.
  destruct e, e'; simpl in *. simplify_eq. f_equal. by eapply pattern_type_from_admin_inj.
Qed.

Lemma acl_entry_refused e : (exists err, acl_entry_from_admin e = Err err) <-> Admin.pattern_type e = Admin.Match.
Proof. unfold acl_entry_from_admin. destruct (Admin.pattern_type e); simpl; split; try (intros (? & [=])); done || eauto. Qed.

(** A refresh that leaves no usable listing: the broker did not answer, or
    listed an entry that is a filter and not a rule. *)
Definition unusable (a : AclAnswer) : Prop :=
  admin_connect a <> Ok () \/ forall es, describe_acls a = Ok es -> exists e, e ∈ es /\ Admin.pattern_type e = Admin.Match.

Lemma fetch_Err a err : fetch a = Err err -> unusable a.
Proof.
  unfold fetch, unusable. destruct (admin_connect a) as [[]|]; [|by left]. intros Hf. right. intros es Hes.
  rewrite Hes in Hf. apply try_map_Err in Hf as (e & He & Hm). exists e. split; [done|]. apply acl_entry_refused. eauto.
Qed.

Lemma run_acl_refresh_snoc az answers a : run_acl_refresh az (answers ++ [a]) = acl_refresh (run_acl_refresh az answers) a.
Proof. unfold run_acl_refresh. by rewrite foldl_app. Qed.

Lemma run_acl_refresh_authorizer az answers : authorizer (run_acl_refresh az answers) = authorizer az.
Proof.
  induction answers as [|a answers IH] using rev_ind; [done|]. rewrite run_acl_refresh_snoc. unfold acl_refresh. by case_match.
Qed.

(** The listing in force: that of the last usable answer, if there was one. *)
Lemma snapshot_in_force az answers :
  exists pre post, answers = pre ++ post /\ Forall unusable post
    /\ ((pre = [] /\ acl_cache (run_acl_refresh az answers) = acl_cache az)
        \/ exists pre' a es, pre = pre' ++ [a] /\ admin_connect a = Ok () /\ describe_acls a = Ok es
             /\ Forall2 (fun e m => acl_entry_from_admin e = Ok m) es (acl_cache (run_acl_refresh az answers))).
Proof.
  induction answers as [|a answers IH] using rev_ind; [by exists [], []; split_and!; [..|left]|].
  rewrite run_acl_refresh_snoc. unfold acl_refresh. destruct (fetch a) as [ms|e] eqn:Hf; simpl.
  - exists (answers ++ [a]), []. rewrite app_nil_r. split_and!; [done..|]. right.
    unfold fetch in Hf. destruct (admin_connect a) as [[]|] eqn:Hc; [|done]. simpl in Hf.
    destruct (describe_acls a) as [es|] eqn:Hd; [|done]. simpl in Hf. exists answers, a, es. split_and!; [done..|by apply try_map_Ok].
  - destruct IH as (pre & post & -> & Hpost & Hc). exists pre, (post ++ [a]). rewrite app_assoc. split_and!; [done| |done].
    apply Forall_app. split; [done|]. apply Forall_singleton. by eapply fetch_Err.
Qed.

(** The ACLs in force are the broker's: with authorization configured, a
    decision is the ACL authorizer's over the whole of the last listing the
    broker gave without a filter-only pattern, entry by entry, or over no entries
    before the first; the answers since were all unusable.  Entries are told
    apart as the broker's are.  Without authorization everything is allowed. *)
Theorem acl_decisions `{AclLib} {Time} (settings : option (AuthzSettings Time)) answers p host rt name op :
  match settings with
  | None => authorize_resource (build_gateway_authz settings answers) p host rt name op = true
  | Some a =>
      exists pre post snapshot, answers = pre ++ post /\ Forall unusable post
        /\ ((pre = [] /\ snapshot = [])
            \/ exists pre' last es, pre = pre' ++ [last] /\ admin_connect last = Ok () /\ describe_acls last = Ok es
                 /\ Forall2 (fun e m => acl_entry_from_admin e = Ok m) es snapshot
                 /\ forall e, e ∈ es -> Admin.pattern_type e <> Admin.Match)
        /\ authorize_resource (build_gateway_authz settings answers) p host rt name op
           = simple_authorize (super_users a) snapshot p host rt name op
  end
  /\ forall e e' m, acl_entry_from_admin e = Ok m -> acl_entry_from_admin e' = Ok m -> e = e'.
Proof.
  split; [|apply acl_entry_from_admin_inj]. destruct settings as [a|]; [|done]. simpl.
  set (az := GatewayAuthz_new _). destruct (snapshot_in_force az answers) as (pre & post & -> & Hpost & Hcase).
  exists pre, post, (acl_cache (run_acl_refresh az (pre ++ post))). split_and!; [done..| |].
  - destruct Hcase as [[-> ->]|(pre' & last & es & -> & Hc & Hd & Hes)]; [by left|right].
    exists pre', last, es. split_and!; [done..|]. intros e He Hm. apply acl_entry_refused in Hm as (err & Hm).
    apply list_elem_of_lookup in He as [i He]. destruct (Forall2_lookup_l _ _ _ _ _ Hes He) as (m & _ & Hm'). congruence.
  - unfold authorize_resource. by rewrite run_acl_refresh_authorizer.
Qed.

(** ** What a request can do *)

Section Requests.
  Context `{CertLib} `{HttpLib}.

(** The identities a request can have. *)
Definition vouched (c : Connection) (validator : option Validator) (now : Z) (hs : HeaderMap) (p : Principal) : Prop :=
  (exists validate token, validator = Some validate /\ token <> EmptyString
     /\ header_get hs "authorization" = Some (as_bytes ("Bearer " +:+ token)) /\ validate token now = Ok p)
  \/ (exists peer cert certs, c = TlsConn peer (Some (cert :: certs))
        /\ extract_principal_from_cert cert = Some (pname p) /\ auth_method p = MTls /\ groups p = [])
  \/ p = anonymous_principal.

Lemma bearer_token_Some hs token :
  bearer_token hs = Some token -> token <> EmptyString /\ header_get hs "authorization" = Some (as_bytes ("Bearer " +:+ token)).
Proof.
  unfold bearer_token. intros. res_inv. case_bool_decide; [done|]. res_inv.
  rename select (strip_prefix _ _ = _) into Hp. apply strip_prefix_Some in Hp as ->.
  rename select (to_str _ = _) into Hs. apply to_str_bytes in Hs. subst. done.
Qed.

Lemma resolve_vouched c validator now hs :
  vouched c validator now hs (default anonymous_principal (ext_principal (resolve_principal validator now hs (connection_extensions c)))).
Proof.
  assert (vouched c validator now hs (default anonymous_principal (ext_principal (connection_extensions c)))) as Hc.
  { destruct c as [peer|peer [[|cert certs]|]]; simpl; try by do 2 right. unfold peer_principal. simpl.
    destruct (extract_principal_from_cert cert) as [n|] eqn:Hn; simpl; [|by do 2 right]. right. left. by exists peer, cert, certs. }
  unfold resolve_principal. destruct validator as [validate|]; [|done]. destruct (bearer_token hs) as [token|] eqn:Ht; [|done].
  destruct (validate token now) as [p|] eqn:Hv; [|done]. simpl. left. exists validate, token.
  by apply bearer_token_Some in Ht as [? ?].
Qed.

Lemma resolve_peer c validator now hs :
  ext_peer (resolve_principal validator now hs (connection_extensions c)) = Some (conn_peer c).
Proof.
  unfold resolve_principal. destruct validator as [v|], (bearer_token hs) as [t|]; try by destruct c.
  destruct (v t now); by destruct c.
Qed.
End Requests.

(** [Send] as the router serves it: the identity is resolved before the handler.
    [authorize_resource] loads the ACL snapshot at every record; [az] stands for
    all of these, of a request during which no refresh replaces the snapshot. *)
Definition serve_send `{RecordCodec} `{AclLib} `{ClientDisplay} `{CertLib} `{HttpLib} (az : GatewayAuthz) (env : SendEnv)
    (c : Connection) (validator : option Validator) (now : Z) (hs : HeaderMap) (acks : Z) (records : list PbRecord)
    : result ConnectError (list RecordResult * list effect) :=
  let ext := resolve_principal validator now hs (connection_extensions c) in
  send (H0:=acl_authorizer az) env (ext_principal ext) (ext_peer ext) acks records.

Lemma acting_elem `{RecordCodec} `{Authorizer} env eff host a records i :
  i ∈ acting env eff host a records -> exists r, records !! i = Some r /\ allowed eff host (to_gateway_record r) = true.
Proof.
  unfold acting. intros (o & Ho & Hi)%list_elem_of_omap. apply list_elem_of_lookup in Ho as [j Hj].
  rewrite list_lookup_imap in Hj. destruct (records !! j) as [r|] eqn:Hr; [|done]. simpl in *. injection Hj as <-.
  destruct (acts env eff host a j r) eqn:Ha; [|done]. injection Hi as <-. exists r. split; [done|].
  unfold acts in Ha. by apply andb_true_iff in Ha as [Ha _].
Qed.

(** C8.  Nothing is produced without authorization: when a [Send] request acts on
    a record, the ACLs in force during the request grant [Write] on its topic, at the address of the
    connection, to one principal for the whole request: that of a bearer token
    the validator accepted, or of the certificate of the connection, or
    [ANONYMOUS]. *)
Theorem sends_are_authorized `{RecordCodec} `{AclLib} `{ClientDisplay} `{CertLib} `{HttpLib} az env c validator now hs acks records results trace :
  serve_send az env c validator now hs acks records = Ok (results, trace) ->
  exists p, vouched c validator now hs p
    /\ forall i, i ∈ omap effect_index trace -> exists r, records !! i = Some r
         /\ authorize_resource az p (conn_peer c) TopicResource (pb_topic r) Write = true.
Proof.
  unfold serve_send. intros Hs. eexists. split; [apply resolve_vouched|]. intros i Hi.
  destruct (producer_acks_from_pb acks) as [a|] eqn:Ha; [|unfold send in Hs; by rewrite Ha in Hs].
  destruct (send_unfold (H0:=acl_authorizer az) env (ext_principal (resolve_principal validator now hs (connection_extensions c)))
    (ext_peer (resolve_principal validator now hs (connection_extensions c))) acks a records Ha) as (st & [_ _ _ _ Hord] & Heq).
  rewrite Hs in Heq. injection Heq as _ ->. rewrite omap_app in Hi. simpl in Hi. rewrite app_nil_r, Hord in Hi.
  apply acting_elem in Hi as (r & Hr & Hall). exists r. split; [done|]. unfold allowed, effective, effective_host in Hall.
  rewrite resolve_peer in Hall. simpl in Hall. by destruct r as [? ? [[]|]].
Qed.

(** ** A request over a client certificate *)

Module Callers.
Definition grants (m : Metadata.AclEntry) (p : Principal) (name : string) : bool :=
  bool_decide (Metadata.principal m = "User:" +:+ pname p) && bool_decide (Metadata.resource_name m = name)
  && match Metadata.permission_type m with Metadata.Allow => true | Metadata.Deny => false end.
Definition acls : AclLib :=
  {| simple_authorize := fun users snapshot p _ _ name _ =>
       existsb (fun u => bool_decide (u = pname p)) users || existsb (fun m => grants m p name) snapshot |}.
Definition certs : CertLib := {| extract_principal_from_cert := fun b => Some (of_bytes b) |}.

Definition entry (pattern : Admin.PatternType) (name : string) : Admin.AclEntry :=
  {| Admin.resource_type := Admin.Topic; Admin.resource_name := name; Admin.pattern_type := pattern;
     Admin.principal := "User:alice"; Admin.host := "*"; Admin.operation := Admin.Write; Admin.permission_type := Admin.Allow |}.

(** The second listing is refused as a whole. *)
Definition answers : list AclAnswer :=
  [{| admin_connect := Ok (); describe_acls := Ok [entry Admin.Literal "a"] |};
   {| admin_connect := Ok (); describe_acls := Ok [entry Admin.Literal "c"; entry Admin.Match "secret"] |}].
Definition settings : option (AuthzSettings Z) := Some {| super_users := super_user_names " root, ,ops"; acl_refresh_every := 30 |}.
Definition az : GatewayAuthz := build_gateway_authz settings answers.
Definition connection : Connection := TlsConn "10.0.0.7:4411" (Some [as_bytes "alice"]).
Definition validator : option Validator := Some (fun token _ => if bool_decide (token = "root-token") then Ok bob else Err "expired").

Definition served : result ConnectError (list RecordResult * list effect) :=
  serve_send (H:=RawCodec) (H0:=acls) (H1:=plain_display) (H2:=certs) (H3:=sample_http) az sample_env connection validator 0
    [("authorization", as_bytes "Bearer stale")] 0 sample_batch.

Lemma sends_are_authorized_witness :
  exists results trace, served = Ok (results, trace) /\ 0%nat ∈ omap effect_index trace
    /\ exists p, vouched (H:=certs) connection validator 0 [("authorization", as_bytes "Bearer stale")] p
         /\ forall i, i ∈ omap effect_index trace -> exists r, sample_batch !! i = Some r
              /\ authorize_resource (H:=acls) az p (conn_peer connection) TopicResource (pb_topic r) Write = true.
Proof.
  destruct served as [[results trace]|e] eqn:Hs; [|vm_compute in Hs; discriminate].
  exists results, trace. split; [done|]. split.
  - vm_compute in Hs. injection Hs as _ <-. apply (bool_decide_unpack _). vm_compute. exact I.
  - exact (sends_are_authorized (H:=RawCodec) (H0:=acls) (H1:=plain_display) (H2:=certs) (H3:=sample_http)
      az sample_env connection validator 0 _ 0 sample_batch results trace Hs).
Defined.
End Callers.
