(* ===== verification/Startup.v ===== *)
(** * Start-up of the process (bin/gateway.rs, config.rs)

    The command line as its value parsers leave it, the configuration [main]
    builds from it, and the parts that are started from the configuration with
    an assertion on it.  Reading and decoding a TOML file is a library's. *)

From stdpp Require Import pretty.
From S2P Require Import Prelude.
From S2P Require Import RustStr.
From S2P Require Import RustNum.
From S2P Require Import Types.
From S2P Require Import Dedup.
From S2P Require Import Settings.
From S2P Require Import CloudEvents.
From S2P Require Import Webhook.
From S2P Require Import Outbound.
From S2P Require Import Access.

(** [krabka_units::parse], and the two bounded values of the client library:
    what a value parser accepts satisfies its name. *)
Class Quantities `{Units} := {
  parse_positive_time : string -> option Time;
  parse_non_negative_time : string -> option Time;
  parse_positive_byte_size : string -> option ByteSize;
  parse_unit_ratio : string -> option Ratio;
  (** [ConnectionDispatchQueueCapacity::new] with [get], [ClientFrameMax::try_from] with [size]. *)
  dispatch_queue_capacity_new : Z -> option Z;
  frame_max_try_from : ByteSize -> option Z;
  frame_max_size : Z -> ByteSize;
  default_capacity : Z;
  default_frame_max : Z;
  positive_time_parsed : forall s t, parse_positive_time s = Some t -> time_gt t (from_secs 0) = true;
  non_negative_time_parsed : forall s t, parse_non_negative_time s = Some t -> time_ge t (from_secs 0) = true;
  positive_byte_size_parsed : forall s b, parse_positive_byte_size s = Some b -> size_gt b zero_bytes = true;
  unit_ratio_parsed : forall s r, parse_unit_ratio s = Some r -> ratio_in_unit r = true;
  capacity_value : forall v c, dispatch_queue_capacity_new v = Some c -> c = v;
  frame_max_value : forall b m, frame_max_try_from b = Some m -> frame_max_try_from (frame_max_size m) = Some m;
  (** Positive literals are positive. *)
  secs_positive : forall n, 0 < n -> time_gt (from_secs n) (from_secs 0) = true;
  minutes_positive : forall n, 0 < n -> time_gt (minutes n) (from_secs 0) = true;
  millis_positive : forall n, 0 < n -> time_gt (from_millis n) (from_secs 0) = true;
  mebibytes_positive : forall n, 0 < n -> size_gt (mebibytes n) zero_bytes = true;
  percent_unit : forall n, 0 <= n <= 100 -> ratio_in_unit (percent n) = true;
}.

(** The flags that are taken as they are. *)
Record Flags := {
  bootstrap_servers : string;
  listen_addr : string;
  client_id : string;
  dedup_topic : string;
  dedup_ownership_group : option string;
  dedup_txn_id_prefix : string;
  advertised_addr : string;
  membership_topic : string;
  tls_cert : option string;
  tls_key : option string;
  tls_client_ca : option string;
  tls_client_auth : string;
  tls_trust_roots : option string;
  authz : string;
  authz_super_users : string;
  bearer : string;
  bearer_principal_claim : string;
  allow_replication_fallback_flag : option bool;
  frame_raw_flag : option bool;
  broker_tls_ca : option string;
  broker_tls_cert : option string;
  broker_tls_key : option string;
  broker_tls_server_name : option string;
  webhooks_config : option string;
  outbound_webhooks_config : option string;
  schema_registry_url : option string;
}.

(** The texts of the flags that have a value parser. *)
Record RawArgs := {
  raw_flags : Flags;
  raw_dispatch_queue_capacity : string;
  raw_frame_max : string;
  raw_dedup_partitions : string;
  raw_dedup_window : string;
  raw_tls_reload_interval : string;
  raw_acl_refresh_interval : string;
  raw_bearer_clock_skew : string;
  raw_replication_factor : option string;
  raw_create_timeout : option string;
  raw_segment : option string;
  raw_dirty_ratio : option string;
  raw_poll_timeout : option string;
  raw_warmup_empty_polls : option string;
  raw_readiness_poll_interval : option string;
  raw_produce_max_body : option string;
  raw_forward_max_body : option string;
  raw_latest_cache_ttl : option string;
}.

Record Args `{Units} := {
  flags : Flags;
  arg_dispatch_queue_capacity : Z;
  arg_frame_max : ByteSize;
  arg_dedup_partitions : Z;
  arg_dedup_window : Time;
  arg_tls_reload_interval : Time;
  arg_acl_refresh_interval : Time;
  arg_bearer_clock_skew : Time;
  arg_replication_factor : option Z;
  arg_create_timeout : option Time;
  arg_segment : option Time;
  arg_dirty_ratio : option Ratio;
  arg_poll_timeout : option Time;
  arg_warmup_empty_polls : option Z;
  arg_readiness_poll_interval : option Time;
  arg_produce_max_body : option ByteSize;
  arg_forward_max_body : option ByteSize;
  arg_latest_cache_ttl : option Time;
}.

(** Why the process stops before it serves. *)
Inductive StartupFault :=
| BadFlag (flag : string)
| PairedFlags (a b : string)
| MissingServerName
| InvalidUnits (message : string)
| TelemetryFault (message : string)
| FileFault (message : string)
| WebhooksFault (e : string * ConfigFault)
| OutboundConfigFault (e : string * OutboundFault)
| Panic.

Record TlsSettings `{Units} := {
  cert_chain_path : string;
  private_key_path : string;
  trust_roots_path : option string;
  client_ca_path : option string;
  client_auth : string;
  reload_interval : Time;
}.

(** The mTLS [ClientSecurity] towards the broker. *)
Record BrokerSecurity := {
  bs_server_name : string;
  bs_trust_store : option string;
  bs_certificate_chain : string;
  bs_private_key : string;
}.

Record BearerSettings `{Units} := { principal_claim_name : string; allowable_clock_skew : Time }.

(** [krabka_telemetry]: its settings from the process's environment, given the
    service's name, version and instance, and the start of its exporters. *)
Class Telemetry := {
  OtlpConfig : Type;
  otlp_from_env : string -> string -> string -> result string OtlpConfig;
  telemetry_init : OtlpConfig -> string -> string -> string -> result string unit;
}.

(** The TOML files: their entries, or why they could not be read. *)
Class ConfigFiles `{Units} := {
  read_webhooks : string -> result string (list WebhookEndpoint);
  read_outbound : string -> result string (list AllowedTarget * list OutboundSubscription);
}.

Record GatewayConfig `{Units} `{JsonPath} := {
  cfg_flags : Flags;
  cfg_dedup_partitions : Z;
  cfg_dedup_window : Time;
  cfg_dedup_ownership_group : string;
  cfg_tls : option TlsSettings;
  cfg_broker_security : option BrokerSecurity;
  cfg_authz : option (AuthzSettings Time);
  cfg_webhooks : gmap string CompiledWebhook;
  cfg_outbound : list CompiledSubscription;
  cfg_runtime : GatewayRuntimeConfig;
}.

Create HintDb startup.

Section Startup.
  Context `{Quantities} `{Crypto} `{JsonPath} `{CeLib} `{HttpLib} `{UrlLib}.

(** ** Value parsers *)

Definition flag {A} (name : string) (o : option A) : result StartupFault A := ok_or (BadFlag name) o.
Definition flag_opt {A} (name : string) (parse : string -> option A) (o : option string) : result StartupFault (option A) :=
  transpose (fun s => flag name (parse s)) o.
Definition from_result {E A} (r : result E A) : option A := match r with Ok a => Some a | Err _ => None end.

Definition parse_client_dispatch_queue_capacity (s : string) : option Z :=
  v ← parse_u64 (as_bytes s); dispatch_queue_capacity_new v.
Definition parse_client_frame_max (s : string) : option ByteSize :=
  b ← parse_positive_byte_size s; frame_max_size <$> frame_max_try_from b.

Definition parse_args (r : RawArgs) : result StartupFault Args :=
  capacity ← flag "client-dispatch-queue-capacity" (parse_client_dispatch_queue_capacity (raw_dispatch_queue_capacity r));
  frame_max ← flag "client-frame-max" (parse_client_frame_max (raw_frame_max r));
  partitions ← flag "dedup-partitions" (from_result (PartitionCount_from_str (raw_dedup_partitions r)));
  window ← flag "dedup-window" (parse_positive_time (raw_dedup_window r));
  reload ← flag "tls-reload-interval" (parse_positive_time (raw_tls_reload_interval r));
  refresh ← flag "acl-refresh-interval" (parse_positive_time (raw_acl_refresh_interval r));
  skew ← flag "bearer-allowable-clock-skew" (parse_non_negative_time (raw_bearer_clock_skew r));
  replication ← flag_opt "internal-topic-replication-factor" (fun s => from_result (PositiveI16_from_str s)) (raw_replication_factor r);
  create_timeout ← flag_opt "internal-topic-create-timeout" parse_positive_time (raw_create_timeout r);
  segment ← flag_opt "internal-topic-segment" parse_positive_time (raw_segment r);
  ratio ← flag_opt "internal-topic-min-cleanable-dirty-ratio" parse_unit_ratio (raw_dirty_ratio r);
  poll ← flag_opt "consumer-poll-timeout" parse_positive_time (raw_poll_timeout r);
  warmup ← flag_opt "ownership-warmup-empty-polls" (fun s => from_result (PositiveU32_from_str s)) (raw_warmup_empty_polls r);
  readiness ← flag_opt "readiness-poll-interval" parse_positive_time (raw_readiness_poll_interval r);
  produce_max ← flag_opt "produce-max-body" parse_positive_byte_size (raw_produce_max_body r);
  forward_max ← flag_opt "forward-max-body" parse_positive_byte_size (raw_forward_max_body r);
  ttl ← flag_opt "schema-registry-latest-cache-ttl" parse_positive_time (raw_latest_cache_ttl r);
  Ok {| flags := raw_flags r; arg_dispatch_queue_capacity := capacity; arg_frame_max := frame_max;
        arg_dedup_partitions := partitions; arg_dedup_window := window; arg_tls_reload_interval := reload;
        arg_acl_refresh_interval := refresh; arg_bearer_clock_skew := skew; arg_replication_factor := replication;
        arg_create_timeout := create_timeout; arg_segment := segment; arg_dirty_ratio := ratio; arg_poll_timeout := poll;
        arg_warmup_empty_polls := warmup; arg_readiness_poll_interval := readiness; arg_produce_max_body := produce_max;
        arg_forward_max_body := forward_max; arg_latest_cache_ttl := ttl |}.

(** ** From the arguments to the configuration *)

Definition resolved_dedup_ownership_group (a : Args) : string :=
  default (client_id (flags a) +:+ "-dedup-owners") (dedup_ownership_group (flags a)).

(** [None] is the panic of [expect]. *)
Definition runtime_config (a : Args) : option GatewayRuntimeConfig :=
  capacity ← dispatch_queue_capacity_new (arg_dispatch_queue_capacity a);
  frame_max ← frame_max_try_from (arg_frame_max a);
  let d := GatewayRuntimeConfig_default default_capacity default_frame_max in
  Some {| client_dispatch_queue_capacity := capacity;
          client_frame_max := frame_max;
          internal_topic_replication_factor := default (internal_topic_replication_factor d) (arg_replication_factor a);
          internal_topic_allow_replication_fallback :=
            default (internal_topic_allow_replication_fallback d) (allow_replication_fallback_flag (flags a));
          internal_topic_create_timeout := default (internal_topic_create_timeout d) (arg_create_timeout a);
          internal_topic_segment := default (internal_topic_segment d) (arg_segment a);
          internal_topic_min_cleanable_dirty_ratio := default (internal_topic_min_cleanable_dirty_ratio d) (arg_dirty_ratio a);
          consumer_poll_timeout := default (consumer_poll_timeout d) (arg_poll_timeout a);
          ownership_warmup_empty_polls := default (ownership_warmup_empty_polls d) (arg_warmup_empty_polls a);
          readiness_poll_interval := default (readiness_poll_interval d) (arg_readiness_poll_interval a);
          produce_max_body := default (produce_max_body d) (arg_produce_max_body a);
          forward_max_body := default (forward_max_body d) (arg_forward_max_body a);
          schema_registry_latest_cache_ttl := default (schema_registry_latest_cache_ttl d) (arg_latest_cache_ttl a);
          schema_registry_frame_raw := default (schema_registry_frame_raw d) (frame_raw_flag (flags a)) |}.

Definition validate_protocol_runtime (a : Args) : result StartupFault GatewayRuntimeConfig :=
  runtime ← ok_or Panic (runtime_config a);
  _ ← map_err InvalidUnits (validate_protocol_units runtime);
  _ ← map_err InvalidUnits (validate_dedup_window (arg_dedup_window a));
  Ok runtime.

Definition tls_settings (a : Args) : result StartupFault (option TlsSettings) :=
  let f := flags a in
  match tls_cert f, tls_key f with
  | Some cert, Some key =>
      if bool_decide (tls_client_auth f ∈ ["disabled"; "optional"; "required"]) then
        Ok (Some {| cert_chain_path := cert; private_key_path := key;
                    trust_roots_path := match tls_trust_roots f with Some r => Some r | None => tls_client_ca f end;
                    client_ca_path := tls_client_ca f; client_auth := tls_client_auth f;
                    reload_interval := arg_tls_reload_interval a |})
      else Err (BadFlag "tls-client-auth")
  | None, None => Ok None
  | _, _ => Err (PairedFlags "tls-cert" "tls-key")
  end.

Definition build_broker_security (cert key ca sni : option string) : result StartupFault (option BrokerSecurity) :=
  match cert, key with
  | Some cert, Some key =>
      name ← ok_or MissingServerName sni;
      Ok (Some {| bs_server_name := name; bs_trust_store := ca; bs_certificate_chain := cert; bs_private_key := key |})
  | None, None => Ok None
  | _, _ => Err (PairedFlags "broker-tls-cert" "broker-tls-key")
  end.

Definition build_bearer (a : Args) : result StartupFault (option BearerSettings) :=
  if bool_decide (bearer (flags a) = "off") then Ok None
  else if bool_decide (bearer (flags a) = "unsecured") then
    Ok (Some {| principal_claim_name := bearer_principal_claim (flags a); allowable_clock_skew := arg_bearer_clock_skew a |})
  else Err (BadFlag "bearer").

Context `{Files : !ConfigFiles} `{Telemetry}.

Definition load_webhooks (path : option string) : result StartupFault (gmap string CompiledWebhook) :=
  match path with
  | Some path =>
      endpoints ← map_err FileFault (read_webhooks path);
      map_err WebhooksFault (compile_webhooks endpoints)
  | None => Ok ∅
  end.

Definition load_outbound (path : option string) : result StartupFault (list CompiledSubscription) :=
  match path with
  | Some path =>
      file ← map_err FileFault (read_outbound path);
      map_err OutboundConfigFault (compile_outbound file.1 file.2)
  | None => Ok []
  end.

Definition init_telemetry (client_id : string) : result StartupFault unit :=
  otlp ← map_err TelemetryFault (otlp_from_env client_id "0.5.0" "krabka-gateway");
  map_err (fun _ => Panic) (telemetry_init otlp "krabka_gateway=info,info" "info,gateway::audit=debug" "krabka-gateway").

(** [main], up to the call of [run]. *)
Definition main (r : RawArgs) : result StartupFault (GatewayConfig * option BearerSettings) :=
  a ← parse_args r;
  let f := flags a in
  runtime ← validate_protocol_runtime a;
  _ ← init_telemetry (client_id f);
  tls ← tls_settings a;
  security ← build_broker_security (broker_tls_cert f) (broker_tls_key f) (broker_tls_ca f) (broker_tls_server_name f);
  settings ← map_err (fun _ => BadFlag "authz") (build_authz_settings (authz f) (authz_super_users f) (arg_acl_refresh_interval a));
  webhooks ← load_webhooks (webhooks_config f);
  outbound ← load_outbound (outbound_webhooks_config f);
  validator ← build_bearer a;
  Ok ({| cfg_flags := f; cfg_dedup_partitions := arg_dedup_partitions a; cfg_dedup_window := arg_dedup_window a;
         cfg_dedup_ownership_group := resolved_dedup_ownership_group a; cfg_tls := tls; cfg_broker_security := security;
         cfg_authz := settings; cfg_webhooks := webhooks; cfg_outbound := outbound; cfg_runtime := runtime |}, validator).

(** [reload_tick]: [None] is the panic of the assertion. *)
Definition reload_tick (interval : Time) : option Time := if time_gt interval (from_secs 0) then Some interval else None.

(** The parts of [run] that assert on the configuration: the claim store, the
    dedup engine, and the TLS watcher. *)
Definition start_asserts (c : GatewayConfig) : option DedupStore :=
  store ← DedupStore_new (cfg_dedup_partitions c) (ownership_warmup_empty_polls (cfg_runtime c));
  if partitions_ok (cfg_dedup_partitions c) then
    match cfg_tls c with
    | Some tls => _ ← reload_tick (reload_interval tls); Some store
    | None => Some store
    end
  else None.

(** ** What the parts can rely on *)

Record runtime_wf (c : GatewayRuntimeConfig) : Prop := {
  rw_replication : 0 < internal_topic_replication_factor c <= i16_max;
  rw_create_timeout : time_gt (internal_topic_create_timeout c) (from_secs 0) = true;
  rw_segment : time_gt (internal_topic_segment c) (from_secs 0) = true;
  rw_ratio : ratio_in_unit (internal_topic_min_cleanable_dirty_ratio c) = true;
  rw_poll : time_gt (consumer_poll_timeout c) (from_secs 0) = true;
  rw_warmup : 0 < ownership_warmup_empty_polls c <= u32_max;
  rw_readiness : time_gt (readiness_poll_interval c) (from_secs 0) = true;
  rw_produce : size_gt (produce_max_body c) zero_bytes = true;
  rw_forward : size_gt (forward_max_body c) zero_bytes = true;
  rw_ttl : time_gt (schema_registry_latest_cache_ttl c) (from_secs 0) = true;
}.

Lemma flag_Ok {A} n (o : option A) a : flag n o = Ok a -> o = Some a.
Proof. destruct o; simpl; congruence. Qed.
Lemma flag_opt_Ok {A} n parse (o : option string) (r : option A) :
  flag_opt n parse o = Ok r -> forall a, r = Some a -> exists s, parse s = Some a.
Proof.
  unfold flag_opt, transpose. destruct o as [s|]; [|by intros [= <-]]. destruct (flag n (parse s)) eqn:Hf; simpl; [|done].
  apply flag_Ok in Hf. intros [= <-] a' [= <-]. eauto.
Qed.

Lemma refined_from_str_Ok rule parse s v : refined_from_str rule parse s = Ok v -> parse (as_bytes s) = Some v /\ rule v = true.
Proof.
  unfold refined_from_str, refined_new. intros (v' & Hp & Hr)%bind_Ok. destruct (parse _); simplify_eq/=.
  by destruct (rule v') eqn:?; simplify_eq/=.
Qed.
Lemma from_result_Some {E A} (r : result E A) a : from_result r = Some a -> r = Ok a.
Proof. destruct r; simpl; congruence. Qed.

(** What a value parser guarantees, of an override or of the default. *)
Lemma default_prop {A} (P : A -> Prop) d (o : option A) : P d -> (forall a, o = Some a -> P a) -> P (default d o).
Proof. destruct o; simpl; auto. Qed.

Record args_wf (a : Args) : Prop := {
  aw_partitions : 1 <= arg_dedup_partitions a <= i32_max;
  aw_reload : time_gt (arg_tls_reload_interval a) (from_secs 0) = true;
  aw_runtime : exists c, runtime_config a = Some c /\ runtime_wf c;
}.

Lemma capacity_parsed s c : parse_client_dispatch_queue_capacity s = Some c -> dispatch_queue_capacity_new c = Some c.
Proof. unfold parse_client_dispatch_queue_capacity. intros (v & _ & Hc)%bind_Some. by pose proof (capacity_value _ _ Hc) as <-. Qed.
Lemma frame_max_parsed s b : parse_client_frame_max s = Some b -> is_Some (frame_max_try_from b).
Proof.
  unfold parse_client_frame_max. intros (b' & _ & Hm)%bind_Some. destruct (frame_max_try_from b') eqn:Hf; simplify_eq/=.
  eexists. by eapply frame_max_value.
Qed.
Lemma partitions_parsed s v : from_result (PartitionCount_from_str s) = Some v -> 1 <= v <= i32_max.
Proof. intros [_ Hr]%from_result_Some%refined_from_str_Ok. unfold i32_max. bool_prop. lia. Qed.
Lemma positive_i16_parsed s v : from_result (PositiveI16_from_str s) = Some v -> 0 < v <= i16_max.
Proof.
  intros [Hp Hr]%from_result_Some%refined_from_str_Ok. unfold parse_i16 in Hp. destruct (sign_split _) as [neg l].
  apply bind_Some in Hp as (n & _ & [-> Hb]%try_range_Some). bool_prop. unfold i16_max in *. lia.
Qed.
Lemma positive_u32_parsed s v : from_result (PositiveU32_from_str s) = Some v -> 0 < v <= u32_max.
Proof.
  intros [Hp Hr]%from_result_Some%refined_from_str_Ok. unfold parse_u32 in Hp. destruct (sign_split _) as [[] l]; [done|].
  apply bind_Some in Hp as (n & _ & [-> Hb]%try_range_Some). bool_prop. unfold u32_max in *. lia.
Qed.

Hint Resolve positive_time_parsed positive_byte_size_parsed unit_ratio_parsed positive_i16_parsed positive_u32_parsed : startup.

Lemma parse_args_wf r a : parse_args r = Ok a -> args_wf a.
Proof.
  unfold parse_args. intros. res_inv.
  repeat match goal with
  | Hf : flag _ _ = Ok _ |- _ => apply flag_Ok in Hf
  | Hf : flag_opt _ _ _ = Ok _ |- _ => pose proof (flag_opt_Ok _ _ _ _ Hf); clear Hf
  end.
  constructor; simpl; [by eapply partitions_parsed|by eapply positive_time_parsed|].
  rename select (parse_client_frame_max _ = _) into Hf. apply frame_max_parsed in Hf as [m Hf].
  rename select (parse_client_dispatch_queue_capacity _ = _) into Hc. apply capacity_parsed in Hc.
  unfold runtime_config. simpl. rewrite Hc, Hf. simpl. eexists. split; [done|].
  constructor; simpl; (apply default_prop;
    [|intros v Hv; match goal with Hp : forall _, ?o = Some _ -> _ |- _ => destruct (Hp v Hv); eauto with startup end]);
    try (first [apply secs_positive|apply minutes_positive|apply millis_positive|apply mebibytes_positive|apply percent_unit]);
    unfold i16_max, u32_max; lia.
Qed.

Lemma validate_protocol_runtime_Ok a c :
  validate_protocol_runtime a = Ok c ->
  runtime_config a = Some c /\ validate_protocol_units c = Ok () /\ validate_dedup_window (arg_dedup_window a) = Ok ().
Proof.
  unfold validate_protocol_runtime. intros. res_inv. destruct (runtime_config a); simplify_eq/=.
  destruct (validate_protocol_units _) as [[]|], (validate_dedup_window _) as [[]|]; by simplify_eq/=.
Qed.

Lemma load_webhooks_wf path ws : load_webhooks path = Ok ws -> forall n w, ws !! n = Some w -> webhook_wf w.
Proof.
  unfold load_webhooks. destruct path as [path|]; [|by intros [= <-]]. intros (es & _ & Hc)%bind_Ok n w Hw.
  destruct (compile_webhooks es) eqn:He; simplify_eq/=. by eapply compile_webhooks_wf.
Qed.

Lemma load_outbound_wf path subs :
  load_outbound path = Ok subs ->
  forall sub, sub ∈ subs -> 0 < max_attempts sub /\ exists scheme host, url_parse (target_url sub) = Some (scheme, Some host).
Proof.
  unfold load_outbound. destruct path as [path|]; [|by intros [= <-] ? ?%not_elem_of_nil]. intros (file & _ & Hc)%bind_Ok sub Hin.
  destruct (compile_outbound _ _) eqn:He; simplify_eq/=. destruct (compile_outbound_elem _ _ _ _ He Hin) as (s & _ & Hs).
  apply compile_subscription_Ok in Hs as (Hmax & _ & _ & scheme & host & Hu & _). eauto.
Qed.

Lemma tls_settings_reload a t : tls_settings a = Ok (Some t) -> reload_interval t = arg_tls_reload_interval a.
Proof. unfold tls_settings. destruct (tls_cert _), (tls_key _); try done. case_bool_decide; [|done]. by intros [= <-]. Qed.

(** Nothing but a bad setting stops the start-up. *)
Definition no_panic {A} (r : result StartupFault A) : Prop := r <> Err Panic.

Lemma no_panic_bind {A B} (r : result StartupFault A) (f : A -> result StartupFault B) :
  no_panic r -> (forall a, r = Ok a -> no_panic (f a)) -> no_panic (r ≫= f).
Proof. unfold no_panic. destruct r; simpl; [auto|congruence]. Qed.
Lemma no_panic_Ok {A} (a : A) : no_panic (Ok a).
Proof. done. Qed.
Lemma no_panic_flag {A} n (o : option A) : no_panic (flag n o).
Proof. by destruct o. Qed.
Lemma no_panic_flag_opt {A} n parse o : no_panic (flag_opt (A:=A) n parse o).
Proof. unfold flag_opt, transpose. destruct o as [s|]; [|done]. simpl. by destruct (parse s). Qed.
Lemma no_panic_map_err {E A} (g : E -> StartupFault) (r : result E A) : (forall e, g e <> Panic) -> no_panic (map_err g r).
Proof. intros Hg. destruct r; [done|]. intros [= He]. by apply Hg in He. Qed.
Hint Resolve no_panic_Ok no_panic_flag no_panic_flag_opt : startup.

Lemma args_no_panic r : no_panic (parse_args r).
Proof. unfold parse_args. repeat (apply no_panic_bind; [auto with startup|intros ? _]); auto with startup. Qed.

Lemma runtime_no_panic a : args_wf a -> no_panic (validate_protocol_runtime a).
Proof.
  intros [_ _ (c & Hc & _)]. unfold validate_protocol_runtime. rewrite Hc. simpl.
  repeat (apply no_panic_bind; [by apply no_panic_map_err|intros ? _]); auto with startup.
Qed.

(** The [expect] on the exporters. *)
Definition exporters_failed (client_id : string) : Prop :=
  exists otlp e, otlp_from_env client_id "0.5.0" "krabka-gateway" = Ok otlp
    /\ telemetry_init otlp "krabka_gateway=info,info" "info,gateway::audit=debug" "krabka-gateway" = Err e.

Lemma telemetry_panic id : no_panic (init_telemetry id) \/ exporters_failed id.
Proof.
  unfold init_telemetry. destruct (otlp_from_env id _ _) as [otlp|e] eqn:Ho; [|by left]. simpl.
  destruct (telemetry_init otlp _ _ _) as [|e] eqn:He; [by left|]. right. by exists otlp, e.
Qed.

Lemma main_panics r : main r = Err Panic -> exists a, parse_args r = Ok a /\ exporters_failed (client_id (flags a)).
Proof.
  intros Hm. pose proof (args_no_panic r) as Hargs. destruct (parse_args r) as [a|e] eqn:Ha.
  2: { unfold main in Hm. rewrite Ha in Hm. by injection Hm as ->. }
  exists a. split; [done|]. destruct (telemetry_panic (client_id (flags a))) as [Ht|?]; [|done].
  exfalso. revert Hm. change (no_panic (main r)). unfold main. rewrite Ha. apply no_panic_bind; [done|]. intros ? [= <-]. cbv zeta.
  apply no_panic_bind; [by eapply runtime_no_panic, parse_args_wf|intros rt _]. apply no_panic_bind; [done|intros ? _].
  apply no_panic_bind; [|intros ? _].
  { unfold tls_settings. destruct (tls_cert (flags a)), (tls_key (flags a)); try done. by case_bool_decide. }
  apply no_panic_bind; [|intros ? _].
  { unfold build_broker_security. destruct (broker_tls_cert (flags a)), (broker_tls_key (flags a)), (broker_tls_server_name (flags a)); done. }
  apply no_panic_bind; [by apply no_panic_map_err|intros ? _]. apply no_panic_bind; [|intros ? _].
  { unfold load_webhooks. case_match; [|done]. apply no_panic_bind; [by apply no_panic_map_err|intros; by apply no_panic_map_err]. }
  apply no_panic_bind; [|intros ? _].
  { unfold load_outbound. case_match; [|done]. apply no_panic_bind; [by apply no_panic_map_err|intros; by apply no_panic_map_err]. }
  apply no_panic_bind; [|done]. unfold build_bearer. by repeat case_bool_decide.
Qed.

Lemma main_checked r c b :
  main r = Ok (c, b) ->
  is_Some (start_asserts c)
  /\ topic_partition_count (cfg_dedup_partitions c) = Ok (cfg_dedup_partitions c)
  /\ validate_protocol_units (cfg_runtime c) = Ok () /\ validate_dedup_window (cfg_dedup_window c) = Ok ()
  /\ runtime_wf (cfg_runtime c)
  /\ (forall n w, cfg_webhooks c !! n = Some w -> webhook_wf w)
  /\ (forall sub, sub ∈ cfg_outbound c ->
        0 < max_attempts sub /\ exists scheme host, url_parse (target_url sub) = Some (scheme, Some host)).
Proof.
  unfold main. intros Hm. apply bind_Ok in Hm as (a & Ha%parse_args_wf & Hm). res_inv. destruct Ha as [Hp Hr (rt & Hrt & Hwf)].
  rename select (validate_protocol_runtime a = _) into Hv. apply validate_protocol_runtime_Ok in Hv as (Hrt' & Hu & Hw).
  rewrite Hrt in Hrt'. injection Hrt' as ->. cbn [cfg_dedup_partitions cfg_runtime cfg_dedup_window cfg_webhooks cfg_outbound].
  assert (partitions_ok (arg_dedup_partitions a) = true) as Hok.
  { unfold partitions_ok. apply andb_true_iff. split; [apply Z.ltb_lt|apply Z.leb_le]; lia. }
  split_and!; [| |done|done|done|by eapply load_webhooks_wf|by eapply load_outbound_wf].
  - unfold start_asserts, DedupStore_new. cbn [cfg_dedup_partitions cfg_runtime cfg_tls]. rewrite Hok. simpl.
    rename select (tls_settings a = _) into Ht. case_match; [|by eexists]. subst. apply tls_settings_reload in Ht.
    unfold reload_tick. rewrite Ht, Hr. by eexists.
  - unfold topic_partition_count, try_i32.
    rewrite (proj2 (try_range_Some i32_min i32_max (arg_dedup_partitions a) (arg_dedup_partitions a))); [done|].
    unfold i32_min. split; [done|lia].
Qed.

End Startup.

(** ** A start-up *)

Module Launch.
Import Hooks.
Import Pushes.

(** Times are written in milliseconds, sizes in bytes, ratios in percent. *)
Definition bounded (ok : Z -> bool) (s : string) : option Z :=
  v ← parse_u64 (as_bytes s); if ok v then Some v else None.
#[export] Instance quantities : Quantities.
Proof.
  refine {| parse_positive_time := (bounded (fun v => v >? 0) : string -> option (Time (Units:=Plain.units)));
            parse_non_negative_time := (bounded (fun v => v >=? 0) : string -> option (Time (Units:=Plain.units)));
            parse_positive_byte_size := (bounded (fun v => v >? 0) : string -> option (ByteSize (Units:=Plain.units)));
            parse_unit_ratio := (bounded (fun v => (0 <=? v) && (v <=? 100)) : string -> option (Ratio (Units:=Plain.units)));
            dispatch_queue_capacity_new := fun v => if v >? 0 then Some v else None;
            frame_max_try_from := (Some : ByteSize (Units:=Plain.units) -> option Z);
            frame_max_size := (id : Z -> ByteSize (Units:=Plain.units));
            default_capacity := 64; default_frame_max := 104857600 |}; unfold bounded; simpl.
  1-4: intros s t (v & _ & Hv)%bind_Some; by case_match; simplify_eq.
  - intros v c. case_match; [congruence|done].
  - done.
  - intros n Hn. apply Z.gtb_lt. lia.
  - intros n Hn. apply Z.gtb_lt. lia.
  - intros n Hn. apply Z.gtb_lt. done.
  - intros n Hn. apply Z.gtb_lt. lia.
  - intros n Hn. apply andb_true_iff. rewrite !Z.leb_le. done.
Defined.
#[export] Instance files : ConfigFiles :=
  {| read_webhooks := fun _ => Ok [generic]; read_outbound := fun _ => Ok (allowed, [subscription]) |}.

#[export] Instance telemetry : Telemetry :=
  {| OtlpConfig := unit; otlp_from_env := fun _ _ _ => Ok (); telemetry_init := fun _ _ _ _ => Ok () |}.

Definition flags : Flags :=
  {| bootstrap_servers := "broker:9092"; listen_addr := "0.0.0.0:9500"; client_id := "gw"; dedup_topic := "__krabka_grpc_dedup";
     dedup_ownership_group := None; dedup_txn_id_prefix := "gw"; advertised_addr := "gw-0:9500";
     membership_topic := "__krabka_gateway_membership"; tls_cert := Some "cert.pem"; tls_key := Some "key.pem";
     tls_client_ca := None; tls_client_auth := "optional"; tls_trust_roots := None; authz := "simple";
     authz_super_users := "ops, root"; bearer := "unsecured"; bearer_principal_claim := "sub";
     allow_replication_fallback_flag := None; frame_raw_flag := None; broker_tls_ca := None; broker_tls_cert := None;
     broker_tls_key := None; broker_tls_server_name := None; webhooks_config := Some "hooks.toml";
     outbound_webhooks_config := Some "out.toml"; schema_registry_url := None |}.
Definition args : RawArgs :=
  {| raw_flags := flags; raw_dispatch_queue_capacity := "64"; raw_frame_max := "1048576"; raw_dedup_partitions := "8";
     raw_dedup_window := "3600000"; raw_tls_reload_interval := "30000"; raw_acl_refresh_interval := "30000";
     raw_bearer_clock_skew := "0"; raw_replication_factor := Some "1"; raw_create_timeout := None; raw_segment := None;
     raw_dirty_ratio := Some "5"; raw_poll_timeout := None; raw_warmup_empty_polls := Some "3";
     raw_readiness_poll_interval := None; raw_produce_max_body := None; raw_forward_max_body := None; raw_latest_cache_ttl := None |}.

End Launch.
