(* ===== verification/Health.v ===== *)
(** * Readiness and supervision (health.rs, bin/gateway.rs)

    The readiness flag with its two routes, the task that watches the claim
    store, the tasks the process cannot run without, and the shutdown signal.
    Each runs on its own thread: one step is one access to the flag, to the
    cancellation token or to the store, which the ownership consumer and the
    requests change meanwhile. *)

From S2P Require Import Prelude.
From S2P Require Import Types.
From S2P Require Import Dedup.

(** [spawn_readiness_watcher]: asking the store, writing its answer, in the
    select, writing [false] on the way out. *)
Inductive Watcher := Asking | Answered (warm : bool) | Selecting | Leaving | Returned.

(** A task that must not end, as [spawn_membership_reader],
    [spawn_ownership_consumer] and [spawn_outbound_delivery] supervise it: it
    runs; its end was not asked for; the flag is cleared; done. *)
Inductive Task := Running | Stopped | Cleared | Over.

(** The task of [run] that waits for a signal. *)
Inductive Signal := Listening | Received | Unready | Signalled.

Record Process := {
  claims : DedupStore;
  ready : bool;
  cancelled : bool;
  watcher : Watcher;
  tasks : list Task;
  signal : Signal;
}.

Definition start (store : DedupStore) (n : nat) : Process :=
  {| claims := store; ready := false; cancelled := false; watcher := Asking; tasks := replicate n Running; signal := Listening |}.

(** [set_ready], [set_not_ready] and [cancel]. *)
Definition set_flag (p : Process) (b : bool) : Process :=
  {| claims := claims p; ready := b; cancelled := cancelled p; watcher := watcher p; tasks := tasks p; signal := signal p |}.
Definition set_ready (p : Process) : Process := set_flag p true.
Definition set_not_ready (p : Process) : Process := set_flag p false.
Definition cancel (p : Process) : Process :=
  {| claims := claims p; ready := ready p; cancelled := true; watcher := watcher p; tasks := tasks p; signal := signal p |}.

Definition at_watcher (p : Process) (w : Watcher) : Process :=
  {| claims := claims p; ready := ready p; cancelled := cancelled p; watcher := w; tasks := tasks p; signal := signal p |}.
Definition at_store (p : Process) (s : DedupStore) : Process :=
  {| claims := s; ready := ready p; cancelled := cancelled p; watcher := watcher p; tasks := tasks p; signal := signal p |}.
Definition at_task (p : Process) (i : nat) (t : Task) : Process :=
  {| claims := claims p; ready := ready p; cancelled := cancelled p; watcher := watcher p; tasks := <[i := t]> (tasks p); signal := signal p |}.
Definition at_signal (p : Process) (s : Signal) : Process :=
  {| claims := claims p; ready := ready p; cancelled := cancelled p; watcher := watcher p; tasks := tasks p; signal := s |}.

(** [/healthz] and [/readyz]. *)
Definition healthz (p : Process) : Z := 200.
Definition readyz (p : Process) : Z := if ready p then 200 else 503.

Section Run.
  Context `{Serde ClaimValue}.

(** What requests and the ownership consumer do to the store. *)
Inductive claims_step : DedupStore -> DedupStore -> Prop :=
| store_applied s key c : claims_step s (apply s key c)
| store_restart s : claims_step s (require_restart s)
| store_revoked s parts : claims_step s (on_partitions_revoked s parts).1
| store_assigned s targets topic prepared parts sought assignment ends :
    claims_step s (on_partitions_assigned s targets topic prepared parts sought assignment ends).1.1
| store_turned s targets batch position : claims_step s (ownership_turn s targets batch position).1
| store_exited s : claims_step s (ownership_exit s).

Inductive step : Process -> Process -> Prop :=
| step_store p s : claims_step (claims p) s -> step p (at_store p s)
| step_ask p : watcher p = Asking -> step p (at_watcher p (Answered (is_warm (claims p))))
| step_write p b : watcher p = Answered b -> step p (at_watcher (if b then set_ready p else set_not_ready p) Selecting)
| step_slept p : watcher p = Selecting -> step p (at_watcher p Asking)
| step_cancelled p : watcher p = Selecting -> cancelled p = true -> step p (at_watcher p Leaving)
| step_leave p : watcher p = Leaving -> step p (at_watcher (set_not_ready p) Returned)
| step_task_ends p i : tasks p !! i = Some Running -> step p (at_task p i (if cancelled p then Over else Stopped))
| step_task_clears p i : tasks p !! i = Some Stopped -> step p (at_task (set_not_ready p) i Cleared)
| step_task_cancels p i : tasks p !! i = Some Cleared -> step p (at_task (cancel p) i Over)
| step_signal p : signal p = Listening -> step p (at_signal p Received)
| step_signal_clears p : signal p = Received -> step p (at_signal (set_not_ready p) Unready)
| step_signal_cancels p : signal p = Unready -> step p (at_signal (cancel p) Signalled).

(** ** What the flag says *)

(** The watcher asks at [q], and the store is warm or not. *)
Definition asks (warm : bool) (q q' : Process) : Prop :=
  step q q' /\ watcher q = Asking /\ is_warm (claims q) = warm /\ watcher q' = Answered warm.
(** A step in which it does not ask. *)
Definition calm (q q' : Process) : Prop := step q q' /\ (watcher q = Asking -> watcher q' = Asking).

Section From.
  Context (p0 : Process).

(** At its last question, the watcher found the store warm. *)
Definition found_warm (p : Process) : Prop := exists q q', rtc step p0 q /\ asks true q q' /\ rtc calm q' p.
(** At its last question the watcher found the store cold, and at the one before
    it found it warm. *)
Definition found_cold (p : Process) : Prop :=
  exists q q' s s', rtc step p0 q /\ asks true q q' /\ rtc calm q' s /\ asks false s s' /\ rtc calm s' p.

Record inv (p : Process) : Prop := {
  inv_ready : ready p = true -> found_warm p \/ watcher p = Answered false /\ found_cold p;
  inv_answer : watcher p = Answered true -> found_warm p;
  inv_over : forall i, tasks p !! i = Some Over -> cancelled p = true;
  inv_signalled : signal p = Signalled -> cancelled p = true;
  inv_returned : watcher p = Returned -> ready p = false;
}.

Lemma found_warm_calm p p' : found_warm p -> calm p p' -> found_warm p'.
Proof. intros (q & q' & Hq & Ha & Hc) Hp. exists q, q'. split_and!; [done..|]. by eapply rtc_r. Qed.
Lemma found_cold_calm p p' : found_cold p -> calm p p' -> found_cold p'.
Proof. intros (q & q' & s & s' & ? & ? & ? & ? & Hc) Hp. exists q, q', s, s'. split_and!; [done..|]. by eapply rtc_r. Qed.

Lemma over_insert (ts : list Task) i t j :
  <[i:=t]> ts !! j = Some Over -> t = Over \/ ts !! j = Some Over.
Proof. intros [(-> & <- & _)|[_ ?]]%list_lookup_insert_Some; auto. Qed.

(** Steps of the others, which may clear the flag and do not set it. *)
Lemma calm_inv p p' :
  step p p' -> watcher p' = watcher p -> (ready p' = true -> ready p = true) -> inv p ->
  (ready p' = true -> found_warm p' \/ watcher p' = Answered false /\ found_cold p')
  /\ (watcher p' = Answered true -> found_warm p') /\ (watcher p' = Returned -> ready p' = false).
Proof.
  intros Hs Hw Hr [H1 H2 _ _ H5]. assert (calm p p') as Hc by (split; [done|by rewrite Hw]). split_and!.
  - intros [?|[? ?]]%Hr%H1; [left; by eapply found_warm_calm|right; split; [congruence|by eapply found_cold_calm]].
  - rewrite Hw. intros ?%H2. by eapply found_warm_calm.
  - rewrite Hw. intros Hret%H5. destruct (ready p'); [by rewrite Hr in Hret|done].
Qed.

Lemma ask_inv p : rtc step p0 p -> watcher p = Asking -> inv p -> inv (at_watcher p (Answered (is_warm (claims p)))).
Proof.
  intros Hp Hw [H1 H2 H3 H4 H5]. set (p' := at_watcher p _).
  assert (asks (is_warm (claims p)) p p') as Ha by (split_and!; [by apply step_ask|done..]).
  assert (is_warm (claims p) = true -> found_warm p') as Hwarm.
  { intros Heq. rewrite Heq in Ha. exists p, p'. split_and!; done. }
  constructor; try done.
  - intros Hr. change (ready p' = true) with (ready p = true) in Hr. destruct (is_warm (claims p)) eqn:Heq; [auto|]. right.
    split; [done|]. destruct (H1 Hr) as [(q & q' & ? & ? & ?)|[? _]]; [|congruence]. by exists q, q', p, p'.
  - simpl. intros [= Heq]. auto.
Qed.

Lemma step_inv p p' : rtc step p0 p -> step p p' -> inv p -> inv p'.
Proof.
  intros Hp Hstep Hi. destruct Hstep as
    [p s Hs|p Hw|p b Hw|p Hw|p Hw Hc|p Hw|p i Ht|p i Ht|p i Ht|p Hw|p Hw|p Hw]; [|by apply ask_inv|..];
    try (match goal with |- inv ?p' => destruct (calm_inv p p') as (C1 & C2 & C3); [eauto using step|done|done|done|] end);
    destruct Hi as [H1 H2 H3 H4 H5]; try (constructor; simpl; try done; eauto; congruence).
  - constructor; simpl; try done; destruct b; simpl; try done. intros _. left.
    eapply found_warm_calm; [by apply H2|]. split; [by apply (step_write p true)|congruence].
  - constructor; simpl; try done. intros [?|[? _]]%H1; [left|congruence].
    eapply found_warm_calm; [done|]. split; [by apply step_slept|done].
  - constructor; simpl; try done. intros [?|[? _]]%H1; [left|congruence].
    eapply found_warm_calm; [done|]. split; [by apply step_cancelled|congruence].
  - constructor; simpl; try done. intros j [Ht'|?]%over_insert; [by destruct (cancelled p)|by eapply H3].
  - constructor; simpl; try done. intros j [Ht'|?]%over_insert; [done|by eapply H3].
Qed.
End From.

Lemma start_inv store n : inv (start store n) (start store n).
Proof. constructor; simpl; try done. by intros i [? ?]%lookup_replicate_1. Qed.

Lemma reachable_inv store n p : rtc step (start store n) p -> inv (start store n) p.
Proof.
  intros Hp. pattern p. eapply (rtc_ind_r (fun p => inv (start store n) p)); [apply start_inv| |exact Hp].
  intros q q' Hq Hs Hi. by eapply step_inv.
Qed.

Lemma returned_stays p p' : rtc step p p' -> watcher p = Returned -> watcher p' = Returned.
Proof.
  induction 1 as [|p q p' Hstep _ IH]; [done|]. intros Hw. apply IH. destruct Hstep; simpl in *; congruence.
Qed.

(** Once cancelled, the watcher has a way out that no other task can close. *)
Lemma watcher_leaves p :
  cancelled p = true -> exists p', rtc step p p' /\ watcher p' = Returned.
Proof.
  intros Hc.
  assert (forall q, cancelled q = true -> watcher q = Selecting -> exists p', rtc step q p' /\ watcher p' = Returned) as Hsel.
  { intros q Hq Hw. exists (at_watcher (set_not_ready (at_watcher q Leaving)) Returned). split; [|done].
    eapply rtc_l; [by apply step_cancelled|]. apply rtc_once. by apply step_leave. }
  assert (forall q b, cancelled q = true -> watcher q = Answered b -> exists p', rtc step q p' /\ watcher p' = Returned) as Hans.
  { intros q b Hq Hw. destruct (Hsel (at_watcher (if b then set_ready q else set_not_ready q) Selecting)) as (p' & Hp' & Hr);
      [by destruct b|done|]. exists p'. split; [|done]. eapply rtc_l; [by apply step_write|done]. }
  destruct (watcher p) as [|b| | |] eqn:Hw; [|by eapply Hans|by apply Hsel| |by exists p].
  - destruct (Hans (at_watcher p (Answered (is_warm (claims p)))) (is_warm (claims p))) as (p' & Hp' & Hr); [done..|].
    exists p'. split; [|done]. eapply rtc_l; [by apply step_ask|done].
  - eexists. split; [apply rtc_once; by apply step_leave|done].
Qed.

(** C25.  The readiness of a replica.  In every interleaving of the watcher, the
    supervised tasks, the shutdown signal and whatever changes the claim store:
    when the replica answers [/readyz] with 200, the store was warm at the
    watcher's last question, or, if the watcher has just found it cold and is
    about to withdraw the answer, at the question before; a supervised task that
    has ended, and a signal that was handled, have cancelled the process; once
    the watcher has returned the replica is never ready again; and a cancelled
    process can always get there. *)
Theorem readiness_sound store n p :
  rtc step (start store n) p ->
  (readyz p = 200 -> found_warm (start store n) p \/ watcher p = Answered false /\ found_cold (start store n) p)
  /\ (forall i, tasks p !! i = Some Over -> cancelled p = true) /\ (signal p = Signalled -> cancelled p = true)
  /\ (watcher p = Returned -> forall p', rtc step p p' -> readyz p' = 503)
  /\ (cancelled p = true -> exists p', rtc step p p' /\ watcher p' = Returned /\ readyz p' = 503).
Proof.
  intros Hp. pose proof (reachable_inv _ _ _ Hp) as [Hr _ Ho Hs _]. unfold readyz.
  assert (forall p', rtc step p p' -> watcher p' = Returned -> (if ready p' then 200 else 503) = 503) as Hret.
  { intros p' Hp' Hw. by rewrite (inv_returned _ p' (reachable_inv store n p' ltac:(by etrans)) Hw). }
  split_and!; [by destruct (ready p); auto|done..| |].
  - intros Hw p' Hp'. apply Hret; [done|]. by eapply returned_stays.
  - intros (p' & Hp' & Hw)%watcher_leaves. exists p'. auto.
Qed.
End Run.

(** ** A run *)

Module Watched.
(** One partition, whose replay target is its beginning. *)
Definition cold : DedupStore :=
  {| claim_map := ∅; partitions := 1; owned := {[0]}; warm := false; warmed_once := false;
     restart_required := false; warmup_empty_polls := 1; empty_polls := 0 |}.
Definition warmed : DedupStore := (ownership_turn cold {[ ("dedup", 0) := 0 ]} [] (fun _ => Ok 0)).1.
(** The store warms up, the watcher asks and writes its answer; then a claim is
    lost in doubt. *)
Definition p1 : Process := at_store (start cold 1) warmed.
Definition p2 : Process := at_watcher p1 (Answered (is_warm warmed)).
Definition p3 : Process := at_watcher (set_ready p2) Selecting.
Definition p4 : Process := at_store p3 (require_restart warmed).

Lemma p4_reached : rtc step (start cold 1) p4.
Proof.
  apply (rtc_l _ _ p1); [apply step_store, store_turned|]. apply (rtc_l _ _ p2); [by apply (step_ask p1)|].
  apply (rtc_l _ _ p3); [exact (step_write p2 true eq_refl)|]. apply rtc_once. apply (step_store p3), store_restart.
Qed.

Lemma readiness_sound_witness :
  is_warm (claims p4) = false /\ readyz p4 = 200
  /\ (found_warm (start cold 1) p4 \/ watcher p4 = Answered false /\ found_cold (start cold 1) p4).
Proof.
  destruct (readiness_sound cold 1 p4 p4_reached) as (Hr & _). split; [reflexivity|]. split; [reflexivity|]. apply Hr. reflexivity.
Defined.
End Watched.
