(* ===== verification/Metrics.v ===== *)
(** * The metrics

    [metrics.rs]: the registered metrics, the recorders, and the guard that counts
    a request in and out; and what [Send] of [handlers.rs] records.  The client
    library's counters, gauges, histograms and families are a class, with what
    their documentation says of them.  The labels a webhook request records are in
    [Webhook]. *)

From S2P Require Import Prelude.
From S2P Require Import RustNum.
From S2P Require Import Types.
From S2P Require Import Produce.
From S2P Require Import Handlers.

(** ** prometheus-client and the clock *)

Class Prometheus := {
  Counter : Type;
  counter_default : Counter;
  counter_inc : Counter -> Counter;
  counter_get : Counter -> Z;
  Gauge : Type;
  gauge_default : Gauge;
  gauge_inc : Gauge -> Gauge;
  gauge_dec : Gauge -> Gauge;
  gauge_set : Z -> Gauge -> Gauge;
  gauge_get : Gauge -> Z;
  Histogram : Type;
  histogram_new : list f64 -> Histogram;
  histogram_observe : f64 -> Histogram -> Histogram;
  (** The [_count] series of a histogram. *)
  histogram_count : Histogram -> Z;
  (** A family has a metric for each label; [get_or_create] gives access to one. *)
  Family : Type -> Type;
  family_new : forall {M}, M -> Family M;
  get_or_create : forall {M}, string -> (M -> M) -> Family M -> Family M;
  family_get : forall {M}, string -> Family M -> M;
}.

(** Counters are [AtomicU64] and gauges [AtomicI64], whose additions wrap. *)
Class PrometheusLaws `{Prometheus} := {
  counter_starts : counter_get counter_default = 0;
  counter_counts : forall c, counter_get (counter_inc c) = wrap_u64 (counter_get c + 1);
  gauge_starts : gauge_get gauge_default = 0;
  gauge_rises : forall g, gauge_get (gauge_inc g) = wrap_i64 (gauge_get g + 1);
  gauge_falls : forall g, gauge_get (gauge_dec g) = wrap_i64 (gauge_get g - 1);
  gauge_sets : forall z g, gauge_get (gauge_set z g) = z;
  histogram_starts : forall bs, histogram_count (histogram_new bs) = 0;
  histogram_counts : forall v h, histogram_count (histogram_observe v h) = wrap_u64 (histogram_count h + 1);
  family_starts : forall M (m : M) l, family_get l (family_new m) = m;
  family_same : forall M (f : M -> M) l fam, family_get l (get_or_create l f fam) = f (family_get l fam);
  family_other : forall M (f : M -> M) l l' fam, l <> l' -> family_get l (get_or_create l' f fam) = family_get l fam;
}.

(** [Instant::elapsed] as seconds, and the seconds of an extent in milliseconds. *)
Class Seconds := { Instant : Type; elapsed_secs : Instant -> Instant -> f64; millis_secs : Z -> f64 }.

(** ** The bundle *)

Section Metrics.
  Context `{Prometheus} `{Seconds}.

Definition LATENCY_BUCKETS : list Z := [1; 5; 10; 25; 50; 100; 250; 500; 1000; 2500; 5000].
Definition latency_buckets : list f64 := map millis_secs LATENCY_BUCKETS.

(** The labels [ResultLabel], [OutcomeLabel], [KindLabel] and [MethodLabel] hold
    one string each. *)
Record GatewayMetrics := {
  registry : list (string * string);
  sends_total : Family Counter;
  produce_latency_seconds : Histogram;
  dedup_hits_total : Counter;
  forward_total : Family Counter;
  txn_total : Family Counter;
  active_subscriptions : Gauge;
  owned_partitions : Gauge;
  webhook_in_total : Family Counter;
  webhook_out_total : Family Counter;
  webhook_retries_total : Counter;
  dead_letter_total : Counter;
  request_duration_seconds : Family Histogram;
  inflight_requests : Gauge;
}.

(** The registrations, in order, under the prefix [krabka_gateway]. *)
Definition registrations : list (string * string) :=
  [("sends", "Cumulative count of produce-path sends, labelled by result (ok, deduplicated, unauthorized, error).");
   ("produce_latency_seconds", "End-to-end produce latency in seconds (histogram), from handler entry to broker ack.");
   ("dedup_hits", "Cumulative count of produce requests short-circuited by the idempotent-deduplication cache.");
   ("forward", "Cumulative count of cross-cluster forward attempts, labelled by outcome (ok, unavailable, unauthorized, forward_error).");
   ("txn", "Cumulative count of dedup-store transaction completions, labelled by kind (commit, abort).");
   ("active_subscriptions", "Current number of live Subscribe streams (gauge).");
   ("owned_partitions", "Current number of topic-partitions owned by the dedup store on this gateway instance (gauge).");
   ("webhook_in", "Cumulative count of inbound webhook (HTTP → Kafka) requests, labelled by result (ok, unauthenticated, too_large, not_found, unauthorized, bad_request, error).");
   ("webhook_out", "Cumulative count of outbound webhook (Kafka → HTTP) delivery attempts, labelled by result (delivered, dead_letter, dropped).");
   ("webhook_retries", "Cumulative count of outbound webhook delivery retries (each backoff retry increments this counter).");
   ("dead_letter", "Cumulative count of outbound webhook messages routed to the dead-letter topic after all retry attempts were exhausted.");
   ("request_duration_seconds", "End-to-end gateway handler latency in seconds (histogram), labelled by request method (send, webhook_in, produce_http).");
   ("inflight_requests", "Number of gateway requests currently being served (gauge).")].

Definition GatewayMetrics_new : GatewayMetrics := {|
  registry := registrations;
  sends_total := family_new counter_default;
  produce_latency_seconds := histogram_new latency_buckets;
  dedup_hits_total := counter_default;
  forward_total := family_new counter_default;
  txn_total := family_new counter_default;
  active_subscriptions := gauge_default;
  owned_partitions := gauge_default;
  webhook_in_total := family_new counter_default;
  webhook_out_total := family_new counter_default;
  webhook_retries_total := counter_default;
  dead_letter_total := counter_default;
  request_duration_seconds := family_new (histogram_new latency_buckets);
  inflight_requests := gauge_default;
|}.
(** A handle is shared: recording changes the metric it refers to. *)
Definition on_sends_total u (x : GatewayMetrics) : GatewayMetrics :=
  let 'Build_GatewayMetrics r a b c d e f g h i j k l m := x in Build_GatewayMetrics r (u a) b c d e f g h i j k l m.
Definition on_produce_latency_seconds u (x : GatewayMetrics) : GatewayMetrics :=
  let 'Build_GatewayMetrics r a b c d e f g h i j k l m := x in Build_GatewayMetrics r a (u b) c d e f g h i j k l m.
Definition on_dedup_hits_total u (x : GatewayMetrics) : GatewayMetrics :=
  let 'Build_GatewayMetrics r a b c d e f g h i j k l m := x in Build_GatewayMetrics r a b (u c) d e f g h i j k l m.
Definition on_forward_total u (x : GatewayMetrics) : GatewayMetrics :=
  let 'Build_GatewayMetrics r a b c d e f g h i j k l m := x in Build_GatewayMetrics r a b c (u d) e f g h i j k l m.
Definition on_txn_total u (x : GatewayMetrics) : GatewayMetrics :=
  let 'Build_GatewayMetrics r a b c d e f g h i j k l m := x in Build_GatewayMetrics r a b c d (u e) f g h i j k l m.
Definition on_active_subscriptions u (x : GatewayMetrics) : GatewayMetrics :=
  let 'Build_GatewayMetrics r a b c d e f g h i j k l m := x in Build_GatewayMetrics r a b c d e (u f) g h i j k l m.
Definition on_owned_partitions u (x : GatewayMetrics) : GatewayMetrics :=
  let 'Build_GatewayMetrics r a b c d e f g h i j k l m := x in Build_GatewayMetrics r a b c d e f (u g) h i j k l m.
Definition on_webhook_in_total u (x : GatewayMetrics) : GatewayMetrics :=
  let 'Build_GatewayMetrics r a b c d e f g h i j k l m := x in Build_GatewayMetrics r a b c d e f g (u h) i j k l m.
Definition on_webhook_out_total u (x : GatewayMetrics) : GatewayMetrics :=
  let 'Build_GatewayMetrics r a b c d e f g h i j k l m := x in Build_GatewayMetrics r a b c d e f g h (u i) j k l m.
Definition on_webhook_retries_total u (x : GatewayMetrics) : GatewayMetrics :=
  let 'Build_GatewayMetrics r a b c d e f g h i j k l m := x in Build_GatewayMetrics r a b c d e f g h i (u j) k l m.
Definition on_dead_letter_total u (x : GatewayMetrics) : GatewayMetrics :=
  let 'Build_GatewayMetrics r a b c d e f g h i j k l m := x in Build_GatewayMetrics r a b c d e f g h i j (u k) l m.
Definition on_request_duration_seconds u (x : GatewayMetrics) : GatewayMetrics :=
  let 'Build_GatewayMetrics r a b c d e f g h i j k l m := x in Build_GatewayMetrics r a b c d e f g h i j k (u l) m.
Definition on_inflight_requests u (x : GatewayMetrics) : GatewayMetrics :=
  let 'Build_GatewayMetrics r a b c d e f g h i j k l m := x in Build_GatewayMetrics r a b c d e f g h i j k l (u m).

(** ** The recorders *)

Definition record_send (result : string) : GatewayMetrics -> GatewayMetrics := on_sends_total (get_or_create result counter_inc).
Definition observe_produce_latency (latency : f64) : GatewayMetrics -> GatewayMetrics :=
  on_produce_latency_seconds (histogram_observe latency).
Definition record_dedup_hit : GatewayMetrics -> GatewayMetrics := on_dedup_hits_total counter_inc.
Definition record_forward (outcome : string) : GatewayMetrics -> GatewayMetrics := on_forward_total (get_or_create outcome counter_inc).
Definition record_txn (kind : string) : GatewayMetrics -> GatewayMetrics := on_txn_total (get_or_create kind counter_inc).
Definition set_owned_partitions (n : Z) : GatewayMetrics -> GatewayMetrics := on_owned_partitions (gauge_set n).
Definition inc_active_subscriptions : GatewayMetrics -> GatewayMetrics := on_active_subscriptions gauge_inc.
Definition dec_active_subscriptions : GatewayMetrics -> GatewayMetrics := on_active_subscriptions gauge_dec.
Definition record_webhook_in (result : string) : GatewayMetrics -> GatewayMetrics := on_webhook_in_total (get_or_create result counter_inc).
Definition record_webhook_out (result : string) : GatewayMetrics -> GatewayMetrics := on_webhook_out_total (get_or_create result counter_inc).
Definition record_webhook_retry : GatewayMetrics -> GatewayMetrics := on_webhook_retries_total counter_inc.
Definition record_dead_letter : GatewayMetrics -> GatewayMetrics := on_dead_letter_total counter_inc.
Definition observe_request_duration (method : string) (latency : f64) : GatewayMetrics -> GatewayMetrics :=
  on_request_duration_seconds (get_or_create method (histogram_observe latency)).
Definition inc_inflight : GatewayMetrics -> GatewayMetrics := on_inflight_requests gauge_inc.
Definition dec_inflight : GatewayMetrics -> GatewayMetrics := on_inflight_requests gauge_dec.

Record RequestGuard := { g_method : string; g_start : Instant }.
Definition begin_request (method : string) (now : Instant) (x : GatewayMetrics) : GatewayMetrics * RequestGuard :=
  (inc_inflight x, {| g_method := method; g_start := now |}).
Definition guard_drop (g : RequestGuard) (now : Instant) (x : GatewayMetrics) : GatewayMetrics :=
  dec_inflight (observe_request_duration (g_method g) (elapsed_secs (g_start g) now) x).

(** ** Histories *)

(** What the code calls on the bundle; the guard of a [Drop] is the one the
    [i]th [Begin] made. *)
Inductive Op :=
| RecordSend (result : string)
| ObserveProduceLatency (latency : f64)
| RecordDedupHit
| RecordForward (outcome : string)
| RecordTxn (kind : string)
| SetOwnedPartitions (n : Z)
| IncActiveSubscriptions
| DecActiveSubscriptions
| RecordWebhookIn (result : string)
| RecordWebhookOut (result : string)
| RecordWebhookRetry
| RecordDeadLetter
| Begin (method : string) (now : Instant)
| Drop (i : nat) (now : Instant).

(** The bundle, and the guards by the number of their [Begin], with whether each
    is live.  [None] is a drop of no live guard. *)
Record MetricsState := { bundle : GatewayMetrics; guards : list (RequestGuard * bool) }.
Definition metrics_start : MetricsState := {| bundle := GatewayMetrics_new; guards := [] |}.

Definition on_bundle (f : GatewayMetrics -> GatewayMetrics) (s : MetricsState) : MetricsState :=
  {| bundle := f (bundle s); guards := guards s |}.

Definition metrics_step (s : MetricsState) (op : Op) : option MetricsState :=
  match op with
  | RecordSend l => Some (on_bundle (record_send l) s)
  | ObserveProduceLatency t => Some (on_bundle (observe_produce_latency t) s)
  | RecordDedupHit => Some (on_bundle record_dedup_hit s)
  | RecordForward l => Some (on_bundle (record_forward l) s)
  | RecordTxn l => Some (on_bundle (record_txn l) s)
  | SetOwnedPartitions n => Some (on_bundle (set_owned_partitions n) s)
  | IncActiveSubscriptions => Some (on_bundle inc_active_subscriptions s)
  | DecActiveSubscriptions => Some (on_bundle dec_active_subscriptions s)
  | RecordWebhookIn l => Some (on_bundle (record_webhook_in l) s)
  | RecordWebhookOut l => Some (on_bundle (record_webhook_out l) s)
  | RecordWebhookRetry => Some (on_bundle record_webhook_retry s)
  | RecordDeadLetter => Some (on_bundle record_dead_letter s)
  | Begin method now =>
      let '(x, g) := begin_request method now (bundle s) in Some {| bundle := x; guards := guards s ++ [(g, true)] |}
  | Drop i now =>
      match guards s !! i with
      | Some (g, true) => Some {| bundle := guard_drop g now (bundle s); guards := <[i := (g, false)]> (guards s) |}
      | _ => None
      end
  end.

Fixpoint metrics_run (s : MetricsState) (ops : list Op) : option MetricsState :=
  match ops with
  | [] => Some s
  | op :: ops => s ← metrics_step s op; metrics_run s ops
  end.
End Metrics.

(** ** What the series show *)

Section Tally.
  Context `{PrometheusLaws} `{Seconds}.

(** The series that only count calls. *)
Inductive Series :=
| Sends (l : string) | ProduceLatency | DedupHits | Forwards (l : string) | Txns (l : string)
| WebhookIn (l : string) | WebhookOut (l : string) | WebhookRetries | DeadLetters.

Definition series_get (sr : Series) (x : GatewayMetrics) : Z :=
  match sr with
  | Sends l => counter_get (family_get l (sends_total x))
  | ProduceLatency => histogram_count (produce_latency_seconds x)
  | DedupHits => counter_get (dedup_hits_total x)
  | Forwards l => counter_get (family_get l (forward_total x))
  | Txns l => counter_get (family_get l (txn_total x))
  | WebhookIn l => counter_get (family_get l (webhook_in_total x))
  | WebhookOut l => counter_get (family_get l (webhook_out_total x))
  | WebhookRetries => counter_get (webhook_retries_total x)
  | DeadLetters => counter_get (dead_letter_total x)
  end.

Definition hit (sr : Series) (op : Op) : bool :=
  match sr, op with
  | Sends l, RecordSend l' | Forwards l, RecordForward l' | Txns l, RecordTxn l'
  | WebhookIn l, RecordWebhookIn l' | WebhookOut l, RecordWebhookOut l' => bool_decide (l = l')
  | ProduceLatency, ObserveProduceLatency _ | DedupHits, RecordDedupHit | WebhookRetries, RecordWebhookRetry
  | DeadLetters, RecordDeadLetter => true
  | _, _ => false
  end.
Definition hits (sr : Series) (ops : list Op) : nat := length (List.filter (hit sr) ops).

Lemma wrap_u64_step n m : wrap_u64 (wrap_u64 n + m) = wrap_u64 (n + m).
Proof. unfold wrap_u64. by rewrite Zplus_mod_idemp_l. Qed.
Lemma wrap_i64_step n m : wrap_i64 (wrap_i64 n + m) = wrap_i64 (n + m).
Proof.
  unfold wrap_i64. replace ((n + 2 ^ 63) mod 2 ^ 64 - 2 ^ 63 + m + 2 ^ 63) with ((n + 2 ^ 63) mod 2 ^ 64 + m) by lia.
  rewrite Zplus_mod_idemp_l. do 2 f_equal. lia.
Qed.

Lemma family_counter l l' fam :
  counter_get (family_get l (get_or_create l' counter_inc fam))
    = if bool_decide (l = l') then wrap_u64 (counter_get (family_get l fam) + 1) else counter_get (family_get l fam).
Proof. case_bool_decide as Hl; [subst; by rewrite family_same, counter_counts|by rewrite family_other]. Qed.

Lemma series_step sr s op s' : metrics_step s op = Some s' ->
  series_get sr (bundle s') = if hit sr op then wrap_u64 (series_get sr (bundle s) + 1) else series_get sr (bundle s).
Proof.
  destruct s as [[] gs]. destruct op; cbn [metrics_step]; try (intros [= <-]; destruct sr; cbn; rewrite ?family_counter; try done; by rewrite ?counter_counts, ?histogram_counts).
  cbn. destruct (gs !! i) as [[g []]|]; [|done..]. intros [= <-]. by destruct sr.
Qed.

Lemma series_run sr s ops s' : metrics_run s ops = Some s' -> series_get sr (bundle s) = wrap_u64 (series_get sr (bundle s)) ->
  series_get sr (bundle s') = wrap_u64 (series_get sr (bundle s) + Z.of_nat (hits sr ops)).
Proof.
  revert s. induction ops as [|op ops IH]; intros s; cbn [metrics_run].
  - intros [= <-] Hw. cbn. by rewrite Z.add_0_r.
  - intros (s1 & Hs1 & Hrun)%bind_Some Hw. pose proof (series_step sr s op s1 Hs1) as Hstep.
    rewrite (IH s1 Hrun); rewrite Hstep; unfold hits; cbn [List.filter]; destruct (hit sr op) eqn:Hh; cbn [length]; try done.
    + rewrite wrap_u64_step. f_equal. lia.
    + unfold wrap_u64. by rewrite Zmod_mod.
Qed.

Lemma series_start sr : series_get sr GatewayMetrics_new = 0.
Proof. destruct sr; cbn; rewrite ?family_starts; first [apply counter_starts|apply histogram_starts]. Qed.

(** *** Requests in flight *)

Definition live_guards (s : MetricsState) : nat := length (List.filter snd (guards s)).
Definition ended (method : string) (s : MetricsState) : nat :=
  length (List.filter (fun e => bool_decide (g_method e.1 = method) && negb e.2) (guards s)).
Definition in_flight (s : MetricsState) : Z := gauge_get (inflight_requests (bundle s)).
Definition durations (method : string) (s : MetricsState) : Z :=
  histogram_count (family_get method (request_duration_seconds (bundle s))).

Record guarded (s : MetricsState) : Prop := {
  gd_live : in_flight s = wrap_i64 (Z.of_nat (live_guards s));
  gd_ended : forall method, durations method s = wrap_u64 (Z.of_nat (ended method s));
}.

Lemma filter_insert {A} (f : A -> bool) l i x y : l !! i = Some x ->
  (length (List.filter f (<[i := y]> l)) + (if f x then 1 else 0) = length (List.filter f l) + (if f y then 1 else 0))%nat.
Proof.
  revert i. induction l as [|z l IH]; intros [|i]; cbn; try done.
  - intros [= ->]. destruct (f x), (f y); cbn; lia.
  - intros Hi. specialize (IH i Hi). destruct (f z); [exact (f_equal S IH)|exact IH].
Qed.

Lemma guarded_step s op s' : guarded s -> metrics_step s op = Some s' -> guarded s'.
Proof.
  intros [Hl He]. destruct s as [x gs]. destruct op; cbn [metrics_step]; try (intros [= <-]; destruct x; by constructor).
  - intros [= <-]. destruct x. constructor; unfold in_flight, durations, live_guards, ended in *; cbn in *.
    + rewrite gauge_rises, Hl, wrap_i64_step, List.filter_app, length_app. cbn. f_equal. lia.
    + intros method'. rewrite He, List.filter_app, length_app. cbn. rewrite andb_false_r. cbn. f_equal. lia.
  - cbn [guards bundle]. destruct (gs !! i) as [[g []]|] eqn:Hg; [|done..]. intros [= <-]. destruct x.
    pose proof (filter_insert snd gs i (g, true) (g, false) Hg) as Hlive. cbn in Hlive.
    constructor; unfold in_flight, durations, live_guards, ended in *; cbn in *.
    + rewrite gauge_falls, Hl. change (wrap_i64 ?a - 1) with (wrap_i64 a + -1). rewrite wrap_i64_step. f_equal. lia.
    + intros method. pose proof (filter_insert (fun e => bool_decide (g_method e.1 = method) && negb e.2) gs i (g, true) (g, false) Hg) as Hend.
      cbn in Hend. rewrite andb_false_r, andb_true_r in Hend. case_bool_decide as Hm.
      * subst method. rewrite family_same, histogram_counts, He, wrap_u64_step. f_equal. lia.
      * rewrite family_other, He by done. f_equal. lia.
Qed.

(** *** The other gauges *)

Definition delta (op : Op) : Z := match op with IncActiveSubscriptions => 1 | DecActiveSubscriptions => -1 | _ => 0 end.
Definition subscribed (ops : list Op) : Z := foldr (fun op n => delta op + n) 0 ops.
Definition owned (n : Z) (ops : list Op) : Z := foldl (fun n op => match op with SetOwnedPartitions m => m | _ => n end) n ops.
Definition subscriptions (s : MetricsState) : Z := gauge_get (active_subscriptions (bundle s)).

Lemma gauges_step s op s' : metrics_step s op = Some s' ->
  subscriptions s' = match delta op with 0 => subscriptions s | d => wrap_i64 (subscriptions s + d) end
  /\ gauge_get (owned_partitions (bundle s')) = owned (gauge_get (owned_partitions (bundle s))) [op].
Proof.
  destruct s as [[] gs]. unfold subscriptions.
  destruct op; cbn [metrics_step]; try (intros [= <-]; cbn; rewrite ?gauge_sets, ?gauge_rises, ?gauge_falls; done).
  cbn [guards]. destruct (gs !! i) as [[g []]|]; [|done..]. by intros [= <-].
Qed.

Lemma gauges_run s ops s' : metrics_run s ops = Some s' -> subscriptions s = wrap_i64 (subscriptions s) ->
  subscriptions s' = wrap_i64 (subscriptions s + subscribed ops)
  /\ gauge_get (owned_partitions (bundle s')) = owned (gauge_get (owned_partitions (bundle s))) ops.
Proof.
  revert s. induction ops as [|op ops IH]; intros s; cbn [metrics_run].
  - intros [= <-] Hw. cbn. by rewrite Z.add_0_r.
  - intros (s1 & Hs1 & Hrun)%bind_Some Hw. destruct (gauges_step s op s1 Hs1) as [Hsub Hown].
    assert (Hw1 : subscriptions s1 = wrap_i64 (subscriptions s + delta op)).
    { rewrite Hsub. destruct (delta op); [by rewrite Z.add_0_r|done..]. }
    destruct (IH s1 Hrun) as [-> ->].
    + rewrite Hw1. pose proof (wrap_i64_step (subscriptions s + delta op) 0) as Hw2. rewrite !Z.add_0_r in Hw2. by rewrite Hw2.
    + rewrite Hw1, wrap_i64_step, Hown. cbn [subscribed foldr]. split; [f_equal; unfold subscribed; lia|done].
Qed.

(** The metrics show what happened: after any history of recordings and
    requests, each counter is the number of its recordings and each duration
    histogram the number of requests of its method that ended, the in-flight
    gauge is the number of requests that have begun and not ended, and the other
    gauges are their sum or last value, all at their width. *)
Theorem metrics_tally ops s :
  metrics_run metrics_start ops = Some s ->
  (forall sr, series_get sr (bundle s) = wrap_u64 (Z.of_nat (hits sr ops))) /\
  in_flight s = wrap_i64 (Z.of_nat (live_guards s)) /\
  (forall method, durations method s = wrap_u64 (Z.of_nat (ended method s))) /\
  subscriptions s = wrap_i64 (subscribed ops) /\ gauge_get (owned_partitions (bundle s)) = owned 0 ops.
Proof.
  intros Hrun. assert (guarded s) as [Hlive Hended].
  { assert (guarded metrics_start) as Hg.
    { constructor; [apply gauge_starts|]. intros method. unfold durations. cbn. rewrite family_starts. apply histogram_starts. }
    revert Hg Hrun. generalize metrics_start. induction ops as [|op ops IH]; intros s0 Hg; cbn; [by intros [= <-]|].
    intros (s1 & Hs1 & Hr)%bind_Some. eapply IH; [|exact Hr]. by eapply guarded_step. }
  assert (subscriptions metrics_start = 0) as H0s by apply gauge_starts.
  destruct (gauges_run _ _ _ Hrun) as [Hsub Hown]; [by rewrite H0s|]. split_and!; [|done..| |].
  - intros sr. assert (series_get sr (bundle metrics_start) = 0) as Hst by apply series_start.
    rewrite (series_run sr _ _ _ Hrun); rewrite Hst; done.
  - by rewrite Hsub, H0s.
  - rewrite Hown. cbn. by rewrite gauge_starts.
Qed.
End Tally.

(** ** What [Send] records *)

Section SendRecords.
  Context `{RecordCodec} `{Authorizer} `{ClientDisplay} `{Prometheus} `{Seconds} (env : SendEnv).
  Context (identity : option Principal) (peer : option string).

Definition send_label (r : result GatewayError RecordOutcome) : string :=
  match r with
  | Ok o => if deduplicated o then "deduplicated" else "ok"
  | Err (Unauthorized _) => "unauthorized"
  | Err _ => "error"
  end.

(** The calls for the [i]th record, produced for [latency]. *)
Definition record_ops (acks : Acks) (latency : nat -> f64) (i : nat) (r : PbRecord) : list Op :=
  let rec := to_gateway_record r in
  if negb (allowed (effective identity) (effective_host peer) rec) then [RecordSend "unauthorized"]
  else [ObserveProduceLatency (latency i);
        RecordSend (send_label (match idempotency_key rec with
                                | Some _ => keyed_result env (effective identity) acks i rec
                                | None => plain_result env acks i rec
                                end))].

(** The calls of a request in the order of its records, whose guard is the [n]th;
    deliveries that complete in another order make the same calls. *)
Definition send_ops (acks : Z) (records : list PbRecord) (n : nat) (begun dropped : Instant) (latency : nat -> f64) : list Op :=
  [Begin "send" begun]
  ++ match producer_acks_from_pb acks with
     | Some a => concat (imap (record_ops a latency) records)
     | None => []
     end
  ++ [Drop n dropped].

(** What a result of the answer says. *)
Definition result_label (r : RecordResult) : string :=
  match rr_error r with
  | None => if rr_deduplicated r then "deduplicated" else "ok"
  | Some e => if ei_code e =? 7 then "unauthorized" else "error"
  end.

Lemma send_result_label r : result_label (send_result r) = send_label r.
Proof. destruct r as [o|e]; [done|]. destruct e; try done. by match goal with e : CodecError |- _ => destruct e end. Qed.

Lemma hits_app sr ops ops' : hits sr (ops ++ ops') = (hits sr ops + hits sr ops')%nat.
Proof. unfold hits. by rewrite List.filter_app, length_app. Qed.

Lemma hits_imap {A B} sr (f : nat -> A -> list Op) (g : nat -> A -> B) (p : B -> bool) l :
  (forall i x, hits sr (f i x) = if p (g i x) then 1 else 0)%nat -> hits sr (concat (imap f l)) = length (List.filter p (imap g l)).
Proof.
  revert f g. induction l as [|x l IH]; intros f g Hfg; [done|]. rewrite !imap_cons. cbn [concat List.filter]. rewrite hits_app, Hfg.
  rewrite (IH (f ∘ S) (g ∘ S)) by (intros; apply Hfg). by destruct (p (g 0%nat x)).
Qed.

Lemma filter_imap_nil {A B} (f : B -> bool) (g : nat -> A -> list B) l :
  (forall i x, List.filter f (g i x) = []) -> List.filter f (concat (imap g l)) = [].
Proof.
  revert g. induction l as [|x l IH]; intros g Hg; [done|]. rewrite imap_cons. cbn [concat]. rewrite List.filter_app, Hg. apply (IH (g ∘ S)).
  intros. apply Hg.
Qed.

Lemma record_hits a latency l i r :
  hits (Sends l) (record_ops a latency i r)
    = if bool_decide (result_label (record_result env (effective identity) (effective_host peer) a i r) = l) then 1%nat else 0%nat.
Proof.
  unfold record_ops, record_result. destruct (negb _).
  - unfold hits. cbn. change (result_label (denied_result (to_gateway_record r))) with "unauthorized".
    rewrite (bool_decide_ext ("unauthorized" = l) (l = "unauthorized")) by naive_solver. by case_bool_decide.
  - unfold hits. cbn. rewrite send_result_label. set (x := send_label _).
    rewrite (bool_decide_ext (x = l) (l = x)) by naive_solver. by case_bool_decide.
Qed.

(** [sends_total] counts what the callers were told: the recordings of a
    [Send] under a label are the results of its answer that say so, one for each
    record, and its request is counted in and out of the in-flight gauge once. *)
Theorem send_counted acks a records n begun dropped latency :
  producer_acks_from_pb acks = Some a ->
  exists results trace, send env identity peer acks records = Ok (results, trace) /\
    let ops := send_ops acks records n begun dropped latency in
    (forall l, hits (Sends l) ops = length (List.filter (fun r => bool_decide (result_label r = l)) results)) /\
    length results = length records /\
    List.filter (fun op => match op with Begin _ _ | Drop _ _ => true | _ => false end) ops = [Begin "send" begun; Drop n dropped].
Proof.
  intros Ha. destruct (send_unfold env identity peer acks a records Ha) as (st & [Hres _ _ _ _] & Hsend).
  rewrite Hsend. do 2 eexists. split; [done|]. cbn [SendWindow_drain results]. rewrite Hres. unfold send_ops. rewrite Ha. split_and!.
  - intros l. rewrite !hits_app. change (hits (Sends l) [Begin "send" begun]) with 0%nat. change (hits (Sends l) [Drop n dropped]) with 0%nat.
    rewrite (hits_imap (Sends l) _ _ (fun r => bool_decide (result_label r = l)) _ (record_hits a latency l)). cbn. lia.
  - by rewrite length_imap.
  - cbn. f_equal. rewrite List.filter_app. cbn. rewrite filter_imap_nil; [done|]. intros i r. unfold record_ops. by destruct (negb _).
Qed.
End SendRecords.

Module Registered.
#[export] Instance client : Prometheus := {|
  Counter := Z; counter_default := 0; counter_inc := fun c => wrap_u64 (c + 1); counter_get := fun c => c;
  Gauge := Z; gauge_default := 0; gauge_inc := fun g => wrap_i64 (g + 1); gauge_dec := fun g => wrap_i64 (g - 1);
  gauge_set := fun z _ => z; gauge_get := fun g => g;
  Histogram := list f64; histogram_new := fun _ => []; histogram_observe := fun v h => v :: h;
  histogram_count := fun h => wrap_u64 (Z.of_nat (length h));
  Family := fun M => (M * gmap string M)%type; family_new := fun M m => (m, ∅);
  get_or_create := fun M l f fam => (fam.1, <[l := f (default fam.1 (fam.2 !! l))]> fam.2);
  family_get := fun M l fam => default fam.1 (fam.2 !! l) |}.
#[export] Instance client_laws : PrometheusLaws.
Proof.
  constructor; try done.
  - intros v h. cbn [histogram_count histogram_observe client length]. rewrite wrap_u64_step. f_equal. lia.
  - intros M f l fam. unfold family_get, get_or_create, client. cbn [fst snd]. by rewrite lookup_insert_eq.
  - intros M f l l' fam Hl. unfold family_get, get_or_create, client. cbn [fst snd]. by rewrite lookup_insert_ne.
Qed.
#[export] Instance seconds : Seconds := {| Instant := Z; elapsed_secs := fun a b => f64_of_Z (b - a); millis_secs := fun ms => f64_of_Z ms |}.

Definition history : list Op :=
  [Begin "send" 0; RecordSend "ok"; Begin "webhook_in" 1; RecordSend "ok"; SetOwnedPartitions 4; RecordSend "error"; Drop 0 5;
   IncActiveSubscriptions; RecordWebhookIn "ok"; Begin "send" 7; SetOwnedPartitions 2].

Lemma metrics_tally_witness : exists s, metrics_run metrics_start history = Some s /\
  series_get (Sends "ok") (bundle s) = 2 /\ in_flight s = 2 /\ durations "send" s = 1 /\ subscriptions s = 1 /\
  gauge_get (owned_partitions (bundle s)) = 2.
Proof.
  assert (Hg : (fun s => (live_guards s, ended "send" s)) <$> metrics_run metrics_start history = Some (2, 1)%nat) by (vm_compute; reflexivity).
  apply fmap_Some in Hg as (s & Hs & [= Hg He]). exists s. split; [exact Hs|].
  destruct (metrics_tally history s Hs) as (Hser & Hfly & Hdur & Hsub & Hown).
  rewrite Hfly, Hdur, Hsub, Hown, <- Hg, <- He, (Hser (Sends "ok")). repeat split; vm_compute; reflexivity.
Defined.

Definition record (t : string) : PbRecord :=
  {| pb_topic := t; pb_key := None; pb_body := Some (BodyRaw (as_bytes "v")); pb_schema := None; pb_headers := [];
     pb_partition := None; pb_timestamp_ms := None; pb_idempotency_key := None |}.

Lemma send_counted_witness :
  let ops := send_ops (H:=RawCodec) (H0:=no_secret) sample_env None None 0 [record "jobs"; record "secret"] 0 10 20 (fun _ => f64_of_Z 1) in
  hits (Sends "ok") ops = 1%nat /\ hits (Sends "unauthorized") ops = 1%nat.
Proof.
  destruct (send_counted (H:=RawCodec) (H0:=no_secret) (H1:=plain_display) (H3:=seconds) sample_env None None 0 AcksAll
    [record "jobs"; record "secret"] 0 10 20 (fun _ => f64_of_Z 1) eq_refl) as (results & trace & Hsend & Hhits & _).
  cbn zeta. rewrite !Hhits. vm_compute in Hsend. injection Hsend as <- _. split; vm_compute; reflexivity.
Defined.
End Registered.
