(* ===== verification/Routes.v ===== *)
(** * The router

    [router] of [lib.rs], the routers of [health.rs], [forward.rs], [webhook.rs]
    and [metrics.rs], and how [run] of [bin/gateway.rs] merges them and lays the
    resolution of the principal over them.  A request reaches the handlers of
    [Webhook] and [Produce] with the extensions of its connection, as the layers
    left them.  Then: the routes do not overlap; who can reach the endpoint the
    replicas forward through; and that a bearer token opens it too. *)

From S2P Require Import Prelude.
From S2P Require Import RustStr.
From S2P Require Import RustNum.
From S2P Require Import Types.
From S2P Require Import Settings.
From S2P Require Import Dedup.
From S2P Require Import Produce.
From S2P Require Import Handlers.
From S2P Require Import Queue.
From S2P Require Import CloudEvents.
From S2P Require Import Webhook.
From S2P Require Import Outbound.
From S2P Require Import Access.
From S2P Require Import Startup.

(** ** Routes *)

Inductive Method := GET | HEAD | POST | OtherMethod (name : string).
#[export] Instance Method_eq_dec : EqDecision Method.
Proof. solve_decision. Defined.

(** [axum::routing::get] answers HEAD as well; a Connect route is given every
    method, and the library decides. *)
Inductive MethodRouter := RouteGet | RoutePost | RouteRpc.
Definition method_matches (r : MethodRouter) (m : Method) : bool :=
  match r, m with
  | RouteGet, (GET | HEAD) | RoutePost, POST | RouteRpc, _ => true
  | _, _ => false
  end.

Inductive Segment := Lit (s : string) | Param.

Inductive Endpoint :=
| SendRpc | SendStreamRpc | SubscribeRpc | QueueAcquireRpc | QueueAcknowledgeRpc | QueueRenewRpc
| Healthz | Readyz | ForwardIn | WebhookIn | ProduceIn | MetricsText.
#[export] Instance Endpoint_eq_dec : EqDecision Endpoint.
Proof. solve_decision. Defined.

Record Route := { rt_path : list Segment; rt_methods : MethodRouter; rt_endpoint : Endpoint }.
Definition route (path : list Segment) (methods : MethodRouter) (e : Endpoint) : Route :=
  {| rt_path := path; rt_methods := methods; rt_endpoint := e |}.

(** The paths are those the service definition gives the generated builder. *)
Definition rpc (name : string) (e : Endpoint) : Route := route [Lit "krabka.gateway.v1.Gateway"; Lit name] RouteRpc e.
Definition router : list Route :=
  [rpc "Send" SendRpc; rpc "SendStream" SendStreamRpc; rpc "Subscribe" SubscribeRpc;
   rpc "QueueAcquire" QueueAcquireRpc; rpc "QueueAcknowledge" QueueAcknowledgeRpc; rpc "QueueRenew" QueueRenewRpc].
Definition health_router : list Route := [route [Lit "healthz"] RouteGet Healthz; route [Lit "readyz"] RouteGet Readyz].
Definition forward_router : list Route := [route [Lit "internal"; Lit "v1"; Lit "forward"] RoutePost ForwardIn].
Definition webhook_router : list Route :=
  [route [Lit "v1"; Lit "webhooks"; Param] RoutePost WebhookIn; route [Lit "v1"; Lit "produce"; Param] RoutePost ProduceIn].
Definition metrics_router : list Route := [route [Lit "metrics"] RouteGet MetricsText].

(** [Router::merge] panics on two routes of one path that take the same
    method. *)
Definition segment_eqb (a b : Segment) : bool :=
  match a, b with Lit x, Lit y => bool_decide (x = y) | Param, Param => true | _, _ => false end.
Fixpoint path_eqb (a b : list Segment) : bool :=
  match a, b with
  | [], [] => true
  | x :: a, y :: b => segment_eqb x y && path_eqb a b
  | _, _ => false
  end.
Definition methods_overlap (a b : MethodRouter) : bool :=
  match a, b with RouteGet, RoutePost | RoutePost, RouteGet => false | _, _ => true end.
Definition clash (a b : Route) : bool := path_eqb (rt_path a) (rt_path b) && methods_overlap (rt_methods a) (rt_methods b).
Definition merge (a b : list Route) : option (list Route) :=
  if existsb (fun r => existsb (clash r) b) a then None else Some (a ++ b).

Definition routes : option (list Route) :=
  r ← merge router health_router; r ← merge r forward_router; r ← merge r webhook_router; merge r metrics_router.

(** ** Matching *)

(** The segments of a path, which starts with a slash. *)
Definition path_segments (path : string) : option (list string) :=
  match as_bytes path with
  | c :: rest => if bool_decide (c = "/"%char) then Some (map of_bytes (split_char "/"%char rest)) else None
  | [] => None
  end.

(** A parameter takes one segment that is not empty. *)
Fixpoint path_matches (pattern : list Segment) (path : list string) : option (list string) :=
  match pattern, path with
  | [], [] => Some []
  | Lit s :: pattern, x :: path => if bool_decide (s = x) then path_matches pattern path else None
  | Param :: pattern, x :: path =>
      if bool_decide (x = EmptyString) then None else cons x <$> path_matches pattern path
  | _, _ => None
  end.

Inductive Routed := Reached (e : Endpoint) (params : list string) | NotFound | MethodNotAllowed.

Definition dispatch (rs : list Route) (m : Method) (path : string) : Routed :=
  match path_segments path with
  | None => NotFound
  | Some segments =>
      let found := omap (fun r => pair r <$> path_matches (rt_path r) segments) rs in
      match List.find (fun x => method_matches (rt_methods x.1) m) found with
      | Some (r, params) => Reached (rt_endpoint r) params
      | None => match found with [] => NotFound | _ => MethodNotAllowed end
      end
  end.

(** ** The service *)

(** What the handlers share; the codec is [RecordCodec].  [st_eff] is what the
    collaborators of the producing core answer. *)
Record AppState `{Units} `{JsonPath} := {
  st_core : ProduceCore;
  st_eff : Effects;
  st_config : GatewayConfig;
  st_authz : GatewayAuthz;
  st_queue : QueueSessionTable;
}.

(** A request as the layers see it: [rq_body] is [None] when it fails to
    arrive, [rq_validator] the extension a bearer token is checked with. *)
Record Request := {
  rq_method : Method;
  rq_path : string;
  rq_headers : HeaderMap;
  rq_body : option Bytes;
  rq_ext : Extensions;
  rq_validator : option Validator;
}.
Definition with_ext (ext : Extensions) (r : Request) : Request :=
  {| rq_method := rq_method r; rq_path := rq_path r; rq_headers := rq_headers r; rq_body := rq_body r; rq_ext := ext;
     rq_validator := rq_validator r |}.
Definition with_validator (v : Validator) (r : Request) : Request :=
  {| rq_method := rq_method r; rq_path := rq_path r; rq_headers := rq_headers r; rq_body := rq_body r; rq_ext := rq_ext r;
     rq_validator := Some v |}.

(** The answer, or the procedure that is called with the extensions. *)
Inductive Answer :=
| Rpc (e : Endpoint) (ext : Extensions)
| Hooked (r : Response)
| Forwarded (r : ForwardResponse)
| Text (st : Z) (content_type : option string) (text : string)
| Status (st : Z).

(** The extraction of a path parameter, which decodes percent signs, and the
    rest of what a moment decides: the clocks, readiness, the encoded metrics. *)
Class Axum := { decode_param : string -> option string }.
Record Moment := { m_now : Z; m_timing : Timing; m_ready : bool; m_metrics : result string string }.

(** [render] of [metrics.rs]. *)
Definition render (encoded : result string string) : Answer :=
  match encoded with
  | Ok text => Text OK (Some "application/openmetrics-text; version=1.0.0; charset=utf-8") text
  | Err e => Text INTERNAL_SERVER_ERROR None ("encode: " +:+ e)
  end.

Section Service.
  Context `{Quantities} `{Crypto} `{JsonPath} `{CeLib} `{HttpLib} `{RecordCodec} `{AclLib} `{ClientDisplay} `{CertLib}.
  Context `{Serde ForwardRecord} `{Axum}.

Definition Service := Request -> Answer.

Definition forward_request (st : AppState) (r : Request) : ForwardResponse :=
  let az : Authorizer := acl_authorizer (st_authz st) in
  forward_handler (st_core st) (st_eff st) (is_some (cfg_tls (st_config st)))
    (ext_principal (rq_ext r))
    (from_slice <$> to_bytes (rq_body r) (bytes_usize (forward_max_body (cfg_runtime (st_config st))))).

(** The parameter of a handler that takes one. *)
Definition with_param (params : list string) (k : string -> Answer) : Answer :=
  match params with
  | [p] => match decode_param p with Some p => k p | None => Status BAD_REQUEST end
  | _ => Status INTERNAL_SERVER_ERROR
  end.

Definition handle (st : AppState) (mo : Moment) (e : Endpoint) (params : list string) (r : Request) : Answer :=
  let ext := rq_ext r in
  let az : Authorizer := acl_authorizer (st_authz st) in
  match e with
  | Healthz => Status OK
  | Readyz => Status (if m_ready mo then OK else SERVICE_UNAVAILABLE)
  | MetricsText => render (m_metrics mo)
  | ForwardIn => Forwarded (forward_request st r)
  | WebhookIn => with_param params (fun name =>
      Hooked (webhook_handler (st_core st) (st_eff st) (cfg_webhooks (st_config st)) name
                (ext_peer ext) (rq_headers r) (rq_body r) (m_timing mo)))
  | ProduceIn => with_param params (fun topic =>
      Hooked (produce_handler (st_core st) (st_eff st)
                (produce_max_body (cfg_runtime (st_config st))) topic (ext_peer ext) (ext_principal ext) (rq_headers r) (rq_body r)))
  | e => Rpc e ext
  end.

Definition serve_routes (rs : list Route) (st : AppState) (mo : Moment) : Service := fun r =>
  match dispatch rs (rq_method r) (rq_path r) with
  | Reached e params => handle st mo e params r
  | NotFound => Status NOT_FOUND
  | MethodNotAllowed => Status 405
  end.

(** *** Layers *)

Definition auth_layer (now : Z) (next : Service) : Service := fun r =>
  next (with_ext (resolve_principal (rq_validator r) now (rq_headers r) (rq_ext r)) r).
Definition extension_layer (v : Validator) (next : Service) : Service := fun r => next (with_validator v r).

(** The application: the layer added last is the outermost.  [None] is the panic
    of a merge. *)
Definition app (st : AppState) (bearer : option Validator) (mo : Moment) : option Service :=
  rs ← routes;
  let service := auth_layer (m_now mo) (serve_routes rs st mo) in
  Some (match bearer with Some v => extension_layer v service | None => service end).

(** A request on a connection. *)
Definition on_connection (c : Connection) (m : Method) (path : string) (hs : HeaderMap) (body : option Bytes) : Request :=
  {| rq_method := m; rq_path := path; rq_headers := hs; rq_body := body; rq_ext := connection_extensions c; rq_validator := None |}.
End Service.

(** ** The routes do not overlap *)

(** Two patterns that no path matches both of. *)
Fixpoint apart (a b : list Segment) : bool :=
  match a, b with
  | [], [] => false
  | Lit x :: a, Lit y :: b => negb (bool_decide (x = y)) || apart a b
  | _ :: a, _ :: b => apart a b
  | _, _ => true
  end.

Lemma apart_sound a b path p q : apart a b = true -> path_matches a path = Some p -> path_matches b path = Some q -> False.
Proof.
  revert b path p q. induction a as [|[x|] a IH]; intros [|[y|] b] [|s path] p q; cbn; intros; try done;
    repeat (case_bool_decide; try done); repeat match goal with Hp : _ <$> _ = Some _ |- _ => apply fmap_Some in Hp as (? & Hp & _) end;
    simplify_eq/=; by eauto.
Qed.

Definition all_routes : list Route := router ++ health_router ++ forward_router ++ webhook_router ++ metrics_router.

Lemma routes_merged : routes = Some all_routes.
Proof. vm_compute. reflexivity. Qed.

Lemma routes_apart i j r s :
  all_routes !! i = Some r -> all_routes !! j = Some s -> i <> j -> apart (rt_path r) (rt_path s) = true.
Proof.
  assert (forallb (fun i => forallb (fun j => bool_decide (i = j)
    || match all_routes !! i, all_routes !! j with Some r, Some s => apart (rt_path r) (rt_path s) | _, _ => true end)
    (seq 0 12)) (seq 0 12) = true) as Hall by (vm_compute; reflexivity).
  intros Hi Hj Hne. rewrite forallb_forall in Hall.
  assert (forall k x, all_routes !! k = Some x -> In k (seq 0 12)) as Hin.
  { intros k x Hk%lookup_lt_Some. apply in_seq. vm_compute in Hk |- *. lia. }
  specialize (Hall i (Hin _ _ Hi)). rewrite forallb_forall in Hall. specialize (Hall j (Hin _ _ Hj)).
  rewrite Hi, Hj, bool_decide_eq_false_2 in Hall by done. exact Hall.
Qed.

(** A path is matched by the one route it was made for. *)
Lemma found_alone segments r params :
  r ∈ all_routes -> path_matches (rt_path r) segments = Some params ->
  omap (fun r => pair r <$> path_matches (rt_path r) segments) all_routes = [(r, params)].
Proof.
  intros [i Hi]%list_elem_of_lookup Hm. pose proof routes_apart as Hap. revert i Hi Hap. generalize all_routes as l.
  intros l i Hi Hap. rewrite <- (take_drop_middle l i r Hi), omap_app. cbn. rewrite Hm. cbn.
  assert (forall k s, l !! k = Some s -> k <> i -> path_matches (rt_path s) segments = None) as Hne.
  { intros k s Hk Hki. destruct (path_matches (rt_path s) segments) as [q|] eqn:Hq; [|done]. exfalso.
    by eapply (apart_sound (rt_path s) (rt_path r)); [eapply Hap|..]. }
  rewrite (omap_None_nil _ (take i l)), (omap_None_nil _ (drop (S i) l)); [done|..]; intros s [k Hk]%list_elem_of_lookup; cbn.
  - rewrite lookup_drop in Hk. by rewrite (Hne _ _ Hk) by lia.
  - apply lookup_take_Some in Hk as [Hk Hlt]. by rewrite (Hne _ _ Hk) by lia.
Qed.

(** ** What the application does with a request *)

Section Served.
  Context `{Quantities} `{Crypto} `{JsonPath} `{CeLib} `{HttpLib} `{RecordCodec} `{AclLib} `{ClientDisplay} `{CertLib}.
  Context `{Serde ForwardRecord} `{Axum}.
  Context (st : AppState) (bearer : option Validator) (mo : Moment).

(** The request as the handlers get it. *)
Definition resolved (r : Request) : Request :=
  let r := match bearer with Some v => with_validator v r | None => r end in
  with_ext (resolve_principal (rq_validator r) (m_now mo) (rq_headers r) (rq_ext r)) r.

Lemma app_serves : exists service, app st bearer mo = Some service
  /\ forall r, service r = serve_routes all_routes st mo (resolved r).
Proof. unfold app. rewrite routes_merged. cbn. unfold resolved. destruct bearer; (eexists; split; [reflexivity|done]). Qed.

Lemma resolved_meta r :
  rq_method (resolved r) = rq_method r /\ rq_path (resolved r) = rq_path r /\ rq_body (resolved r) = rq_body r.
Proof. unfold resolved. by destruct bearer. Qed.

Lemma resolved_conn c m path hs body :
  rq_ext (resolved (on_connection c m path hs body)) = resolve_principal bearer (m_now mo) hs (connection_extensions c).
Proof. unfold resolved. by destruct bearer. Qed.

(** A request reaches the handler its path was mounted for, and only that
    one: the five routers merge without a clash; a path that matches a route of
    theirs is answered by that route's handler, or with 405 under another method,
    whatever else is mounted; any other path with 404.  The handler sees the
    principal that the bearer token, checked with the configured validator, or
    else the connection gave the request. *)
Theorem requests_routed : exists service, app st bearer mo = Some service
  /\ forall r segments, path_segments (rq_path r) = Some segments ->
       (forall route params, route ∈ all_routes -> path_matches (rt_path route) segments = Some params ->
          service r = if method_matches (rt_methods route) (rq_method r)
                      then handle st mo (rt_endpoint route) params (resolved r) else Status 405)
       /\ ((forall route, route ∈ all_routes -> path_matches (rt_path route) segments = None) -> service r = Status NOT_FOUND).
Proof.
  destruct app_serves as (service & Happ & Hs). exists service. split; [done|]. intros r segments Hp.
  destruct (resolved_meta r) as (Hm & Hpath & _). split.
  - intros route params Hin Hmt. rewrite Hs. unfold serve_routes, dispatch. rewrite Hpath, Hp, (found_alone _ _ _ Hin Hmt), Hm. cbn.
    by destruct (method_matches _ _).
  - intros Hnone. rewrite Hs. unfold serve_routes, dispatch. rewrite Hpath, Hp, omap_None_nil; [done|].
    intros route Hin. by rewrite (Hnone route Hin).
Qed.

(** *** The endpoint the replicas forward through *)

Definition FORWARD_PATH : string := "/internal/v1/forward".

Lemma serve_forward r :
  rq_method r = POST -> rq_path r = FORWARD_PATH -> serve_routes all_routes st mo r = Forwarded (forward_request st r).
Proof.
  intros Hm Hp. unfold serve_routes. rewrite Hm, Hp.
  by replace (dispatch all_routes POST FORWARD_PATH) with (Reached ForwardIn []) by (vm_compute; reflexivity).
Qed.

(** Only the route of the endpoint answers so. *)
Lemma forwarded_request r resp : serve_routes all_routes st mo r = Forwarded resp -> resp = forward_request st r.
Proof.
  unfold serve_routes. destruct (dispatch _ _ _) as [[] params| |]; cbn; try done; try (by intros [= <-]).
  - unfold with_param. by destruct params as [|p [|]]; [|destruct (decode_param p)|].
  - unfold with_param. by destruct params as [|p [|]]; [|destruct (decode_param p)|].
  - by destruct (m_metrics mo).
Qed.

(** What a forward that was produced says of its request. *)
Lemma forward_produced r res :
  body (forward_request st r) = Ok res -> fres_error res = None -> is_some (cfg_tls (st_config st)) = true ->
  is_Some (ext_principal (rq_ext r)).
Proof.
  unfold forward_request, forward_handler. destruct (from_slice <$> _) as [[f|]|]; cbn; try done. intros Hb Hn Ht. rewrite Ht in Hb.
  cbn in Hb. case_bool_decide; [done|]. injection Hb as <-. done.
Qed.

(** C9.  With TLS, a forwarded record is produced only for a request with an
    identity: one whose connection has a client certificate, or one with a bearer
    token that the configured validator accepts. *)
Theorem forward_needs_identity service c m path hs payload resp res :
  app st bearer mo = Some service -> is_some (cfg_tls (st_config st)) = true ->
  service (on_connection c m path hs payload) = Forwarded resp -> body resp = Ok res -> fres_error res = None ->
  (exists peer cert certs name, c = TlsConn peer (Some (cert :: certs)) /\ extract_principal_from_cert cert = Some name)
  \/ exists v token p, bearer = Some v /\ bearer_token hs = Some token /\ v token (m_now mo) = Ok p.
Proof.
  intros Happ Ht Hr Hb He. destruct app_serves as (service' & Happ' & Hs). rewrite Happ' in Happ. injection Happ as <-.
  rewrite Hs in Hr. apply forwarded_request in Hr as ->. pose proof (forward_produced _ _ Hb He Ht) as Hp. rewrite resolved_conn in Hp.
  unfold resolve_principal in Hp. destruct bearer as [v|], (bearer_token hs) as [token|]; [destruct (v token (m_now mo)) as [p|] eqn:Hv| | |].
  1: right; by exists v, token, p.
  all: left; destruct c as [peer|peer [[|cert certs]|]]; cbn in Hp; try (by destruct Hp).
  all: unfold peer_principal in Hp; cbn in Hp; destruct (extract_principal_from_cert cert) as [n|] eqn:Hn; [|by destruct Hp].
  all: by exists peer, cert, certs, n.
Qed.

(** The wire form of what a local produce answers. *)
Definition produced_answer (r : result GatewayError RecordOutcome) : ForwardResponse :=
  match r with
  | Ok o => {| status := 200; body := Ok {| fres_partition := out_partition o; fres_offset := out_offset o;
                                            fres_deduplicated := deduplicated o; fres_error := None |} |}
  | Err e => refusal 200 (GatewayError_to_string e) (match e with Unavailable => true | _ => false end)
  end.

(** C39.  A bearer token opens the endpoint the replicas forward through.  On a
    connection without a client certificate, a token the validator accepts for
    some principal is enough: the record is produced for the caller that the body
    names, whom the ACLs are asked about in place of the token's principal. *)
Theorem bearer_opens_forward service v peer hs token p f payload :
  app st bearer mo = Some service -> bearer = Some v -> bearer_token hs = Some token -> v token (m_now mo) = Ok p ->
  to_vec f = Ok payload -> Z.of_nat (length payload) <= bytes_usize (forward_max_body (cfg_runtime (st_config st))) ->
  authorize_resource (st_authz st) (match fr_principal f with Some q => to_principal q | None => anonymous_principal end)
    unknown_host TopicResource (fr_topic f) Write = true ->
  service (on_connection (TlsConn peer None) POST FORWARD_PATH hs (Some payload))
  = Forwarded (produced_answer (produce_local (st_core st) (st_eff st) (into_record f))).
Proof.
  intros Happ Hb Htok Hv Hf Hlen Hauth. destruct app_serves as (service' & Happ' & Hs). rewrite Happ' in Happ. injection Happ as <-.
  rewrite Hs, serve_forward by (apply resolved_meta). f_equal. unfold forward_request. rewrite resolved_conn.
  unfold resolve_principal. rewrite Hb, Htok, Hv. destruct (resolved_meta (on_connection (TlsConn peer None) POST FORWARD_PATH hs (Some payload)))
    as (_ & _ & ->). cbn [on_connection rq_body to_bytes ext_principal]. rewrite (proj2 (Z.leb_le _ _) Hlen). cbn [fmap option_fmap option_map].
  rewrite (from_to_vec _ _ Hf). unfold forward_handler. rewrite bool_decide_eq_true_2 by done. rewrite andb_false_r.
  cbn [authorize acl_authorizer]. rewrite Hauth. cbn. by destruct (produce_local _ _ _).
Qed.
End Served.

(** ** A deployment with TLS, optional client certificates and bearer tokens *)

Module Exposed.
Import Hooks.
Import Pushes.
Import Launch.
Import Callers.
#[export] Existing Instance certs.
#[export] Existing Instance acls.
#[export] Existing Instance plain_display.

Definition fields (f : ForwardRecord) :=
  (fr_topic f, fr_key f, fr_value f, fr_headers f, fr_partition f, fr_timestamp_ms f, fr_idempotency_key f,
   (fun p => (fp_name p, fp_auth_method p, fp_groups p)) <$> fr_principal f).
Definition of_fields (x : string * option Bytes * Bytes * list (string * option Bytes) * option Z * option Z * option string
    * option (string * string * list string)) : ForwardRecord :=
  let '(t, k, v, hs, p, ts, i, pr) := x in
  {| fr_topic := t; fr_key := k; fr_value := v; fr_headers := hs; fr_partition := p; fr_timestamp_ms := ts;
     fr_idempotency_key := i; fr_principal := (fun '(n, m, g) => {| fp_name := n; fp_auth_method := m; fp_groups := g |}) <$> pr |}.
#[export] Instance forward_serde : Serde ForwardRecord.
Proof.
  refine {| to_vec f := Ok (bits_of (countable.encode (fields f)));
            from_slice b := of_fields <$> countable.decode (of_bits b) |}.
  intros f b [= <-]. rewrite of_bits_of, decode_encode. by destruct f as [? ? ? ? ? ? ? [[]|]].
Defined.
#[export] Instance axum : Axum := {| decode_param := Some |}.

Definition state (c : GatewayConfig) : AppState :=
  {| st_core := owner_core; st_eff := echo_effects; st_config := c; st_authz := az; st_queue := QueueSessionTable_default |}.
Definition mallory : Principal := {| pname := "mallory"; auth_method := SaslOAuthBearer; groups := [] |}.
Definition root : Principal := {| pname := "root"; auth_method := MTls; groups := [] |}.
Definition tokens : Validator := fun token _ => if bool_decide (token = "mallory-token") then Ok mallory else Err "unknown".
Definition moment : Moment :=
  {| m_now := 0; m_timing := {| read_in_time := true; produced_in_time := true; now := 0 |}; m_ready := true; m_metrics := Ok EmptyString |}.
Definition relayed : ForwardRecord := from_record sample_record root.
Definition payload : Bytes := bits_of (countable.encode (fields relayed)).
Definition bearing : HeaderMap := [("authorization", as_bytes "Bearer mallory-token")].

Lemma configured : exists c b, main args = Ok (c, b) /\ is_some b = true /\ is_some (cfg_tls c) = true
  /\ Z.of_nat (length payload) <= bytes_usize (forward_max_body (cfg_runtime c)).
Proof.
  assert ((fun x => (is_some x.2, is_some (cfg_tls x.1), Z.of_nat (length payload) <=? bytes_usize (forward_max_body (cfg_runtime x.1))))
    <$> main args = Ok (true, true, true)) as Hf by (vm_compute; reflexivity).
  destruct (main args) as [[c b]|e]; [|done]. cbn in Hf. injection Hf as Hb Ht Hl%Z.leb_le. by exists c, b.
Qed.

(** Nothing grants mallory the topic, and root is a super user. *)
Lemma bearer_opens_forward_witness : exists c b service,
  main args = Ok (c, b) /\ app (state c) (Some tokens) moment = Some service
  /\ authorize_resource az mallory unknown_host TopicResource (fr_topic relayed) Write = false
  /\ service (on_connection (TlsConn "203.0.113.9:4000" None) POST FORWARD_PATH bearing (Some payload))
     = Forwarded (produced_answer (produce_local (H:=RawCodec) owner_core echo_effects (into_record relayed))).
Proof.
  destruct configured as (c & b & Hm & _ & _ & Hl). destruct (app_serves (state c) (Some tokens) moment) as (service & Ha & _).
  exists c, b, service. split; [exact Hm|]. split; [exact Ha|]. split; [vm_compute; reflexivity|].
  exact (bearer_opens_forward (state c) (Some tokens) moment service tokens "203.0.113.9:4000" bearing "mallory-token" mallory relayed payload
    Ha eq_refl ltac:(vm_compute; reflexivity) ltac:(vm_compute; reflexivity) eq_refl Hl ltac:(vm_compute; reflexivity)).
Defined.

Lemma forward_needs_identity_witness : exists c b service resp res,
  main args = Ok (c, b) /\ app (state c) (Some tokens) moment = Some service
  /\ service (on_connection (TlsConn "10.0.0.2:4000" (Some [as_bytes "gw-1"])) POST FORWARD_PATH [] (Some payload)) = Forwarded resp
  /\ Produce.body resp = Ok res
  /\ ((exists peer cert certs name, TlsConn "10.0.0.2:4000" (Some [as_bytes "gw-1"]) = TlsConn peer (Some (cert :: certs))
           /\ extract_principal_from_cert cert = Some name)
      \/ exists v token p, Some tokens = Some v /\ bearer_token [] = Some token /\ v token (m_now moment) = Ok p).
Proof.
  destruct configured as (c & b & Hm & _ & Ht & Hl). destruct (app_serves (state c) (Some tokens) moment) as (service & Ha & Hs).
  pose (conn := TlsConn "10.0.0.2:4000" (Some [as_bytes "gw-1"])).
  pose (resp := produced_answer (produce_local (H:=RawCodec) owner_core echo_effects (into_record relayed))).
  assert (service (on_connection conn POST FORWARD_PATH [] (Some payload)) = Forwarded resp) as Hr.
  { rewrite Hs, serve_forward by (apply resolved_meta). f_equal. unfold forward_request. cbn [resolved on_connection rq_body to_bytes with_ext with_validator].
    cbn [st_config state]. rewrite Ht. rewrite (proj2 (Z.leb_le _ _) Hl). vm_compute. reflexivity. }
  eexists c, b, service, resp, _. split; [exact Hm|]. split; [exact Ha|]. split; [exact Hr|]. split; [reflexivity|].
  exact (forward_needs_identity (state c) (Some tokens) moment service conn POST FORWARD_PATH [] (Some payload) resp _
    Ha Ht Hr eq_refl eq_refl).
Defined.
End Exposed.
