(* ===== verification/Connect.v ===== *)
(** * The SDK's Connect client (app-sdk: connect_client.rs, error.rs)

    The envelope of Connect streams, the reader that takes a stream apart from
    the chunks the transport hands it, the unary call, and the errors of the
    SDK.  Paths are under [src/crates/app-sdk/src]. *)

From stdpp Require Import pretty.
From S2P Require Import Prelude.
From S2P Require Import RustStr.
From S2P Require Import Types.

(** ** Errors *)

(** [ConnectTrailerError]. *)
Record TrailerError := { te_code : string; te_message : string }.

(** The errors of the transport and of prost and serde_json carry the text of
    the library's error. *)
Inductive ConnectClientError :=
| InvalidEndpoint (m : string)
| Io (m : string)
| Hyper (m : string)
| Http (m : string)
| Prost (m : string)
| ProstEncode (m : string)
| JsonError (m : string)
| HttpStatus (status : Z) (m : string)
| ConnectFailure (code m : string)
| PartialFrame (needed : Z)
| CompressedFrame
| UnknownFrameFlags (flags : Z).

Definition from_trailer (e : TrailerError) : ConnectClientError := ConnectFailure (te_code e) (te_message e).

(** [{:#x}] of a byte. *)
Definition hex_digit (z : Z) : string := String (of_u8 (if z <? 10 then 48 + z else 87 + z)) EmptyString.
Definition hex_byte (z : Z) : string :=
  "0x" +:+ (if z <? 16 then EmptyString else hex_digit (z / 16)) +:+ hex_digit (z mod 16).

Definition ConnectClientError_to_string (e : ConnectClientError) : string :=
  match e with
  | InvalidEndpoint m => "invalid endpoint: " +:+ m
  | Io m => "io: " +:+ m
  | Hyper m => "hyper: " +:+ m
  | Http m => "http: " +:+ m
  | Prost m => "protobuf: " +:+ m
  | ProstEncode m => "protobuf encode: " +:+ m
  | JsonError m => "json: " +:+ m
  | HttpStatus s m => "http status " +:+ pretty s +:+ ": " +:+ m
  | ConnectFailure c m => "connect " +:+ c +:+ ": " +:+ m
  | PartialFrame n => "partial frame; need " +:+ pretty n +:+ " more bytes"
  | CompressedFrame => "compressed connect frames are unsupported"
  | UnknownFrameFlags f => "unknown connect frame flags " +:+ hex_byte f
  end.

Inductive KrabkaError :=
| Transport (m : string)
| Unauthenticated (m : string)
| InvalidArg (m : string)
| NotFound (m : string)
| ServerError (m : string)
| Unimplemented (module gated_on : string).
#[export] Instance KrabkaError_eq_dec : EqDecision KrabkaError.
Proof. solve_decision. Defined.

Definition from_connect_code (code m : string) : KrabkaError :=
  if bool_decide (code = "not_found") then NotFound m
  else if bool_decide (code ∈ ["invalid_argument"; "failed_precondition"; "out_of_range"]) then InvalidArg m
  else if bool_decide (code = "unauthenticated") then Unauthenticated m
  else if bool_decide (code ∈ ["unavailable"; "deadline_exceeded"]) then Transport m
  else ServerError m.

(** [From<ConnectClientError> for KrabkaError]. *)
Definition from_client_error (e : ConnectClientError) : KrabkaError :=
  match e with
  | ConnectFailure code m => from_connect_code code m
  | HttpStatus status m =>
      if status =? 400 then InvalidArg m
      else if status =? 401 then Unauthenticated m
      else if status =? 404 then NotFound m
      else if (status =? 408) || (status =? 429) || ((502 <=? status) && (status <=? 504)) then Transport m
      else ServerError m
  | other => Transport (ConnectClientError_to_string other)
  end.

(** ** The envelope *)

(** [serde_json::from_slice] of a trailer body and of an error body. *)
Class ConnectLib := {
  trailer_from_slice : Bytes -> result string (option TrailerError);
  error_from_slice : Bytes -> result string TrailerError;
}.

Definition MESSAGE_FLAGS : Z := 0.
Definition END_STREAM_FLAGS : Z := 2.

Inductive Frame := Message (body : Bytes) | EndStream (error : option TrailerError).

(** [u32::to_be_bytes] and [u32::from_be_bytes]. *)
Definition u32_to_be (n : Z) : Bytes :=
  [of_u8 (Z.shiftr n 24); of_u8 (Z.shiftr n 16); of_u8 (Z.shiftr n 8); of_u8 n].
Definition u32_from_be (b1 b2 b3 b4 : ascii) : Z :=
  Z.shiftl (u8 b1) 24 + Z.shiftl (u8 b2) 16 + Z.shiftl (u8 b3) 8 + u8 b4.

(** [None] is the panic of a message too long for the length field. *)
Definition encode (flags : Z) (message : Bytes) : option Bytes :=
  len ← try_u32 (Z.of_nat (length message));
  Some ([of_u8 flags] ++ u32_to_be len ++ message).

Section Stream.
  Context `{ConnectLib}.

(** A 32-bit length fits a 64-bit [usize] with five to spare. *)
Definition decode_next (input : Bytes) : result ConnectClientError (option (Frame * nat)) :=
  match input with
  | f :: b1 :: b2 :: b3 :: b4 :: rest =>
      let len := Z.to_nat (u32_from_be b1 b2 b3 b4) in
      if (length rest <? len)%nat then Ok None
      else
        let body := take len rest in
        let flags := u8 f in
        frame ← (if flags =? MESSAGE_FLAGS then Ok (Message body)
                 else if flags =? END_STREAM_FLAGS then
                   if bool_decide (body = []) then Ok (EndStream None)
                   else EndStream <$> map_err JsonError (trailer_from_slice body)
                 else if Z.land flags 1 =? 1 then Err CompressedFrame
                 else Err (UnknownFrameFlags flags));
        Ok (Some (frame, (5 + len)%nat))
  | _ => Ok None
  end.

Definition decode_one (input : Bytes) : result ConnectClientError Frame :=
  next ← decode_next input;
  match next with
  | Some (frame, _) => Ok frame
  | None => Err (PartialFrame 1)
  end.

(** ** The reader *)

(** [Resp::decode], and whether the receiver still takes the item of a number. *)
Context {Resp : Type} (decode : Bytes -> result string Resp) (open : nat -> bool).

Abbreviation Item := (result ConnectClientError Resp).

(** [tx.send], and whether it succeeded. *)
Definition send (sent : list Item) (i : Item) : list Item * bool :=
  if open (length sent) then (sent ++ [i], true) else (sent, false).
Definition decoded (m : Bytes) : Item := map_err Prost (decode m).

(** The inner loop: the items sent, and the rest of the buffer unless the
    reader is done; [None] is out of fuel. *)
Fixpoint drain (fuel : nat) (buffer : Bytes) (sent : list Item) : option (list Item * option Bytes) :=
  match fuel with
  | O => None
  | S fuel =>
      match decode_next buffer with
      | Err e => Some ((send sent (Err e)).1, None)
      | Ok None => Some (sent, Some buffer)
      | Ok (Some (frame, consumed)) =>
          let buffer := drop consumed buffer in
          match frame with
          | Message m =>
              let '(sent, ok) := send sent (decoded m) in
              if ok then drain fuel buffer sent else Some (sent, None)
          | EndStream (Some e) => Some ((send sent (Err (from_trailer e))).1, None)
          | EndStream None => Some (sent, None)
          end
      end
  end.

(** What a frame of the HTTP body is. *)
Inductive BodyFrame := Data (d : Bytes) | Trailers | BodyError (m : string).

Fixpoint read_loop (chunks : list BodyFrame) (buffer : Bytes) (sent : list Item) : option (list Item) :=
  match chunks with
  | [] => Some (if bool_decide (buffer = []) then sent else (send sent (Err (PartialFrame 1))).1)
  | BodyError m :: _ => Some (send sent (Err (Hyper m))).1
  | Trailers :: chunks => read_loop chunks buffer sent
  | Data d :: chunks =>
      drained ← drain (S (length (buffer ++ d))) (buffer ++ d) sent;
      match drained with
      | (sent, None) => Some sent
      | (sent, Some buffer) => read_loop chunks buffer sent
      end
  end.
Definition read_streaming_response (chunks : list BodyFrame) : option (list Item) := read_loop chunks [] [].
End Stream.

(** ** Calls *)

(** [Uri]: scheme and authority. *)
Class UriLib := { uri_parse : string -> result string (option string * option string) }.

Fixpoint trim_end_slashes (l : Bytes) : Bytes :=
  match l with
  | [] => []
  | c :: l => match trim_end_slashes l with
              | [] => if bool_decide (c = "/"%char) then [] else [c]
              | l' => c :: l'
              end
  end.

Definition uri_for `{UriLib} (endpoint path : string) : result ConnectClientError string :=
  let uri := of_bytes (trim_end_slashes (as_bytes endpoint)) +:+ path in
  parts ← map_err InvalidEndpoint (uri_parse uri);
  if negb (bool_decide (parts.1 = Some "http")) then Err (InvalidEndpoint "only plaintext http endpoints are supported")
  else if bool_decide (parts.2 = None) then Err (InvalidEndpoint "missing authority")
  else Ok uri.

Definition response_error `{ConnectLib} (status : Z) (body : Bytes) : ConnectClientError :=
  match error_from_slice body with
  | Ok e => from_trailer e
  | Err _ => HttpStatus status (from_utf8_lossy body)
  end.

(** An exchange: the status and the body, or the transport's failure. *)
Definition unary `{ConnectLib} `{UriLib} {Resp} (decode : Bytes -> result string Resp) (endpoint path : string)
    (exchange : result ConnectClientError (Z * Bytes)) : result ConnectClientError Resp :=
  _ ← uri_for endpoint path;
  answer ← exchange;
  if (200 <=? answer.1) && (answer.1 <=? 299) then map_err Prost (decode answer.2)
  else Err (response_error answer.1 answer.2).

(** A stream that could be opened delivers its items. *)
Definition streaming `{ConnectLib} `{UriLib} {Resp} (decode : Bytes -> result string Resp) (open : nat -> bool)
    (endpoint path : string) (exchange : result ConnectClientError (Z * list BodyFrame * Bytes))
    : result ConnectClientError (option (list (result ConnectClientError Resp))) :=
  _ ← uri_for endpoint path;
  answer ← exchange;
  let '(status, chunks, body) := answer in
  if (200 <=? status) && (status <=? 299) then Ok (read_streaming_response decode open chunks)
  else Err (response_error status body).

(** ** The reader is independent of the chunks *)

Section Reader.
  Context `{ConnectLib} {Resp : Type} (decode : Bytes -> result string Resp) (open : nat -> bool).

(** A decision on a prefix is final. *)
Lemma decode_next_app b x r : decode_next b = Ok (Some r) -> decode_next (b ++ x) = Ok (Some r) /\ (5 <= r.2 <= length b)%nat.
Proof.
  unfold decode_next. destruct b as [|f [|b1 [|b2 [|b3 [|b4 rest]]]]]; try done.
  cbn [app]. set (len := Z.to_nat (u32_from_be b1 b2 b3 b4)). destruct (Nat.ltb_spec (length rest) len); [done|].
  destruct (Nat.ltb_spec (length (rest ++ x)) len) as [Hlt|_]; [rewrite length_app in Hlt; lia|].
  rewrite take_app_le by lia. intros Hr. split; [exact Hr|]. apply bind_Ok in Hr as (frame & _ & [= <-]). simpl. lia.
Qed.

Lemma decode_next_app_err b x e : decode_next b = Err e -> decode_next (b ++ x) = Err e.
Proof.
  unfold decode_next. destruct b as [|f [|b1 [|b2 [|b3 [|b4 rest]]]]]; try done.
  cbn [app]. set (len := Z.to_nat (u32_from_be b1 b2 b3 b4)). destruct (Nat.ltb_spec (length rest) len); [done|].
  destruct (Nat.ltb_spec (length (rest ++ x)) len) as [Hlt|_]; [rewrite length_app in Hlt; lia|].
  by rewrite take_app_le by lia.
Qed.

(** Enough fuel is the length of the buffer and one more. *)
Lemma drain_fuel n m b sent : (length b < n)%nat -> (length b < m)%nat -> drain decode open n b sent = drain decode open m b sent.
Proof.
  revert m b sent. induction n as [|n IH]; intros [|m] b sent Hn Hm; try lia. simpl.
  destruct (decode_next b) as [[[frame c]|]|e] eqn:Hd; [|done..].
  apply (decode_next_app b []) in Hd as [_ Hc]. simpl in Hc.
  destruct frame as [body|[e|]]; [|done..]. destruct (send open sent _) as [sent' []]; [|done]. apply IH; rewrite length_drop; lia.
Qed.

Lemma drain_total n b sent : (length b < n)%nat -> exists r, drain decode open n b sent = Some r.
Proof.
  revert b sent. induction n as [|n IH]; intros b sent Hn; [lia|]. simpl.
  destruct (decode_next b) as [[[frame c]|]|e] eqn:Hd; [|by eauto..].
  apply (decode_next_app b []) in Hd as [_ Hc]. simpl in Hc.
  destruct frame as [body|[e|]]; [|by eauto..]. destruct (send open sent _) as [sent' []]; [|by eauto]. apply IH. rewrite length_drop. lia.
Qed.

(** Draining a longer buffer is draining what came first, then the rest. *)
Lemma drain_app n m k b x sent :
  (length b < n)%nat -> (length (b ++ x) < m)%nat -> (length (b ++ x) < k)%nat ->
  drain decode open m (b ++ x) sent =
    match drain decode open n b sent with
    | Some (sent', Some rest) => drain decode open k (rest ++ x) sent'
    | r => r
    end.
Proof.
  revert m k b sent. induction n as [|n IH]; intros [|m] k b sent Hn Hm Hk; try lia. simpl.
  destruct (decode_next b) as [[[frame c]|]|e] eqn:Hd.
  - apply (decode_next_app b x) in Hd as [Hd Hc]. rewrite Hd. simpl in Hc. rewrite drop_app_le by lia.
    destruct frame as [body|[e|]]; [|done..]. destruct (send open sent _) as [sent' []]; [|done].
    rewrite length_app in *. apply IH; rewrite ?length_app, ?length_drop; lia.
  - change (match decode_next (b ++ x) with | Ok (Some _) => _ | Ok None => _ | Err _ => _ end)
      with (drain decode open (S m) (b ++ x) sent). by apply drain_fuel.
  - by rewrite (decode_next_app_err b x e Hd).
Qed.

Definition data_of (chunks : list BodyFrame) : Bytes :=
  concat (map (fun c => match c with Data d => d | _ => [] end) chunks).
Definition undisturbed (c : BodyFrame) : Prop := match c with BodyError _ => False | _ => True end.

Lemma drain_rest n b sent sent' rest :
  drain decode open n b sent = Some (sent', Some rest) -> decode_next rest = Ok None /\ (length rest <= length b)%nat.
Proof.
  revert b sent. induction n as [|n IH]; intros b sent; [done|]. simpl.
  destruct (decode_next b) as [[[frame c]|]|e] eqn:Hd; [|by intros [= <- <-]|done].
  destruct frame as [body|[e|]]; [|done..]. destruct (send open sent _) as [s []]; [|done].
  intros [? Hle]%IH. split; [done|]. rewrite length_drop in Hle. lia.
Qed.

Lemma drain_pending n b sent : (0 < n)%nat -> decode_next b = Ok None -> drain decode open n b sent = Some (sent, Some b).
Proof. destruct n; [lia|]. simpl. by intros _ ->. Qed.

(** What the reader sends depends on the bytes alone. *)
Lemma read_loop_data chunks buffer sent :
  Forall undisturbed chunks -> decode_next buffer = Ok None ->
  read_loop decode open chunks buffer sent = read_loop decode open [Data (data_of chunks)] buffer sent.
Proof.
  intros Hc. revert buffer sent. induction Hc as [|c chunks Hc _ IH]; intros buffer sent Hb.
  - cbn [read_loop data_of map concat]. rewrite app_nil_r, drain_pending by (done || lia). done.
  - destruct c as [d| |m]; [|by apply IH|done]. cbn [read_loop]. set (x := data_of chunks).
    change (data_of (Data d :: chunks)) with (d ++ x). rewrite app_assoc.
    rewrite (drain_app (S (length (buffer ++ d))) _ (S (length ((buffer ++ d) ++ x))) (buffer ++ d) x) by lia.
    destruct (drain decode open (S (length (buffer ++ d))) (buffer ++ d) sent) as [[sent' [rest|]]|] eqn:Hd; [|done..].
    apply drain_rest in Hd as [Hr Hle]. cbn [mbind option_bind]. rewrite (IH rest sent' Hr). cbn [read_loop]. fold x.
    rewrite (drain_fuel (S (length (rest ++ x))) (S (length ((buffer ++ d) ++ x)))); [done|lia|].
    rewrite !length_app in *. lia.
Qed.

(** ** A stream of messages *)

Lemma u32_be_roundtrip n :
  0 <= n <= u32_max -> u32_from_be (of_u8 (Z.shiftr n 24)) (of_u8 (Z.shiftr n 16)) (of_u8 (Z.shiftr n 8)) (of_u8 n) = n.
Proof.
  unfold u32_from_be, u32_max. intros Hn. rewrite !u8_of_u8, !Z.shiftl_mul_pow2, !Z.shiftr_div_pow2 by lia.
  Z.div_mod_to_equations. lia.
Qed.

Lemma decode_encode flags m frame rest :
  encode flags m = Some frame ->
  decode_next (frame ++ rest) =
    f ← (if u8 (of_u8 flags) =? MESSAGE_FLAGS then Ok (Message m)
         else if u8 (of_u8 flags) =? END_STREAM_FLAGS then
           if bool_decide (m = []) then Ok (EndStream None) else EndStream <$> map_err JsonError (trailer_from_slice m)
         else if Z.land (u8 (of_u8 flags)) 1 =? 1 then Err CompressedFrame else Err (UnknownFrameFlags (u8 (of_u8 flags))));
    Ok (Some (f, length frame)).
Proof.
  unfold encode. intros (len & [-> Hlen]%try_range_Some & [= <-])%bind_Some. unfold u32_to_be. cbn [app decode_next].
  rewrite u32_be_roundtrip by done. rewrite Nat2Z.id, length_app.
  destruct (Nat.ltb_spec (length m + length rest) (length m)); [lia|]. by rewrite take_app_length.
Qed.

(** The items that the end of a stream gives. *)
Definition end_items (trailer : Bytes) : list (result ConnectClientError Resp) :=
  if bool_decide (trailer = []) then []
  else match trailer_from_slice trailer with
       | Ok None => []
       | Ok (Some e) => [Err (from_trailer e)]
       | Err m => [Err (JsonError m)]
       end.

Lemma send_open (sent : list (result ConnectClientError Resp)) i : (forall k, open k = true) -> send open sent i = (sent ++ [i], true).
Proof. intros Ho. unfold send. by rewrite Ho. Qed.

Lemma drain_messages frames trailer last rest msgs n sent :
  (forall k, open k = true) -> Forall2 (fun m f => encode MESSAGE_FLAGS m = Some f) msgs frames ->
  encode END_STREAM_FLAGS trailer = Some last -> (length (concat frames ++ last ++ rest) < n)%nat ->
  drain decode open n (concat frames ++ last ++ rest) sent = Some (sent ++ map (decoded decode) msgs ++ end_items trailer, None).
Proof.
  intros Ho Hf Hl. revert n sent. induction Hf as [|m f msgs frames Hm _ IH]; intros [|n] sent Hn; try lia; cbn [concat] in *.
  - cbn [app drain map]. rewrite (decode_encode _ _ _ rest Hl). simpl. unfold end_items.
    case_bool_decide as Ht; [by rewrite app_nil_r|]. destruct (trailer_from_slice trailer) as [[e|]|e]; simpl;
      by rewrite ?send_open, ?app_nil_r by done.
  - rewrite <- app_assoc in *. cbn [drain]. rewrite (decode_encode _ _ _ _ Hm). simpl. rewrite send_open by done.
    rewrite drop_app_length, IH; [by rewrite <- app_assoc|]. rewrite length_app in Hn.
    assert (0 < length f)%nat; [|lia]. unfold encode in Hm. apply bind_Some in Hm as (? & _ & [= <-]). simpl. lia.
Qed.
End Reader.

(** C22.  The client reads a stream as it was written, however the transport cuts
    it up: from any chunks whose bytes are framed messages and an end frame, it
    delivers each message decoded, in order, then the error of the end frame if
    it has one, and nothing of what follows. *)
Theorem stream_delivers_messages `{ConnectLib} {Resp} (decode : Bytes -> result string Resp) open msgs frames trailer last rest chunks :
  (forall k, open k = true) -> Forall2 (fun m f => encode MESSAGE_FLAGS m = Some f) msgs frames ->
  encode END_STREAM_FLAGS trailer = Some last -> Forall undisturbed chunks -> data_of chunks = concat frames ++ last ++ rest ->
  read_streaming_response decode open chunks = Some (map (decoded decode) msgs ++ end_items trailer).
Proof.
  intros Ho Hf Hl Hc Hd. unfold read_streaming_response. rewrite read_loop_data by done. cbn [read_loop]. rewrite Hd.
  by rewrite (drain_messages decode open frames trailer last rest msgs) by (done || simpl; lia).
Qed.

(** ** A stream of three messages, cut into single bytes *)

Module Letters.
Definition lib : ConnectLib :=
  {| trailer_from_slice := fun b => Ok (Some {| te_code := "unavailable"; te_message := of_bytes b |});
     error_from_slice := fun _ => Err "no" |}.
Definition msgs : list Bytes := [as_bytes "one"; []; as_bytes "two"].
Definition frames : list Bytes := map (fun m => default [] (encode MESSAGE_FLAGS m)) msgs.
Definition last : Bytes := default [] (encode END_STREAM_FLAGS (as_bytes "gone")).
Definition chunks : list BodyFrame := map (fun b => Data [b]) (concat frames ++ last ++ as_bytes "junk").

Lemma stream_delivers_messages_witness :
  read_streaming_response (H:=lib) Ok (fun _ => true) chunks
  = Some [Ok (as_bytes "one"); Ok []; Ok (as_bytes "two"); Err (ConnectFailure "unavailable" "gone")].
Proof.
  refine (stream_delivers_messages (H:=lib) Ok (fun _ => true) msgs frames (as_bytes "gone") last (as_bytes "junk") chunks
    (fun _ => eq_refl) _ _ _ _); [repeat constructor; reflexivity|reflexivity|repeat constructor|vm_compute; reflexivity].
Defined.
End Letters.
