(* ===== verification/Sdk.v ===== *)
(** * The application SDK: publishing and subscribing (app-sdk: client.rs, messaging.rs)

    The client and its in-memory backend, [publish], [publish_event] and
    [subscribe], the translation of a filter to the gateway's SQL, and how an
    answer of the gateway becomes a result or an error of the SDK.  The gateway's
    side of each exchange is that of [Handlers], [Filter] and [CloudEvents].
    Paths are under [src/crates/app-sdk/src]. *)

From stdpp Require Import pretty.
From S2P Require Import Prelude.
From S2P Require Import RustStr.
From S2P Require Import RustNum.
From S2P Require Import Connect.
From S2P Require Import Types.
From S2P Require Import Filter.
From S2P Require Import FilterText.
From S2P Require Import CloudEvents.
From S2P Require Import Produce.
From S2P Require Import Handlers.
From S2P Require Import Streaming.

(** ** client.rs *)

Record MockMessage := {
  mm_topic : string;
  mm_partition : Z;
  mm_offset : Z;
  mm_value : Bytes;
  mm_headers : list (string * option Bytes);
}.

Record MockQueueSession := { ms_id : string; ms_topic : string; ms_group : string; ms_max_messages : Z }.

Record MockQueueDelivery := { qd_topic : string; qd_partition : Z; qd_offset : Z }.
#[export] Instance MockQueueDelivery_eq_dec : EqDecision MockQueueDelivery.
Proof. solve_decision. Defined.

Inductive MockQueueDisposition := Available | Acquired (owner : string) | Accepted | Rejected.
#[export] Instance MockQueueDisposition_eq_dec : EqDecision MockQueueDisposition.
Proof. solve_decision. Defined.

Record MockQueueMessageState := {
  qs_group : string;
  qs_delivery : MockQueueDelivery;
  disposition : MockQueueDisposition;
  delivery_count : Z;
}.

Record MockState := {
  messages : list MockMessage;
  queue_sessions : list MockQueueSession;
  queue_states : list MockQueueMessageState;
}.
Definition MockState_default : MockState := {| messages := []; queue_sessions := []; queue_states := [] |}.

(** [ClientInner], without its Connect client, which holds the same two
    fields, and with the shared mock state passed along by the operations. *)
Record KrabkaClient := { endpoint : string; bearer : option string }.
Record KrabkaClientBuilder := { b_endpoint : option string; b_bearer : option string }.

Definition build (b : KrabkaClientBuilder) : result KrabkaError (KrabkaClient * MockState) :=
  endpoint ← ok_or (InvalidArg "endpoint is required") (b_endpoint b);
  Ok ({| endpoint := endpoint; bearer := b_bearer b |}, MockState_default).

Definition has_scheme (scheme : string) (c : KrabkaClient) : bool := bool_decide (is_Some (strip_prefix scheme (endpoint c))).
Definition is_mock : KrabkaClient -> bool := has_scheme "mock://".
Definition is_unreachable : KrabkaClient -> bool := has_scheme "unreachable://".

(** ** prost at a message type: what was encoded decodes *)

Class ProstMessage (A : Type) := {
  encode_to_vec : A -> Bytes;
  decode_message : Bytes -> result string A;
  decode_encoded : forall a, decode_message (encode_to_vec a) = Ok a;
}.

(** [pb::SendRequest] and [pb::SendResponse]. *)
Record SendRequest := { sq_records : list PbRecord; sq_acks : Z }.
Record SendResponse := { sp_results : list Handlers.RecordResult }.

(** ** Publishing *)

Record PublishOptions := {
  po_key : option Bytes;
  po_headers : list (string * option Bytes);
  po_partition : option Z;
  po_idempotency_key : option string;
}.
Definition PublishOptions_default : PublishOptions :=
  {| po_key := None; po_headers := []; po_partition := None; po_idempotency_key := None |}.

Record RecordResult := { res_partition : Z; res_offset : Z; res_deduplicated : bool }.

Definition record_result_from_pb (r : Handlers.RecordResult) : result KrabkaError RecordResult :=
  match rr_error r with
  | Some e =>
      let code := ei_code e in
      Err (from_connect_code (if code =? 3 then "invalid_argument" else if code =? 5 then "not_found"
                              else if code =? 7 then "unauthenticated" else if code =? 14 then "unavailable"
                              else "internal") (ei_message e))
  | None => Ok {| res_partition := rr_partition r; res_offset := rr_offset r; res_deduplicated := rr_deduplicated r |}
  end.

Definition headers_to_pb (hs : list (string * option Bytes)) : list (string * option Bytes) := map (fun h => (h.1, h.2)) hs.

(** [None] is the panic of a count that is no [i64]. *)
Definition publish_mock (topic : string) (v : Bytes) (options : PublishOptions) (st : MockState)
    : option (result KrabkaError RecordResult * MockState) :=
  if bool_decide (topic = EmptyString) then Some (Err (InvalidArg "topic is required"), st)
  else if bool_decide (topic = "__missing_topic") then Some (Err (NotFound "topic not found"), st)
  else
    offset ← try_i64 (Z.of_nat (length (List.filter (fun m => bool_decide (mm_topic m = topic)) (messages st))));
    let m := {| mm_topic := topic; mm_partition := 0; mm_offset := offset; mm_value := v; mm_headers := po_headers options |} in
    Some (Ok {| res_partition := 0; res_offset := offset; res_deduplicated := false |},
          {| messages := messages st ++ [m]; queue_sessions := queue_sessions st; queue_states := queue_states st |}).

Definition SEND_PATH : string := "/krabka.gateway.v1.Gateway/Send".

Definition publish_request (topic : string) (v : Bytes) (options : PublishOptions) : SendRequest :=
  {| sq_records := [{| pb_topic := topic; pb_key := po_key options; pb_body := Some (BodyRaw v);
                       pb_headers := headers_to_pb (po_headers options); pb_partition := po_partition options;
                       pb_timestamp_ms := None; pb_idempotency_key := po_idempotency_key options; pb_schema := None |}];
     sq_acks := 0 |}.

Section Publish.
  Context `{ConnectLib} `{UriLib} `{ProstMessage SendRequest} `{ProstMessage SendResponse}.
  (** The HTTP exchange of a request body: a status and a body. *)
  Context (exchange : Bytes -> result ConnectClientError (Z * Bytes)).

Definition publish (c : KrabkaClient) (topic : string) (v : Bytes) (options : PublishOptions) (st : MockState)
    : option (result KrabkaError RecordResult * MockState) :=
  if is_mock c then publish_mock topic v options st
  else
    Some (if is_unreachable c then Err (Transport "endpoint unreachable")
          else if bool_decide (topic = EmptyString) then Err (InvalidArg "topic is required")
          else
            response ← map_err from_client_error
                         (unary decode_message (endpoint c) SEND_PATH (exchange (encode_to_vec (publish_request topic v options))));
            match sp_results response with
            | [] => Err (ServerError "gateway returned no record result")
            | r :: _ => record_result_from_pb r
            end, st).

Record CloudEvent := {
  ce_id : string;
  ce_source : string;
  ce_type : string;
  ce_specversion : string;
  ce_datacontenttype : option string;
  ce_data : Bytes;
}.

Definition event_headers (e : CloudEvent) : list (string * option Bytes) :=
  [("ce_id", Some (as_bytes (ce_id e))); ("ce_source", Some (as_bytes (ce_source e)));
   ("ce_type", Some (as_bytes (ce_type e))); ("ce_specversion", Some (as_bytes (ce_specversion e)))]
  ++ match ce_datacontenttype e with
     | Some m => [("content-type", Some (as_bytes m))]
     | None => []
     end.

Definition publish_event (c : KrabkaClient) (topic : string) (e : CloudEvent) (st : MockState)
    : option (result KrabkaError RecordResult * MockState) :=
  if bool_decide (ce_id e = EmptyString) then Some (Err (InvalidArg "CloudEvent id is required"), st)
  else publish c topic (ce_data e)
         {| po_key := None; po_headers := event_headers e; po_partition := None; po_idempotency_key := None |} st.
End Publish.

(** ** Filters *)

(** [Filter], an equality on a path of the JSON value. *)
Record Filter := { path : string; expected_value : Json }.

(** serde_json prints a float with its own algorithm. *)
Class FloatDisplay := { float_to_string : f64 -> Bytes }.

(** [Display] of [serde_json::Number]. *)
Definition number_to_string `{FloatDisplay} (n : JsonNumber) : Bytes :=
  match n with PosInt z | NegInt z => print_int z | JFloat f => float_to_string f end.

(** [PartialEq] of [serde_json::Value]: numbers of different kinds differ, floats
    compare as floats, and objects as maps. *)
Definition number_eq (a b : JsonNumber) : bool :=
  match a, b with
  | PosInt a, PosInt b | NegInt a, NegInt b => a =? b
  | JFloat a, JFloat b => bool_decide (SFcompare a b = Some Eq)
  | _, _ => false
  end.

Fixpoint json_eq (a b : Json) {struct a} : bool :=
  match a, b with
  | JNull, JNull => true
  | JBool a, JBool b => Bool.eqb a b
  | JNumber a, JNumber b => number_eq a b
  | JString a, JString b => bool_decide (a = b)
  | JArray a, JArray b =>
      (fix elements a b := match a, b with
                           | [], [] => true
                           | x :: a, y :: b => json_eq x y && elements a b
                           | _, _ => false
                           end) a b
  | JObject a, JObject b =>
      (length a =? length b)%nat &&
      (fix entries a := match a with
                        | [] => true
                        | (k, x) :: a => match object_get b k with Some y => json_eq x y | None => false end && entries a
                        end) a
  | _, _ => false
  end.

(** [Value::get] by a key. *)
Definition value_get (v : Json) (k : Bytes) : option Json := o ← as_object v; object_get o k.
Fixpoint value_at (v : Json) (segments : list Bytes) : option Json :=
  match segments with
  | [] => Some v
  | s :: segments => w ← value_get v s; value_at w segments
  end.

Definition gateway_filter_literal `{FloatDisplay} (v : Json) : result KrabkaError Bytes :=
  match v with
  | JString s => Ok (quote :: double_quotes s ++ [quote])
  | JBool b => Ok (as_bytes (if b then "true" else "false"))
  | JNumber n => Ok (number_to_string n)
  | JNull => Ok (as_bytes "null")
  | JArray _ | JObject _ => Err (InvalidArg "filter value must be a string, number, boolean, or null")
  end.

Definition valid_filter_segment (segment : Bytes) : bool :=
  match segment with
  | [] => false
  | first :: rest =>
      (bool_decide (first = "_"%char) || is_alpha first) && forallb (fun c => bool_decide (c = "_"%char) || is_alnum c) rest
  end.

Definition to_gateway_filter `{FloatDisplay} (f : Filter) : result KrabkaError Bytes :=
  match strip_prefix "$." (path f) with
  | None => Err (InvalidArg "filter path must start with $.")
  | Some field =>
      let field := as_bytes field in
      if bool_decide (field = []) || negb (forallb valid_filter_segment (split_dots field))
      then Err (InvalidArg "filter path must contain identifier segments")
      else literal ← gateway_filter_literal (expected_value f); Ok (field ++ as_bytes " = " ++ literal)
  end.

Definition filter_matches `{JsonLib} (f : option Filter) (v : Bytes) : bool :=
  match f with
  | None => true
  | Some f =>
      match json_parse v, strip_prefix "$." (path f) with
      | Some json, Some field =>
          match value_at json (split_dots (as_bytes field)) with
          | Some w => json_eq w (expected_value f)
          | None => false
          end
      | _, _ => false
      end
  end.

(** ** Subscribing *)

Record Inbound := {
  i_topic : string;
  i_partition : Z;
  i_offset : Z;
  i_value : Bytes;
  i_headers : list (string * option Bytes);
}.

Definition inbound_from_pb (i : Streaming.Inbound) : Inbound :=
  {| i_topic := in_topic i; i_partition := in_partition i; i_offset := in_offset i; i_value := in_value i;
     i_headers := map (fun h => (h.1, h.2)) (in_headers i) |}.

Definition inbound_from_mock (m : MockMessage) : Inbound :=
  {| i_topic := mm_topic m; i_partition := mm_partition m; i_offset := mm_offset m; i_value := mm_value m;
     i_headers := mm_headers m |}.

Definition SUBSCRIBE_PATH : string := "/krabka.gateway.v1.Gateway/Subscribe".

Section Subscribe.
  Context `{ConnectLib} `{UriLib} `{ProstMessage SubscribeFrame} `{ProstMessage Streaming.Inbound} `{FloatDisplay} `{JsonLib}.
  (** The exchange of a start frame, and whether the application and the task
      that feeds it still take the item of a number. *)
  Context (exchange : Bytes -> result ConnectClientError (Z * list BodyFrame * Bytes)) (open taken : nat -> bool).

Abbreviation Items := (list (result KrabkaError Inbound)).

(** The task of a live subscription, item by item. *)
Fixpoint feed (sent : Items) (inbound : list (result ConnectClientError Streaming.Inbound)) : Items :=
  match inbound with
  | [] => sent
  | m :: inbound =>
      let mapped := match m with Ok i => Ok (inbound_from_pb i) | Err e => Err (from_client_error e) end in
      if taken (length sent) then feed (sent ++ [mapped]) inbound else sent
  end.

(** The items of the stream; [None] is out of fuel. *)
Definition subscribe_live (c : KrabkaClient) (topics : list string) (group : string) (filter : option Bytes)
    : result KrabkaError (option Items) :=
  if is_unreachable c then Err (Transport "endpoint unreachable")
  else if bool_decide (topics = []) then Err (InvalidArg "at least one topic is required")
  else if bool_decide (group = EmptyString) then Err (InvalidArg "group is required")
  else
    let request := Start group topics true (default [] filter) in
    Ok (match uri_for (endpoint c) SUBSCRIBE_PATH, Connect.encode MESSAGE_FLAGS (encode_to_vec request) with
        | Ok _, None => Some []                                 (** the task panics *)
        | _, frame =>
            match streaming decode_message open (endpoint c) SUBSCRIBE_PATH (exchange (default [] frame)) with
            | Ok inbound => inbound ← inbound; Some (feed [] inbound)
            | Err e => Some (if taken 0%nat then [Err (from_client_error e)] else [])
            end
        end).

(** The loop of a mock subscription into a channel of [room] more items: a full
    channel ends it. *)
Fixpoint fill (room : nat) (topics : list string) (filter : option Filter) (ms : list MockMessage) : Items :=
  match ms with
  | [] => []
  | m :: ms =>
      if negb (existsb (fun t => bool_decide (t = mm_topic m)) topics) then fill room topics filter ms
      else if negb (filter_matches filter (mm_value m)) then fill room topics filter ms
      else match room with
           | O => []
           | S room => Ok (inbound_from_mock m) :: fill room topics filter ms
           end
  end.

Definition subscribe (c : KrabkaClient) (topics : list string) (group : string) (filter : option Filter) (st : MockState)
    : result KrabkaError (option Items) :=
  gateway_filter ← match filter with
                   | None => Ok None
                   | Some f => Some <$> to_gateway_filter f
                   end;
  if negb (is_mock c) then subscribe_live c topics group gateway_filter
  else Ok (Some (fill (Nat.max (length (messages st)) 1) topics filter (messages st))).
End Subscribe.

(** ** A filter means the same to the mock and to the gateway *)

(** A number as serde_json has it. *)
Definition number_ok (n : JsonNumber) : Prop :=
  match n with PosInt z => 0 <= z <= u64_max | NegInt z => i64_min <= z < 0 | JFloat _ => True end.

(** The literal of a scalar other than a float. *)
Definition filter_literal (v : Json) : option FilterValue :=
  match v with
  | JString s => Some (FLString s)
  | JBool b => Some (FLBool b)
  | JNull => Some FLNull
  | JNumber (PosInt z) | JNumber (NegInt z) => Some (FLNumber (Integer z))
  | JNumber (JFloat _) | JArray _ | JObject _ => None
  end.

(** A field that the gateway does not convert before it compares it: it reads a
    text as a number when one is expected, compares floats with integers, and
    looks into tagged objects. *)
Definition plain_field (expected w : Json) : Prop :=
  match w with
  | JNull | JBool _ => True
  | JString _ => match expected with JNumber _ => False | _ => True end
  | JNumber (JFloat _) | JArray _ | JObject _ => False
  | JNumber n => number_ok n
  end.

Lemma segment_identifier s : valid_filter_segment s = is_identifier s.
Proof. by destruct s. Qed.

Lemma literal_printed `{FloatDisplay} v l : filter_literal v = Some l -> gateway_filter_literal v = Ok (print_value l).
Proof. destruct v as [|[]|[]| | |]; intros [= <-]; reflexivity. Qed.

Lemma from_number_int n z : n = PosInt z \/ n = NegInt z -> from_number n = Some (Integer z).
Proof. intros [->| ->]; unfold from_number; simpl; [|done]. by destruct (z <=? i64_max). Qed.

Lemma compare_equal c : compare_order Equal c = true <-> c = Eq.
Proof. by destruct c. Qed.

Lemma number_eq_int n m z : m = PosInt z \/ m = NegInt z -> number_eq n m = true -> n = m.
Proof. intros [->| ->]; destruct n; simpl; try done; intros ->%Z.eqb_eq; done. Qed.

(** What the mock accepts, the gateway accepts. *)
Lemma equal_field e l w :
  filter_literal e = Some l -> json_eq w e = true ->
  exists a, FieldValue_from_json w = Some a /\ FilterValue_matches l Equal a = true.
Proof.
  intros Hl Heq. destruct e as [|b|n|s| |]; try done; cbn in Hl.
  - injection Hl as <-. destruct w; try done. by exists FVNull.
  - injection Hl as <-. destruct w; try done. apply Bool.eqb_prop in Heq as ->. exists (FVBool b). cbn. by rewrite bool_decide_true.
  - assert (exists z, (n = PosInt z \/ n = NegInt z) /\ l = FLNumber (Integer z)) as (z & Hn & ->)
      by (destruct n; try done; injection Hl as <-; eauto).
    destruct w as [| |m| | |]; try done. apply (number_eq_int _ _ z Hn) in Heq as ->. exists (FVNumber (Integer z)).
    unfold FieldValue_from_json, from_scalar_json. rewrite (from_number_int _ z Hn). cbn. by rewrite Z.compare_refl.
  - injection Hl as <-. destruct w; try done. apply bool_decide_eq_true in Heq as ->. exists (FVString s).
    split; [done|]. by apply compare_equal, bytes_cmp_eq.
Qed.

(** On a plain field the gateway accepts no more than the mock. *)
Lemma equal_field_back e l w a :
  filter_literal e = Some l -> (forall n, e = JNumber n -> number_ok n) -> plain_field e w ->
  FieldValue_from_json w = Some a -> FilterValue_matches l Equal a = true -> json_eq w e = true.
Proof.
  intros Hl Hok Hw Ha Hm. destruct w as [|b|m|s| |]; try done; cbn in Ha.
  - injection Ha as <-. destruct e as [| |[]| | |]; cbn in Hl; simplify_eq; done.
  - injection Ha as <-. destruct e as [|c|[]| | |]; cbn in Hl; simplify_eq; try done. cbn in Hm |- *.
    apply bool_decide_eq_true in Hm as ->. apply Bool.eqb_reflx.
  - assert (exists z, (m = PosInt z \/ m = NegInt z)) as (z & Hz) by (destruct m; try done; eauto).
    unfold FieldValue_from_json, from_scalar_json in Ha. rewrite (from_number_int _ z Hz) in Ha. injection Ha as <-.
    destruct e as [|c|n| | |]; cbn in Hl; simplify_eq; try done. specialize (Hok n eq_refl).
    destruct n as [y|y|]; simplify_eq; cbn in Hm; apply compare_equal, Z.compare_eq in Hm as ->;
      destruct Hz as [->| ->]; cbn in *; try lia; apply Z.eqb_refl.
  - injection Ha as <-. destruct e as [|c|[]|t| |]; cbn in Hl; simplify_eq; try done. cbn in Hm |- *.
    apply compare_equal, bytes_cmp_eq in Hm as ->. by apply bool_decide_eq_true.
Qed.

Section FilterAgreement.
  Context `{FloatDisplay} `{JsonLib} (f : Filter) (name : string) (l : FilterValue).
  Context (Hpath : path f = "$." +:+ name) (Hid : is_identifier (as_bytes name) = true).
  Context (Hl : filter_literal (expected_value f) = Some l).

Lemma name_single : split_dots (as_bytes name) = [as_bytes name].
Proof.
  apply split_dots_word. apply identifier_wordy in Hid as [_ Hid']. eapply Forall_impl; [exact Hid'|].
  intros b Hb. unfold wordy. by rewrite Hb.
Qed.

Lemma filter_printed :
  to_gateway_filter f = Ok (print_predicate {| field := as_bytes name; operator := Equal; expected := l |}).
Proof.
  unfold to_gateway_filter. rewrite Hpath, strip_prefix_app. cbv zeta. rewrite name_single. cbn [forallb].
  rewrite segment_identifier, Hid, bool_decide_false by (by apply identifier_wordy in Hid as [? _]).
  cbn [orb negb andb]. rewrite (literal_printed _ l Hl). done.
Qed.

Lemma mock_filter_spec v :
  filter_matches (Some f) v = true <->
  exists o w, json_parse v = Some (JObject o) /\ object_get o (as_bytes name) = Some w /\ json_eq w (expected_value f) = true.
Proof.
  unfold filter_matches. rewrite Hpath, strip_prefix_app, name_single.
  destruct (json_parse v) as [j|]; [|by split; [|intros (? & ? & ? & _)]]. cbn [value_at]. unfold value_get.
  destruct j as [| | | | |o]; cbn [as_object mbind option_bind]; try (by split; [|intros (? & ? & [=] & _)]).
  destruct (object_get o (as_bytes name)) as [w|] eqn:Hw; cbn [mbind option_bind].
  - split; [by exists o, w|]. intros (? & ? & [= <-] & ? & ?). congruence.
  - split; [done|]. intros (? & ? & [= <-] & ? & ?). congruence.
Qed.

Lemma gateway_filter_spec sql v :
  sql <> [] ->
  matches_structured_json {| cf_sql := sql; cf_predicates := [{| field := as_bytes name; operator := Equal; expected := l |}] |} (Some v) = true
  <-> exists o w a, json_parse v = Some (JObject o) /\ object_get o (as_bytes name) = Some w /\
      FieldValue_from_json w = Some a /\ FilterValue_matches l Equal a = true.
Proof.
  intros Hsql. rewrite matches_meaning. cbn [cf_sql cf_predicates]. unfold holds. split.
  - intros [?|(_ & o & Ho & (w & a & ?)%Forall_singleton)]; [done|]. by exists o, w, a.
  - intros (o & w & a & Ho & Hw). right. split; [done|]. exists o. split; [done|]. apply Forall_singleton. by exists w, a.
Qed.
End FilterAgreement.

(** C17.  A filter of the SDK means the same to its mock and to the gateway.  An
    equality on a top-level field is turned into a text that the gateway
    compiles; every record the mock delivers the gateway delivers; and they
    agree on every record whose field the gateway does not convert before it
    compares. *)
Theorem sdk_filter_agrees `{FloatDisplay} `{JsonLib} f name :
  path f = "$." +:+ name -> is_identifier (as_bytes name) = true ->
  eq_ignore_ascii_case (as_bytes name) (as_bytes "AND") = false -> as_bytes name <> RESERVED_ROW_MARKER_FIELD ->
  is_Some (filter_literal (expected_value f)) -> (forall n, expected_value f = JNumber n -> number_ok n) ->
  exists sql cf, to_gateway_filter f = Ok sql /\ compile true sql = Ok cf /\
    (forall v, filter_matches (Some f) v = true -> matches_structured_json cf (Some v) = true) /\
    (forall v, (forall o w, json_parse v = Some (JObject o) -> object_get o (as_bytes name) = Some w ->
                  plain_field (expected_value f) w) ->
       filter_matches (Some f) v = matches_structured_json cf (Some v)).
Proof.
  intros Hpath Hid Hand Hmark [l Hl] Hnum.
  set (p := {| field := as_bytes name; operator := Equal; expected := l |}).
  assert (expressible p) as Hp.
  { split_and!; [done..|]. simpl. destruct (expected_value f) as [|[]|[]| | |]; simplify_eq/=; try done;
      specialize (Hnum _ eq_refl); simpl in Hnum; unfold i64_min, u64_max in *; lia. }
  exists (print_predicate p), {| cf_sql := print_predicate p; cf_predicates := [p] |}.
  assert (print_predicate p <> []) as Hne.
  { unfold print_predicate. simpl. destruct (as_bytes name); done. }
  assert (forall v, filter_matches (Some f) v = true ->
    matches_structured_json {| cf_sql := print_predicate p; cf_predicates := [p] |} (Some v) = true) as Hsound.
  { intros v (o & w & Ho & Hw & Heq)%(mock_filter_spec f name Hpath Hid). apply gateway_filter_spec; [done|].
    destruct (equal_field _ _ _ Hl Heq) as (a & Ha & Hm). by exists o, w, a. }
  split_and!; [by apply filter_printed|by apply compile_printed|exact Hsound|].
  intros v Hplain. apply eq_true_iff_eq. split; [apply Hsound|].
  intros (o & w & a & Ho & Hw & Ha & Hm)%gateway_filter_spec; [|done].
  apply (mock_filter_spec f name Hpath Hid). exists o, w. split_and!; [done..|]. by eapply equal_field_back; eauto.
Qed.

(** ** Publishing through the gateway *)

(** The record an application asks to publish. *)
Definition published (t : string) (v : Bytes) (o : PublishOptions) : GatewayRecord :=
  {| topic := t; key := po_key o; value := v; body_structured := None; headers := po_headers o;
     partition := po_partition o; timestamp_ms := None; idempotency_key := po_idempotency_key o |}.

(** How the gateway's errors appear to the application. *)
Definition sdk_error `{ClientDisplay} (e : GatewayError) : KrabkaError :=
  let m := GatewayError_to_string e in
  match e with
  | Unavailable | Codec (Registry _) => Transport m
  | Unauthorized _ => Unauthenticated m
  | Codec _ => InvalidArg m
  | _ => ServerError m
  end.

Lemma headers_to_pb_id hs : headers_to_pb hs = hs.
Proof. induction hs as [|[k v] hs IH]; simpl; [done|]. by f_equal. Qed.

Lemma request_record t v o : map to_gateway_record (sq_records (publish_request t v o)) = [published t v o].
Proof. unfold publish_request, published, to_gateway_record. cbn. by rewrite headers_to_pb_id. Qed.

Lemma send_result_from_pb `{ClientDisplay} r :
  record_result_from_pb (send_result r) =
    match r with
    | Ok o => Ok {| res_partition := out_partition o; res_offset := out_offset o; res_deduplicated := deduplicated o |}
    | Err e => Err (sdk_error e)
    end.
Proof. destruct r as [o|e]; [done|]. unfold send_result, error_result, record_result_from_pb. by destruct e as [| | | | |[]| | |]. Qed.

Section EndToEnd.
  Context `{ConnectLib} `{UriLib} `{ProstMessage SendRequest} `{ProstMessage SendResponse}.
  Context `{RecordCodec} `{Authorizer} `{ClientDisplay} (env : SendEnv) (identity : option Principal) (peer : option string).

(** The transport carries a request to the gateway and its answer back. *)
Definition connected (exchange : Bytes -> result ConnectClientError (Z * Bytes)) : Prop :=
  forall q rs trace, Handlers.send env identity peer (sq_acks q) (sq_records q) = Ok (rs, trace) ->
    exchange (encode_to_vec q) = Ok (200, encode_to_vec {| sp_results := rs |}).

(** What the gateway does with one record of this caller. *)
Definition gateway_outcome (r : GatewayRecord) : result GatewayError RecordOutcome :=
  if negb (allowed (effective identity) (effective_host peer) r) then Err (Unauthorized ("Write Topic:" +:+ topic r))
  else match idempotency_key r with
       | Some _ => keyed_result env (effective identity) AcksAll 0 r
       | None => plain_result env AcksAll 0 r
       end.

Lemma record_result_outcome r :
  record_result env (effective identity) (effective_host peer) AcksAll 0 r = send_result (gateway_outcome (to_gateway_record r)).
Proof. unfold record_result, gateway_outcome, denied_result. by destruct (negb (allowed _ _ _)). Qed.

(** C10.  What an application publishes through the gateway is what the gateway
    produces.  Over a transport that carries the exchange, [publish] of a live
    client has exactly the outcome of the one record it describes, topic, key,
    value, headers in order, partition and idempotency key unchanged: its
    coordinates when it is produced, and an error of the right class when it is
    not, a transport error for what may be retried, an authentication error for
    a denial, an invalid argument for a payload the schema rejects. *)
Theorem publish_end_to_end exchange c t v o st uri :
  connected exchange -> is_mock c = false -> is_unreachable c = false -> t <> EmptyString ->
  uri_for (endpoint c) SEND_PATH = Ok uri ->
  publish exchange c t v o st =
    Some (match gateway_outcome (published t v o) with
          | Ok r => Ok {| res_partition := out_partition r; res_offset := out_offset r; res_deduplicated := deduplicated r |}
          | Err e => Err (sdk_error e)
          end, st).
Proof.
  intros Hx Hm Hu Ht Huri. unfold publish. rewrite Hm, Hu, bool_decide_false by done.
  destruct (send_unfold env identity peer 0 AcksAll (sq_records (publish_request t v o)) eq_refl) as (ws & Hinv & Hsend).
  unfold unary. rewrite Huri, (Hx (publish_request t v o) _ _ Hsend). cbn [mbind result_bind fst snd].
  change ((200 <=? 200) && (200 <=? 299)) with true. cbn iota. rewrite decode_encoded. cbn [map_err mbind result_bind sp_results].
  cbn [SendWindow_drain results]. rewrite (inv_results _ _ _ _ _ _ Hinv). cbn [sq_records publish_request imap].
  rewrite record_result_outcome, send_result_from_pb. pose proof (request_record t v o) as [= Hr].
  cbn [sq_records publish_request map] in Hr. by rewrite Hr.
Qed.
End EndToEnd.

(** ** The mock log *)

(** [MockQueueDelivery::from] of a message: its coordinates. *)
Definition delivery_of (m : MockMessage) : MockQueueDelivery :=
  {| qd_topic := mm_topic m; qd_partition := mm_partition m; qd_offset := mm_offset m |}.

Definition on_topic (t : string) (ms : list MockMessage) : list MockMessage :=
  List.filter (fun m => bool_decide (mm_topic m = t)) ms.

(** Each message has partition 0 and the next offset of its topic. *)
Definition log_ok (ms : list MockMessage) : Prop :=
  forall ms1 m ms2, ms = ms1 ++ m :: ms2 -> mm_partition m = 0 /\ mm_offset m = Z.of_nat (length (on_topic (mm_topic m) ms1)).

Lemma publish_mock_log t v o st r st' :
  publish_mock t v o st = Some (r, st') -> log_ok (messages st) ->
  log_ok (messages st') /\ queue_sessions st' = queue_sessions st /\ queue_states st' = queue_states st /\
  (st' = st \/ exists m, messages st' = messages st ++ [m]).
Proof.
  unfold publish_mock. case_bool_decide; [by intros [= <- <-] ?; auto|]. case_bool_decide; [by intros [= <- <-] ?; auto|].
  intros (off & [-> _]%try_range_Some & [= <- <-])%bind_Some Hlog. cbn. split_and!; [|done..|eauto].
  intros ms1 m ms2 Heq. destruct ms2 as [|m2 ms2 _] using rev_ind.
  - apply app_inj_tail in Heq as [<- <-]. done.
  - rewrite app_comm_cons, app_assoc in Heq. apply app_inj_tail in Heq as [Heq _]. by eapply Hlog.
Qed.

Lemma log_coordinates ms : log_ok ms -> NoDup (map delivery_of ms).
Proof.
  induction ms as [|m ms IH] using rev_ind; intros Hlog; [constructor|]. rewrite map_app. apply NoDup_app. split_and!.
  - apply IH. intros ms1 x ms2 ->. apply (Hlog ms1 x (ms2 ++ [m])). by rewrite <- app_assoc.
  - intros d (x & -> & (ms1 & ms2 & ->)%list_elem_of_split)%list_elem_of_fmap Hd%list_elem_of_singleton.
    destruct (Hlog ms1 x (ms2 ++ [m])) as [_ Hx]; [by rewrite <- app_assoc|].
    destruct (Hlog (ms1 ++ x :: ms2) m []) as [_ Hm]; [done|]. injection Hd as Ht _ Ho. rewrite Ho, Ht in Hx. rewrite Hx in Hm.
    unfold on_topic in Hm. rewrite List.filter_app, length_app in Hm. cbn [List.filter] in Hm. rewrite Ht, bool_decide_true in Hm by done.
    cbn [length] in Hm. lia.
  - apply NoDup_singleton.
Qed.

(** A mock subscription delivers every message of its topics that the filter
    accepts, in the order of publication: its channel never fills. *)
Lemma fill_all `{JsonLib} room topics filter ms :
  (length ms <= room)%nat ->
  fill room topics filter ms =
    map (fun m => Ok (inbound_from_mock m))
      (List.filter (fun m => existsb (fun t => bool_decide (t = mm_topic m)) topics && filter_matches filter (mm_value m)) ms).
Proof.
  revert room. induction ms as [|m ms IH]; intros room Hr; [done|]. cbn [fill List.filter length] in *.
  destruct (existsb _ topics); cbn [negb andb]; [|apply IH; lia].
  destruct (filter_matches filter (mm_value m)); cbn [negb]; [|apply IH; lia].
  destruct room as [|room]; [lia|]. cbn [map]. by rewrite IH by lia.
Qed.

Lemma mock_subscribe_complete `{ConnectLib} `{UriLib} `{ProstMessage SubscribeFrame} `{ProstMessage Streaming.Inbound} `{FloatDisplay} `{JsonLib}
    exchange open taken c topics group filter st :
  is_mock c = true -> (forall f, filter = Some f -> is_ok (to_gateway_filter f) = true) ->
  subscribe exchange open taken c topics group filter st =
    Ok (Some (map (fun m => Ok (inbound_from_mock m))
      (List.filter (fun m => existsb (fun t => bool_decide (t = mm_topic m)) topics && filter_matches filter (mm_value m))
         (messages st)))).
Proof.
  intros Hc Hf. unfold subscribe. rewrite Hc. cbn [negb].
  destruct filter as [f|]; [specialize (Hf f eq_refl); destruct (to_gateway_filter f); [|done]|];
    cbn; by rewrite fill_all by lia.
Qed.

(** ** Events *)

Lemma ensure_ok b e : ensure b e = Ok () <-> b = true.
Proof. by destruct b. Qed.
Lemma ensure_all {A} (f : A -> bool) g l r :
  (_ ← try_map (fun x => ensure (f x) (g x)) l; r) = Ok () <-> forallb f l = true /\ r = Ok ().
Proof.
  induction l as [|x l IH]; cbn; [naive_solver|]. destruct (f x); cbn; [|naive_solver]. rewrite <- IH.
  by destruct (try_map _ l).
Qed.

(** Evaluates the comparisons of constant texts. *)
Ltac constant_texts :=
  repeat match goal with
  | |- context [bool_decide (?a = ?b :> string)] =>
      let r := eval vm_compute in (bool_decide (a = b)) in
      match r with true => idtac | false => idtac end; change (bool_decide (a = b)) with r
  end.

(** A published event is a CloudEvent to the gateway exactly when it has what
    binary mode requires; [publish_event] checks the id alone. *)
Lemma event_headers_valid e :
  is_utf8 (as_bytes (ce_id e)) = true -> is_utf8 (as_bytes (ce_source e)) = true ->
  is_utf8 (as_bytes (ce_type e)) = true -> is_utf8 (as_bytes (ce_specversion e)) = true ->
  (validate_binary_required (omap (fun h => (fun v => (h.1, v)) <$> h.2) (event_headers e)) = Ok () <->
   ce_id e <> EmptyString /\ ce_source e <> EmptyString /\ ce_type e <> EmptyString /\ ce_specversion e = "1.0").
Proof.
  intros H1 H2 H3 H4. destruct e as [i s t v m d]. cbn [ce_id ce_source ce_type ce_specversion] in *.
  unfold validate_binary_required. rewrite !ensure_all, ensure_ok.
  assert (forall x, negb (bool_decide (as_bytes x = [])) = true <-> x <> EmptyString) as Hne.
  { intros x. rewrite negb_true_iff, bool_decide_eq_false. by destruct x. }
  assert (bool_decide (Some (as_bytes v) = Some (as_bytes "1.0")) = true <-> v = "1.0") as Hv.
  { rewrite bool_decide_eq_true. split; [by intros Hv%(inj Some)%(inj as_bytes)|by intros ->]. }
  assert (v = "1.0" -> negb (bool_decide (as_bytes v = [])) = true) as Hvne by (by intros ->).
  rewrite <- !Hne, <- Hv. rewrite <- Hv in Hvne. clear Hne Hv.
  unfold event_headers, REQUIRED_ATTRIBUTES, CE_KAFKA_PREFIX. cbn [ce_id ce_source ce_type ce_specversion ce_datacontenttype].
  destruct m as [m|]; cbn [omap list_omap app fmap option_fmap option_map fst snd forallb existsb List.find];
    constant_texts; cbn iota; cbn [fmap option_fmap option_map snd]; rewrite H1, H2, H3, H4, ?orb_true_r;
    try change (starts_with (as_bytes "ce_") (as_bytes "content-type")) with false; cbn [andb orb negb];
    rewrite ?orb_false_r, ?andb_true_r, !andb_true_iff; tauto.
Qed.

(** ** Concrete libraries, and where the two readings differ *)

(** An encoding of any countable type, in binary. *)
Definition countable_prost {A} `{Countable A} : ProstMessage A.
Proof.
  refine {| encode_to_vec a := bits_of (countable.encode a);
            decode_message b := match countable.decode (of_bits b) with Some a => Ok a | None => Err "invalid" end |}.
  intros a. by rewrite of_bits_of, countable.decode_encode.
Defined.

#[export] Instance PbBody_eq_dec : EqDecision PbBody.
Proof. solve_decision. Defined.
#[export] Instance PbBody_countable : Countable PbBody :=
  inj_countable' (fun b => match b with BodyRaw r => inl r | BodyStructured j => inr j end)
    (fun s => match s with inl r => BodyRaw r | inr j => BodyStructured j end) ltac:(by intros []).
#[export] Instance PbSchemaSelector_eq_dec : EqDecision PbSchemaSelector.
Proof. solve_decision. Defined.
#[export] Instance PbSchemaSelector_countable : Countable PbSchemaSelector :=
  inj_countable' (fun s => (pbs_subject s, pbs_id s, pbs_format s))
    (fun '(a, b, c) => {| pbs_subject := a; pbs_id := b; pbs_format := c |}) ltac:(by intros []).
#[export] Instance PbRecord_eq_dec : EqDecision PbRecord.
Proof. solve_decision. Defined.
#[export] Instance PbRecord_countable : Countable PbRecord :=
  inj_countable' (fun r => (pb_topic r, pb_key r, pb_body r, pb_schema r, pb_headers r, pb_partition r, pb_timestamp_ms r, pb_idempotency_key r))
    (fun '(a, b, c, d, e, f, g, h) =>
       {| pb_topic := a; pb_key := b; pb_body := c; pb_schema := d; pb_headers := e; pb_partition := f; pb_timestamp_ms := g;
          pb_idempotency_key := h |}) ltac:(by intros []).
#[export] Instance SendRequest_eq_dec : EqDecision SendRequest.
Proof. solve_decision. Defined.
#[export] Instance SendRequest_countable : Countable SendRequest :=
  inj_countable' (fun q => (sq_records q, sq_acks q)) (fun '(a, b) => {| sq_records := a; sq_acks := b |}) ltac:(by intros []).
#[export] Instance ErrorInfo_eq_dec : EqDecision ErrorInfo.
Proof. solve_decision. Defined.
#[export] Instance ErrorInfo_countable : Countable ErrorInfo :=
  inj_countable' (fun e => (ei_code e, ei_message e, ei_retriable e))
    (fun '(a, b, c) => {| ei_code := a; ei_message := b; ei_retriable := c |}) ltac:(by intros []).
#[export] Instance GatewayResult_eq_dec : EqDecision Handlers.RecordResult.
Proof. solve_decision. Defined.
#[export] Instance GatewayResult_countable : Countable Handlers.RecordResult :=
  inj_countable' (fun r => (rr_partition r, rr_offset r, rr_deduplicated r, rr_error r))
    (fun '(a, b, c, d) => {| rr_partition := a; rr_offset := b; rr_deduplicated := c; rr_error := d |}) ltac:(by intros []).
#[export] Instance SendResponse_eq_dec : EqDecision SendResponse.
Proof. solve_decision. Defined.
#[export] Instance SendResponse_countable : Countable SendResponse :=
  inj_countable' sp_results (fun r => {| sp_results := r |}) ltac:(by intros []).

Module Apps.
Definition requests : ProstMessage SendRequest := countable_prost.
Definition responses : ProstMessage SendResponse := countable_prost.
Definition uris : UriLib := {| uri_parse := fun _ => Ok (Some "http", Some "gateway:8080") |}.
Definition floats : FloatDisplay := {| float_to_string := fun _ => as_bytes "0.5" |}.
(** The parser reads one object, and every other text as its own string. *)
Definition parser : JsonLib :=
  {| json_parse := fun b => Some (if bool_decide (b = as_bytes "o")
       then JObject [(as_bytes "kind", JString (as_bytes "it's")); (as_bytes "n", JString (as_bytes "7"))] else JString b);
     json_error := fun _ => "no" |}.

Definition client : KrabkaClient := {| endpoint := "http://gateway:8080/"; bearer := None |}.
Definition keep : Filter := {| path := "$.kind"; expected_value := JString (as_bytes "it's") |}.
Definition keyed : PublishOptions :=
  {| po_key := Some (as_bytes "k"); po_headers := [("h", None)]; po_partition := Some 3; po_idempotency_key := Some "once" |}.

(** A gateway behind a transport that answers every readable request. *)
Definition exchange (b : Bytes) : result ConnectClientError (Z * Bytes) :=
  match decode_message (ProstMessage:=requests) b with
  | Err m => Err (Prost m)
  | Ok q =>
      match Handlers.send (H:=RawCodec) (H0:=no_secret) (H1:=plain_display) sample_env None None (sq_acks q) (sq_records q) with
      | Ok (rs, _) => Ok (200, encode_to_vec (ProstMessage:=responses) {| sp_results := rs |})
      | Err e => Err (Http (connect_message e))
      end
  end.

Lemma sdk_filter_agrees_witness :
  exists sql cf, to_gateway_filter (H:=floats) keep = Ok sql /\ compile true sql = Ok cf /\
    filter_matches (H:=parser) (Some keep) (as_bytes "o") = matches_structured_json (H:=parser) cf (Some (as_bytes "o")).
Proof.
  destruct (sdk_filter_agrees (H:=floats) (H0:=parser) keep "kind" eq_refl eq_refl eq_refl
    ltac:(apply (bool_decide_unpack _); vm_compute; exact I) (ex_intro _ _ eq_refl) ltac:(discriminate))
    as (sql & cf & H1 & H2 & _ & H4).
  exists sql, cf. split_and!; [exact H1|exact H2|]. apply H4. intros o w Ho Hw. vm_compute in Ho. injection Ho as <-.
  vm_compute in Hw. injection Hw as <-. exact I.
Defined.

Lemma publish_end_to_end_witness :
  publish (H:=Letters.lib) (H0:=uris) (H1:=requests) (H2:=responses) exchange client "secret" (as_bytes "v") keyed MockState_default
    = Some (Err (Unauthenticated "not authorized: Write Topic:secret"), MockState_default)
  /\ publish (H:=Letters.lib) (H0:=uris) (H1:=requests) (H2:=responses) exchange client "jobs" (as_bytes "v") PublishOptions_default
       MockState_default
    = Some (Ok {| res_partition := 0; res_offset := 0; res_deduplicated := false |}, MockState_default).
Proof.
  assert (connected (H1:=requests) (H2:=responses) (H3:=RawCodec) (H4:=no_secret) (H5:=plain_display) sample_env None None exchange) as Hx.
  { intros q rs tr Hs. unfold exchange. rewrite decode_encoded, Hs. reflexivity. }
  split.
  - rewrite (publish_end_to_end (H:=Letters.lib) (H0:=uris) (H1:=requests) (H2:=responses) (H3:=RawCodec) (H4:=no_secret) (H5:=plain_display)
      sample_env None None exchange client "secret" (as_bytes "v") keyed MockState_default _ Hx eq_refl eq_refl ltac:(discriminate) eq_refl).
    vm_compute. reflexivity.
  - rewrite (publish_end_to_end (H:=Letters.lib) (H0:=uris) (H1:=requests) (H2:=responses) (H3:=RawCodec) (H4:=no_secret) (H5:=plain_display)
      sample_env None None exchange client "jobs" (as_bytes "v") PublishOptions_default MockState_default _ Hx eq_refl eq_refl
      ltac:(discriminate) eq_refl).
    vm_compute. reflexivity.
Defined.

(** The SDK takes a field called like a keyword, and the mock filters by it; the
    gateway refuses the text. *)
Lemma keyword_field_refused :
  exists sql e, to_gateway_filter (H:=floats) {| path := "$.and"; expected_value := JBool true |} = Ok sql /\ compile true sql = Err e.
Proof.
  exists (as_bytes "and = true"). destruct (compile true (as_bytes "and = true")) as [cf|e] eqn:He; [vm_compute in He; discriminate|].
  exists e. split; [vm_compute; reflexivity|done].
Qed.

(** The gateway reads a text as a number where one is expected; the mock does
    not. *)
Lemma numeric_text_differs :
  exists sql cf, to_gateway_filter (H:=floats) {| path := "$.n"; expected_value := JNumber (PosInt 7) |} = Ok sql /\
    compile true sql = Ok cf /\ matches_structured_json (H:=parser) cf (Some (as_bytes "o")) = true /\
    filter_matches (H:=parser) (Some {| path := "$.n"; expected_value := JNumber (PosInt 7) |}) (as_bytes "o") = false.
Proof.
  exists (as_bytes "n = 7"), {| cf_sql := as_bytes "n = 7";
    cf_predicates := [{| field := as_bytes "n"; operator := Equal; expected := FLNumber (Integer 7) |}] |}.
  split_and!; vm_compute; reflexivity.
Qed.
End Apps.
