(* ===== verification/SdkQueue.v ===== *)
(** * The application SDK: queues (app-sdk: stubs.rs)

    [QueuesClient]: acquire, acknowledge and renew, over the gateway and over the
    in-memory backend of [mock://] endpoints, whose leases the second half of the
    file is about.  Paths are under [src/crates/app-sdk/src]. *)

From stdpp Require Import pretty.
From S2P Require Import Prelude.
From S2P Require Import RustStr.
From S2P Require Import Connect.
From S2P Require Import Types.
From S2P Require Import Queue.
From S2P Require Import Sdk.

(** ** Requests and results *)

Record AcquireOptions := { ao_max : Z; ao_lock_duration_ms : Z; ao_wait_ms : Z }.
Definition AcquireOptions_default : AcquireOptions := {| ao_max := 1; ao_lock_duration_ms := 30000; ao_wait_ms := 1000 |}.

Record QueueMessage := {
  q_topic : string;
  q_partition : Z;
  q_offset : Z;
  q_value : option Bytes;
  q_headers : list (string * option Bytes);
  q_delivery_count : Z;
}.

Record QueueAcquireResult := { ar_session_id : string; ar_messages : list QueueMessage }.

Definition message_id (m : QueueMessage) : string := q_topic m +:+ ":" +:+ pretty (q_partition m) +:+ ":" +:+ pretty (q_offset m).

(** [From<pb::QueuedMessage>]. *)
Definition from_queued_message (m : QueuedMessage) : QueueMessage :=
  {| q_topic := qm_topic m; q_partition := qm_partition m; q_offset := qm_offset m; q_value := qm_value m;
     q_headers := map (fun h => (h.1, h.2)) (qm_headers m); q_delivery_count := qm_delivery_count m |}.

Inductive QueueAckType := AckAccept | AckRelease | AckReject.
Record QueueRenewEntry := { re_topic : string; re_partition : Z; re_offset : Z }.
Record QueueAckEntry := { ae_topic : string; ae_partition : Z; ae_offset : Z; ae_ack_type : QueueAckType }.

(** [From<QueueAckEntry> for pb::QueueAckEntry], and for a renewal, whose type is
    unspecified. *)
Definition ack_entry_to_pb (e : QueueAckEntry) : Queue.QueueAckEntry :=
  {| entry_topic := ae_topic e; entry_partition := ae_partition e; entry_offset := ae_offset e;
     entry_type := match ae_ack_type e with AckAccept => 1 | AckRelease => 2 | AckReject => 3 end |}.
Definition renew_entry_to_pb (e : QueueRenewEntry) : Queue.QueueAckEntry :=
  {| entry_topic := re_topic e; entry_partition := re_partition e; entry_offset := re_offset e; entry_type := 0 |}.

(** The coordinates of an entry, for the mock and in a result. *)
Definition delivery_of_ack (e : QueueAckEntry) : MockQueueDelivery :=
  {| qd_topic := ae_topic e; qd_partition := ae_partition e; qd_offset := ae_offset e |}.
Definition delivery_of_renew (e : QueueRenewEntry) : MockQueueDelivery :=
  {| qd_topic := re_topic e; qd_partition := re_partition e; qd_offset := re_offset e |}.
Definition renew_of_ack (e : QueueAckEntry) : QueueRenewEntry :=
  {| re_topic := ae_topic e; re_partition := ae_partition e; re_offset := ae_offset e |}.

Record QueueAckResult := { kr_entry : QueueRenewEntry; kr_error : option KrabkaError }.

Definition error_info_to_krabka (e : ErrorInfo) : KrabkaError :=
  let m := ei_message e in
  if ei_retriable e then Transport m
  else if (ei_code e =? 3) || (ei_code e =? 9) then InvalidArg m
  else if ei_code e =? 16 then Unauthenticated m
  else if ei_code e =? 5 then NotFound m
  else ServerError m.

(** [From<pb::QueueAckResult>]; the entry of a result is optional on the wire. *)
Record PbQueueAckResult := { pk_entry : option Queue.QueueAckEntry; pk_error : option ErrorInfo }.
Definition from_ack_result (r : PbQueueAckResult) : QueueAckResult :=
  let entry := default {| entry_topic := EmptyString; entry_partition := 0; entry_offset := 0; entry_type := 0 |} (pk_entry r) in
  {| kr_entry := {| re_topic := entry_topic entry; re_partition := entry_partition entry; re_offset := entry_offset entry |};
     kr_error := error_info_to_krabka <$> pk_error r |}.

Definition queue_result_error (e : QueueRenewEntry) (m : string) : QueueAckResult :=
  {| kr_entry := e; kr_error := Some (InvalidArg m) |}.

(** ** The mock backend *)

Definition session_expired : KrabkaError := InvalidArg "queue session expired; re-acquire".

Definition find_session (ss : list MockQueueSession) (id : string) : option MockQueueSession :=
  List.find (fun s => bool_decide (ms_id s = id)) ss.

Definition mock_session_name (n : nat) : string := "mock-queue-session-" +:+ pretty (Z.of_nat n).

Definition mock_session_id (ss : list MockQueueSession) (requested topic group : string) (requested_max effective_max : Z)
    : list MockQueueSession * result KrabkaError string :=
  if negb (bool_decide (requested = EmptyString)) then
    (ss, match find_session ss requested with
         | None => Err session_expired
         | Some s =>
             if negb (bool_decide (ms_topic s = topic)) || negb (bool_decide (ms_group s = group))
             then Err (InvalidArg "group_id and topics are fixed when a queue session is created")
             else if negb (requested_max =? 0) && negb (effective_max =? ms_max_messages s)
             then Err (InvalidArg "max_messages is fixed when a queue session is created")
             else Ok requested
         end)
  else
    let id := mock_session_name (length ss + 1) in
    (ss ++ [{| ms_id := id; ms_topic := topic; ms_group := group; ms_max_messages := effective_max |}], Ok id).

Definition of_key (group : string) (d : MockQueueDelivery) (q : MockQueueMessageState) : bool :=
  bool_decide (qs_group q = group) && bool_decide (qs_delivery q = d).

Definition state_of (l : list MockQueueMessageState) (group : string) (d : MockQueueDelivery) : option MockQueueMessageState :=
  List.find (of_key group d) l.

Definition mock_message_is_available (l : list MockQueueMessageState) (group : string) (m : MockMessage) : bool :=
  match state_of l group (delivery_of m) with
  | None => true
  | Some q => bool_decide (disposition q = Available)
  end.

Definition fresh_state (group : string) (d : MockQueueDelivery) : MockQueueMessageState :=
  {| qs_group := group; qs_delivery := d; disposition := Available; delivery_count := 0 |}.

(** [mock_queue_state_mut] with the assignment [f] through the reference it
    returns: the states and the one assigned. *)
Fixpoint mock_queue_state_mut (f : MockQueueMessageState -> MockQueueMessageState) (l : list MockQueueMessageState)
    (group : string) (d : MockQueueDelivery) : list MockQueueMessageState * MockQueueMessageState :=
  match l with
  | [] => let q := f (fresh_state group d) in ([q], q)
  | q :: l =>
      if of_key group d q then (f q :: l, f q)
      else let '(l, q') := mock_queue_state_mut f l group d in (q :: l, q')
  end.

(** [i32::saturating_add(1)] of a count, under the new owner. *)
Definition lease (session : string) (q : MockQueueMessageState) : MockQueueMessageState :=
  {| qs_group := qs_group q; qs_delivery := qs_delivery q; disposition := Acquired session;
     delivery_count := Z.min i32_max (delivery_count q + 1) |}.

Definition queue_message_from_mock (m : MockMessage) (count : Z) : QueueMessage :=
  {| q_topic := mm_topic m; q_partition := mm_partition m; q_offset := mm_offset m; q_value := Some (mm_value m);
     q_headers := mm_headers m; q_delivery_count := count |}.

Fixpoint lease_all (session group : string) (l : list MockQueueMessageState) (ms : list MockMessage)
    : list MockQueueMessageState * list QueueMessage :=
  match ms with
  | [] => (l, [])
  | m :: ms =>
      let '(l, q) := mock_queue_state_mut (lease session) l group (delivery_of m) in
      let '(l, out) := lease_all session group l ms in
      (l, queue_message_from_mock m (delivery_count q) :: out)
  end.

Definition acquire_mock (topic group : string) (options : AcquireOptions) (requested : string) (st : MockState)
    : result KrabkaError QueueAcquireResult * MockState :=
  let effective_max := clamp 1 500 (ao_max options) in
  match mock_session_id (queue_sessions st) requested topic group (ao_max options) effective_max with
  | (ss, Err e) => (Err e, {| messages := messages st; queue_sessions := ss; queue_states := queue_states st |})
  | (ss, Ok session) =>
      let delivered := take (Z.to_nat effective_max)
        (List.filter (mock_message_is_available (queue_states st) group)
          (List.filter (fun m => bool_decide (mm_topic m = topic)) (messages st))) in
      let '(states, out) := lease_all session group (queue_states st) delivered in
      (Ok {| ar_session_id := session; ar_messages := out |},
       {| messages := messages st; queue_sessions := ss; queue_states := states |})
  end.

Definition held_by (session group : string) (d : MockQueueDelivery) (q : MockQueueMessageState) : bool :=
  of_key group d q && bool_decide (disposition q = Acquired session).

Definition verdict (a : QueueAckType) : MockQueueDisposition :=
  match a with AckAccept => Accepted | AckRelease => Available | AckReject => Rejected end.

Definition with_disposition (q : MockQueueMessageState) (d : MockQueueDisposition) : MockQueueMessageState :=
  {| qs_group := qs_group q; qs_delivery := qs_delivery q; disposition := d; delivery_count := delivery_count q |}.

(** The first state the session holds of that key gets the verdict. *)
Fixpoint settle (session group : string) (d : MockQueueDelivery) (v : MockQueueDisposition) (l : list MockQueueMessageState)
    : option (list MockQueueMessageState) :=
  match l with
  | [] => None
  | q :: l => if held_by session group d q then Some (with_disposition q v :: l) else cons q <$> settle session group d v l
  end.

Fixpoint acknowledge_entries (session group : string) (l : list MockQueueMessageState) (es : list QueueAckEntry)
    : list MockQueueMessageState * list QueueAckResult :=
  match es with
  | [] => (l, [])
  | e :: es =>
      let '(l, r) := match settle session group (delivery_of_ack e) (verdict (ae_ack_type e)) l with
                     | None => (l, queue_result_error (renew_of_ack e) "queue message is not acquired")
                     | Some l => (l, {| kr_entry := renew_of_ack e; kr_error := None |})
                     end in
      let '(l, rs) := acknowledge_entries session group l es in
      (l, r :: rs)
  end.

Definition acknowledge_mock (session : string) (es : list QueueAckEntry) (st : MockState)
    : result KrabkaError (list QueueAckResult) * MockState :=
  match find_session (queue_sessions st) session with
  | None => (Err session_expired, st)
  | Some s =>
      let '(states, rs) := acknowledge_entries session (ms_group s) (queue_states st) es in
      (Ok rs, {| messages := messages st; queue_sessions := queue_sessions st; queue_states := states |})
  end.

Definition renew_mock (session : string) (es : list QueueRenewEntry) (st : MockState) : result KrabkaError (list QueueAckResult) :=
  match find_session (queue_sessions st) session with
  | None => Err session_expired
  | Some s =>
      Ok (map (fun e => if existsb (held_by session (ms_group s) (delivery_of_renew e)) (queue_states st)
                        then {| kr_entry := e; kr_error := None |}
                        else queue_result_error e "queue message is not acquired") es)
  end.

(** ** The client *)

Definition SUPPORTED_QUEUE_LOCK_DURATION_MS : Z := 30000.
Definition ACQUIRE_PATH : string := "/krabka.gateway.v1.Gateway/QueueAcquire".
Definition ACKNOWLEDGE_PATH : string := "/krabka.gateway.v1.Gateway/QueueAcknowledge".
Definition RENEW_PATH : string := "/krabka.gateway.v1.Gateway/QueueRenew".

(** [pb::QueueAcquireResponse], [pb::QueueAcknowledgeRequest] and its response,
    which are those of renewals too. *)
Record QueueAcquireResponse := { qr_session_id : string; qr_messages : list QueuedMessage }.
Record QueueAcknowledgeRequest := { kq_session_id : string; kq_entries : list Queue.QueueAckEntry }.
Record QueueAcknowledgeResponse := { kp_results : list PbQueueAckResult }.

Definition acquire_request (topic group : string) (options : AcquireOptions) (session : string) : QueueAcquireRequest :=
  {| qa_group_id := group; qa_topics := [topic]; qa_max_messages := ao_max options; qa_wait_ms := ao_wait_ms options;
     qa_session_id := session; qa_lock_duration_ms := ao_lock_duration_ms options |}.

Section Client.
  Context `{ConnectLib} `{UriLib} `{ProstMessage QueueAcquireRequest} `{ProstMessage QueueAcquireResponse}.
  Context `{ProstMessage QueueAcknowledgeRequest} `{ProstMessage QueueAcknowledgeResponse}.
  (** The HTTP exchange of a request body on a path. *)
  Context (exchange : string -> Bytes -> result ConnectClientError (Z * Bytes)) (c : KrabkaClient).

Definition acquire_with_session (topic group : string) (options : AcquireOptions) (session : string) (st : MockState)
    : result KrabkaError QueueAcquireResult * MockState :=
  if bool_decide (group = EmptyString) then (Err (InvalidArg "queue group is required"), st)
  else if bool_decide (topic = EmptyString) then (Err (InvalidArg "queue topic is required"), st)
  else if negb (ao_lock_duration_ms options =? SUPPORTED_QUEUE_LOCK_DURATION_MS)
  then (Err (InvalidArg "queue lock_duration_ms must be 30000; per-acquire lock durations are not supported"), st)
  else if is_mock c then acquire_mock topic group options session st
  else
    (if is_unreachable c then Err (Transport "endpoint unreachable")
     else
       response ← map_err from_client_error
                    (unary decode_message (endpoint c) ACQUIRE_PATH
                       (exchange ACQUIRE_PATH (encode_to_vec (acquire_request topic group options session))));
       Ok {| ar_session_id := qr_session_id response; ar_messages := map from_queued_message (qr_messages response) |}, st).

Definition acquire (topic group : string) (options : AcquireOptions) (st : MockState) :=
  acquire_with_session topic group options EmptyString st.

(** The exchange that [acknowledge] and [renew] share. *)
Definition settle_live (p : string) (session : string) (es : list Queue.QueueAckEntry) : result KrabkaError (list QueueAckResult) :=
  if is_unreachable c then Err (Transport "endpoint unreachable")
  else
    response ← map_err from_client_error
                 (unary decode_message (endpoint c) p (exchange p (encode_to_vec {| kq_session_id := session; kq_entries := es |})));
    Ok (map from_ack_result (kp_results response)).

Definition acknowledge (session : string) (es : list QueueAckEntry) (st : MockState)
    : result KrabkaError (list QueueAckResult) * MockState :=
  if is_mock c then acknowledge_mock session es st
  else (settle_live ACKNOWLEDGE_PATH session (map ack_entry_to_pb es), st).

Definition renew (session : string) (es : list QueueRenewEntry) (st : MockState) : result KrabkaError (list QueueAckResult) :=
  if is_mock c then renew_mock session es st else settle_live RENEW_PATH session (map renew_entry_to_pb es).
End Client.

(** ** The states of a group, as a map *)

(** The key of a state. *)
Definition key_of (q : MockQueueMessageState) : string * MockQueueDelivery := (qs_group q, qs_delivery q).

Lemma of_key_iff g d q : of_key g d q = true <-> key_of q = (g, d).
Proof. unfold of_key, key_of. rewrite andb_true_iff, !bool_decide_eq_true. split; [by intros [-> ->]|by intros [= -> ->]]. Qed.
Lemma of_key_false g d q : of_key g d q = false <-> key_of q <> (g, d).
Proof. rewrite <- of_key_iff. by destruct (of_key g d q). Qed.

Lemma state_of_cons q l g d : state_of (q :: l) g d = if of_key g d q then Some q else state_of l g d.
Proof. done. Qed.

Lemma state_of_elem l g d q : state_of l g d = Some q -> q ∈ l /\ key_of q = (g, d).
Proof.
  unfold state_of. intros [Hin Hk]%List.find_some. split; [by apply list_elem_of_In|by apply of_key_iff].
Qed.

Lemma elem_state_of l q : NoDup (map key_of l) -> q ∈ l -> state_of l (qs_group q) (qs_delivery q) = Some q.
Proof.
  induction l as [|x l IH]; [by intros _ ?%not_elem_of_nil|]. cbn [map]. intros [Hx Hnd]%NoDup_cons [->|Hq]%elem_of_cons; rewrite state_of_cons.
  - by rewrite (proj2 (of_key_iff _ _ _)).
  - destruct (of_key _ _ x) eqn:Hk; [|by apply IH]. apply of_key_iff in Hk. destruct Hx. rewrite Hk. by apply (list_elem_of_fmap_2 key_of l q).
Qed.

Lemma state_of_None l g d : state_of l g d = None <-> (g, d) ∉ map key_of l.
Proof.
  induction l as [|q l IH]; [split; [by intros _ ?%not_elem_of_nil|done]|]. rewrite state_of_cons. cbn [map].
  rewrite not_elem_of_cons, <- IH. destruct (of_key g d q) eqn:Hk; [apply of_key_iff in Hk|apply of_key_false in Hk]; naive_solver.
Qed.

Section Update.
  Context (f : MockQueueMessageState -> MockQueueMessageState) (Hf : forall q, key_of (f q) = key_of q).
  Context (g : string) (d : MockQueueDelivery).

(** The state an assignment starts from. *)
Definition current (l : list MockQueueMessageState) : MockQueueMessageState := default (fresh_state g d) (state_of l g d).

Lemma state_mut_assigned l : (mock_queue_state_mut f l g d).2 = f (current l).
Proof.
  unfold current. induction l as [|q l IH]; [done|]. cbn [mock_queue_state_mut]. rewrite state_of_cons.
  destruct (of_key g d q); [done|]. by destruct (mock_queue_state_mut f l g d).
Qed.

Lemma state_mut_lookup l g' d' :
  state_of (mock_queue_state_mut f l g d).1 g' d' = if bool_decide ((g', d') = (g, d)) then Some (f (current l)) else state_of l g' d'.
Proof.
  unfold current. induction l as [|q l IH]; cbn [mock_queue_state_mut].
  - cbn [fst]. rewrite state_of_cons. destruct (of_key g' d' _) eqn:Hk.
    + apply of_key_iff in Hk. rewrite Hf in Hk. by rewrite bool_decide_true.
    + apply of_key_false in Hk. rewrite Hf in Hk. by rewrite bool_decide_false by (intros [= -> ->]; by apply Hk).
  - rewrite !state_of_cons. destruct (of_key g d q) eqn:Hq.
    + apply of_key_iff in Hq. cbn [fst default]. rewrite state_of_cons. destruct (of_key g' d' (f q)) eqn:Hk.
      * apply of_key_iff in Hk. rewrite Hf, Hq in Hk. by rewrite bool_decide_true.
      * apply of_key_false in Hk. rewrite Hf, Hq in Hk. rewrite bool_decide_false by congruence.
        by rewrite (proj2 (of_key_false g' d' q)) by congruence.
    + apply of_key_false in Hq. destruct (mock_queue_state_mut f l g d) as [l' q'] eqn:Hm. cbn [fst] in *. rewrite state_of_cons.
      destruct (of_key g' d' q) eqn:Hk; [|done]. apply of_key_iff in Hk. by rewrite bool_decide_false by congruence.
Qed.

Lemma state_mut_keys l : map key_of (mock_queue_state_mut f l g d).1 = map key_of l ++ (match state_of l g d with Some _ => [] | None => [(g, d)] end).
Proof.
  induction l as [|q l IH]; cbn [mock_queue_state_mut]; [cbn; by rewrite Hf|]. rewrite state_of_cons.
  destruct (of_key g d q); [cbn; by rewrite Hf, app_nil_r|]. destruct (mock_queue_state_mut f l g d). cbn [fst map app] in *. by rewrite IH.
Qed.

Lemma state_mut_nodup l : NoDup (map key_of l) -> NoDup (map key_of (mock_queue_state_mut f l g d).1).
Proof.
  intros Hl. rewrite state_mut_keys. destruct (state_of l g d) eqn:Hs; [by rewrite app_nil_r|]. apply state_of_None in Hs.
  apply NoDup_app. split_and!; [done| |apply NoDup_singleton]. by intros k Hk ->%list_elem_of_singleton.
Qed.
End Update.

(** ** Acquiring *)

Lemma lease_key session q : key_of (lease session q) = key_of q.
Proof. done. Qed.

(** Every delivered message is leased to the session, each once; nothing else
    changes. *)
Lemma lease_all_spec session g l ms :
  NoDup (map delivery_of ms) -> NoDup (map key_of l) ->
  NoDup (map key_of (lease_all session g l ms).1)
  /\ (lease_all session g l ms).2
     = map (fun m => queue_message_from_mock m (delivery_count (lease session (current g (delivery_of m) l)))) ms
  /\ forall g' d', state_of (lease_all session g l ms).1 g' d'
     = if bool_decide (g' = g) && bool_decide (d' ∈ map delivery_of ms) then Some (lease session (current g d' l)) else state_of l g' d'.
Proof.
  revert l. induction ms as [|m ms IH]; intros l Hms Hl.
  - cbn. split_and!; [done..|]. intros g' d'. by rewrite (bool_decide_false (d' ∈ [])), andb_false_r by apply not_elem_of_nil.
  - cbn [map] in Hms |- *. apply NoDup_cons in Hms as [Hm Hms]. cbn [lease_all].
    pose proof (state_mut_assigned (lease session) g (delivery_of m) l) as Hq.
    pose proof (state_mut_lookup (lease session) (lease_key session) g (delivery_of m) l) as Hlook.
    pose proof (state_mut_nodup (lease session) (lease_key session) g (delivery_of m) l Hl) as Hnd.
    destruct (mock_queue_state_mut (lease session) l g (delivery_of m)) as [l1 q]. cbn [fst snd] in Hq, Hlook, Hnd. subst q.
    specialize (IH l1 Hms Hnd) as (Hnd' & Hout & Hst). destruct (lease_all session g l1 ms) as [l2 out]. cbn [fst snd] in *.
    assert (forall d', d' <> delivery_of m -> current g d' l1 = current g d' l) as Hcur.
    { intros d' Hne. unfold current. by rewrite Hlook, bool_decide_false by congruence. }
    split_and!; [done| |].
    + rewrite Hout. f_equal. apply map_ext_in. intros x Hx%list_elem_of_In. rewrite Hcur; [done|].
      intros Heq. apply Hm. rewrite <- Heq. by apply (list_elem_of_fmap_2 delivery_of).
    + intros g' d'. rewrite Hst, Hlook. destruct (decide (g' = g)) as [->|Hg]; [|by rewrite (bool_decide_false (g' = g)), (bool_decide_false ((g', d') = _)) by congruence].
      rewrite (bool_decide_true (g = g)) by done. cbn [andb]. destruct (decide (d' = delivery_of m)) as [->|Hd].
      * rewrite (bool_decide_false (_ ∈ map _ ms)), !bool_decide_true by (done || by left). done.
      * rewrite (bool_decide_false ((g, d') = _)) by congruence. rewrite Hcur by done. case_bool_decide as Hin.
        -- by rewrite bool_decide_true by (by right).
        -- rewrite bool_decide_false; [done|]. by intros [?|?]%elem_of_cons.
Qed.

(** ** Acknowledging *)

Lemma settle_Some session g d v l l' :
  NoDup (map key_of l) -> settle session g d v l = Some l' ->
  exists q, state_of l g d = Some q /\ disposition q = Acquired session /\ map key_of l' = map key_of l /\
    forall g' d', state_of l' g' d' = if bool_decide ((g', d') = (g, d)) then Some (with_disposition q v) else state_of l g' d'.
Proof.
  revert l'. induction l as [|q l IH]; intros l' Hnd; [done|]. cbn [settle map] in *. apply NoDup_cons in Hnd as [Hq Hnd].
  unfold held_by. rewrite state_of_cons. destruct (of_key g d q) eqn:Hk; cbn [andb].
  - apply of_key_iff in Hk. case_bool_decide as Hd.
    + intros [= <-]. exists q. split_and!; [done..|]. intros g' d'. rewrite !state_of_cons.
      destruct (decide ((g', d') = (g, d))) as [[= -> ->]|Hne].
      * rewrite bool_decide_true by done. by rewrite (proj2 (of_key_iff g d (with_disposition q v))).
      * rewrite bool_decide_false by done. assert (key_of (with_disposition q v) = key_of q) as Hw by done.
        by rewrite !(proj2 (of_key_false g' d' _)) by congruence.
    + intros (l1 & (q' & Hq' & _)%IH & _)%fmap_Some; [|done]. destruct Hq. rewrite Hk.
      apply state_of_elem in Hq' as [Hin <-]. by apply (list_elem_of_fmap_2 key_of l q').
  - apply of_key_false in Hk. intros (l1 & (q' & Hq' & Hd & Hkeys & Hlook)%IH & ->)%fmap_Some; [|done].
    exists q'. split_and!; [done..|cbn; by f_equal|]. intros g' d'. rewrite !state_of_cons, Hlook.
    destruct (of_key g' d' q) eqn:Hk'; [|done]. apply of_key_iff in Hk'. by rewrite bool_decide_false by congruence.
Qed.

Lemma settle_None session g d v l q :
  settle session g d v l = None -> state_of l g d = Some q -> disposition q <> Acquired session.
Proof.
  induction l as [|x l IH]; [done|]. cbn [settle]. unfold held_by. rewrite state_of_cons. destruct (of_key g d x); cbn [andb].
  - case_bool_decide as Hd; [done|]. by intros _ [= ->].
  - intros Hn%fmap_None. by apply IH.
Qed.

(** The verdict of the first entry of a message. *)
Definition first_verdict (es : list QueueAckEntry) (d : MockQueueDelivery) : option MockQueueDisposition :=
  (fun e => verdict (ae_ack_type e)) <$> List.find (fun e => bool_decide (delivery_of_ack e = d)) es.

(** What a session's acknowledgements make of a state. *)
Definition acknowledged (session group : string) (es : list QueueAckEntry) (g : string) (q : MockQueueMessageState)
    : MockQueueMessageState :=
  if bool_decide (g = group) && bool_decide (disposition q = Acquired session) then
    match first_verdict es (qs_delivery q) with Some v => with_disposition q v | None => q end
  else q.

Lemma verdict_released a session : verdict a <> Acquired session.
Proof. by destruct a. Qed.

Lemma acknowledge_entries_spec session group l es :
  NoDup (map key_of l) ->
  map key_of (acknowledge_entries session group l es).1 = map key_of l
  /\ map kr_entry (acknowledge_entries session group l es).2 = map renew_of_ack es
  /\ forall g d, state_of (acknowledge_entries session group l es).1 g d = acknowledged session group es g <$> state_of l g d.
Proof.
  revert l. induction es as [|e es IH]; intros l Hl.
  - cbn [acknowledge_entries fst snd]. split_and!; [done..|]. intros g d. destruct (state_of l g d); [|done]. cbn. unfold acknowledged. cbn. by destruct (_ && _).
  - cbn [acknowledge_entries]. destruct (settle session group (delivery_of_ack e) (verdict (ae_ack_type e)) l) as [l1|] eqn:Hs.
    + apply settle_Some in Hs as (q & Hq & Hd & Hkeys & Hlook); [|done]. rewrite <- Hkeys in Hl.
      specialize (IH l1 Hl) as (Hk & Hr & Hst). destruct (acknowledge_entries session group l1 es) as [l2 rs]. cbn [fst snd] in *.
      split_and!; [congruence|cbn; by f_equal|]. intros g d. rewrite Hst, Hlook. pose proof (state_of_elem _ _ _ _ Hq) as [_ [= Hqg Hqd]].
      destruct (decide ((g, d) = (group, delivery_of_ack e))) as [[= -> ->]|Hne].
      * rewrite bool_decide_true, Hq by done. cbn [fmap option_fmap option_map]. unfold acknowledged, first_verdict.
        rewrite (bool_decide_true (group = group)), (bool_decide_true (disposition q = _)) by done.
        rewrite bool_decide_false by apply verdict_released. cbn [andb List.find]. by rewrite Hqd, bool_decide_true by done.
      * rewrite bool_decide_false by done. destruct (state_of l g d) as [x|] eqn:Hx; [|done]. cbn [fmap option_fmap option_map]. f_equal.
        apply state_of_elem in Hx as [_ [= <- <-]]. unfold acknowledged, first_verdict. cbn [List.find].
        destruct (decide (qs_group x = group)) as [Hg|Hg]; [|by rewrite bool_decide_false].
        rewrite (bool_decide_false (delivery_of_ack e = _)); [done|]. congruence.
    + pose proof (fun q => settle_None _ _ _ _ _ q Hs) as Hn.
      specialize (IH l Hl) as (Hk & Hr & Hst). destruct (acknowledge_entries session group l es) as [l2 rs]. cbn [fst snd] in *.
      split_and!; [done|cbn; by f_equal|]. intros g d. rewrite Hst. destruct (state_of l g d) as [x|] eqn:Hx; [|done].
      cbn [fmap option_fmap option_map]. f_equal. pose proof (state_of_elem _ _ _ _ Hx) as [_ [= Hxg Hxd]]. unfold acknowledged, first_verdict.
      destruct (bool_decide_reflect (g = group)) as [->|]; [|done]. destruct (bool_decide_reflect (disposition x = Acquired session)) as [Hd|]; [|done].
      cbn [andb List.find]. rewrite (bool_decide_false (delivery_of_ack e = _)); [done|]. intros Heq. apply (Hn x); [|done]. congruence.
Qed.

(** ** The life of a mock queue *)

Inductive MockOp :=
| OpPublish (topic : string) (v : Bytes) (options : PublishOptions)
| OpAcquire (topic group : string) (options : AcquireOptions) (session : string)
| OpAcknowledge (session : string) (entries : list QueueAckEntry).

(** [None] is a panic; a renewal changes nothing. *)
Definition mock_do (op : MockOp) (st : MockState) : option MockState :=
  match op with
  | OpPublish t v o => snd <$> publish_mock t v o st
  | OpAcquire t g o s => Some (acquire_mock t g o s st).2
  | OpAcknowledge s es => Some (acknowledge_mock s es st).2
  end.

Fixpoint mock_run (ops : list MockOp) (st : MockState) : option MockState :=
  match ops with
  | [] => Some st
  | op :: ops => st ← mock_do op st; mock_run ops st
  end.

(** The invariant: messages are numbered, sessions are named by their place, a
    message has one state per group, and a message that is held is held by a
    session of that group and topic. *)
Record queue_ok (st : MockState) : Prop := {
  ok_log : log_ok (messages st);
  ok_names : forall i s, queue_sessions st !! i = Some s -> ms_id s = mock_session_name (i + 1);
  ok_keys : NoDup (map key_of (queue_states st));
  ok_owners : forall g d q o, state_of (queue_states st) g d = Some q -> disposition q = Acquired o ->
    exists s, find_session (queue_sessions st) o = Some s /\ ms_group s = g /\ ms_topic s = qd_topic d;
}.

Lemma queue_ok_default : queue_ok MockState_default.
Proof. constructor; cbn; [by intros [] ?? ?|done|constructor|done]. Qed.

Lemma find_session_app ss s new o : find_session ss o = Some s -> find_session (ss ++ [new]) o = Some s.
Proof. unfold find_session. induction ss as [|x ss IH]; [done|]. cbn. by case_bool_decide. Qed.

Lemma find_session_new ss new : find_session ss (ms_id new) = None -> find_session (ss ++ [new]) (ms_id new) = Some new.
Proof. unfold find_session. induction ss as [|x ss IH]; cbn; [by rewrite bool_decide_true|]. by case_bool_decide. Qed.

Lemma mock_session_name_inj n m : mock_session_name n = mock_session_name m -> n = m.
Proof. unfold mock_session_name. intros Hn%(inj (String.app _)). apply (inj pretty) in Hn. lia. Qed.

(** A session that is granted exists, under the requested topic and group. *)
Lemma session_granted ss requested topic group m1 m2 ss' id :
  (forall i s, ss !! i = Some s -> ms_id s = mock_session_name (i + 1)) ->
  mock_session_id ss requested topic group m1 m2 = (ss', Ok id) ->
  (forall i s, ss' !! i = Some s -> ms_id s = mock_session_name (i + 1)) /\
  (forall o s, find_session ss o = Some s -> find_session ss' o = Some s) /\
  exists s, find_session ss' id = Some s /\ ms_group s = group /\ ms_topic s = topic.
Proof.
  intros Hn. unfold mock_session_id. case_bool_decide as Hr; cbn [negb].
  - intros [= <- <-]. split_and!.
    + intros i s [Hs|[Hlen Hs]]%lookup_app_Some; [by apply Hn|]. apply list_lookup_singleton_Some in Hs as [Hi <-]. cbn. f_equal. lia.
    + intros o s. apply find_session_app.
    + eexists. split; [apply find_session_new|done]. unfold find_session. cbn [ms_id].
      destruct (List.find _ ss) as [s|] eqn:Hf; [|done]. apply List.find_some in Hf as [Hin Hid%bool_decide_eq_true]. exfalso.
      apply list_elem_of_In, list_elem_of_lookup in Hin as [i Hi]. apply lookup_lt_Some in Hi as Hlt.
      rewrite (Hn i s Hi) in Hid. apply mock_session_name_inj in Hid. lia.
  - destruct (find_session ss requested) as [s|] eqn:Hs; [|done].
    destruct (bool_decide_reflect (ms_topic s = topic)) as [Ht|]; [|done]. destruct (bool_decide_reflect (ms_group s = group)) as [Hg|]; [|done].
    cbn [negb orb]. destruct (_ && _); [done|]. intros [= <- <-]. eauto 10.
Qed.

(** The messages an acquire delivers. *)
Definition deliverable (st : MockState) (topic group : string) (options : AcquireOptions) : list MockMessage :=
  take (Z.to_nat (clamp 1 500 (ao_max options)))
    (List.filter (mock_message_is_available (queue_states st) group) (on_topic topic (messages st))).

Lemma NoDup_filtered {A B} (f : A -> B) (p : A -> bool) l : NoDup (map f l) -> NoDup (map f (List.filter p l)).
Proof.
  intros Hl. eapply sublist_NoDup; [exact Hl|]. apply (fmap_sublist _). clear. induction l as [|x l IH]; [constructor|]. cbn.
  destruct (p x); by constructor.
Qed.

Lemma deliverable_nodup st topic group options : log_ok (messages st) -> NoDup (map delivery_of (deliverable st topic group options)).
Proof.
  intros Hlog%log_coordinates. unfold deliverable. eapply sublist_NoDup; [|apply (fmap_sublist _), sublist_take]. by do 2 apply NoDup_filtered.
Qed.

Lemma deliverable_spec st topic group options m :
  m ∈ deliverable st topic group options -> mm_topic m = topic /\ mock_message_is_available (queue_states st) group m = true.
Proof.
  intros (i & Hm%list_elem_of_lookup_2 & _)%elem_of_take. apply list_elem_of_In in Hm. apply List.filter_In in Hm as [Hm Ha]. split; [|done].
  apply List.filter_In in Hm as [_ Ht]. by apply bool_decide_eq_true in Ht.
Qed.

(** An acquire that succeeds. *)
Lemma acquire_mock_spec st topic group options requested r st' :
  queue_ok st -> acquire_mock topic group options requested st = (Ok r, st') ->
  let ms := deliverable st topic group options in
  ar_messages r = map (fun m => queue_message_from_mock m
    (delivery_count (lease (ar_session_id r) (current group (delivery_of m) (queue_states st))))) ms
  /\ messages st' = messages st /\ NoDup (map key_of (queue_states st'))
  /\ (forall g d, state_of (queue_states st') g d =
       if bool_decide (g = group) && bool_decide (d ∈ map delivery_of ms)
       then Some (lease (ar_session_id r) (current group d (queue_states st))) else state_of (queue_states st) g d)
  /\ mock_session_id (queue_sessions st) requested topic group (ao_max options) (clamp 1 500 (ao_max options))
     = (queue_sessions st', Ok (ar_session_id r)).
Proof.
  intros Hok. unfold acquire_mock. destruct (mock_session_id _ _ _ _ _ _) as [ss [session|e]]; [|done].
  fold (on_topic topic (messages st)). fold (deliverable st topic group options).
  destruct (lease_all_spec session group (queue_states st) (deliverable st topic group options)) as (Hnd & Hout & Hst);
    [by apply deliverable_nodup, Hok|apply Hok|].
  destruct (lease_all _ _ _ _) as [states out]. cbn [fst snd] in *. intros [= <- <-]. cbn. by split_and!.
Qed.

Lemma acquire_mock_refused st topic group options requested e st' :
  acquire_mock topic group options requested st = (Err e, st') -> st' = st.
Proof.
  unfold acquire_mock. destruct (mock_session_id _ _ _ _ _ _) as [ss [session|e']] eqn:Hs.
  - by destruct (lease_all _ _ _ _).
  - intros [= _ <-]. unfold mock_session_id in Hs. case_bool_decide; [done|]. injection Hs as <- _. by destruct st.
Qed.

Lemma acquire_keeps_ok st topic group options requested : queue_ok st -> queue_ok (acquire_mock topic group options requested st).2.
Proof.
  intros Hok. destruct (acquire_mock topic group options requested st) as [[r|e] st'] eqn:Ha; [|by apply acquire_mock_refused in Ha as ->].
  apply acquire_mock_spec in Ha as (_ & Hm & Hnd & Hst & Hs); [|done].
  apply session_granted in Hs as (Hn & Hkeep & s & Hs & Hsg & Hst'); [|apply Hok]. cbn [snd]. constructor; [by rewrite Hm; apply Hok|done..|].
  intros g d q o Hq Hd. rewrite Hst in Hq. destruct (bool_decide_reflect (g = group)) as [->|]; cbn [andb] in Hq;
    [destruct (bool_decide_reflect (d ∈ map delivery_of (deliverable st topic group options))) as [Hin|]|].
  - injection Hq as <-. injection Hd as <-. exists s. split_and!; [done..|].
    apply list_elem_of_fmap in Hin as (m & -> & [Ht _]%deliverable_spec). by rewrite Hst'.
  - destruct (ok_owners st Hok _ _ _ _ Hq Hd) as (s' & Hs' & ?). exists s'. by split; [apply Hkeep|].
  - destruct (ok_owners st Hok _ _ _ _ Hq Hd) as (s' & Hs' & ?). exists s'. by split; [apply Hkeep|].
Qed.

Lemma acknowledged_spec session group es g q :
  acknowledged session group es g q = q \/
  (g = group /\ disposition q = Acquired session /\
   exists e, e ∈ es /\ delivery_of_ack e = qs_delivery q /\ acknowledged session group es g q = with_disposition q (verdict (ae_ack_type e))).
Proof.
  unfold acknowledged, first_verdict. destruct (bool_decide_reflect (g = group)) as [->|]; [|by left].
  destruct (bool_decide_reflect (disposition q = Acquired session)) as [Hq|]; [|by left]. cbn [andb].
  destruct (List.find _ es) as [x|] eqn:He; [|by left]. apply List.find_some in He as [Hin Hd%bool_decide_eq_true].
  right. split_and!; [done..|]. exists x. by rewrite list_elem_of_In.
Qed.

Lemma acknowledge_mock_states st session es :
  queue_ok st ->
  (acknowledge_mock session es st).2 = st \/
  exists s, find_session (queue_sessions st) session = Some s /\
    messages (acknowledge_mock session es st).2 = messages st /\ queue_sessions (acknowledge_mock session es st).2 = queue_sessions st /\
    map key_of (queue_states (acknowledge_mock session es st).2) = map key_of (queue_states st) /\
    forall g d, state_of (queue_states (acknowledge_mock session es st).2) g d
      = acknowledged session (ms_group s) es g <$> state_of (queue_states st) g d.
Proof.
  intros Hok. unfold acknowledge_mock. destruct (find_session (queue_sessions st) session) as [s|]; [|by left]. right. exists s.
  destruct (acknowledge_entries_spec session (ms_group s) (queue_states st) es (ok_keys st Hok)) as (Hk & _ & Hst).
  by destruct (acknowledge_entries _ _ _ _).
Qed.

Lemma acknowledge_keeps_ok st session es : queue_ok st -> queue_ok (acknowledge_mock session es st).2.
Proof.
  intros Hok. destruct (acknowledge_mock_states st session es Hok) as [->|(s & Hs & Hm & Hss & Hk & Hst)]; [done|].
  constructor; rewrite ?Hm, ?Hss, ?Hk; [apply Hok..|]. intros g d q o Hq Hd. rewrite Hst in Hq.
  apply fmap_Some in Hq as (q0 & Hq0 & ->). apply (ok_owners st Hok g d q0 o Hq0).
  destruct (acknowledged_spec session (ms_group s) es g q0) as [Heq|(_ & _ & e & _ & _ & Heq)]; rewrite Heq in Hd; [done|].
  by apply verdict_released in Hd.
Qed.

Lemma mock_do_ok op st st' : queue_ok st -> mock_do op st = Some st' -> queue_ok st'.
Proof.
  intros Hok. destruct op as [t v o|t g o s|s es]; cbn [mock_do].
  - intros ([r st1] & Hp & ->)%fmap_Some. apply publish_mock_log in Hp as (Hlog & Hs & Hq & _); [|apply Hok]. destruct Hok.
    constructor; cbn [snd]; rewrite ?Hs, ?Hq; done.
  - intros [= <-]. by apply acquire_keeps_ok.
  - intros [= <-]. by apply acknowledge_keeps_ok.
Qed.

Lemma mock_run_ok ops st st' : queue_ok st -> mock_run ops st = Some st' -> queue_ok st'.
Proof.
  revert st. induction ops as [|op ops IH]; intros st Hok; [by intros [= <-]|]. cbn [mock_run].
  intros (st1 & Hd & Hr)%bind_Some. eapply IH; [|exact Hr]. by eapply mock_do_ok.
Qed.

(** A lease of the mock queue is exclusive and a verdict is final.  Whatever
    operations came before, one more operation leaves an accepted or rejected
    message as it is; a message a session holds, which is a session of that group
    and topic, changes only by that session's own acknowledgement of it, to the
    verdict of an entry; and a message that is available changes only by an
    acquire of its group and topic, which leases it and counts the delivery. *)
Theorem mock_queue_leases ops op st st' g d q :
  mock_run ops MockState_default = Some st -> mock_do op st = Some st' -> state_of (queue_states st) g d = Some q ->
  match disposition q with
  | Accepted | Rejected => state_of (queue_states st') g d = Some q
  | Acquired o =>
      (exists s, find_session (queue_sessions st) o = Some s /\ ms_group s = g /\ ms_topic s = qd_topic d) /\
      (state_of (queue_states st') g d = Some q \/
       exists es e, op = OpAcknowledge o es /\ e ∈ es /\ delivery_of_ack e = d /\
         state_of (queue_states st') g d = Some (with_disposition q (verdict (ae_ack_type e))))
  | Available =>
      state_of (queue_states st') g d = Some q \/
      exists options requested session, op = OpAcquire (qd_topic d) g options requested /\
        state_of (queue_states st') g d = Some (lease session q)
  end.
Proof.
  intros Hrun%mock_run_ok Hdo Hq; [|apply queue_ok_default].
  assert (forall o, disposition q = Acquired o ->
    exists s, find_session (queue_sessions st) o = Some s /\ ms_group s = g /\ ms_topic s = qd_topic d) as Hown
    by (intros o; by apply (ok_owners st Hrun)).
  assert (state_of (queue_states st') g d = Some q \/
    (exists o es e, disposition q = Acquired o /\ op = OpAcknowledge o es /\ e ∈ es /\ delivery_of_ack e = d /\
       state_of (queue_states st') g d = Some (with_disposition q (verdict (ae_ack_type e)))) \/
    (disposition q = Available /\ exists options requested session, op = OpAcquire (qd_topic d) g options requested /\
       state_of (queue_states st') g d = Some (lease session q))) as Hcases; [|destruct (disposition q); naive_solver].
  destruct op as [t v o|t g' o s|s es]; cbn [mock_do] in Hdo.
  - left. apply fmap_Some in Hdo as ([r st1] & Hp & ->). apply publish_mock_log in Hp as (_ & _ & Hs & _); [|apply Hrun]. cbn [snd]. by rewrite Hs.
  - injection Hdo as <-. destruct (acquire_mock t g' o s st) as [[r|e] st'] eqn:Ha; [|apply acquire_mock_refused in Ha as ->; by left].
    apply acquire_mock_spec in Ha as (_ & _ & _ & Hst & _); [|done]. cbn [snd]. rewrite Hst.
    destruct (bool_decide_reflect (g = g')) as [<-|]; [|by left]. cbn [andb]. case_bool_decide as Hin; [|by left]. right; right.
    apply list_elem_of_fmap in Hin as (m & -> & [Ht Hav]%deliverable_spec). unfold mock_message_is_available in Hav. rewrite Hq in Hav.
    apply bool_decide_eq_true in Hav. split; [done|]. exists o, s, (ar_session_id r). unfold current. rewrite Hq. cbn. by subst t.
  - injection Hdo as <-. destruct (acknowledge_mock_states st s es Hrun) as [->|(x & _ & _ & _ & _ & Hst)]; [by left|].
    rewrite Hst, Hq. cbn [fmap option_fmap option_map].
    destruct (acknowledged_spec s (ms_group x) es g q) as [->|(_ & Hd & e & He & Hde & ->)]; [by left|]. right; left.
    apply state_of_elem in Hq as [_ [= _ Hqd]]. exists s, es, e. rewrite <- Hqd. by split_and!.
Qed.

(** ** The mock and the gateway *)

(** Resuming a session: the mock refuses what the gateway refuses, for the same
    stated reason. *)
Lemma mock_resume_agrees `{Authorizer} t r p now t' n gs ss s topic :
  get t (qa_session_id r) p now = (t', Ok n) -> heap t' !! n = Some gs ->
  find_session ss (qa_session_id r) = Some s -> group_id gs = ms_group s -> topics gs = [ms_topic s] ->
  max_messages gs = ms_max_messages s -> qa_topics r = [topic] -> qa_session_id r <> EmptyString ->
  (mock_session_id ss (qa_session_id r) topic (qa_group_id r) (qa_max_messages r) (clamp 1 500 (qa_max_messages r))).2
  = match (resume t r p now).2 with Ok _ => Ok (qa_session_id r) | Err e => Err (InvalidArg (connect_message e)) end.
Proof.
  intros Hget Hheap Hs Hg Ht Hm Htopics Hid. unfold resume, mock_session_id. rewrite Hget, Hheap, Hs, bool_decide_false by done.
  cbn [negb snd]. unfold validate_session_subscription, requested_max, MAX_MESSAGES. rewrite Hg, Ht, Hm, Htopics.
  destruct (bool_decide_reflect (ms_topic s = topic)) as [->|Hne]; cbn [negb orb].
  - destruct (bool_decide_reflect (ms_group s = qa_group_id r)); cbn [negb andb]; [|done].
    rewrite bool_decide_true by done. cbn [mbind result_bind]. by destruct (_ && _).
  - rewrite (bool_decide_false ([ms_topic s] = [topic])), andb_false_r by congruence. done.
Qed.

(** The numbers of the broker's errors are not taken for the gateway's: an error
    of an acknowledgement appears as retriable or as the server's. *)
Lemma broker_error_class `{ClientDisplay} e :
  error_info_to_krabka (ack_error e) =
    (if ei_retriable (ack_error e) then Transport else ServerError) (consumer_error_to_string e).
Proof.
  unfold error_info_to_krabka. destruct e as [code| | | | | |]; try done. cbn [ack_error ei_retriable ei_code ei_message].
  case_bool_decide as Hc; [done|].
  assert (code <> 3 /\ code <> 9 /\ code <> 16 /\ code <> 5) as (? & ? & ? & ?) by (split_and!; intros ->; apply Hc; set_solver).
  destruct (Z.eqb_spec code 3), (Z.eqb_spec code 9), (Z.eqb_spec code 16), (Z.eqb_spec code 5); done.
Qed.

(** Acknowledging through the gateway: one result per entry, in order, with the
    gateway's error for it; no entry is refused for its type. *)
Lemma acknowledge_through_gateway `{ConnectLib} `{UriLib} `{ProstMessage QueueAcknowledgeRequest} `{ProstMessage QueueAcknowledgeResponse}
    `{ClientDisplay} exchange c answer t identity session es now later t' calls results st uri :
  is_mock c = false -> is_unreachable c = false -> uri_for (endpoint c) ACKNOWLEDGE_PATH = Ok uri ->
  queue_acknowledge answer t identity session (map ack_entry_to_pb es) now later = (t', calls, Ok results) ->
  exchange ACKNOWLEDGE_PATH (encode_to_vec {| kq_session_id := session; kq_entries := map ack_entry_to_pb es |})
    = Ok (200, encode_to_vec {| kp_results := map (fun r => {| pk_entry := Some r.1; pk_error := r.2 |}) results |}) ->
  acknowledge exchange c session es st
    = (Ok (zip_with (fun e r => {| kr_entry := renew_of_ack e; kr_error := error_info_to_krabka <$> r.2 |}) es results), st)
  /\ length results = length es /\ Forall (fun e => is_Some (ack_type (entry_type (ack_entry_to_pb e)))) es.
Proof.
  intros Hm Hu Huri Hq Hx. unfold acknowledge, settle_live, unary. rewrite Hm, Hu, Huri, Hx. cbn [mbind result_bind fst snd].
  change ((200 <=? 200) && (200 <=? 299)) with true. cbn iota. rewrite decode_encoded. cbn [map_err mbind result_bind kp_results].
  assert (results.*1 = map ack_entry_to_pb es) as Hes.
  { unfold queue_acknowledge, on_session in Hq. destruct (get _ _ _ _) as [t1 [n|]]; [|done]. destruct (heap t1 !! n) as [s|]; [|done].
    pose proof (ai_results _ _ _ _ (acknowledge_inv answer (acquired s) (map ack_entry_to_pb es))) as Hr.
    destruct (foldl _ _ _) as [[a cs] rs]. by injection Hq as _ _ <-. }
  split_and!.
  - do 2 f_equal. rewrite List.map_map. clear -Hes. revert es Hes. induction results as [|[e1 r] results IH]; intros [|e es] [=]; [done|].
    subst e1. cbn. f_equal. by apply IH.
  - rewrite <- (length_fmap fst results), Hes. apply length_map.
  - apply Forall_forall. intros e _. unfold ack_entry_to_pb. cbn. destruct (ae_ack_type e); by eexists.
Qed.

(** ** A job, accepted *)

Module Jobs.
Definition ops : list MockOp :=
  [OpPublish "jobs" (as_bytes "v") PublishOptions_default; OpAcquire "jobs" "g" AcquireOptions_default EmptyString;
   OpAcknowledge "mock-queue-session-1"
     [{| ae_topic := "jobs"; ae_partition := 0; ae_offset := 0; ae_ack_type := AckAccept |};
      {| ae_topic := "jobs"; ae_partition := 0; ae_offset := 0; ae_ack_type := AckRelease |}]].
Definition settled : MockState := default MockState_default (mock_run ops MockState_default).
Definition job : MockQueueDelivery := {| qd_topic := "jobs"; qd_partition := 0; qd_offset := 0 |}.
Definition accepted : MockQueueMessageState :=
  {| qs_group := "g"; qs_delivery := job; disposition := Accepted; delivery_count := 1 |}.

Lemma mock_queue_leases_witness :
  state_of (queue_states (acquire_mock "jobs" "g" AcquireOptions_default EmptyString settled).2) "g" job = Some accepted.
Proof.
  refine (mock_queue_leases ops (OpAcquire "jobs" "g" AcquireOptions_default EmptyString) settled _ "g" job accepted _ eq_refl _);
    vm_compute; reflexivity.
Defined.
End Jobs.
