(* ===== verification/Envelope.v ===== *)
(** * The stream envelope outside the Rust SDK
    (sdk-conformance: bin/emit_cpp_codec_oracle_vectors.rs; sdks/cpp:
    src/json.cc, src/envelope.cc, test/codec_test.cc; sdks/java:
    ConnectFrameRequestBody.java)

    The C++ SDK takes the gateway's streams apart with a codec and a JSON reader
    of its own, checked on vectors that a Rust program writes.  The Java SDK
    writes its request frame by hand.  [Module Cpp] and [Module Java] hold these
    codecs, [Module Oracle] the program that writes the vectors and the reader of
    the C++ test; [Connect] holds the Rust codec they are compared with. *)

From Stdlib Require Import SpecFloat.
From S2P Require Import Prelude.
From S2P Require Import RustStr.
From S2P Require Import RustNum.
From S2P Require Import Types.
From S2P Require Import Connect.

(** The classes of errors, the same six in every SDK. *)
Inductive ErrorKind := KTransport | KUnauthenticated | KInvalidArgument | KNotFound | KServerError | KUnimplemented.
#[export] Instance ErrorKind_eq_dec : EqDecision ErrorKind.
Proof. solve_decision. Defined.

(** ** The C++ SDK *)

Module Cpp.

(** [json::Value].  [Object] is a [std::map]: its keys ascend. *)
Inductive Value :=
| Null
| Bool (b : bool)
| Number (x : f64)
| Text (s : Bytes)
| Array (l : list Value)
| Object (o : list (Bytes * Value)).

(** [map::emplace] keeps an entry that is already there. *)
Fixpoint emplace (k : Bytes) (v : Value) (o : list (Bytes * Value)) : list (Bytes * Value) :=
  match o with
  | [] => [(k, v)]
  | (k', v') :: o' =>
      match bytes_cmp k k' with
      | Lt => (k, v) :: o
      | Eq => o
      | Gt => (k', v') :: emplace k v o'
      end
  end.

Definition find (k : Bytes) (o : list (Bytes * Value)) : option Value :=
  (fun i => i.2.2) <$> list_find (fun kv => kv.1 = k) o.

(** The parser throws an [InvalidArgument] error with the message.  Its state is
    the text from the position on. *)
Definition Parse (A : Type) : Type := result string (A * Bytes).
Definition quote : ascii := of_u8 34.
Definition backslash : ascii := of_u8 92.

Fixpoint skip_ws (l : Bytes) : Bytes :=
  match l with
  | c :: l' => if ws1 (u8 c) then skip_ws l' else l
  | [] => []
  end.

Definition take_char (c : ascii) (l : Bytes) : option Bytes :=
  match skip_ws l with
  | c' :: l' => if bool_decide (c' = c) then Some l' else None
  | [] => None
  end.

(** The character of an escape. *)
Definition unescape (e : ascii) : option ascii :=
  if bool_decide (e ∈ [quote; backslash; "/"%char]) then Some e
  else if bool_decide (e = "b"%char) then Some (of_u8 8)
  else if bool_decide (e = "f"%char) then Some (of_u8 12)
  else if bool_decide (e = "n"%char) then Some (of_u8 10)
  else if bool_decide (e = "r"%char) then Some (of_u8 13)
  else if bool_decide (e = "t"%char) then Some (of_u8 9)
  else None.

(** The loop of [parse_string], past the opening quote. *)
Fixpoint parse_string (l out : Bytes) : Parse Bytes :=
  match l with
  | [] => Err "unterminated string"
  | c :: l =>
      if bool_decide (c = quote) then Ok (out, l)
      else if bool_decide (c = backslash) then
        match l with
        | [] => Err "unterminated escape"
        | e :: l => match unescape e with
                    | Some c => parse_string l (out ++ [c])
                    | None => Err "unsupported json escape"
                    end
        end
      else parse_string l (out ++ [c])
  end.

(** [from_chars] of a sign, digits and a fraction: no digit, or a value past the
    doubles, is an error. *)
Definition from_chars (neg : bool) (int frac : Bytes) : option f64 :=
  if bool_decide (int ++ frac = []) then None
  else
    let m := digits_val (int ++ frac) in
    match f64_of_decimal neg m (- Z.of_nat (length frac)) with
    | S754_zero s => if m =? 0 then Some (S754_zero s) else None
    | S754_finite s a e => Some (S754_finite s a e)
    | _ => None
    end.

Definition parse_number (l : Bytes) : Parse Value :=
  let '(neg, l) := match l with
                   | c :: l' => if bool_decide (c = "-"%char) then (true, l') else (false, l)
                   | [] => (false, [])
                   end in
  let '(int, l) := span_digits l in
  let '(frac, l) := match l with
                    | c :: l' => if bool_decide (c = "."%char) then span_digits l' else ([], l)
                    | [] => ([], [])
                    end in
  match from_chars neg int frac with
  | Some x => Ok (Number x, l)
  | None => Err "invalid number"
  end.

(** The literal [w] at the head of the text. *)
Definition literal (w : string) (l : Bytes) : bool := bool_decide (take (String.length w) l = as_bytes w).

(** The loops of [parse_object] and [parse_array], given the parser of a value,
    and the two methods, past the opening bracket.  [None] is fuel that ran out:
    every turn takes a character, see [parse_total]. *)
Fixpoint parse_members (value : Bytes -> option (Parse Value)) (n : nat) (object : list (Bytes * Value)) (l : Bytes)
    : option (Parse Value) :=
  match n with
  | O => None
  | S n =>
      match skip_ws l with
      | c :: rest =>
          if bool_decide (c = quote) then
            match parse_string rest [] with
            | Err e => Some (Err e)
            | Ok (key, l) =>
                match take_char ":"%char l with
                | None => Some (Err "object key missing colon")
                | Some l =>
                    match value l with
                    | Some (Ok (v, l)) =>
                        let object := emplace key v object in
                        match take_char "}"%char l with
                        | Some l => Some (Ok (Object object, l))
                        | None => match take_char ","%char l with
                                  | Some l => parse_members value n object l
                                  | None => Some (Err "object entry missing comma")
                                  end
                        end
                    | r => r
                    end
                end
            end
          else Some (Err "object key must be a string")
      | [] => Some (Err "object key must be a string")
      end
  end.
Definition parse_object (value : Bytes -> option (Parse Value)) (n : nat) (l : Bytes) : option (Parse Value) :=
  match take_char "}"%char l with
  | Some l => Some (Ok (Object [], l))
  | None => parse_members value n [] l
  end.

Fixpoint parse_elements (value : Bytes -> option (Parse Value)) (n : nat) (array : list Value) (l : Bytes) : option (Parse Value) :=
  match n with
  | O => None
  | S n =>
      match value l with
      | Some (Ok (v, l)) =>
          let array := array ++ [v] in
          match take_char "]"%char l with
          | Some l => Some (Ok (Array array, l))
          | None => match take_char ","%char l with
                    | Some l => parse_elements value n array l
                    | None => Some (Err "array entry missing comma")
                    end
          end
      | r => r
      end
  end.
Definition parse_array (value : Bytes -> option (Parse Value)) (n : nat) (l : Bytes) : option (Parse Value) :=
  match take_char "]"%char l with
  | Some l => Some (Ok (Array [], l))
  | None => parse_elements value n [] l
  end.

Fixpoint parse_value (n : nat) (l : Bytes) : option (Parse Value) :=
  match n with
  | O => None
  | S n =>
      match skip_ws l with
      | [] => Some (Err "unexpected end of json")
      | (c :: rest) as l =>
          if bool_decide (c = "{"%char) then parse_object (parse_value n) n rest
          else if bool_decide (c = "["%char) then parse_array (parse_value n) n rest
          else if bool_decide (c = quote) then
            Some ('(s, l) ← parse_string rest []; Ok (Text s, l))
          else if literal "null" l then Some (Ok (Null, drop 4 l))
          else if literal "true" l then Some (Ok (Bool true, drop 4 l))
          else if literal "false" l then Some (Ok (Bool false, drop 5 l))
          else Some (parse_number l)
      end
  end.

(** [json::parse]: a value and nothing after it.  A value inside another starts
    after it, and a turn of a loop after the one before. *)
Definition fuel (l : Bytes) : nat := S (length l).
Definition parse (l : Bytes) : result string Value :=
  match parse_value (fuel l) l with
  | Some r => '(v, l) ← r; if bool_decide (skip_ws l = []) then Ok v else Err "trailing json input"
  | None => Err "out of fuel"
  end.

Definition as_object (v : Value) : result string (list (Bytes * Value)) :=
  match v with Object o => Ok o | _ => Err "expected object" end.
Definition as_string (v : Value) : result string Bytes :=
  match v with Text s => Ok s | _ => Err "expected string" end.
Definition get_string (o : list (Bytes * Value)) (key : string) (fallback : Bytes) : result string Bytes :=
  match find (as_bytes key) o with
  | None | Some Null => Ok fallback
  | Some v => as_string v
  end.

(** [envelope::DecodeResult]. *)
Inductive DecodeResult :=
| Message (flags : Z) (payload : Bytes)
| EndStream (code message : option Bytes)
| NeedMore (bytes : nat).

Definition encode (flags : Z) (payload : Bytes) : Bytes :=
  let size := Z.of_nat (length payload) mod 2 ^ 32 in
  [of_u8 flags; of_u8 (Z.land (Z.shiftr size 24) 255); of_u8 (Z.land (Z.shiftr size 16) 255);
   of_u8 (Z.land (Z.shiftr size 8) 255); of_u8 (Z.land size 255)] ++ payload.

(** A key of the error object that is there must be a string. *)
Definition text_member (key : string) (o : list (Bytes * Value)) : result string (option Bytes) :=
  match find (as_bytes key) o with
  | Some v => Some <$> as_string v
  | None => Ok None
  end.

Definition end_stream (payload : Bytes) : result string DecodeResult :=
  if bool_decide (payload = []) then Ok (EndStream None None)
  else
    v ← parse payload;
    object ← as_object v;
    match find (as_bytes "error") object with
    | None | Some Null => Ok (EndStream None None)
    | Some e =>
        error_object ← as_object e;
        code ← text_member "code" error_object;
        message ← text_member "message" error_object;
        Ok (EndStream code message)
    end.

Definition decode_one (bytes : Bytes) : result string DecodeResult :=
  match bytes with
  | f :: b1 :: b2 :: b3 :: b4 :: rest =>
      let size := Z.to_nat (Z.lor (Z.lor (Z.lor (Z.shiftl (u8 b1) 24) (Z.shiftl (u8 b2) 16)) (Z.shiftl (u8 b3) 8)) (u8 b4)) in
      if (length bytes <? size + 5)%nat then Ok (NeedMore (size + 5 - length bytes))
      else
        let payload := take size rest in
        if Z.land (u8 f) 2 =? 0 then Ok (Message (u8 f) payload) else end_stream payload
  | _ => Ok (NeedMore (5 - length bytes))
  end.

(** *** The transport's errors (transport_nghttp2.cc) *)

(** [SdkError], its class and its message. *)
Definition Error : Type := ErrorKind * Bytes.

Definition connect_error_kind (code : Bytes) : ErrorKind :=
  let eq s := bool_decide (code = as_bytes s) in
  if eq "unauthenticated" then KUnauthenticated
  else if eq "invalid_argument" || eq "failed_precondition" || eq "out_of_range" then KInvalidArgument
  else if eq "not_found" then KNotFound
  else if eq "unimplemented" then KUnimplemented
  else if eq "unavailable" || eq "deadline_exceeded" || eq "canceled" then KTransport
  else KServerError.

Definition http_status_error_kind (status : Bytes) : ErrorKind :=
  let eq s := bool_decide (status = as_bytes s) in
  if eq "400" then KInvalidArgument
  else if eq "401" then KUnauthenticated
  else if eq "404" then KNotFound
  else if eq "408" || eq "429" || eq "502" || eq "503" || eq "504" then KTransport
  else KServerError.

Definition queue_error_kind (code : Z) (retriable : bool) : ErrorKind :=
  if retriable then KTransport
  else if (code =? 3) || (code =? 9) || (code =? 11) then KInvalidArgument
  else if code =? 5 then KNotFound
  else if (code =? 7) || (code =? 16) then KUnauthenticated
  else if code =? 12 then KUnimplemented
  else if (code =? 1) || (code =? 4) || (code =? 14) then KTransport
  else KServerError.

(** An error of the JSON reader is caught. *)
Definition decode_connect_error_body (body : Bytes) : option Error :=
  match
    parsed ← parse body;
    object ← as_object parsed;
    code ← get_string object "code" [];
    if bool_decide (code = []) then Ok None
    else message ← get_string object "message" []; Ok (Some (connect_error_kind code, message))
  with
  | Ok e => e
  | Err _ => None
  end.

Definition bad_status_error (http_status body : Bytes) : Error :=
  match decode_connect_error_body body with
  | Some e => e
  | None =>
      (http_status_error_kind http_status,
       if bool_decide (body = []) then as_bytes "gateway returned HTTP status " ++ http_status else body)
  end.

Definition end_stream_error (code message : option Bytes) : Error :=
  (connect_error_kind (default (as_bytes "unknown") code), default (as_bytes "Connect stream failed") message).

(** The next message of the buffered bytes and what stays buffered. *)
Definition take_message (bytes : Bytes) : result Error (option Bytes * Bytes) :=
  decoded ← map_err (fun m => (KInvalidArgument, as_bytes m)) (decode_one bytes);
  match decoded with
  | NeedMore _ => Ok (None, bytes)
  | EndStream (Some code) message => Err (end_stream_error (Some code) message)
  | EndStream None _ => Ok (None, [])
  | Message _ payload => Ok (Some payload, drop (length payload + 5) bytes)
  end.
End Cpp.

(** ** The Java SDK *)

Module Java.
(** [(byte) (n >>> k)] of an [int] [n]; an array's length is an [int]. *)
Definition ushr (n k : Z) : Z := Z.shiftr (n mod 2 ^ 32) k.
Definition encodedFrame (payload : Bytes) : Bytes :=
  let length := Z.of_nat (length payload) in
  [of_u8 0; of_u8 (ushr length 24); of_u8 (ushr length 16); of_u8 (ushr length 8); of_u8 length] ++ payload.
End Java.

(** ** The vectors of the codec test *)

Module Oracle.

(** [None] is the panic of a payload past 32 bits. *)
Definition encode_frame (flags : Z) (payload : Bytes) : option Bytes :=
  size ← try_u32 (Z.of_nat (length payload));
  Some ([of_u8 flags] ++ u32_to_be size ++ payload).

Record OracleVector := { ov_name : string; ov_bytes : Bytes }.

(** A string literal that writes its quotes as apostrophes. *)
Definition quoted (s : string) : Bytes := map (fun c => if bool_decide (c = "'"%char) then Cpp.quote else c) (as_bytes s).

Definition oracle_vectors : option (list OracleVector) :=
  pay ← encode_frame 0 (as_bytes "pay");
  compressed ← encode_frame 1 (as_bytes "pay");
  one ← encode_frame 0 (as_bytes "one");
  two ← encode_frame 0 (as_bytes "two");
  clean ← encode_frame 2 [];
  not_found ← encode_frame 2 (quoted "{'error':{'code':'not_found','message':'missing'}}");
  Some [{| ov_name := "message_payload_pay.hex"; ov_bytes := pay |};
        {| ov_name := "compressed_payload_pay.hex"; ov_bytes := compressed |};
        {| ov_name := "multi_frame_stream.hex"; ov_bytes := one ++ two |};
        {| ov_name := "partial_header.hex"; ov_bytes := [of_u8 0; of_u8 0; of_u8 0] |};
        {| ov_name := "endstream_clean.hex"; ov_bytes := clean |};
        {| ov_name := "endstream_not_found.hex"; ov_bytes := not_found |}].

(** [{byte:02x}]. *)
Definition hex2 (b : ascii) : Bytes := as_bytes (hex_digit (u8 b / 16) +:+ hex_digit (u8 b mod 16)).
Definition newline : ascii := of_u8 10.

(** The file system: the files by path, and the errors it answers with, by the
    call made and the bytes the file holds by then. *)
Record Disk := {
  d_mkdir : string -> option string;
  d_create : string -> option string;
  d_write : string -> Bytes -> option string;
}.
Abbreviation Files := (gmap string Bytes).

(** A write appends to the file that [File::create] emptied. *)
Definition write (d : Disk) (path : string) (data : Bytes) (fs : Files) : result string unit * Files :=
  let held := default [] (fs !! path) in
  match d_write d path held with
  | Some e => (Err e, fs)
  | None => (Ok (), <[path := held ++ data]> fs)
  end.
Fixpoint write_bytes (d : Disk) (path : string) (bytes : Bytes) (fs : Files) : result string unit * Files :=
  match bytes with
  | [] => write d path [newline] fs
  | b :: bytes =>
      match write d path (hex2 b) fs with
      | (Ok _, fs) => write_bytes d path bytes fs
      | (Err e, fs) => (Err e, fs)
      end
  end.
Definition write_hex_file (d : Disk) (path : string) (bytes : Bytes) (fs : Files) : result string unit * Files :=
  match d_create d path with
  | Some e => (Err e, fs)
  | None => write_bytes d path bytes (<[path := []]> fs)
  end.

(** [Path::join] of a file name. *)
Definition join (dir name : string) : string :=
  if bool_decide (dir = EmptyString) then name
  else if bool_decide (list.last (as_bytes dir) = Some "/"%char) then dir +:+ name
  else dir +:+ "/" +:+ name.

Definition MANIFEST : Bytes :=
  concat (map (fun line => quoted line ++ [newline])
    ["Rust-oracle Connect envelope vectors for the C++ SDK pure codec.";
     EmptyString;
     "Generated by `cargo run -p krabka-sdk-conformance --bin emit_cpp_codec_oracle_vectors -- sdks/cpp/test/vectors`.";
     "The generator is the checked-in Rust oracle seam for Connect envelope framing: one flag byte,";
     "a 32-bit big-endian payload length, and exact payload bytes. EndStream uses the Connect";
     "end-stream flag (0x02), not the gRPC-Web trailer flag (0x80). C++ tests must consume";
     "these bytes rather than reconstructing expected frames inline.";
     EmptyString;
     "message_payload_pay.hex: single uncompressed message frame with payload `pay`";
     "compressed_payload_pay.hex: single compressed-bit message frame with payload `pay`";
     "multi_frame_stream.hex: two message frames, `one` then `two`";
     "partial_header.hex: truncated three-byte prefix for NeedMore coverage";
     "endstream_clean.hex: clean Connect EndStream frame with empty payload";
     "endstream_not_found.hex: Connect EndStream frame carrying `{'error':{'code':'not_found','message':'missing'}}`"]).

(** [fs::write]. *)
Definition fs_write (d : Disk) (path : string) (data : Bytes) (fs : Files) : result string unit * Files :=
  match d_create d path with
  | Some e => (Err e, fs)
  | None => write d path data (<[path := []]> fs)
  end.

Fixpoint write_vectors (d : Disk) (dir : string) (vs : list OracleVector) (fs : Files) : result string unit * Files :=
  match vs with
  | [] => fs_write d (join dir "manifest.txt") MANIFEST fs
  | v :: vs =>
      match write_hex_file d (join dir (ov_name v)) (ov_bytes v) fs with
      | (Ok _, fs) => write_vectors d dir vs fs
      | (Err e, fs) => (Err e, fs)
      end
  end.

Definition emit_vectors (d : Disk) (dir : string) (fs : Files) : option (result string unit * Files) :=
  match d_mkdir d dir with
  | Some e => Some (Err e, fs)
  | None => vs ← oracle_vectors; Some (write_vectors d dir vs fs)
  end.

Definition usage : string := "usage: emit_cpp_codec_oracle_vectors <output-dir>".
Definition parse_output_dir (args : list string) : result string string :=
  match args with
  | [output_dir] => Ok output_dir
  | _ => Err usage
  end.

Definition main (d : Disk) (args : list string) (fs : Files) : option (result string unit * Files) :=
  match parse_output_dir args with
  | Ok output_dir => emit_vectors d output_dir fs
  | Err e => Some (Err e, fs)
  end.

(** The reader of the C++ test; [Err] is a [runtime_error]. *)
Definition hex_nibble (c : ascii) : result string Z :=
  if (48 <=? u8 c) && (u8 c <=? 57) then Ok (u8 c - 48)
  else if (97 <=? u8 c) && (u8 c <=? 102) then Ok (u8 c - 97 + 10)
  else if (65 <=? u8 c) && (u8 c <=? 70) then Ok (u8 c - 65 + 10)
  else Err "oracle vector contains a non-hex character".

(** The loop over the pairs; the length is even. *)
Fixpoint pairs (hex : Bytes) : result string Bytes :=
  match hex with
  | a :: b :: hex =>
      high ← hex_nibble a;
      low ← hex_nibble b;
      rest ← pairs hex;
      Ok (of_u8 (Z.lor (Z.shiftl high 4) low) :: rest)
  | _ => Ok []
  end.

Definition read_oracle_vector (fs : Files) (dir name : string) : result string Bytes :=
  text ← match fs !! (dir +:+ "/" +:+ name) with
         | Some text => Ok text
         | None => Err ("missing oracle vector: " +:+ name)
         end;
  let hex := filter (fun c => ws1 (u8 c) = false) text in
  if Nat.odd (length hex) then Err ("oracle vector has an odd hex length: " +:+ name) else pairs hex.
End Oracle.

(** ** One envelope *)

Lemma of_u8_land z : of_u8 (Z.land z 255) = of_u8 z.
Proof. unfold of_u8. change 255 with (Z.ones 8). rewrite Z.land_ones by lia. by rewrite Z.mod_mod by lia. Qed.

Lemma lor_low x b k : 0 <= k -> x mod 2 ^ k = 0 -> 0 <= b < 2 ^ k -> Z.lor x b = x + b.
Proof.
  intros Hk Hx Hb. rewrite <- Z.add_lor_land. enough (Z.land x b = 0) by lia.
  apply Z.bits_inj'. intros n Hn. rewrite Z.land_spec, Z.bits_0. destruct (Z.lt_ge_cases n k).
  - rewrite <- (Z.mod_pow2_bits_low x k n), Hx, Z.bits_0 by lia. done.
  - rewrite <- (Z.mod_small b (2 ^ k)), (Z.mod_pow2_bits_high b k n) by lia. by rewrite andb_false_r.
Qed.

Lemma lor_be b1 b2 b3 b4 :
  Z.lor (Z.lor (Z.lor (Z.shiftl (u8 b1) 24) (Z.shiftl (u8 b2) 16)) (Z.shiftl (u8 b3) 8)) (u8 b4) = u32_from_be b1 b2 b3 b4.
Proof.
  pose proof (u8_range b1). pose proof (u8_range b2). pose proof (u8_range b3). pose proof (u8_range b4).
  unfold u32_from_be. rewrite !Z.shiftl_mul_pow2 by lia.
  change (2 ^ 24) with 16777216. change (2 ^ 16) with 65536. change (2 ^ 8) with 256.
  rewrite (lor_low (_ * 16777216) _ 24), (lor_low (_ + _ * 65536) _ 16), (lor_low (_ + _) _ 8); [lia|..];
    cbn [Z.pow Z.pow_pos Pos.iter Z.mul Pos.mul]; Z.div_mod_to_equations; lia.
Qed.

(** One envelope: the C++ codec and the program of the test vectors write
    the frame the Rust SDK writes, for every flag byte and every payload; past
    32 bits of length the Rust programs panic and the C++ codec truncates the
    length.  The Java SDK writes the same frame for every payload an array can
    hold. *)
Theorem frames_same flags m :
  Oracle.encode_frame flags m = encode flags m /\
  encode flags m = (if Z.of_nat (length m) <=? u32_max then Some (Cpp.encode flags m) else None) /\
  (Z.of_nat (length m) <= i32_max -> encode MESSAGE_FLAGS m = Some (Java.encodedFrame m)).
Proof.
  split; [done|]. unfold encode, try_u32, try_range, Cpp.encode, Java.encodedFrame, Java.ushr, u32_to_be.
  rewrite !of_u8_land. unfold u32_max, i32_max.
  assert (0 <= Z.of_nat (length m)) as H0 by lia. apply Z.leb_le in H0 as ->. cbn [andb]. split.
  - destruct (Z.leb_spec (Z.of_nat (length m)) (2 ^ 32 - 1)); [|done]. cbn [mbind option_bind]. by rewrite Z.mod_small by lia.
  - intros Hm. rewrite (proj2 (Z.leb_le _ _)) by lia. cbn [mbind option_bind]. by rewrite Z.mod_small by lia.
Qed.

Lemma cpp_decode f b1 b2 b3 b4 rest :
  Cpp.decode_one (f :: b1 :: b2 :: b3 :: b4 :: rest) =
    let len := Z.to_nat (u32_from_be b1 b2 b3 b4) in
    if (length rest <? len)%nat then Ok (Cpp.NeedMore (len - length rest))
    else if Z.land (u8 f) 2 =? 0 then Ok (Cpp.Message (u8 f) (take len rest)) else Cpp.end_stream (take len rest).
Proof.
  unfold Cpp.decode_one. rewrite lor_be. cbn [length]. set (len := Z.to_nat _).
  destruct (Nat.ltb_spec (length rest) len), (Nat.ltb_spec (S (S (S (S (S (length rest)))))) (len + 5)); try lia; [|done].
  do 2 f_equal. lia.
Qed.

(** A frame that is all there: its flags, its body and what follows it. *)
Definition frame_at (bytes : Bytes) : option (Z * Bytes * Bytes) :=
  match bytes with
  | f :: b1 :: b2 :: b3 :: b4 :: rest =>
      let len := Z.to_nat (u32_from_be b1 b2 b3 b4) in
      if (length rest <? len)%nat then None else Some (u8 f, take len rest, drop len rest)
  | _ => None
  end.

Lemma take_message_frame bytes flags body rest :
  frame_at bytes = Some (flags, body, rest) -> Z.land flags 2 = 0 -> Cpp.take_message bytes = Ok (Some body, rest).
Proof.
  destruct bytes as [|f [|b1 [|b2 [|b3 [|b4 l]]]]]; try done. cbn [frame_at]. set (len := Z.to_nat _).
  destruct (Nat.ltb_spec (length l) len) as [|Hl]; [done|]. intros [= <- <- <-] Hf.
  unfold Cpp.take_message. rewrite cpp_decode. fold len. cbn zeta.
  rewrite (proj2 (Nat.ltb_ge _ _)), (proj2 (Z.eqb_eq _ _)) by done.
  cbn [map_err mbind result_bind]. rewrite length_take_le by done. by rewrite Nat.add_comm.
Qed.

Section Rust.
  Context `{ConnectLib}.

(** The Rust reader on a frame, and on bytes that hold no frame yet. *)
Lemma decode_next_frame bytes flags body rest :
  frame_at bytes = Some (flags, body, rest) ->
  decode_next bytes =
    frame ← (if flags =? MESSAGE_FLAGS then Ok (Message body)
             else if flags =? END_STREAM_FLAGS then
               if bool_decide (body = []) then Ok (EndStream None) else EndStream <$> map_err JsonError (trailer_from_slice body)
             else if Z.land flags 1 =? 1 then Err CompressedFrame else Err (UnknownFrameFlags flags));
    Ok (Some (frame, (5 + length body)%nat)).
Proof.
  destruct bytes as [|f [|b1 [|b2 [|b3 [|b4 l]]]]]; try done. cbn [frame_at decode_next]. set (len := Z.to_nat _).
  destruct (Nat.ltb_spec (length l) len) as [|Hl]; [done|]. intros [= <- <- <-]. by rewrite length_take_le.
Qed.

Lemma decode_next_waits bytes : decode_next bytes = Ok None <-> frame_at bytes = None.
Proof.
  destruct (frame_at bytes) as [[[flags body] rest]|] eqn:Hb.
  - rewrite (decode_next_frame _ _ _ _ Hb). split; [|done]. intros Hd. by destruct (if flags =? _ then _ else _).
  - destruct bytes as [|f [|b1 [|b2 [|b3 [|b4 l]]]]]; try done. revert Hb. cbn [frame_at decode_next]. by case_match.
Qed.
End Rust.

Lemma cpp_waits bytes :
  frame_at bytes = None ->
  exists n, (0 < n)%nat /\ Cpp.decode_one bytes = Ok (Cpp.NeedMore n) /\
    forall more, (length more < n)%nat -> frame_at (bytes ++ more) = None.
Proof.
  assert (forall l : Bytes, (length l < 5)%nat -> frame_at l = None) as Hshort.
  { intros l Hl. destruct l as [|? [|? [|? [|? [|? ?]]]]]; try done. cbn in Hl. lia. }
  destruct (Nat.lt_ge_cases (length bytes) 5) as [Hl|Hl].
  - intros _. exists (5 - length bytes)%nat. split_and!; [lia| |].
    + destruct bytes as [|? [|? [|? [|? [|? ?]]]]]; try done. cbn in Hl. lia.
    + intros more Hm. apply Hshort. rewrite length_app. lia.
  - destruct bytes as [|f [|b1 [|b2 [|b3 [|b4 l]]]]]; try (cbn in Hl; lia). cbn [frame_at]. set (len := Z.to_nat _).
    destruct (Nat.ltb_spec (length l) len) as [Hlen|]; [|done]. intros _. exists (len - length l)%nat. split_and!; [lia| |].
    + rewrite cpp_decode. fold len. cbn zeta. by rewrite (proj2 (Nat.ltb_lt _ _)).
    + intros more Hm. cbn [app frame_at]. fold len. rewrite (proj2 (Nat.ltb_lt _ _)); [done|]. rewrite length_app. lia.
Qed.

Lemma frame_at_used bytes flags body rest :
  frame_at bytes = Some (flags, body, rest) ->
  drop (5 + length body) bytes = rest /\ take (length body) (drop 5 bytes) = body.
Proof.
  destruct bytes as [|f [|b1 [|b2 [|b3 [|b4 l]]]]]; try done. cbn [frame_at]. set (len := Z.to_nat _).
  destruct (Nat.ltb_spec (length l) len) as [|Hl]; [done|]. intros [= <- <- <-]. by rewrite length_take_le.
Qed.

Lemma frame_at_encode flags m frame rest :
  0 <= flags < 256 -> encode flags m = Some frame -> frame_at (frame ++ rest) = Some (flags, m, rest).
Proof.
  unfold encode. intros Hf (len & [-> Hlen]%try_range_Some & [= <-])%bind_Some. unfold u32_to_be. cbn [app frame_at].
  rewrite u32_be_roundtrip by done. rewrite Nat2Z.id, length_app, u8_of_u8, Z.mod_small by done.
  destruct (Nat.ltb_spec (length m + length rest) (length m)); [lia|]. by rewrite take_app_length, drop_app_length.
Qed.

Lemma cpp_end bytes flags body rest :
  frame_at bytes = Some (flags, body, rest) -> Z.land flags 2 <> 0 -> Cpp.decode_one bytes = Cpp.end_stream body.
Proof.
  destruct bytes as [|f [|b1 [|b2 [|b3 [|b4 l]]]]]; try done. cbn [frame_at]. rewrite cpp_decode. cbn zeta.
  destruct (Nat.ltb_spec (length l) (Z.to_nat (u32_from_be b1 b2 b3 b4))); [done|]. intros [= <- <- <-] Hf.
  by rewrite (proj2 (Z.eqb_neq _ _)).
Qed.

(** C23.  The C++ reader follows the Rust reader, on every buffer.  Where the Rust
    SDK waits, it waits too, and the number of bytes it asks for is exact: no
    fewer complete a frame.  A message the Rust SDK takes is the one it takes, and
    the same bytes stay buffered.  Where the Rust SDK ends the stream, it reads the
    end from the same body. *)
Theorem cpp_follows_rust `{ConnectLib} bytes :
  match decode_next bytes with
  | Ok None =>
      exists n, (0 < n)%nat /\ Cpp.decode_one bytes = Ok (Cpp.NeedMore n) /\ Cpp.take_message bytes = Ok (None, bytes) /\
        forall more, (length more < n)%nat -> decode_next (bytes ++ more) = Ok None
  | Ok (Some (Message m, used)) => Cpp.take_message bytes = Ok (Some m, drop used bytes)
  | Ok (Some (EndStream _, used)) => Cpp.decode_one bytes = Cpp.end_stream (take (used - 5) (drop 5 bytes))
  | Err _ => exists flags body rest, frame_at bytes = Some (flags, body, rest) /\ flags <> MESSAGE_FLAGS
  end.
Proof.
  destruct (frame_at bytes) as [[[flags body] rest]|] eqn:Hb.
  - rewrite (decode_next_frame _ _ _ _ Hb). destruct (frame_at_used _ _ _ _ Hb) as [Hr Ht].
    destruct (Z.eqb_spec flags MESSAGE_FLAGS) as [->|Hm].
    { cbn [mbind result_bind]. rewrite Hr. by apply (take_message_frame _ _ _ _ Hb). }
    destruct (Z.eqb_spec flags END_STREAM_FLAGS) as [->|He].
    + assert (Cpp.decode_one bytes = Cpp.end_stream (take (5 + length body - 5) (drop 5 bytes))) as Hc.
      { rewrite Nat.add_comm, Nat.add_sub, Ht. by apply (cpp_end _ _ _ _ Hb). }
      case_bool_decide; [done|]. destruct (trailer_from_slice body); [done|]. cbn. eauto.
    + destruct (_ =? 1); cbn; eauto.
  - rewrite (proj2 (decode_next_waits _) Hb). destruct (cpp_waits _ Hb) as (n & Hn & Hd & Hmore). exists n. split_and!; [done|done| |].
    + unfold Cpp.take_message. by rewrite Hd.
    + intros more Hm. apply decode_next_waits. auto.
Qed.

(** Where they part.  A frame whose flags are neither of the two the
    protocol knows, without the end bit, is an error in the Rust SDK, compressed
    frames among them; the C++ transport hands its payload to the application as
    a message and reads on. *)
Theorem cpp_takes_unknown `{ConnectLib} flags m frame rest :
  0 < flags < 256 -> Z.land flags 2 = 0 -> encode flags m = Some frame ->
  Cpp.take_message (frame ++ rest) = Ok (Some m, rest) /\
  decode_next (frame ++ rest) = Err (if Z.land flags 1 =? 1 then CompressedFrame else UnknownFrameFlags flags).
Proof.
  intros Hf Hl He. assert (frame_at (frame ++ rest) = Some (flags, m, rest)) as Hb by (apply frame_at_encode; [lia|done]).
  split; [by apply (take_message_frame _ _ _ _ Hb)|]. rewrite (decode_next_frame _ _ _ _ Hb). unfold MESSAGE_FLAGS, END_STREAM_FLAGS.
  destruct (Z.eqb_spec flags 0); [lia|]. destruct (Z.eqb_spec flags 2) as [->|]; [done|]. by destruct (_ =? 1).
Qed.

(** ** The JSON reader ends *)

Lemma skip_ws_length l : (length (Cpp.skip_ws l) <= length l)%nat.
Proof. induction l as [|c l IH]; [done|]. cbn. case_match; cbn; lia. Qed.

Lemma take_char_length c l l' : Cpp.take_char c l = Some l' -> (length l' < length l)%nat.
Proof.
  unfold Cpp.take_char. pose proof (skip_ws_length l). destruct (Cpp.skip_ws l); [done|]. case_bool_decide; [|done].
  intros [= <-]. cbn in *. lia.
Qed.

Lemma parse_string_length l out s l' : Cpp.parse_string l out = Ok (s, l') -> (length l' < length l)%nat.
Proof.
  enough (forall n l out, (length l <= n)%nat -> Cpp.parse_string l out = Ok (s, l') -> (length l' < length l)%nat) as Hn by eauto.
  clear. induction n as [|n IH]; intros [|c l] out Hl; cbn [Cpp.parse_string length] in *; [done|lia|done|].
  case_bool_decide; [intros [= <- <-]; lia|]. case_bool_decide; [|intros Hs%IH; lia].
  destruct l as [|e l]; [done|]. cbn [length] in *. destruct (Cpp.unescape e); [|done]. intros Hs%IH; lia.
Qed.

Lemma span_digits_length l : (length (span_digits l).2 <= length l)%nat.
Proof. induction l as [|c l IH]; [done|]. cbn. destruct (is_digit c), (span_digits l); cbn in *; lia. Qed.

Lemma parse_number_length l v l' : Cpp.parse_number l = Ok (v, l') -> (length l' <= length l)%nat.
Proof.
  unfold Cpp.parse_number.
  destruct (match l with c :: l' => if bool_decide (c = "-"%char) then (true, l') else (false, l) | [] => (false, []) end)
    as [neg l1] eqn:Hl1.
  assert (length l1 <= length l)%nat as H1 by (destruct l as [|c l2]; [|case_bool_decide]; injection Hl1 as <- <-; cbn; lia).
  pose proof (span_digits_length l1). destruct (span_digits l1) as [int l2].
  destruct (match l2 with c :: l' => if bool_decide (c = "."%char) then span_digits l' else ([], l2) | [] => ([], []) end)
    as [frac l3] eqn:Hl3.
  assert (length l3 <= length l2)%nat as H3.
  { destruct l2 as [|c l2]; [by injection Hl3 as <- <-|]. case_bool_decide; [|by injection Hl3 as <- <-].
    pose proof (span_digits_length l2). rewrite Hl3 in *. cbn in *. lia. }
  destruct (Cpp.from_chars neg int frac); [|done]. intros [= _ <-]. cbn in *. lia.
Qed.

(** A parse that ended, and left no more text than it had. *)
Definition ended (l : Bytes) (r : option (Cpp.Parse Cpp.Value)) : Prop :=
  exists p, r = Some p /\ forall v l', p = Ok (v, l') -> (length l' <= length l)%nat.

Lemma ended_err l e : ended l (Some (Err e)).
Proof. by eexists. Qed.
Lemma ended_at l v l' : (length l' <= length l)%nat -> ended l (Some (Ok (v, l'))).
Proof. intros Hl. eexists. split; [done|]. by intros ? ? [= _ <-]. Qed.
Lemma ended_longer l l1 r : (length l1 <= length l)%nat -> ended l1 r -> ended l r.
Proof. intros Hl (p & -> & Hp). eexists. split; [done|]. intros v l' Hv%Hp. lia. Qed.

Section Loops.
  (** A parser of values that ends on every text shorter than [m]. *)
  Context (value : Bytes -> option (Cpp.Parse Cpp.Value)) (m : nat).
  Hypothesis value_ends : forall l, (length l < m)%nat -> ended l (value l).

Lemma members_end n o l : (length l < n)%nat -> (length l < m)%nat -> ended l (Cpp.parse_members value n o l).
Proof.
  revert o l. induction n as [|n IH]; intros o l Hn Hm; [lia|]. cbn [Cpp.parse_members]. pose proof (skip_ws_length l) as Hw.
  destruct (Cpp.skip_ws l) as [|c rest]; [apply ended_err|]. cbn [length] in Hw. case_bool_decide; [|apply ended_err].
  destruct (Cpp.parse_string rest []) as [[key l1]|] eqn:Hs; [|apply ended_err]. apply parse_string_length in Hs.
  destruct (Cpp.take_char ":"%char l1) as [l2|] eqn:Ht; [|apply ended_err]. apply take_char_length in Ht.
  destruct (value_ends l2) as ([[v l3]|e] & -> & Hv); [lia| |apply ended_err]. specialize (Hv _ _ eq_refl).
  destruct (Cpp.take_char "}"%char l3) as [l4|] eqn:Hc; [apply take_char_length in Hc; apply ended_at; lia|].
  destruct (Cpp.take_char ","%char l3) as [l4|] eqn:Hd; [|apply ended_err]. apply take_char_length in Hd.
  apply (ended_longer _ l4); [lia|]. apply IH; lia.
Qed.

Lemma elements_end n a l : (length l < n)%nat -> (length l < m)%nat -> ended l (Cpp.parse_elements value n a l).
Proof.
  revert a l. induction n as [|n IH]; intros a l Hn Hm; [lia|]. cbn [Cpp.parse_elements].
  destruct (value_ends l) as ([[v l3]|e] & -> & Hv); [lia| |apply ended_err]. specialize (Hv _ _ eq_refl).
  destruct (Cpp.take_char "]"%char l3) as [l4|] eqn:Hc; [apply take_char_length in Hc; apply ended_at; lia|].
  destruct (Cpp.take_char ","%char l3) as [l4|] eqn:Hd; [|apply ended_err]. apply take_char_length in Hd.
  apply (ended_longer _ l4); [lia|]. apply IH; lia.
Qed.

Lemma object_ends n l : (length l < n)%nat -> (length l < m)%nat -> ended l (Cpp.parse_object value n l).
Proof.
  intros Hn Hm. unfold Cpp.parse_object. destruct (Cpp.take_char _ l) as [l'|] eqn:Ht; [|by apply members_end].
  apply take_char_length in Ht. apply ended_at. lia.
Qed.
Lemma array_ends n l : (length l < n)%nat -> (length l < m)%nat -> ended l (Cpp.parse_array value n l).
Proof.
  intros Hn Hm. unfold Cpp.parse_array. destruct (Cpp.take_char _ l) as [l'|] eqn:Ht; [|by apply elements_end].
  apply take_char_length in Ht. apply ended_at. lia.
Qed.
End Loops.

Lemma parse_ends n l : (length l < n)%nat -> ended l (Cpp.parse_value n l).
Proof.
  revert l. induction n as [|n IH]; intros l Hl; [lia|]. cbn [Cpp.parse_value]. pose proof (skip_ws_length l) as Hw.
  destruct (Cpp.skip_ws l) as [|c rest]; [apply ended_err|]. cbn [length] in Hw. repeat case_bool_decide.
  - apply (ended_longer _ rest); [lia|]. apply (object_ends _ n); [exact IH|lia|lia].
  - apply (ended_longer _ rest); [lia|]. apply (array_ends _ n); [exact IH|lia|lia].
  - destruct (Cpp.parse_string rest []) as [[s l']|] eqn:Hs; [|apply ended_err]. apply parse_string_length in Hs. apply ended_at. lia.
  - assert (forall k v, ended l (Some (Ok (v, drop k (c :: rest))))) as Hd.
    { intros k v. apply ended_at. rewrite length_drop. cbn [length]. lia. }
    destruct (Cpp.literal _ _); [exact (Hd 4%nat _)|]. destruct (Cpp.literal _ _); [exact (Hd 4%nat _)|].
    destruct (Cpp.literal _ _); [exact (Hd 5%nat _)|].
    eexists. split; [done|]. intros v l' Hv%parse_number_length. cbn [length] in Hv. lia.
Qed.

(** The fuel is enough: [parse] answers from the parser on every text. *)
Theorem parse_total l : exists r, Cpp.parse_value (Cpp.fuel l) l = Some r.
Proof. destruct (parse_ends (Cpp.fuel l) l) as (r & Hr & _); [unfold Cpp.fuel; lia|]. eauto. Qed.

(** ** The vectors *)

Lemma hex2_pairs b rest : Oracle.pairs (Oracle.hex2 b ++ rest) = l ← Oracle.pairs rest; Ok (b :: l).
Proof.
  set (x := nth 0 (Oracle.hex2 b) Oracle.newline). set (y := nth 1 (Oracle.hex2 b) Oracle.newline).
  assert (Oracle.hex2 b = [x; y] /\ Oracle.hex_nibble x = Ok (u8 b / 16) /\ Oracle.hex_nibble y = Ok (u8 b mod 16) /\
            of_u8 (Z.lor (Z.shiftl (u8 b / 16) 4) (u8 b mod 16)) = b) as (-> & Hx & Hy & Hb)
    by (subst x y; destruct b as [[] [] [] [] [] [] [] []]; split_and!; vm_compute; reflexivity).
  cbn [app Oracle.pairs]. rewrite Hx, Hy. cbn [mbind result_bind]. by rewrite Hb.
Qed.

Lemma hex2_black b : filter (fun c => ws1 (u8 c) = false) (Oracle.hex2 b) = Oracle.hex2 b /\ length (Oracle.hex2 b) = 2%nat.
Proof. destruct b as [[] [] [] [] [] [] [] []]; vm_compute; done. Qed.

(** The text of a vector's file, and what the reader makes of it. *)
Definition hex_text (bytes : Bytes) : Bytes := concat (map Oracle.hex2 bytes) ++ [Oracle.newline].

Lemma hex_text_black bytes : filter (fun c => ws1 (u8 c) = false) (hex_text bytes) = concat (map Oracle.hex2 bytes).
Proof.
  unfold hex_text. rewrite filter_app. change (filter _ [Oracle.newline]) with (@nil ascii). rewrite app_nil_r.
  induction bytes as [|b bytes IH]; [done|]. cbn [map concat]. by rewrite filter_app, IH, (proj1 (hex2_black b)).
Qed.

Lemma hex_text_reads bytes : Oracle.pairs (concat (map Oracle.hex2 bytes)) = Ok bytes.
Proof. induction bytes as [|b bytes IH]; [done|]. cbn [map concat]. by rewrite hex2_pairs, IH. Qed.

Lemma hex_text_even bytes : Nat.odd (length (concat (map Oracle.hex2 bytes))) = false.
Proof.
  induction bytes as [|b bytes IH]; [done|]. cbn [map concat]. rewrite length_app, (proj2 (hex2_black b)).
  by rewrite Nat.add_comm, Nat.add_succ_r, Nat.add_1_r, Nat.odd_succ_succ.
Qed.

Lemma read_hex_text fs dir name bytes :
  fs !! (dir +:+ "/" +:+ name) = Some (hex_text bytes) -> Oracle.read_oracle_vector fs dir name = Ok bytes.
Proof.
  intros Hfs. unfold Oracle.read_oracle_vector. rewrite Hfs. cbn [mbind result_bind].
  by rewrite hex_text_black, hex_text_even, hex_text_reads.
Qed.

Lemma write_bytes_ok d path bytes fs fs' :
  Oracle.write_bytes d path bytes fs = (Ok tt, fs') -> fs' = <[path := default [] (fs !! path) ++ hex_text bytes]> fs.
Proof.
  assert (forall data fs fs1, Oracle.write d path data fs = (Ok tt, fs1) -> fs1 = <[path := default [] (fs !! path) ++ data]> fs) as Hw.
  { intros data fs0 fs1. unfold Oracle.write. destruct (Oracle.d_write d path _); [done|]. by intros [= <-]. }
  revert fs. induction bytes as [|b bytes IH]; intros fs; cbn [Oracle.write_bytes]; [apply Hw|].
  destruct (Oracle.write d path (Oracle.hex2 b) fs) as [[[]|e] fs1] eqn:Hb; [|done]. apply Hw in Hb as ->.
  intros ->%IH. rewrite lookup_insert_eq, insert_insert_eq. cbn [default from_option id]. unfold hex_text. cbn [map concat]. unfold id. by rewrite <- !app_assoc.
Qed.

Lemma write_hex_file_ok d path bytes fs fs' :
  Oracle.write_hex_file d path bytes fs = (Ok tt, fs') -> fs' = <[path := hex_text bytes]> fs.
Proof.
  unfold Oracle.write_hex_file. destruct (Oracle.d_create d path); [done|]. intros ->%write_bytes_ok.
  by rewrite lookup_insert_eq, insert_insert_eq.
Qed.

Lemma fs_write_ok d path data fs fs' : Oracle.fs_write d path data fs = (Ok tt, fs') -> fs' = <[path := data]> fs.
Proof.
  unfold Oracle.fs_write, Oracle.write. destruct (Oracle.d_create d path); [done|].
  destruct (Oracle.d_write d path _); [done|]. intros [= <-]. by rewrite lookup_insert_eq, insert_insert_eq.
Qed.

#[local] Instance join_inj dir : Inj (=) (=) (Oracle.join dir).
Proof. intros a b. unfold Oracle.join. case_bool_decide; [done|]. case_bool_decide; [apply (inj (String.append dir))|]. by intros []%(inj _)%(inj _). Qed.

(** A path that no later write touches keeps its file. *)
Lemma write_vectors_other d dir vs fs fs' name :
  Oracle.write_vectors d dir vs fs = (Ok tt, fs') -> name ∉ map Oracle.ov_name vs -> name <> "manifest.txt" ->
  fs' !! Oracle.join dir name = fs !! Oracle.join dir name.
Proof.
  revert fs. induction vs as [|v vs IH]; intros fs; cbn [Oracle.write_vectors map].
  - intros ->%fs_write_ok _ Hn. rewrite lookup_insert_ne; [done|]. by intros ?%(inj _).
  - destruct (Oracle.write_hex_file d _ _ fs) as [[[]|e] fs1] eqn:Hv; [|done]. apply write_hex_file_ok in Hv as ->.
    intros Hw [Hne Hn]%not_elem_of_cons Hm. rewrite (IH _ Hw Hn Hm), lookup_insert_ne; [done|]. by intros ?%(inj _).
Qed.

Lemma write_vectors_ok d dir vs fs fs' :
  Oracle.write_vectors d dir vs fs = (Ok tt, fs') -> NoDup (map Oracle.ov_name vs) -> "manifest.txt" ∉ map Oracle.ov_name vs ->
  Forall (fun v => fs' !! Oracle.join dir (Oracle.ov_name v) = Some (hex_text (Oracle.ov_bytes v))) vs /\
  fs' !! Oracle.join dir "manifest.txt" = Some Oracle.MANIFEST.
Proof.
  revert fs. induction vs as [|v vs IH]; intros fs; cbn [Oracle.write_vectors map].
  - intros ->%fs_write_ok _ _. split; [constructor|]. apply lookup_insert_eq.
  - destruct (Oracle.write_hex_file d _ _ fs) as [[[]|e] fs1] eqn:Hv; [|done]. apply write_hex_file_ok in Hv as ->.
    intros Hw [Hv Hnd]%NoDup_cons [Hne Hm]%not_elem_of_cons. destruct (IH _ Hw Hnd Hm) as [Hall Hman]. split; [|done].
    constructor; [|done]. rewrite (write_vectors_other _ _ _ _ _ _ Hw Hv) by done. apply lookup_insert_eq.
Qed.

Lemma vectors_named :
  from_option (fun vs => bool_decide (NoDup ("manifest.txt" :: map Oracle.ov_name vs))) false Oracle.oracle_vectors = true.
Proof. vm_compute. reflexivity. Qed.

Lemma vectors_decoded :
  map (fun v => Cpp.decode_one (Oracle.ov_bytes v)) <$> Oracle.oracle_vectors =
    Some [Ok (Cpp.Message 0 (as_bytes "pay")); Ok (Cpp.Message 1 (as_bytes "pay")); Ok (Cpp.Message 0 (as_bytes "one"));
          Ok (Cpp.NeedMore 2); Ok (Cpp.EndStream None None);
          Ok (Cpp.EndStream (Some (as_bytes "not_found")) (Some (as_bytes "missing")))].
Proof. vm_compute. reflexivity. Qed.

(** The vectors bind the two codecs.  When the Rust program has written the
    vectors, the C++ test reads from each file the bytes that were framed, and the
    C++ codec makes of them what the Rust program put there: the message, the
    message of the frame with the compressed bit, the first of the two messages,
    the two bytes that miss from the header, the clean end, and the error. *)
Theorem vectors_read_back d dir fs fs' :
  dir <> EmptyString -> list.last (as_bytes dir) <> Some "/"%char ->
  Oracle.emit_vectors d dir fs = Some (Ok tt, fs') ->
  exists vs, Oracle.oracle_vectors = Some vs /\
    Forall (fun v => Oracle.read_oracle_vector fs' dir (Oracle.ov_name v) = Ok (Oracle.ov_bytes v)) vs /\
    fs' !! Oracle.join dir "manifest.txt" = Some Oracle.MANIFEST /\
    map (fun v => Cpp.decode_one (Oracle.ov_bytes v)) vs =
      [Ok (Cpp.Message 0 (as_bytes "pay")); Ok (Cpp.Message 1 (as_bytes "pay")); Ok (Cpp.Message 0 (as_bytes "one"));
       Ok (Cpp.NeedMore 2); Ok (Cpp.EndStream None None);
       Ok (Cpp.EndStream (Some (as_bytes "not_found")) (Some (as_bytes "missing")))].
Proof.
  intros Hd Hl. unfold Oracle.emit_vectors. destruct (Oracle.d_mkdir d dir); [done|].
  destruct Oracle.oracle_vectors as [vs|] eqn:Hvs; [|done]. cbn [mbind option_bind]. intros [= Hw].
  pose proof vectors_named as Hnd. rewrite Hvs in Hnd. apply bool_decide_eq_true, NoDup_cons in Hnd as [Hm Hnd].
  destruct (write_vectors_ok _ _ _ _ _ Hw Hnd Hm) as [Hall Hman]. exists vs. split_and!; [done| |done|].
  - eapply Forall_impl; [exact Hall|]. intros v Hv. apply read_hex_text. revert Hv. unfold Oracle.join.
    by rewrite (bool_decide_eq_false_2 _ Hd), (bool_decide_eq_false_2 _ Hl).
  - pose proof vectors_decoded as Hc. rewrite Hvs in Hc. by injection Hc.
Qed.

(** ** Instances *)

Module Vectors.
Definition healthy : Oracle.Disk :=
  {| Oracle.d_mkdir := fun _ => None; Oracle.d_create := fun _ => None; Oracle.d_write := fun _ _ => None |}.
Lemma emits : match Oracle.emit_vectors healthy "out" ∅ with Some (Ok _, _) => true | _ => false end = true.
Proof. vm_compute. reflexivity. Qed.

Lemma frames_same_witness : encode 0 (as_bytes "pay") = Some (Java.encodedFrame (as_bytes "pay")).
Proof. apply (frames_same 0 (as_bytes "pay")). vm_compute. congruence. Defined.

Lemma vectors_read_back_witness : exists vs fs,
  Oracle.emit_vectors healthy "out" ∅ = Some (Ok tt, fs) /\ Oracle.oracle_vectors = Some vs /\
  Forall (fun v => Oracle.read_oracle_vector fs "out" (Oracle.ov_name v) = Ok (Oracle.ov_bytes v)) vs.
Proof.
  pose proof emits as He. destruct (Oracle.emit_vectors healthy "out" ∅) as [[[[]|] fs]|] eqn:Hw; [|discriminate He..].
  destruct (vectors_read_back healthy "out" ∅ fs) as (vs & Hvs & Hr & _); [discriminate|vm_compute; discriminate|exact Hw|].
  exists vs, fs. split; [reflexivity|]. split; [exact Hvs|exact Hr].
Defined.

#[local] Instance lib : ConnectLib := {| trailer_from_slice := fun _ => Err "json"; error_from_slice := fun _ => Err "json" |}.
Definition compressed : Bytes := default [] (encode 1 (as_bytes "pay")).
Lemma cpp_takes_unknown_witness :
  Cpp.take_message (compressed ++ as_bytes "rest") = Ok (Some (as_bytes "pay"), as_bytes "rest") /\
  decode_next (compressed ++ as_bytes "rest") = Err CompressedFrame.
Proof. apply (cpp_takes_unknown 1 (as_bytes "pay") compressed (as_bytes "rest")); [lia|done|vm_compute; reflexivity]. Defined.
End Vectors.
