(* ===== verification/FilterSdks.v ===== *)
(** * The filters of the five SDKs
    (sdks/go: messaging.go; sdks/ts: src/messaging.ts; sdks/java:
    LiveGatewayTransport.java; sdks/cpp: transport_nghttp2.cc, json.cc)

    A subscription's filter travels as a text of the gateway's filter language,
    and each SDK prints its own.  [Sdk.to_gateway_filter] is the Rust printer, and
    [Sdk.sdk_filter_agrees] says what its text means to the gateway; here are the
    other four.  Paths and strings are bytes of UTF-8: every test of a path is on
    ASCII, which no byte of a longer character is. *)

From Stdlib Require Import SpecFloat.
From stdpp Require Import pretty.
From S2P Require Import Prelude.
From S2P Require Import RustStr.
From S2P Require Import RustNum.
From S2P Require Import Types.
From S2P Require Import Filter.
From S2P Require Import FilterText.
From S2P Require Import Connect.
From S2P Require Import Sdk.
From S2P Require Import Envelope.

(** [strings.Split], [split] and the like at the dots; [CutPrefix] and
    [startsWith] at the two characters before a field. *)
Definition field_of (path : Bytes) : option Bytes :=
  match path with
  | a :: b :: field => if bool_decide (a = "$"%char) && bool_decide (b = "."%char) then Some field else None
  | _ => None
  end.

(** The replacement of a quote by two. *)
Definition replace_quotes (s : Bytes) : Bytes := flat_map (fun c => if bool_decide (c = "'"%char) then ["'"%char; "'"%char] else [c]) s.
Definition invalid (m : string) {A} : result Cpp.Error A := Err (KInvalidArgument, as_bytes m).
Definition bad_value : string := "filter value must be a string, number, boolean, or null".

(** ** Go *)

Module GoFilter.
(** A value of type [any], by the cases of the switch. *)
Inductive Value := VString (s : Bytes) | VBool (b : bool) | VInt (z : Z) | VFloat (f : f64) | VNil | VOther.

(** The verb [%g] of [fmt]. *)
Class Fmt := { sprintf_g : f64 -> Bytes }.

Definition isASCIILetter (c : ascii) : bool := ((97 <=? u8 c) && (u8 c <=? 122)) || ((65 <=? u8 c) && (u8 c <=? 90)).
Fixpoint segment_from (index : nat) (segment : Bytes) : bool :=
  match segment with
  | [] => true
  | c :: segment =>
      if (index =? 0)%nat && negb (bool_decide (c = "_"%char)) && negb (isASCIILetter c) then false
      else if (0 <? index)%nat && negb (bool_decide (c = "_"%char)) && negb (isASCIILetter c) && ((u8 c <? 48) || (57 <? u8 c)) then false
      else segment_from (S index) segment
  end.
Definition validFilterSegment (segment : Bytes) : bool := segment_from 0 segment && negb (bool_decide (segment = [])).

Definition toProtoFilter `{Fmt} (filter : option (Bytes * Value)) : result Cpp.Error Bytes :=
  match filter with
  | None => Ok []
  | Some (path, value) =>
      match field_of path with
      | None => invalid "filter path must start with $."
      | Some field =>
          if negb (forallb validFilterSegment (split_dots field)) then invalid "filter path must contain identifier segments"
          else
            let eq := field ++ as_bytes " = " in
            match value with
            | VString s => Ok (eq ++ ["'"%char] ++ replace_quotes s ++ ["'"%char])
            | VBool b => Ok (eq ++ as_bytes (if b then "true" else "false"))
            | VInt z => Ok (eq ++ print_int z)
            | VFloat f => Ok (eq ++ sprintf_g f)
            | VNil => Ok (eq ++ as_bytes "null")
            | VOther => invalid bad_value
            end
      end
  end.
End GoFilter.

(** ** TypeScript *)

Module TsFilter.
(** A value of the type, and [Other] of one an untyped caller may pass. *)
Inductive Value := TString (s : Bytes) | TNumber (f : f64) | TBool (b : bool) | TNull | TOther.

(** The text of a number in a template. *)
Class Ecma := { number_text : f64 -> Bytes }.

(** [/^[A-Za-z_][A-Za-z0-9_]*$/]. *)
Definition identifier (segment : Bytes) : bool :=
  match segment with
  | [] => false
  | c :: rest =>
      (is_alpha c || bool_decide (c = "_"%char)) &&
      forallb (fun c => is_alpha c || is_digit c || bool_decide (c = "_"%char)) rest
  end.

Definition toProtoFilter `{Ecma} (filter : option (Bytes * Value)) : result Cpp.Error Bytes :=
  match filter with
  | None => Ok []
  | Some (path, value) =>
      match field_of path with
      | None => invalid "filter path must start with $."
      | Some field =>
          if bool_decide (field = []) || negb (forallb identifier (split_dots field))
          then invalid "filter path must contain identifier segments"
          else
            let eq := field ++ as_bytes " = " in
            match value with
            | TString s => Ok (eq ++ ["'"%char] ++ replace_quotes s ++ ["'"%char])
            | TNull => Ok (eq ++ as_bytes "null")
            | TBool b => Ok (eq ++ as_bytes (if b then "true" else "false"))
            | TNumber f => if is_finite f then Ok (eq ++ number_text f) else invalid bad_value
            | TOther => invalid bad_value
            end
      end
  end.
End TsFilter.

(** ** Java *)

Module JavaFilter.
(** [asText] of a number's node, and [isBlank] of Unicode's white space. *)
Class NodeText := {
  number_asText : JsonNumber -> Bytes;
  isBlank : Bytes -> bool;
  isBlank_white l c : isBlank l = true -> c ∈ l -> is_alnum c = false /\ c <> "_"%char;
}.

Definition isAsciiLetter (c : ascii) : bool := ((65 <=? u8 c) && (u8 c <=? 90)) || ((97 <=? u8 c) && (u8 c <=? 122)).
Definition isAsciiLetterOrDigit (c : ascii) : bool := isAsciiLetter c || ((48 <=? u8 c) && (u8 c <=? 57)).
Definition isIdentifier (value : Bytes) : bool :=
  match value with
  | [] => false
  | first :: rest =>
      if negb (bool_decide (first = "_"%char)) && negb (isAsciiLetter first) then false
      else forallb (fun c => bool_decide (c = "_"%char) || isAsciiLetterOrDigit c) rest
  end.

(** The first segment that is no identifier is named in the error. *)
Definition serverFieldPath `{NodeText} (path : Bytes) : result Cpp.Error Bytes :=
  match field_of path with
  | None => invalid "filter path must start with $."
  | Some fieldPath =>
      if isBlank fieldPath then invalid "filter path must include a field name"
      else match List.find (fun s => negb (isIdentifier s)) (split_dots fieldPath) with
           | Some segment => Err (KInvalidArgument, as_bytes "unsupported filter path segment " ++ segment)
           | None => Ok fieldPath
           end
  end.

Definition serverLiteral `{NodeText} (value : Json) : result Cpp.Error Bytes :=
  match value with
  | JString s => Ok (["'"%char] ++ replace_quotes s ++ ["'"%char])
  | JNumber n => Ok (number_asText n)
  | JBool b => Ok (as_bytes (if b then "true" else "false"))
  | JNull => Ok (as_bytes "null")
  | JArray _ | JObject _ => invalid bad_value
  end.

(** The one operator there is passes the test of the operator. *)
Definition toServerFilter `{NodeText} (path : Bytes) (value : Json) : result Cpp.Error Bytes :=
  field ← serverFieldPath path;
  literal ← serverLiteral value;
  Ok (field ++ as_bytes " = " ++ literal).
End JavaFilter.

(** ** C++ *)

Module CppFilter.
Definition digits (z : Z) : Bytes := as_bytes (pretty z).
Definition zeros (n : Z) : Bytes := replicate (Z.to_nat n) "0"%char.
Fixpoint strip_zeros (l : Bytes) : Bytes :=
  match l with
  | [] => []
  | c :: l => match strip_zeros l with
              | [] => if bool_decide (c = "0"%char) then [] else [c]
              | l => c :: l
              end
  end.

(** The fraction of a number in the default format: no zeros at its end, and no
    point if nothing is left. *)
Definition fraction (l : Bytes) : Bytes := match strip_zeros l with [] => [] | l => "."%char :: l end.

(** The quotient to the nearest integer, ties to even. *)
Definition round_div (n d : Z) : Z :=
  let q := n / d in
  match 2 * (n mod d) ?= d with Lt => q | Eq => if Z.even q then q else q + 1 | Gt => q + 1 end.

(** [operator<<] of a double to a stream that was not configured: the format
    [%g] with six significant digits. *)
Definition precision : Z := 6.
Definition general (n d : Z) : Bytes :=
  let x := if d <=? n then Z.of_nat (length (digits (n / d))) - 1
           else - Z.of_nat (length (digits ((d - 1) / n))) in
  let shift := x - (precision - 1) in
  let m := if 0 <=? shift then round_div n (d * 10 ^ shift) else round_div (n * 10 ^ (- shift)) d in
  let '(m, x) := if m =? 10 ^ precision then (m / 10, x + 1) else (m, x) in
  let ds := digits m in
  if (x <? -4) || (precision <=? x) then
    take 1 ds ++ fraction (drop 1 ds) ++ as_bytes (if x <? 0 then "e-" else "e+") ++
      (if Z.abs x <? 10 then "0"%char :: digits (Z.abs x) else digits (Z.abs x))
  else if 0 <=? x then take (Z.to_nat (x + 1)) ds ++ fraction (drop (Z.to_nat (x + 1)) ds)
  else "0"%char :: fraction (zeros (- x - 1) ++ ds).
Definition stream_double (f : f64) : Bytes :=
  match f with
  | S754_zero s => as_bytes (if s then "-0" else "0")
  | S754_infinity s => as_bytes (if s then "-inf" else "inf")
  | S754_nan => as_bytes "nan"
  | S754_finite s m e =>
      (if s then ["-"%char] else []) ++
      (if 0 <=? e then general (Zpos m * 2 ^ e) 1 else general (Zpos m) (2 ^ (- e)))
  end.

Definition valid_filter_segment (segment : Bytes) : bool :=
  match segment with
  | [] => false
  | front :: rest =>
      (bool_decide (front = "_"%char) || is_alpha front) && forallb (fun c => bool_decide (c = "_"%char) || is_alnum c) rest
  end.

(** The loop over the segments; [segment] is what was read of the current one. *)
Fixpoint segments_valid (segment field : Bytes) : bool :=
  match field with
  | [] => valid_filter_segment segment
  | c :: field =>
      if bool_decide (c = "."%char) then valid_filter_segment segment && segments_valid [] field
      else segments_valid (segment ++ [c]) field
  end.

(** The loop of [quote_gateway_filter_string]. *)
Fixpoint quote_gateway_filter_string (value : Bytes) : Bytes :=
  match value with
  | [] => []
  | c :: value => (if bool_decide (c = "'"%char) then ["'"%char] else []) ++ [c] ++ quote_gateway_filter_string value
  end.

Definition gateway_filter_literal (value : Cpp.Value) : result Cpp.Error Bytes :=
  match value with
  | Cpp.Text s => Ok (["'"%char] ++ quote_gateway_filter_string s ++ ["'"%char])
  | Cpp.Bool b => Ok (as_bytes (if b then "true" else "false"))
  | Cpp.Number x => Ok (stream_double x)
  | Cpp.Null => Ok (as_bytes "null")
  | Cpp.Array _ | Cpp.Object _ => invalid bad_value
  end.

Definition filter_expression (filter : option (Bytes * Cpp.Value)) : result Cpp.Error Bytes :=
  match filter with
  | None => Ok []
  | Some (path, value) =>
      match field_of path with
      | None => invalid "filter path must start with $."
      | Some field =>
          if segments_valid [] field then
            literal ← gateway_filter_literal value; Ok (field ++ as_bytes " = " ++ literal)
          else invalid "filter path must contain identifier segments"
      end
  end.
End CppFilter.

(** ** One language *)

Lemma alpha_letters c : ((65 <=? u8 c) && (u8 c <=? 90)) || ((97 <=? u8 c) && (u8 c <=? 122)) = is_alpha c.
Proof. done. Qed.

Lemma go_segment s : GoFilter.validFilterSegment s = valid_filter_segment s.
Proof.
  assert (forall i l, GoFilter.segment_from (S i) l = forallb (fun c => bool_decide (c = "_"%char) || is_alnum c) l) as Hl.
  { intros i l. revert i. induction l as [|c l IH]; intros i; [done|]. cbn [GoFilter.segment_from forallb Nat.eqb Nat.ltb Nat.leb andb].
    rewrite IH. unfold GoFilter.isASCIILetter. rewrite orb_comm, alpha_letters. unfold is_alnum, is_digit, between.
    destruct (bool_decide _), (is_alpha c); [rewrite ?orb_true_r; done..|].
    by destruct (Z.leb_spec 48 (u8 c)), (Z.leb_spec (u8 c) 57), (Z.ltb_spec (u8 c) 48), (Z.ltb_spec 57 (u8 c)); try lia. }
  unfold GoFilter.validFilterSegment. destruct s as [|c s]; [done|]. cbn [GoFilter.segment_from valid_filter_segment Nat.eqb Nat.ltb Nat.leb andb].
  rewrite Hl, (bool_decide_eq_false_2 (c :: s = [])) by done. unfold GoFilter.isASCIILetter. rewrite orb_comm, alpha_letters, andb_true_r.
  by destruct (bool_decide _), (is_alpha c).
Qed.

Lemma forallb_same {A} (f g : A -> bool) l : (forall x, f x = g x) -> forallb f l = forallb g l.
Proof. intros Hf. induction l as [|x l IH]; [done|]. cbn. by rewrite Hf, IH. Qed.

Lemma ts_segment s : TsFilter.identifier s = valid_filter_segment s.
Proof.
  destruct s as [|c s]; [done|]. cbn. rewrite (orb_comm (is_alpha c)). f_equal. apply forallb_same. intros x. unfold is_alnum.
  by destruct (is_alpha x), (is_digit x), (bool_decide _).
Qed.

Lemma java_segment s : JavaFilter.isIdentifier s = valid_filter_segment s.
Proof.
  destruct s as [|c s]; [done|]. cbn. unfold JavaFilter.isAsciiLetter at 1. rewrite alpha_letters.
  rewrite (forallb_same _ (fun c => bool_decide (c = "_"%char) || is_alnum c)).
  - by destruct (bool_decide _), (is_alpha c).
  - intros x. unfold JavaFilter.isAsciiLetterOrDigit, JavaFilter.isAsciiLetter, is_alnum. rewrite alpha_letters. by rewrite (orb_comm (is_alpha x)).
Qed.

Lemma split_dots_some l : exists s ss, split_dots l = s :: ss.
Proof. induction l as [|c l (s & ss & IH)]; cbn; [eauto|]. rewrite IH. case_bool_decide; eauto. Qed.

Lemma cpp_segments field : CppFilter.segments_valid [] field = forallb valid_filter_segment (split_dots field).
Proof.
  enough (forall l seg s ss, split_dots l = s :: ss ->
            CppFilter.segments_valid seg l = forallb valid_filter_segment ((seg ++ s) :: ss)) as Hl.
  { destruct (split_dots_some field) as (s & ss & Hs). by rewrite (Hl _ [] _ _ Hs), Hs. }
  induction l as [|c l IH]; intros seg s ss; cbn [CppFilter.segments_valid split_dots].
  - intros [= <- <-]. cbn [forallb]. by rewrite app_nil_r, andb_true_r.
  - destruct (split_dots_some l) as (s' & ss' & Hs). rewrite Hs. case_bool_decide; intros [= <- <-]; rewrite (IH _ _ _ Hs).
    + cbn [forallb]. by rewrite app_nil_r.
    + by rewrite <- app_assoc.
Qed.

Lemma quotes_same s : replace_quotes s = double_quotes s /\ CppFilter.quote_gateway_filter_string s = double_quotes s.
Proof. induction s as [|c s [IH1 IH2]]; [done|]. cbn. rewrite IH2. unfold replace_quotes in IH1. rewrite IH1. change quote with "'"%char. by case_bool_decide; subst. Qed.

(** The values every SDK has: a string, a boolean, null. *)
Inductive Plain := PString (s : Bytes) | PBool (b : bool) | PNull.
Definition to_json (v : Plain) : Json := match v with PString s => JString s | PBool b => JBool b | PNull => JNull end.
Definition to_go (v : Plain) : GoFilter.Value :=
  match v with PString s => GoFilter.VString s | PBool b => GoFilter.VBool b | PNull => GoFilter.VNil end.
Definition to_ts (v : Plain) : TsFilter.Value :=
  match v with PString s => TsFilter.TString s | PBool b => TsFilter.TBool b | PNull => TsFilter.TNull end.
Definition to_cpp (v : Plain) : Cpp.Value := match v with PString s => Cpp.Text s | PBool b => Cpp.Bool b | PNull => Cpp.Null end.

(** The text of a filter on a path of identifiers. *)
Definition text (path literal : Bytes) : option Bytes :=
  field ← field_of path;
  if forallb valid_filter_segment (split_dots field) then Some (field ++ as_bytes " = " ++ literal) else None.
Definition plain_literal (v : Plain) : Bytes :=
  match v with
  | PString s => quote :: double_quotes s ++ [quote]
  | PBool b => as_bytes (if b then "true" else "false")
  | PNull => as_bytes "null"
  end.

Lemma rust_field path : as_bytes <$> strip_prefix "$." (of_bytes path) = field_of path.
Proof.
  destruct path as [|a [|b l]]; [done|..]; cbn; unfold strip_prefix; cbn; repeat case_bool_decide; subst; try done.
  cbn. by rewrite as_of_bytes.
Qed.

Lemma rust_text `{FloatDisplay} path j literal :
  gateway_filter_literal j = Ok literal ->
  ok (to_gateway_filter {| Sdk.path := of_bytes path; expected_value := j |}) = text path literal.
Proof.
  intros Hj. unfold to_gateway_filter, text. cbn [Sdk.path expected_value]. rewrite <- rust_field.
  destruct (strip_prefix "$." (of_bytes path)) as [field|]; [|done]. cbn [fmap option_fmap option_map mbind option_bind].
  rewrite Hj. cbn [mbind result_bind]. case_bool_decide as Hf; [by rewrite Hf|]. cbn [orb]. by destruct (forallb _ _).
Qed.

Lemma find_negb {A} (f : A -> bool) l : forallb f l = true -> List.find (fun x => negb (f x)) l = None.
Proof. induction l as [|x l IH]; [done|]. cbn. intros [-> Hl]%andb_true_iff. by apply IH. Qed.
Lemma find_negb_some {A} (f : A -> bool) l : forallb f l = false -> is_Some (List.find (fun x => negb (f x)) l).
Proof. induction l as [|x l IH]; [done|]. cbn. destruct (f x); cbn; eauto. Qed.

(** A field of identifiers is not blank. *)
Lemma field_not_blank `{JavaFilter.NodeText} field :
  forallb valid_filter_segment (split_dots field) = true -> JavaFilter.isBlank field = false.
Proof.
  intros Hs. destruct (JavaFilter.isBlank field) eqn:Hb; [|done]. destruct field as [|c field]; [done|].
  destruct (JavaFilter.isBlank_white _ c Hb) as [Hc Hu]; [by left|]. revert Hs. cbn [split_dots].
  destruct (split_dots_some field) as (s & ss & ->). case_bool_decide; [done|]. cbn [forallb valid_filter_segment].
  rewrite bool_decide_eq_false_2 by done. unfold is_alnum in Hc. apply orb_false_iff in Hc as [_ ->]. done.
Qed.

Lemma java_text `{JavaFilter.NodeText} path j literal :
  JavaFilter.serverLiteral j = Ok literal -> ok (JavaFilter.toServerFilter path j) = text path literal.
Proof.
  intros Hj. unfold JavaFilter.toServerFilter, JavaFilter.serverFieldPath, text.
  destruct (field_of path) as [field|]; [|done]. cbn [mbind option_bind].
  destruct (forallb valid_filter_segment (split_dots field)) eqn:Hs.
  - rewrite field_not_blank, find_negb by (rewrite ?(forallb_same _ _ _ java_segment); done). cbn [mbind result_bind]. by rewrite Hj.
  - destruct (JavaFilter.isBlank field); [done|]. destruct (find_negb_some JavaFilter.isIdentifier (split_dots field)) as [seg ->]; [|done].
    by rewrite (forallb_same _ _ _ java_segment).
Qed.

(** C18.  One filter language.  For every path and every string, boolean or null,
    the Go, TypeScript, Java and C++ SDKs send the text the Rust SDK sends, and
    refuse the filters it refuses; for an integer the Go SDK does so too. *)
Theorem filters_same `{FloatDisplay} `{GoFilter.Fmt} `{TsFilter.Ecma} `{JavaFilter.NodeText} path v (z : Z) :
  let rust j := ok (to_gateway_filter {| Sdk.path := of_bytes path; expected_value := j |}) in
  ok (GoFilter.toProtoFilter (Some (path, to_go v))) = rust (to_json v) /\
  ok (TsFilter.toProtoFilter (Some (path, to_ts v))) = rust (to_json v) /\
  ok (JavaFilter.toServerFilter path (to_json v)) = rust (to_json v) /\
  ok (CppFilter.filter_expression (Some (path, to_cpp v))) = rust (to_json v) /\
  ok (GoFilter.toProtoFilter (Some (path, GoFilter.VInt z))) = rust (JNumber (if 0 <=? z then PosInt z else NegInt z)).
Proof.
  cbv zeta beta. rewrite (rust_text _ (to_json v) (plain_literal v)) by (by destruct v).
  rewrite (rust_text _ (JNumber _) (print_int z)) by (by destruct (0 <=? z)).
  rewrite (java_text _ _ (plain_literal v)) by (destruct v; cbn; rewrite ?(proj1 (quotes_same _)); done).
  unfold GoFilter.toProtoFilter, TsFilter.toProtoFilter, CppFilter.filter_expression, text.
  destruct (field_of path) as [field|]; [|done]. cbn [mbind option_bind].
  rewrite (forallb_same _ _ _ go_segment), (forallb_same _ _ _ ts_segment), cpp_segments.
  destruct (forallb valid_filter_segment (split_dots field)) eqn:Hs; cbn [negb]; [|split_and!; try done; by rewrite orb_true_r].
  rewrite bool_decide_eq_false_2 by (intros ->; done). cbn [orb].
  destruct v as [s|b|]; cbn; rewrite <- ?app_assoc, ?(proj1 (quotes_same _)), ?(proj2 (quotes_same _)); done.
Qed.

(** The C++ SDK's filter on the number 1234567 and what the gateway compiles it to. *)
Definition million : Cpp.Value := Cpp.Number (f64_of_Z 1234567).
Lemma million_text :
  CppFilter.filter_expression (Some (as_bytes "$.id", million)) = Ok (as_bytes "id = 1.23457e+06") /\
  compile true (as_bytes "id = 1.23457e+06") =
    Ok {| cf_sql := as_bytes "id = 1.23457e+06";
          cf_predicates := [{| field := as_bytes "id"; operator := Equal; expected := FLNumber (Float (f64_of_Z 1234570)) |}] |}.
Proof. vm_compute. done. Qed.

Definition wanted_filter : CompiledFilter :=
  {| cf_sql := as_bytes "id = 1234567"; cf_predicates := [{| field := as_bytes "id"; operator := Equal; expected := FLNumber (Integer 1234567) |}] |}.
Lemma wanted_compiled : compile true (as_bytes "id = 1234567") = Ok wanted_filter.
Proof. vm_compute. reflexivity. Qed.

Lemma wanted_text `{FloatDisplay} :
  to_gateway_filter {| Sdk.path := "$.id"; expected_value := JNumber (PosInt 1234567) |} = Ok (as_bytes "id = 1234567").
Proof. lazy. reflexivity. Qed.

(** The decision on the value a record holds. *)
Definition accepts (cf : CompiledFilter) (j : Json) : bool :=
  if is_unfiltered cf then true
  else match cf_predicates cf with
       | [] => false
       | _ => match row_from_json j (cf_predicates cf) with Some row => matches_row cf [row] 0 | None => false end
       end.
Lemma matches_accepts `{JsonLib} cf v j : json_parse v = Some j -> matches_structured_json cf (Some v) = accepts cf j.
Proof. intros Hv. unfold matches_structured_json, accepts. cbn [mbind option_bind]. by rewrite Hv. Qed.

Definition id_object (z : Z) : Json := JObject [(as_bytes "id", JNumber (PosInt z))].

(** C40.  Where a number loses digits.  The C++ SDK prints a number with six
    significant digits, so its filter for 1234567 asks for 1234570: the gateway
    compiles it, refuses the record the application asked for and delivers another;
    the Rust SDK's filter for the same number does the opposite. *)
Theorem cpp_filter_rounds `{JsonLib} `{FloatDisplay} (wanted other : Bytes) :
  json_parse wanted = Some (id_object 1234567) -> json_parse other = Some (id_object 1234570) ->
  exists sql cf sql' cf',
    CppFilter.filter_expression (Some (as_bytes "$.id", million)) = Ok sql /\ compile true sql = Ok cf /\
    matches_structured_json cf (Some wanted) = false /\ matches_structured_json cf (Some other) = true /\
    to_gateway_filter {| Sdk.path := "$.id"; expected_value := JNumber (PosInt 1234567) |} = Ok sql' /\ compile true sql' = Ok cf' /\
    matches_structured_json cf' (Some wanted) = true /\ matches_structured_json cf' (Some other) = false.
Proof.
  intros Hw Ho. destruct million_text as [Ht Hc]. do 4 eexists. split; [exact Ht|]. split; [exact Hc|].
  split; [rewrite (matches_accepts _ _ _ Hw); vm_compute; reflexivity|].
  split; [rewrite (matches_accepts _ _ _ Ho); vm_compute; reflexivity|].
  split; [apply wanted_text|]. split; [apply wanted_compiled|].
  split; [rewrite (matches_accepts _ _ _ Hw)|rewrite (matches_accepts _ _ _ Ho)]; vm_compute; reflexivity.
Qed.

(** ** Instances *)

Module Printers.
#[local] Instance floats : FloatDisplay := {| float_to_string := CppFilter.stream_double |}.
#[local] Instance fmt : GoFilter.Fmt := {| GoFilter.sprintf_g := CppFilter.stream_double |}.
#[local] Instance ecma : TsFilter.Ecma := {| TsFilter.number_text := CppFilter.stream_double |}.
#[local] Instance nodes : JavaFilter.NodeText.
Proof.
  refine {| JavaFilter.number_asText := number_to_string; JavaFilter.isBlank := forallb (fun c => ws1 (u8 c)) |}.
  intros l c Hl Hc. assert (ws1 (u8 c) = true) as Hw by (eapply forallb_forall in Hl; [exact Hl|by apply list_elem_of_In]).
  destruct c as [[] [] [] [] [] [] [] []]; done.
Defined.

(** A path of two segments and a string with a quote in it. *)
Lemma filters_same_witness :
  ok (JavaFilter.toServerFilter (as_bytes "$.user.name") (JString (as_bytes "O'Neil"))) =
  ok (CppFilter.filter_expression (Some (as_bytes "$.user.name", Cpp.Text (as_bytes "O'Neil")))).
Proof.
  destruct (filters_same (as_bytes "$.user.name") (PString (as_bytes "O'Neil")) 0) as (_ & _ & Hj & Hc & _).
  cbn [to_json to_cpp] in Hj, Hc. by rewrite Hj, Hc.
Defined.

#[local] Instance json : JsonLib :=
  {| json_parse := fun v => Some (id_object (if bool_decide (v = []) then 1234567 else 1234570)); json_error := fun _ => EmptyString |}.
Lemma cpp_filter_rounds_witness : exists sql cf,
  CppFilter.filter_expression (Some (as_bytes "$.id", million)) = Ok sql /\ compile true sql = Ok cf /\
  matches_structured_json cf (Some []) = false /\ matches_structured_json cf (Some (as_bytes "other")) = true.
Proof.
  destruct (cpp_filter_rounds [] (as_bytes "other")) as (sql & cf & _ & _ & Hs & Hc & Hw & Ho & _); [reflexivity|reflexivity|].
  exists sql, cf. exact (conj Hs (conj Hc (conj Hw Ho))).
Defined.
End Printers.
