(* ===== verification/Taxonomy.v ===== *)
(** * The error classes of the five SDKs
    (sdks/go: errors.go; sdks/ts: src/errors.ts; sdks/java:
    LiveGatewayTransport.java, LiveGatewaySubscription.java)

    An application sees a failure of the gateway as one of six classes, the same
    six in each language.  Each SDK has its own tables from what the gateway sends
    to the classes: from the code of a Connect error, from the number in a record's
    or a message's error, and from the status of a response without a Connect
    error.  [Module Go], [Module Ts] and [Module Jvm] hold the tables of three
    SDKs, [Envelope.Cpp] those of the fourth, [Connect], [Sdk] and [SdkQueue]
    those of Rust.  The theorems say where the tables agree and list every place
    where they do not. *)

From stdpp Require Import pretty.
From S2P Require Import Prelude.
From S2P Require Import RustStr.
From S2P Require Import Types.
From S2P Require Import Filter.
From S2P Require Import Handlers.
From S2P Require Import Connect.
From S2P Require Import Sdk.
From S2P Require Import SdkQueue.
From S2P Require Import Envelope.

(** ** Codes *)

(** The codes of the Connect protocol, with the names and the numbers it gives
    them. *)
Inductive Code :=
| Canceled | Unknown | InvalidArgument | DeadlineExceeded | NotFoundCode | AlreadyExists | PermissionDenied
| ResourceExhausted | FailedPrecondition | Aborted | OutOfRange | UnimplementedCode | Internal | Unavailable | DataLoss
| UnauthenticatedCode.

Definition code_name (c : Code) : string :=
  match c with
  | Canceled => "canceled" | Unknown => "unknown" | InvalidArgument => "invalid_argument"
  | DeadlineExceeded => "deadline_exceeded" | NotFoundCode => "not_found" | AlreadyExists => "already_exists"
  | PermissionDenied => "permission_denied" | ResourceExhausted => "resource_exhausted"
  | FailedPrecondition => "failed_precondition" | Aborted => "aborted" | OutOfRange => "out_of_range"
  | UnimplementedCode => "unimplemented" | Internal => "internal" | Unavailable => "unavailable"
  | DataLoss => "data_loss" | UnauthenticatedCode => "unauthenticated"
  end.

(** The class of a Rust error. *)
Definition kind (e : KrabkaError) : ErrorKind :=
  match e with
  | Transport _ => KTransport
  | Unauthenticated _ => KUnauthenticated
  | InvalidArg _ => KInvalidArgument
  | NotFound _ => KNotFound
  | ServerError _ => KServerError
  | Unimplemented _ _ => KUnimplemented
  end.

(** ** Go *)

Module Go.
(** [SDKError] without the fields of gated modules. *)
Definition SDKError : Type := ErrorKind * string.

(** What [connect.CodeOf] and [errors.As] see of an error: the code and the
    message of a Connect error; any other error is of code unknown. *)
Inductive GoError := ConnectErr (code : Code) (message : string) | OtherErr (text : string).
Definition CodeOf (e : GoError) : Code := match e with ConnectErr c _ => c | OtherErr _ => Unknown end.

Definition mapConnectError (err : option GoError) : option SDKError :=
  match err with
  | None => None
  | Some err =>
      let message := match err with ConnectErr _ m => m | OtherErr text => text end in
      Some (match CodeOf err with
            | PermissionDenied | UnauthenticatedCode => (KUnauthenticated, message)
            | InvalidArgument | FailedPrecondition | OutOfRange => (KInvalidArgument, message)
            | NotFoundCode => (KNotFound, message)
            | UnimplementedCode => (KUnimplemented, message)
            | Unavailable | DeadlineExceeded | Canceled => (KTransport, message)
            | _ => (KServerError, message)
            end)
  end.

Definition mapGatewayErrorKind (code : Z) (retriable : bool) : ErrorKind :=
  if retriable then KTransport
  else if bool_decide (code ∈ [3; 9; 11]) then KInvalidArgument
  else if code =? 5 then KNotFound
  else if bool_decide (code ∈ [7; 16]) then KUnauthenticated
  else if code =? 12 then KUnimplemented
  else if code =? 14 then KTransport
  else KServerError.

Definition mapRecordError (code : Z) (message : string) : SDKError := (mapGatewayErrorKind code false, message).
End Go.

(** ** TypeScript *)

Module Ts.
(** [KrabkaError], and what [ConnectError.from] makes of another value. *)
Definition KrabkaError : Type := ErrorKind * string.
Inductive Thrown := Krabka (e : KrabkaError) | Other (code : Code) (rawMessage : string).

Definition fromConnectError (error : Thrown) : KrabkaError :=
  match error with
  | Krabka e => e
  | Other code message =>
      match code with
      | PermissionDenied | UnauthenticatedCode => (KUnauthenticated, message)
      | InvalidArgument | FailedPrecondition | OutOfRange => (KInvalidArgument, message)
      | NotFoundCode => (KNotFound, message)
      | UnimplementedCode => (KUnimplemented, message)
      | Unavailable | DeadlineExceeded | Canceled => (KTransport, message)
      | _ => (KServerError, message)
      end
  end.

Definition fromRecordError (code : Z) (message : string) (retriable : bool) : KrabkaError :=
  if retriable then (KTransport, message)
  else if bool_decide (code ∈ [3; 9; 11]) then (KInvalidArgument, message)
  else if code =? 5 then (KNotFound, message)
  else if bool_decide (code ∈ [7; 16]) then (KUnauthenticated, message)
  else if code =? 12 then (KUnimplemented, message)
  else if code =? 13 then (KServerError, message)
  else if code =? 14 then (KTransport, message)
  else (KServerError, message).
End Ts.

(** ** Java *)

Module Jvm.
(** [KrabkaException]. *)
Definition KrabkaException : Type := ErrorKind * string.

Definition errorForConnectCode (code message : string) : KrabkaException :=
  if bool_decide (code ∈ ["invalid_argument"; "failed_precondition"; "out_of_range"]) then (KInvalidArgument, message)
  else if bool_decide (code = "not_found") then (KNotFound, message)
  else if bool_decide (code ∈ ["permission_denied"; "unauthenticated"]) then (KUnauthenticated, message)
  else if bool_decide (code = "unimplemented") then (KUnimplemented, message)
  else if bool_decide (code ∈ ["canceled"; "deadline_exceeded"; "unavailable"]) then (KTransport, message)
  else (KServerError, message).

Definition errorForStatus (status : Z) (message : string) : KrabkaException :=
  if status =? 400 then (KInvalidArgument, message)
  else if status =? 401 then (KUnauthenticated, message)
  else if status =? 404 then (KNotFound, message)
  else if bool_decide (status ∈ [408; 429; 502; 503; 504]) then (KTransport, message)
  else (KServerError, message).

Definition kindForGatewayError (e : ErrorInfo) : ErrorKind :=
  if ei_retriable e then KTransport
  else if bool_decide (ei_code e ∈ [3; 9; 11]) then KInvalidArgument
  else if ei_code e =? 5 then KNotFound
  else if bool_decide (ei_code e ∈ [7; 16]) then KUnauthenticated
  else if ei_code e =? 12 then KUnimplemented
  else if bool_decide (ei_code e ∈ [1; 4; 14]) then KTransport
  else KServerError.
Definition exceptionForGatewayError (e : ErrorInfo) : KrabkaException := (kindForGatewayError e, ei_message e).

(** Jackson: the tree of a text, and [asText] of a node that may be missing,
    with the text it falls back to. *)
Class Jackson := { readTree : Bytes -> result string Json; asText : option Json -> string -> string }.

(** [path]: the member of an object, missing of anything else. *)
Definition path (v : Json) (name : string) : option Json := o ← Filter.as_object v; object_get o (as_bytes name).

(** A stream that ended in order, an [IOException] of the reader, or the
    exception the application gets. *)
Inductive Ended := EndStreamException | IOException (m : string) | Raised (e : KrabkaException).
Definition endStream `{Jackson} (payload : Bytes) : Ended :=
  match payload with
  | [] => EndStreamException
  | _ =>
      match readTree payload with
      | Err m => IOException m
      | Ok tree =>
          match path tree "error" with
          | Some error => Raised (KTransport, asText (path error "message") "Subscribe stream ended with an error")
          | None => EndStreamException
          end
      end
  end.
End Jvm.

(** ** Where the tables agree *)

(** The code of a Connect error.  The Go, TypeScript and Java SDKs give
    every code the same class.  The C++ SDK differs on one: it calls a denied
    permission a server error.  The Rust SDK differs on three: it calls a denied
    permission, an unimplemented operation and a cancelled call server errors. *)
Theorem connect_codes_classed (c : Code) (m : string) :
  let go := fst <$> Go.mapConnectError (Some (Go.ConnectErr c m)) in
  go = Some (Ts.fromConnectError (Ts.Other c m)).1 /\
  go = Some (Jvm.errorForConnectCode (code_name c) m).1 /\
  (go <> Some (Cpp.connect_error_kind (as_bytes (code_name c))) <-> c = PermissionDenied) /\
  (go <> Some (kind (from_connect_code (code_name c) m)) <-> c = PermissionDenied \/ c = UnimplementedCode \/ c = Canceled).
Proof. by destruct c; cbn; naive_solver. Qed.

(** A number is one of the codes a table names, or every test of the table on it
    is false. *)
Definition named : list Z := [1; 3; 4; 5; 7; 9; 11; 12; 13; 14; 16].
Lemma named_cases (P : Z -> Prop) : Forall P named -> (forall z, z ∉ named -> P z) -> forall z, P z.
Proof. intros Hin Hout z. destruct (decide (z ∈ named)) as [Hz|Hz]; [|by apply Hout]. by apply (proj1 (Forall_forall _ _) Hin). Qed.

Lemma unnamed_eqb z n : z ∉ named -> n ∈ named -> (z =? n) = false.
Proof. intros Hz Hn. apply Z.eqb_neq. by intros ->. Qed.

Lemma unnamed_sub z l : z ∉ named -> l ⊆ named -> bool_decide (z ∈ l) = false.
Proof. intros Hz Hl. apply bool_decide_eq_false_2. intros Hin. by apply Hz, Hl. Qed.

(** Every test of a table on a number that no table names. *)
Ltac unnamed Hz :=
  repeat match goal with
         | |- context [?z =? ?n] => rewrite (unnamed_eqb z n Hz) by set_solver
         | |- context [bool_decide (?z ∈ ?l)] => rewrite (unnamed_sub z l Hz) by set_solver
         end.

(** The error of a message of a queue.  The Java and the C++ SDK agree on
    every error, and so do Go and TypeScript.  Of errors that are not retriable, Go
    calls two of those that Java calls transport failures server errors, and the
    Rust SDK calls six codes server errors that Java puts in narrower classes. *)
Theorem queue_errors_classed (code : Z) (m : string) (retriable : bool) :
  let e := {| ei_code := code; ei_message := m; ei_retriable := retriable |} in
  let java := Jvm.kindForGatewayError e in
  java = Cpp.queue_error_kind code retriable /\
  Go.mapGatewayErrorKind code retriable = (Ts.fromRecordError code m retriable).1 /\
  (java <> Go.mapGatewayErrorKind code retriable <-> retriable = false /\ code ∈ [1; 4]) /\
  (java <> kind (error_info_to_krabka e) <-> retriable = false /\ code ∈ [1; 4; 7; 11; 12; 14]).
Proof.
  destruct retriable; [by cbn; split_and!; naive_solver|]. revert code. apply named_cases.
  - repeat apply Forall_cons_2; [..|apply Forall_nil_2]; cbn; split_and!; try done; set_solver.
  - intros z Hz. unfold Jvm.kindForGatewayError, Cpp.queue_error_kind, Go.mapGatewayErrorKind, Ts.fromRecordError, error_info_to_krabka.
    cbn [ei_code ei_message ei_retriable]. unnamed Hz. cbn. unfold named in Hz. split_and!; try done; set_solver.
Qed.

(** The error of a published record, in the Rust SDK. *)
Definition rust_record_kind (e : ErrorInfo) : option ErrorKind :=
  match record_result_from_pb {| rr_partition := 0; rr_offset := 0; rr_error := Some e; rr_deduplicated := false |} with
  | Err err => Some (kind err)
  | Ok _ => None
  end.

(** The error of a published record.  TypeScript and Java honour the
    gateway's mark that an error is retriable.  Go drops the mark: a retriable error
    comes out as a transport failure, and so as one to retry, only if its code is
    14.  Rust drops it too, and of the codes it knows four. *)
Theorem publish_errors_classed (code : Z) (m : string) (retriable : bool) :
  let e := {| ei_code := code; ei_message := m; ei_retriable := retriable |} in
  let ts := (Ts.fromRecordError code m retriable).1 in
  ((Go.mapRecordError code m).1 <> ts <-> retriable = true /\ code <> 14) /\
  (rust_record_kind e <> Some ts <-> (retriable = true /\ code <> 14) \/ (retriable = false /\ code ∈ [9; 11; 12; 16])) /\
  ((Jvm.exceptionForGatewayError e).1 <> ts <-> retriable = false /\ code ∈ [1; 4]).
Proof.
  revert code. apply named_cases.
  - repeat apply Forall_cons_2; [..|apply Forall_nil_2]; destruct retriable; cbn; split_and!; try done; set_solver by done.
  - intros z Hz. assert (z <> 14) as H14 by (intros ->; apply Hz; set_solver).
    unfold Jvm.exceptionForGatewayError, Jvm.kindForGatewayError, Go.mapRecordError, Go.mapGatewayErrorKind, Ts.fromRecordError,
      rust_record_kind, record_result_from_pb.
    cbn [ei_code ei_message ei_retriable rr_error]. unnamed Hz. unfold named in Hz.
    destruct retriable; cbn; split_and!; try done; set_solver.
Qed.

Lemma status_text (status : Z) (n : Z) : bool_decide (as_bytes (pretty status) = as_bytes (pretty n)) = (status =? n).
Proof.
  destruct (Z.eqb_spec status n) as [->|Hn]; [by apply bool_decide_eq_true_2|]. apply bool_decide_eq_false_2.
  by intros ?%(inj as_bytes)%(inj pretty).
Qed.

(** The status of a response that carries no Connect error: Rust, Java and
    C++, which compares the digits, give every status the same class. *)
Theorem statuses_classed (status : Z) (m : string) :
  kind (from_client_error (HttpStatus status m)) = (Jvm.errorForStatus status m).1 /\
  kind (from_client_error (HttpStatus status m)) = Cpp.http_status_error_kind (as_bytes (pretty status)).
Proof.
  unfold Cpp.http_status_error_kind. change "400" with (pretty 400). change "401" with (pretty 401). change "404" with (pretty 404).
  change "408" with (pretty 408). change "429" with (pretty 429). change "502" with (pretty 502). change "503" with (pretty 503).
  change "504" with (pretty 504). rewrite !status_text. unfold from_client_error, Jvm.errorForStatus.
  destruct (Z.eqb_spec status 400), (Z.eqb_spec status 401), (Z.eqb_spec status 404); [done..|].
  destruct (decide (status ∈ [408; 429; 502; 503; 504])) as [Hin|Hout].
  - rewrite !elem_of_cons, elem_of_nil in Hin. by destruct Hin as [->|[->|[->|[->|[->|[]]]]]].
  - rewrite (bool_decide_eq_false_2 _ Hout). rewrite !not_elem_of_cons in Hout. destruct Hout as (? & ? & ? & ? & ? & _).
    rewrite !(proj2 (Z.eqb_neq _ _)) by done. destruct (Z.leb_spec 502 status), (Z.leb_spec status 504); try done. lia.
Qed.

(** The end of a stream.  The Rust SDK, and the C++ SDK but for a denied
    permission, class the error that ends a stream by its code; the Java SDK
    raises a transport failure whatever the code, and raises it for an error that
    is null as well, which ends the stream in order in C++. *)
Theorem java_end_classed `{Jvm.Jackson} payload tree error :
  payload <> [] -> Jvm.readTree payload = Ok tree -> Jvm.path tree "error" = Some error ->
  exists m, Jvm.endStream payload = Jvm.Raised (KTransport, m).
Proof.
  intros Hp Ht He. unfold Jvm.endStream. destruct payload as [|b payload]; [done|]. rewrite Ht, He. eauto.
Qed.
