(* ===== verification/Protocol.v ===== *)
(** * The conformance protocol (sdk-conformance: protocol.rs, vectors.rs)

    The commands the harness sends to an adapter, the responses it expects, and
    the vectors it reads from files, with their JSON as serde derives it.  A
    [Json] here is the tree of a text, in the order of the text.  Paths are under
    [src/crates/sdk-conformance/src]. *)

From S2P Require Import Prelude.
From S2P Require Import RustStr.
From S2P Require Import RustNum.
From S2P Require Import Types.
From S2P Require Import Filter.
From S2P Require Import Streaming.
From S2P Require Import Sdk.

(** ** Fields, as serde reads and writes them *)

Definition str_to (s : string) : Json := JString (as_bytes s).
Definition str_from (j : Json) : option string := of_bytes <$> as_str j.
Definition int_to (z : Z) : Json := JNumber (if z <? 0 then NegInt z else PosInt z).
Definition int_from (lo hi : Z) (j : Json) : option Z :=
  match j with JNumber (PosInt z | NegInt z) => try_range lo hi z | _ => None end.
Definition bool_from (j : Json) : option bool := match j with JBool b => Some b | _ => None end.
Definition opt_to {A} (f : A -> Json) (o : option A) : Json := match o with None => JNull | Some a => f a end.
Definition opt_from {A} (f : Json -> option A) (j : Json) : option (option A) :=
  match j with JNull => Some None | _ => Some <$> f j end.
Definition list_to {A} (f : A -> Json) (l : list A) : Json := JArray (map f l).
Definition list_from {A} (f : Json -> option A) (j : Json) : option (list A) :=
  match j with JArray l => mapM f l | _ => None end.

Definition u16_max : Z := 2 ^ 16 - 1.

(** The members of a struct: an object's entries by name, each at most once, or
    a sequence of all of them but the last [k], which have defaults. *)
Definition entry (o : list (Bytes * Json)) (name : string) : option (option Json) :=
  match List.filter (fun e => bool_decide (e.1 = as_bytes name)) o with
  | [] => Some None
  | [e] => Some (Some e.2)
  | _ => None
  end.
Definition members_upto (k : nat) (names : list string) (j : Json) : option (list (option Json)) :=
  match j with
  | JObject o => mapM (entry o) names
  | JArray l =>
      if (length names <=? length l + k)%nat && (length l <=? length names)%nat
      then Some (map Some l ++ replicate (length names - length l) None) else None
  | _ => None
  end.
Abbreviation members := (members_upto 0).

(** A member that must be there, an [Option], and one with [serde(default)]. *)
Definition required {A} (f : Json -> option A) (m : option Json) : option A := j ← m; f j.
Definition optional {A} (f : Json -> option A) (m : option Json) : option (option A) :=
  match m with None => Some None | Some j => opt_from f j end.
Definition defaulted {A} (d : A) (f : Json -> option A) (m : option Json) : option A :=
  match m with None => Some d | Some j => f j end.

Definition member (name : string) (j : Json) : Bytes * Json := (as_bytes name, j).
(** [skip_serializing_if = "Option::is_none"]. *)
Definition member_some {A} (name : string) (f : A -> Json) (o : option A) : list (Bytes * Json) :=
  match o with None => [] | Some a => [member name (f a)] end.

(** ** Records *)

Inductive ErrorKind := KTransport | KUnauthenticated | KInvalidArgument | KNotFound | KServerError | KUnimplemented.
#[export] Instance ErrorKind_eq_dec : EqDecision ErrorKind.
Proof. solve_decision. Defined.

Definition ErrorKind_name (k : ErrorKind) : string :=
  match k with
  | KTransport => "transport" | KUnauthenticated => "unauthenticated" | KInvalidArgument => "invalid_argument"
  | KNotFound => "not_found" | KServerError => "server_error" | KUnimplemented => "unimplemented"
  end.
(** A unit variant, by its name. *)
Definition by_name {A} (name : A -> string) (all : list A) (j : Json) : option A :=
  s ← str_from j; List.find (fun a => bool_decide (name a = s)) all.
Definition ErrorKind_from : Json -> option ErrorKind :=
  by_name ErrorKind_name [KTransport; KUnauthenticated; KInvalidArgument; KNotFound; KServerError; KUnimplemented].

Record AdapterError := {
  er_kind : ErrorKind;
  er_module : option string;
  er_gated_on : option string;
  er_message : option string;
}.

Definition unimplemented (module gated_on : string) : AdapterError :=
  {| er_kind := KUnimplemented; er_module := Some module; er_gated_on := Some gated_on; er_message := None |}.
Definition with_message (k : ErrorKind) (m : string) : AdapterError :=
  {| er_kind := k; er_module := None; er_gated_on := None; er_message := Some m |}.

Definition AdapterError_to (e : AdapterError) : Json :=
  JObject ([member "kind" (str_to (ErrorKind_name (er_kind e)))]
           ++ member_some "module" str_to (er_module e) ++ member_some "gated_on" str_to (er_gated_on e)
           ++ member_some "message" str_to (er_message e)).
Definition AdapterError_from (j : Json) : option AdapterError :=
  ms ← members ["kind"; "module"; "gated_on"; "message"] j;
  match ms with
  | [k; m; g; t] =>
      k ← required ErrorKind_from k; m ← optional str_from m; g ← optional str_from g; t ← optional str_from t;
      Some {| er_kind := k; er_module := m; er_gated_on := g; er_message := t |}
  | _ => None
  end.

Record Header := { h_name : string; h_value_b64 : option string }.
Definition Header_to (h : Header) : Json :=
  JObject [member "name" (str_to (h_name h)); member "value_b64" (opt_to str_to (h_value_b64 h))].
Definition Header_from (j : Json) : option Header :=
  ms ← members ["name"; "value_b64"] j;
  match ms with
  | [n; v] => n ← required str_from n; v ← optional str_from v; Some {| h_name := n; h_value_b64 := v |}
  | _ => None
  end.

Record Message := { m_topic : string; m_partition : Z; m_offset : Z; m_value_b64 : string; m_headers : list Header }.
Definition Message_to (m : Message) : Json :=
  JObject [member "topic" (str_to (m_topic m)); member "partition" (int_to (m_partition m)); member "offset" (int_to (m_offset m));
           member "value_b64" (str_to (m_value_b64 m)); member "headers" (list_to Header_to (m_headers m))].
Definition Message_from (j : Json) : option Message :=
  ms ← members ["topic"; "partition"; "offset"; "value_b64"; "headers"] j;
  match ms with
  | [t; p; o; v; h] =>
      t ← required str_from t; p ← required (int_from i32_min i32_max) p; o ← required (int_from i64_min i64_max) o;
      v ← required str_from v; h ← required (list_from Header_from) h;
      Some {| m_topic := t; m_partition := p; m_offset := o; m_value_b64 := v; m_headers := h |}
  | _ => None
  end.

Inductive QueueAckType := Accept | Release | Reject.
Definition QueueAckType_name (t : QueueAckType) : string :=
  match t with Accept => "accept" | Release => "release" | Reject => "reject" end.

Record QueueAckEntry := { ak_message_id : string; ak_ack_type : QueueAckType }.
Definition QueueAckEntry_to (e : QueueAckEntry) : Json :=
  JObject [member "message_id" (str_to (ak_message_id e)); member "ack_type" (str_to (QueueAckType_name (ak_ack_type e)))].
Definition QueueAckEntry_from (j : Json) : option QueueAckEntry :=
  ms ← members ["message_id"; "ack_type"] j;
  match ms with
  | [m; t] =>
      m ← required str_from m; t ← required (by_name QueueAckType_name [Accept; Release; Reject]) t;
      Some {| ak_message_id := m; ak_ack_type := t |}
  | _ => None
  end.

Record QueueRenewEntry := { rn_message_id : string }.
Definition QueueRenewEntry_to (e : QueueRenewEntry) : Json := JObject [member "message_id" (str_to (rn_message_id e))].
Definition QueueRenewEntry_from (j : Json) : option QueueRenewEntry :=
  ms ← members ["message_id"] j;
  match ms with [m] => m ← required str_from m; Some {| rn_message_id := m |} | _ => None end.

Record CloudEvent := {
  ev_id : string;
  ev_source : string;
  ev_type : string;
  ev_specversion : string;
  ev_datacontenttype : option string;
  ev_data_b64 : string;
}.
Definition CloudEvent_to (e : CloudEvent) : Json :=
  JObject ([member "id" (str_to (ev_id e)); member "source" (str_to (ev_source e)); member "type" (str_to (ev_type e));
            member "specversion" (str_to (ev_specversion e))]
           ++ member_some "datacontenttype" str_to (ev_datacontenttype e) ++ [member "data_b64" (str_to (ev_data_b64 e))]).
Definition CloudEvent_from (j : Json) : option CloudEvent :=
  ms ← members ["id"; "source"; "type"; "specversion"; "datacontenttype"; "data_b64"] j;
  match ms with
  | [i; s; t; v; c; d] =>
      i ← required str_from i; s ← required str_from s; t ← required str_from t; v ← required str_from v;
      c ← optional str_from c; d ← required str_from d;
      Some {| ev_id := i; ev_source := s; ev_type := t; ev_specversion := v; ev_datacontenttype := c; ev_data_b64 := d |}
  | _ => None
  end.

Inductive FilterOp := Equals.
Record Filter := { fl_path : string; fl_op : FilterOp; fl_value : Json }.
Definition Filter_to (f : Filter) : Json :=
  JObject [member "path" (str_to (fl_path f)); member "op" (str_to "equals"); member "value" (fl_value f)].
Definition Filter_from (j : Json) : option Filter :=
  ms ← members ["path"; "op"; "value"] j;
  match ms with
  | [p; o; v] =>
      p ← required str_from p; o ← required (by_name (fun _ => "equals") [Equals]) o; v ← v;
      Some {| fl_path := p; fl_op := o; fl_value := v |}
  | _ => None
  end.

(** ** Commands and responses *)

Definition CONTRACT_MAJOR : Z := 1.
Definition CONTRACT_MINOR_V1_0 : Z := 0.
Definition CONTRACT_MINOR_QUEUE_RPC : Z := 1.

Inductive Command :=
| Hello
| Configure (endpoint : string) (bearer : option string)
| Publish (topic value_b64 : string) (headers : list Header)
| PublishEvent (topic : string) (event : CloudEvent)
| Subscribe (topics : list string) (group : string) (filter : option Filter)
| NextMessage (timeout_ms : Z)
| QueueAcquire (topic group : string) (max lock_duration_ms : Z) (session_id : string)
| QueueAck (message_id : string)
| QueueAcknowledge (session_id : string) (entries : list QueueAckEntry)
| QueueRenew (session_id : string) (entries : list QueueRenewEntry)
| DbConnect (name : string)
| AuthSignIn (username password : string)
| BlobPut (key value_b64 : string)
| BlobGet (key : string).

(** [serde(tag = "cmd", rename_all = "snake_case")]: the name of the variant
    before its members. *)
Definition Command_tag (c : Command) : string :=
  match c with
  | Hello => "hello" | Configure _ _ => "configure" | Publish _ _ _ => "publish" | PublishEvent _ _ => "publish_event"
  | Subscribe _ _ _ => "subscribe" | NextMessage _ => "next_message" | QueueAcquire _ _ _ _ _ => "queue_acquire"
  | QueueAck _ => "queue_ack" | QueueAcknowledge _ _ => "queue_acknowledge" | QueueRenew _ _ => "queue_renew"
  | DbConnect _ => "db_connect" | AuthSignIn _ _ => "auth_sign_in" | BlobPut _ _ => "blob_put" | BlobGet _ => "blob_get"
  end.
Definition Command_members (c : Command) : list (Bytes * Json) :=
  match c with
  | Hello => []
  | Configure e b => [member "endpoint" (str_to e); member "bearer" (opt_to str_to b)]
  | Publish t v h => [member "topic" (str_to t); member "value_b64" (str_to v); member "headers" (list_to Header_to h)]
  | PublishEvent t e => [member "topic" (str_to t); member "event" (CloudEvent_to e)]
  | Subscribe ts g f =>
      [member "topics" (list_to str_to ts); member "group" (str_to g); member "filter" (opt_to Filter_to f)]
  | NextMessage t => [member "timeout_ms" (int_to t)]
  | QueueAcquire t g m l s =>
      [member "topic" (str_to t); member "group" (str_to g); member "max" (int_to m);
       member "lock_duration_ms" (int_to l); member "session_id" (str_to s)]
  | QueueAck m => [member "message_id" (str_to m)]
  | QueueAcknowledge s es => [member "session_id" (str_to s); member "entries" (list_to QueueAckEntry_to es)]
  | QueueRenew s es => [member "session_id" (str_to s); member "entries" (list_to QueueRenewEntry_to es)]
  | DbConnect n => [member "name" (str_to n)]
  | AuthSignIn u p => [member "username" (str_to u); member "password" (str_to p)]
  | BlobPut k v => [member "key" (str_to k); member "value_b64" (str_to v)]
  | BlobGet k => [member "key" (str_to k)]
  end.
Definition Command_to (c : Command) : Json := JObject (member "cmd" (str_to (Command_tag c)) :: Command_members c).

(** The tag and the rest of an object, or of a sequence that starts with it. *)
Definition tagged (j : Json) : option (string * Json) :=
  match j with
  | JObject o =>
      t ← entry o "cmd"; t ← required str_from t;
      Some (t, JObject (List.filter (fun e => negb (bool_decide (e.1 = as_bytes "cmd"))) o))
  | JArray (t :: l) => t ← str_from t; Some (t, JArray l)
  | _ => None
  end.

(** Each variant with its reader of the rest. *)
Definition Command_readers : list (string * (Json -> option Command)) :=
  [("hello", fun _ => Some Hello);
   ("configure", fun j => ms ← members ["endpoint"; "bearer"] j;
      match ms with [e; b] => e ← required str_from e; b ← optional str_from b; Some (Configure e b) | _ => None end);
   ("publish", fun j => ms ← members ["topic"; "value_b64"; "headers"] j;
      match ms with
      | [t; v; h] => t ← required str_from t; v ← required str_from v; h ← required (list_from Header_from) h; Some (Publish t v h)
      | _ => None end);
   ("publish_event", fun j => ms ← members ["topic"; "event"] j;
      match ms with [t; e] => t ← required str_from t; e ← required CloudEvent_from e; Some (PublishEvent t e) | _ => None end);
   ("subscribe", fun j => ms ← members ["topics"; "group"; "filter"] j;
      match ms with
      | [t; g; f] => t ← required (list_from str_from) t; g ← required str_from g; f ← optional Filter_from f; Some (Subscribe t g f)
      | _ => None end);
   ("next_message", fun j => ms ← members ["timeout_ms"] j;
      match ms with [t] => t ← required (int_from 0 u64_max) t; Some (NextMessage t) | _ => None end);
   ("queue_acquire", fun j => ms ← members_upto 1 ["topic"; "group"; "max"; "lock_duration_ms"; "session_id"] j;
      match ms with
      | [t; g; m; l; s] =>
          t ← required str_from t; g ← required str_from g; m ← required (int_from 0 u32_max) m;
          l ← required (int_from 0 u64_max) l; s ← defaulted EmptyString str_from s; Some (QueueAcquire t g m l s)
      | _ => None end);
   ("queue_ack", fun j => ms ← members ["message_id"] j;
      match ms with [m] => m ← required str_from m; Some (QueueAck m) | _ => None end);
   ("queue_acknowledge", fun j => ms ← members ["session_id"; "entries"] j;
      match ms with
      | [s; es] => s ← required str_from s; es ← required (list_from QueueAckEntry_from) es; Some (QueueAcknowledge s es)
      | _ => None end);
   ("queue_renew", fun j => ms ← members ["session_id"; "entries"] j;
      match ms with
      | [s; es] => s ← required str_from s; es ← required (list_from QueueRenewEntry_from) es; Some (QueueRenew s es)
      | _ => None end);
   ("db_connect", fun j => ms ← members ["name"] j; match ms with [n] => n ← required str_from n; Some (DbConnect n) | _ => None end);
   ("auth_sign_in", fun j => ms ← members ["username"; "password"] j;
      match ms with [u; p] => u ← required str_from u; p ← required str_from p; Some (AuthSignIn u p) | _ => None end);
   ("blob_put", fun j => ms ← members ["key"; "value_b64"] j;
      match ms with [k; v] => k ← required str_from k; v ← required str_from v; Some (BlobPut k v) | _ => None end);
   ("blob_get", fun j => ms ← members ["key"] j; match ms with [k] => k ← required str_from k; Some (BlobGet k) | _ => None end)].
Definition Command_from (j : Json) : option Command :=
  '(t, rest) ← tagged j; r ← List.find (fun r => bool_decide (r.1 = t)) Command_readers; r.2 rest.

Inductive Response :=
| HelloResponse (contract_major contract_minor : Z) (language : string)
| OkResponse (v : Json)
| MessageResponse (m : Message)
| ErrorResponse (e : AdapterError).

Definition Response_to (r : Response) : Json :=
  JObject [match r with
           | HelloResponse major minor l =>
               member "hello" (JObject [member "contract_major" (int_to major); member "contract_minor" (int_to minor);
                                        member "language" (str_to l)])
           | OkResponse v => member "ok" v
           | MessageResponse m => member "message" (Message_to m)
           | ErrorResponse e => member "error" (AdapterError_to e)
           end].
Definition Response_from (j : Json) : option Response :=
  match j with
  | JObject [(k, v)] =>
      if bool_decide (k = as_bytes "hello") then
        ms ← members ["contract_major"; "contract_minor"; "language"] v;
        match ms with
        | [a; b; l] =>
            a ← required (int_from 0 u16_max) a; b ← required (int_from 0 u16_max) b; l ← required str_from l;
            Some (HelloResponse a b l)
        | _ => None
        end
      else if bool_decide (k = as_bytes "ok") then Some (OkResponse v)
      else if bool_decide (k = as_bytes "message") then MessageResponse <$> Message_from v
      else if bool_decide (k = as_bytes "error") then ErrorResponse <$> AdapterError_from v
      else None
  | _ => None
  end.

(** [PartialEq] of responses: JSON values compare as [serde_json::Value] does. *)
#[export] Instance AdapterError_eq_dec : EqDecision AdapterError.
Proof. solve_decision. Defined.
#[export] Instance Header_eq_dec : EqDecision Header.
Proof. solve_decision. Defined.
#[export] Instance Message_eq_dec : EqDecision Message.
Proof. solve_decision. Defined.
Definition response_eq (a b : Response) : bool :=
  match a, b with
  | HelloResponse a b l, HelloResponse a' b' l' => (a =? a') && (b =? b') && bool_decide (l = l')
  | OkResponse v, OkResponse w => json_eq v w
  | MessageResponse m, MessageResponse n => bool_decide (m = n)
  | ErrorResponse e, ErrorResponse f => bool_decide (e = f)
  | _, _ => false
  end.

(** ** Vectors *)

Record ContractVersion := { major : Z; minor : Z }.
#[export] Instance ContractVersion_eq_dec : EqDecision ContractVersion.
Proof. solve_decision. Defined.
(** The derived order is that of the pairs. *)
Definition version_lt (a b : ContractVersion) : bool :=
  (major a <? major b) || ((major a =? major b) && (minor a <? minor b)).
Definition version_le (a b : ContractVersion) : bool := negb (version_lt b a).

Record VectorStep := { st_name : string; st_command : Command; st_expect : Response }.
Record Vector := {
  v_id : string;
  v_since : ContractVersion;
  v_until : option ContractVersion;
  v_live_only : bool;
  v_steps : list VectorStep;
}.

Definition satisfies (version : ContractVersion) (v : Vector) : bool :=
  if version_lt version (v_since v) then false
  else match v_until v with
       | Some until => version_le version until
       | None => true
       end.

Definition ContractVersion_to (v : ContractVersion) : Json :=
  JObject [member "major" (int_to (major v)); member "minor" (int_to (minor v))].
Definition ContractVersion_from (j : Json) : option ContractVersion :=
  ms ← members ["major"; "minor"] j;
  match ms with
  | [a; b] => a ← required (int_from 0 u16_max) a; b ← required (int_from 0 u16_max) b; Some {| major := a; minor := b |}
  | _ => None
  end.
Definition VectorStep_to (s : VectorStep) : Json :=
  JObject [member "name" (str_to (st_name s)); member "command" (Command_to (st_command s)); member "expect" (Response_to (st_expect s))].
Definition VectorStep_from (j : Json) : option VectorStep :=
  ms ← members ["name"; "command"; "expect"] j;
  match ms with
  | [n; c; e] =>
      n ← required str_from n; c ← required Command_from c; e ← required Response_from e;
      Some {| st_name := n; st_command := c; st_expect := e |}
  | _ => None
  end.
Definition Vector_to (v : Vector) : Json :=
  JObject ([member "id" (str_to (v_id v)); member "since" (ContractVersion_to (v_since v))]
           ++ member_some "until" ContractVersion_to (v_until v)
           ++ [member "live_only" (JBool (v_live_only v)); member "steps" (list_to VectorStep_to (v_steps v))]).
Definition Vector_from (j : Json) : option Vector :=
  ms ← members ["id"; "since"; "until"; "live_only"; "steps"] j;
  match ms with
  | [i; s; u; l; st] =>
      i ← required str_from i; s ← required ContractVersion_from s; u ← optional ContractVersion_from u;
      l ← defaulted false bool_from l; st ← required (list_from VectorStep_from) st;
      Some {| v_id := i; v_since := s; v_until := u; v_live_only := l; v_steps := st |}
  | _ => None
  end.

(** ** Texts *)

(** serde_json's compact printer and its parser: a tree without floats reads
    back, and its text is one line that does not end in white space. *)
Definition number_plain (n : JsonNumber) : Prop :=
  match n with PosInt z => 0 <= z <= u64_max | NegInt z => i64_min <= z < 0 | JFloat _ => False end.
Fixpoint plain (j : Json) : Prop :=
  match j with
  | JNumber n => number_plain n
  | JArray l => (fix all l := match l with [] => True | x :: l => plain x /\ all l end) l
  | JObject o => (fix all o := match o with [] => True | (_, x) :: o => plain x /\ all o end) o
  | _ => True
  end.

Definition newline : ascii := of_u8 10.
Class JsonText := {
  print_tree : Json -> Bytes;
  read_tree : Bytes -> option Json;
  read_printed : forall j, plain j -> read_tree (print_tree j) = Some j;
  print_one_line : forall j, newline ∉ print_tree j;
  print_trimmed : forall j, trim_end (print_tree j ++ [newline]) = print_tree j;
  print_utf8 : forall j, is_utf8 (print_tree j ++ [newline]) = true;
}.

(** [serde_json::to_string] and [serde_json::from_str]. *)
Definition command_line `{JsonText} (c : Command) : Bytes := print_tree (Command_to c).
Definition parse_command `{JsonText} (b : Bytes) : option Command := j ← read_tree b; Command_from j.
Definition response_line `{JsonText} (r : Response) : Bytes := print_tree (Response_to r).
Definition parse_response `{JsonText} (b : Bytes) : option Response := j ← read_tree b; Response_from j.
Definition parse_vector `{JsonText} (b : Bytes) : option Vector := j ← read_tree b; Vector_from j.

Inductive VectorError := VectorIo (m : string) | JsonFile (path : string).

(** [Path::extension] of a file name: what follows the last dot, unless the dot
    is its first character or there is none. *)
Fixpoint after_last_dot (s : Bytes) : option Bytes :=
  match s with
  | [] => None
  | c :: s' => match after_last_dot s' with
               | Some e => Some e
               | None => if bool_decide (c = "."%char) then Some s' else None
               end
  end.
Definition extension (name : string) : option Bytes :=
  match as_bytes name with
  | [] => None
  | c :: rest => if bool_decide (as_bytes name = as_bytes "..") then None else after_last_dot rest
  end.

(** The names in the directory, and the text of each file. *)
Fixpoint load_files `{JsonText} (read : string -> result string Bytes) (names : list string) : result VectorError (list Vector) :=
  match names with
  | [] => Ok []
  | n :: names =>
      if negb (bool_decide (extension n = Some (as_bytes "json"))) then load_files read names
      else
        text ← map_err VectorIo (read n);
        v ← ok_or (JsonFile n) (parse_vector text);
        vs ← load_files read names;
        Ok (v :: vs)
  end.
Definition load_vectors `{JsonText} (dir : result string (list (result string string))) (read : string -> result string Bytes)
    : result VectorError (list Vector) :=
  entries ← map_err VectorIo dir;
  names ← map_err VectorIo (try_map id entries);
  load_files read (sort_strings names).

(** ** Round trips *)

Lemma str_read s : str_from (str_to s) = Some s.
Proof. unfold str_from, str_to. cbn. by rewrite of_as_bytes. Qed.

Lemma int_read lo hi z : lo <= z <= hi -> int_from lo hi (int_to z) = Some z.
Proof. intros Hz. unfold int_from, int_to. destruct (z <? 0); by apply try_range_Some. Qed.

Lemma list_read {A} (f : A -> Json) g (ok : A -> Prop) l :
  (forall a, ok a -> g (f a) = Some a) -> Forall ok l -> list_from g (list_to f l) = Some l.
Proof.
  intros Hfg Hl. unfold list_from, list_to. apply mapM_Some. induction Hl; constructor; auto.
Qed.

Lemma opt_read {A} (f : A -> Json) g (ok : A -> Prop) o :
  (forall a, f a <> JNull) -> (forall a, ok a -> g (f a) = Some a) -> (forall a, o = Some a -> ok a) ->
  opt_from g (opt_to f o) = Some o.
Proof.
  intros Hn Hfg Ho. destruct o as [a|]; [|done]. cbn. unfold opt_from. rewrite Hfg by auto.
  pose proof (Hn a). by destruct (f a).
Qed.

Lemma opt_str_read o : opt_from str_from (opt_to str_to o) = Some o.
Proof. apply (opt_read _ _ (fun _ => True)); [done| |done]. intros a _. apply str_read. Qed.

(** Evaluates the entries of an object whose names are known, keeping the values
    as they are. *)
Ltac read_members :=
  unfold members_upto; cbn [mapM mbind option_bind mret option_ret];
  repeat match goal with
  | |- context [member _ ?v] => tryif is_var v then fail else (let x := fresh "leaf" in remember v as x)
  end;
  repeat match goal with
  | |- context [entry ?o ?n] => let r := eval vm_compute in (entry o n) in change (entry o n) with r
  end;
  cbn [mbind option_bind mret option_ret required optional defaulted]; subst.

Create Rewrite HintDb proto.
#[export] Hint Rewrite str_read opt_str_read : proto.
Ltac read_leaves := repeat (progress (autorewrite with proto; cbn [mbind option_bind fmap option_fmap option_map])).

Lemma Header_read h : Header_from (Header_to h) = Some h.
Proof. destruct h as [n v]. unfold Header_from, Header_to. read_members. by read_leaves. Qed.

Lemma headers_read hs : list_from Header_from (list_to Header_to hs) = Some hs.
Proof. apply (list_read _ _ (fun _ => True)); [intros; apply Header_read|by apply Forall_true]. Qed.

Lemma strs_read ss : list_from str_from (list_to str_to ss) = Some ss.
Proof. apply (list_read _ _ (fun _ => True)); [intros; apply str_read|by apply Forall_true]. Qed.

Lemma some_str_read s : opt_from str_from (str_to s) = Some (Some s).
Proof. exact (opt_str_read (Some s)). Qed.
#[export] Hint Rewrite some_str_read : proto.

Lemma CloudEvent_read e : CloudEvent_from (CloudEvent_to e) = Some e.
Proof.
  destruct e as [i s t v [c|] d]; unfold CloudEvent_from, CloudEvent_to, member_some;
    cbn [app ev_id ev_source ev_type ev_specversion ev_datacontenttype ev_data_b64]; read_members; by read_leaves.
Qed.

Lemma ErrorKind_read k : ErrorKind_from (str_to (ErrorKind_name k)) = Some k.
Proof. by destruct k. Qed.

#[export] Hint Rewrite ErrorKind_read headers_read strs_read CloudEvent_read : proto.

Lemma AdapterError_read e : AdapterError_from (AdapterError_to e) = Some e.
Proof.
  destruct e as [k [m|] [g|] [t|]]; unfold AdapterError_from, AdapterError_to, member_some;
    cbn [app er_kind er_module er_gated_on er_message]; read_members; by read_leaves.
Qed.

Lemma ack_type_read t : by_name QueueAckType_name [Accept; Release; Reject] (str_to (QueueAckType_name t)) = Some t.
Proof. by destruct t. Qed.
#[export] Hint Rewrite AdapterError_read ack_type_read : proto.

Lemma acks_read es : list_from QueueAckEntry_from (list_to QueueAckEntry_to es) = Some es.
Proof.
  apply (list_read _ _ (fun _ => True)); [|by apply Forall_true]. intros [m t] _.
  unfold QueueAckEntry_from, QueueAckEntry_to. read_members. by read_leaves.
Qed.

Lemma renews_read es : list_from QueueRenewEntry_from (list_to QueueRenewEntry_to es) = Some es.
Proof.
  apply (list_read _ _ (fun _ => True)); [|by apply Forall_true]. intros [m] _.
  unfold QueueRenewEntry_from, QueueRenewEntry_to. read_members. by read_leaves.
Qed.

Lemma filter_read f : opt_from Filter_from (opt_to Filter_to f) = Some f.
Proof.
  apply (opt_read _ _ (fun _ => True)); [done| |done]. intros [p [] v] _.
  unfold Filter_from, Filter_to. read_members. by read_leaves.
Qed.
#[export] Hint Rewrite acks_read renews_read filter_read : proto.

(** Integers within the types of their fields. *)
Definition command_ok (c : Command) : Prop :=
  match c with
  | NextMessage t => 0 <= t <= u64_max
  | QueueAcquire _ _ m l _ => 0 <= m <= u32_max /\ 0 <= l <= u64_max
  | _ => True
  end.
Definition response_ok (r : Response) : Prop :=
  match r with
  | HelloResponse a b _ => 0 <= a <= u16_max /\ 0 <= b <= u16_max
  | MessageResponse m => i32_min <= m_partition m <= i32_max /\ i64_min <= m_offset m <= i64_max
  | _ => True
  end.

Lemma tagged_command c : tagged (Command_to c) = Some (Command_tag c, JObject (Command_members c)).
Proof.
  unfold Command_to. destruct c; cbn [Command_tag Command_members];
    repeat match goal with
    | |- context [member ?k ?v] => tryif is_var v then fail else lazymatch k with "cmd" => fail | _ => let x := fresh "leaf" in remember v as x end
    end; vm_compute; reflexivity.
Qed.

Ltac pick_reader :=
  cbn [List.find Command_readers fst];
  repeat first [rewrite bool_decide_eq_false_2 by done | rewrite bool_decide_eq_true_2 by done];
  cbn [mbind option_bind snd].

Lemma command_read c : command_ok c -> Command_from (Command_to c) = Some c.
Proof.
  intros Hok. unfold Command_from. rewrite tagged_command. cbn [mbind option_bind].
  destruct c; cbn [Command_tag Command_members]; pick_reader; [done|..]; read_members; read_leaves; try done.
  - by rewrite int_read.
  - destruct Hok. rewrite int_read by done. cbn [mbind option_bind]. rewrite int_read by done. cbn [mbind option_bind]. by read_leaves.
Qed.

Lemma response_read r : response_ok r -> Response_from (Response_to r) = Some r.
Proof.
  intros Hok. destruct r as [a b l|v|m|e]; unfold Response_from, Response_to, member at 1.
  - rewrite bool_decide_eq_true_2 by done. read_members. destruct Hok.
    rewrite int_read by done. cbn [mbind option_bind]. rewrite int_read by done. cbn [mbind option_bind]. by read_leaves.
  - done.
  - pick_reader. destruct m as [t p o v h]. unfold Message_from, Message_to. cbn [m_topic m_partition m_offset m_value_b64 m_headers].
    read_members. destruct Hok. read_leaves. rewrite int_read by done. cbn [mbind option_bind]. rewrite int_read by done.
    cbn [mbind option_bind]. by read_leaves.
  - pick_reader. by read_leaves.
Qed.

Definition version_ok (v : ContractVersion) : Prop := 0 <= major v <= u16_max /\ 0 <= minor v <= u16_max.
Record vector_ok (v : Vector) : Prop := {
  vo_since : version_ok (v_since v);
  vo_until : forall u, v_until v = Some u -> version_ok u;
  vo_steps : Forall (fun s => command_ok (st_command s) /\ response_ok (st_expect s)) (v_steps v);
}.

Lemma version_read v : version_ok v -> ContractVersion_from (ContractVersion_to v) = Some v.
Proof.
  destruct v as [a b]. intros [Ha Hb]. unfold ContractVersion_from, ContractVersion_to. cbn [major minor] in *. read_members.
  rewrite int_read by done. cbn [mbind option_bind]. by rewrite int_read.
Qed.

Lemma steps_read l :
  Forall (fun s => command_ok (st_command s) /\ response_ok (st_expect s)) l ->
  list_from VectorStep_from (list_to VectorStep_to l) = Some l.
Proof.
  apply list_read. intros [n c e] [Hc He]. unfold VectorStep_from, VectorStep_to. cbn [st_name st_command st_expect] in *.
  read_members. read_leaves. rewrite command_read by done. cbn [mbind option_bind]. by rewrite response_read.
Qed.

Lemma vector_read v : vector_ok v -> Vector_from (Vector_to v) = Some v.
Proof.
  destruct v as [i s u l st]. intros [Hs Hu Hst]. cbn [v_since v_until v_steps] in *. unfold Vector_from, Vector_to, member_some.
  cbn [v_id v_since v_until v_live_only v_steps app].
  destruct u as [u|]; cbn [app]; read_members; read_leaves; rewrite version_read by done; cbn [mbind option_bind]; rewrite ?steps_read by done.
  - replace (opt_from ContractVersion_from (ContractVersion_to u)) with (Some (Some u)).
    { done. }
    symmetry. apply (opt_read ContractVersion_to _ version_ok (Some u)); [done|apply version_read|]. intros a [= <-]. by apply Hu.
  - done.
Qed.

(** *** Trees without floats *)

Lemma plain_array l : plain (JArray l) <-> Forall plain l.
Proof. induction l as [|x l IH]; cbn; [by rewrite Forall_nil|]. rewrite Forall_cons. cbn in IH. by rewrite IH. Qed.

Lemma plain_object o : plain (JObject o) <-> Forall (fun e => plain e.2) o.
Proof. induction o as [|[k x] o IH]; cbn; [by rewrite Forall_nil|]. rewrite Forall_cons. cbn in IH. by rewrite IH. Qed.

Lemma plain_int z : i64_min <= z <= u64_max -> plain (int_to z).
Proof. intros. unfold int_to. destruct (Z.ltb_spec z 0); cbn; lia. Qed.

Lemma plain_list {A} (f : A -> Json) l : (forall a, plain (f a)) -> plain (list_to f l).
Proof. intros Hf. apply plain_array, Forall_fmap, Forall_true. exact Hf. Qed.

Lemma plain_opt {A} (f : A -> Json) o : (forall a, plain (f a)) -> plain (opt_to f o).
Proof. intros Hf. by destruct o; cbn. Qed.

Lemma plain_str s : plain (str_to s).
Proof. done. Qed.

Lemma plain_header h : plain (Header_to h).
Proof. apply plain_object. repeat constructor. cbn. by apply plain_opt. Qed.
#[export] Hint Resolve plain_str plain_header plain_list plain_opt : gw.

(** The values a command carries beside strings and integers. *)
Definition command_plain (c : Command) : Prop :=
  match c with Subscribe _ _ (Some f) => plain (fl_value f) | _ => True end.
Definition response_plain (r : Response) : Prop := match r with OkResponse v => plain v | _ => True end.

Lemma plain_some {A} name (f : A -> Json) o : (forall a, plain (f a)) -> Forall (fun e : Bytes * Json => plain e.2) (member_some name f o).
Proof. intros Hf. destruct o; cbn; [|done]. constructor; [apply Hf|done]. Qed.

Lemma plain_event e : plain (CloudEvent_to e).
Proof.
  apply plain_object. rewrite !Forall_app. split; [|split]; [|by apply plain_some|]; repeat constructor.
Qed.

Lemma plain_error e : plain (AdapterError_to e).
Proof. apply plain_object. rewrite !Forall_app. repeat split; [repeat constructor|by apply plain_some..]. Qed.

Lemma command_tree_plain c : command_ok c -> command_plain c -> plain (Command_to c).
Proof.
  intros Hok Hp. unfold Command_to. apply plain_object. constructor; [done|].
  destruct c; cbn [Command_members command_ok command_plain] in *;
    repeat (apply Forall_cons; split; [unfold member; cbn [snd]; auto with gw|]); try apply Forall_nil_2.
  - apply plain_event.
  - destruct filter as [f|]; [|done]. apply plain_object. by repeat constructor.
  - apply plain_int. unfold i64_min. lia.
  - apply plain_int. unfold i64_min, u32_max, u64_max in *. lia.
  - apply plain_int. unfold i64_min. lia.
  - apply plain_list. intros e. apply plain_object. by repeat constructor.
  - apply plain_list. intros e. apply plain_object. by repeat constructor.
Qed.

Lemma response_tree_plain r : response_ok r -> response_plain r -> plain (Response_to r).
Proof.
  intros Hok Hp. unfold Response_to. apply plain_object. apply Forall_singleton. destruct r as [a b l|v|m|e]; unfold member; cbn [snd].
  - apply plain_object. destruct Hok. repeat (apply Forall_cons; split; [unfold member; cbn [snd]; auto with gw|]); try apply Forall_nil_2;
      apply plain_int; unfold i64_min, u16_max, u64_max in *; lia.
  - done.
  - apply plain_object. destruct Hok. repeat (apply Forall_cons; split; [unfold member; cbn [snd]; auto with gw|]); try apply Forall_nil_2;
      apply plain_int; unfold i32_min, i32_max, i64_min, i64_max, u64_max in *; lia.
  - apply plain_error.
Qed.

Lemma command_line_read `{JsonText} c :
  command_ok c -> command_plain c -> parse_command (trim_end (command_line c ++ [newline])) = Some c.
Proof.
  intros Hok Hp. unfold parse_command, command_line. rewrite print_trimmed, read_printed by (by apply command_tree_plain).
  by apply command_read.
Qed.

Lemma response_line_read `{JsonText} r :
  response_ok r -> response_plain r -> parse_response (trim_end (response_line r ++ [newline])) = Some r.
Proof.
  intros Hok Hp. unfold parse_response, response_line. rewrite print_trimmed, read_printed by (by apply response_tree_plain).
  by apply response_read.
Qed.

(** ** A text *)

(** Trees without floats as bits: the laws of [JsonText] can hold. *)
Module BitText.
  Abbreviation Tree := (gen_tree (bool + (Z + Z) + Bytes)).

Fixpoint to_tree (j : Json) : Tree :=
  match j with
  | JNull | JNumber (JFloat _) => GenNode 0 []
  | JBool b => GenLeaf (inl (inl b))
  | JNumber (PosInt z) => GenLeaf (inl (inr (inl z)))
  | JNumber (NegInt z) => GenLeaf (inl (inr (inr z)))
  | JString s => GenLeaf (inr s)
  | JArray l => GenNode 1 (map to_tree l)
  | JObject o => GenNode 2 (map (fun e => GenNode 3 [GenLeaf (inr e.1); to_tree e.2]) o)
  end.

Fixpoint of_tree (t : Tree) : Json :=
  match t with
  | GenLeaf (inl (inl b)) => JBool b
  | GenLeaf (inl (inr (inl z))) => JNumber (PosInt z)
  | GenLeaf (inl (inr (inr z))) => JNumber (NegInt z)
  | GenLeaf (inr s) => JString s
  | GenNode 1 l => JArray (map of_tree l)
  | GenNode 2 l => JObject (map (fun t => match t with GenNode _ [GenLeaf (inr k); t] => (k, of_tree t) | _ => ([], JNull) end) l)
  | GenNode _ _ => JNull
  end.

Fixpoint of_to_tree (j : Json) : plain j -> of_tree (to_tree j) = j.
Proof.
  destruct j as [|b|[z|z|f]|s|l|o]; cbn; try done; intros Hj; f_equal.
  - induction l as [|x l IH]; cbn in *; [done|]. destruct Hj as [Hx Hl]. by rewrite of_to_tree, IH.
  - induction o as [|[k x] o IH]; cbn in *; [done|]. destruct Hj as [Hx Hl]. by rewrite of_to_tree, IH.
Qed.

Lemma bits_bit p : Forall (fun b => b = "0"%char \/ b = "1"%char) (bits_of p).
Proof. induction p; cbn; constructor; auto. Qed.

Lemma bits_trimmed l : Forall (fun b => b = "0"%char \/ b = "1"%char) l -> trim_end (l ++ [newline]) = l.
Proof.
  intros Hl. unfold trim_end. rewrite reverse_app. change (reverse [newline]) with [newline]. cbn [app].
  apply Forall_reverse in Hl. rewrite <- (reverse_involutive l) at 2. f_equal.
  change (trim_rev (newline :: reverse l)) with (trim_rev (reverse l)). destruct Hl as [|c l1 Hc [|b l2 Hb [|a l3 Ha _]]];
    [done|by destruct Hc as [-> | ->]|by destruct Hc as [-> | ->], Hb as [-> | ->]|].
  by destruct Hc as [-> | ->], Hb as [-> | ->], Ha as [-> | ->].
Qed.

Lemma bits_utf8 l : Forall (fun b => b = "0"%char \/ b = "1"%char) l -> is_utf8 (l ++ [newline]) = true.
Proof.
  unfold is_utf8, utf8_chunks. induction 1 as [|b l Hb _ IH]; [done|]. cbn [app length utf8_fuel].
  destruct Hb as [-> | ->]; exact IH.
Qed.

Definition text : JsonText.
Proof.
  refine {| print_tree j := bits_of (countable.encode (to_tree j)); read_tree b := of_tree <$> countable.decode (of_bits b) |}.
  - intros j Hj. rewrite of_bits_of, countable.decode_encode. cbn. by rewrite of_to_tree.
  - intros j Hin. pose proof (bits_bit (countable.encode (to_tree j))) as Hb. rewrite Forall_forall in Hb. by destruct (Hb _ Hin).
  - intros j. apply bits_trimmed, bits_bit.
  - intros j. apply bits_utf8, bits_bit.
Defined.
End BitText.
