(* ===== verification/MockAdapter.v ===== *)
(** * The mock adapter of the conformance harness (sdk-conformance: mock_adapter.rs)

    The in-memory adapter the harness is validated with: every command, its
    queue sessions, and the loop over JSON lines.  Then the order in which a
    subscription delivers, and that the queue's message ids name its messages.
    Paths are under [src/crates/sdk-conformance/src]. *)

From stdpp Require Import pretty.
From S2P Require Import Prelude.
From S2P Require Import RustStr.
From S2P Require Import RustNum.
From S2P Require Import Types.
From S2P Require Import Filter.
From S2P Require Import FilterText.
From S2P Require Import Queue.
From S2P Require Import Sdk.
From S2P Require Import Protocol.

(** The base64 crate's [STANDARD] engine, and the message of its error; its
    decoder inverts the encoder and accepts canonical text only. *)
Class Base64 := {
  b64_encode : Bytes -> string;
  b64_decode : string -> option Bytes;
  b64_error : string -> string;
}.
Class Base64Laws `{Base64} := {
  b64_decode_encode : forall v, b64_decode (b64_encode v) = Some v;
  b64_encode_decode : forall s v, b64_decode s = Some v -> b64_encode v = s;
}.

(** ** State *)

Inductive QueueMessageState := QAvailable | QAcquired | QAccepted | QRejected.
#[export] Instance QueueMessageState_eq_dec : EqDecision QueueMessageState.
Proof. solve_decision. Defined.

Record QueueDeliveryState := { ds_state : QueueMessageState; ds_session_id : option string; ds_delivery_count : Z }.

Record StoredMessage := {
  sm_topic : string;
  sm_partition : Z;
  sm_offset : Z;
  sm_value_b64 : string;
  sm_headers : list Header;
  sm_queue_states : gmap string QueueDeliveryState;
}.

Record QueueSession := { se_topic : string; se_group : string; se_max_messages : Z }.
Record Subscription := { su_topics : list string; su_filter : option Filter; su_next_index : nat }.
Inductive FaultMode := NoFault | WrongPublish | WrongConfigure.
#[export] Instance FaultMode_eq_dec : EqDecision FaultMode.
Proof. solve_decision. Defined.

Record MockAdapter := {
  a_endpoint : string;
  a_bearer : option string;
  a_messages : list StoredMessage;
  a_subscription : option Subscription;
  a_fault_mode : FaultMode;
  a_contract_minor : Z;
  a_next_session_id : Z;
  a_queue_sessions : gmap string QueueSession;
}.

Definition with_contract_minor (contract_minor : Z) (fault : FaultMode) : MockAdapter :=
  {| a_endpoint := "mock://gateway"; a_bearer := None; a_messages := []; a_subscription := None; a_fault_mode := fault;
     a_contract_minor := contract_minor; a_next_session_id := 1; a_queue_sessions := ∅ |}.

Definition set_messages (a : MockAdapter) (ms : list StoredMessage) : MockAdapter :=
  {| a_endpoint := a_endpoint a; a_bearer := a_bearer a; a_messages := ms; a_subscription := a_subscription a;
     a_fault_mode := a_fault_mode a; a_contract_minor := a_contract_minor a; a_next_session_id := a_next_session_id a;
     a_queue_sessions := a_queue_sessions a |}.
Definition set_subscription (a : MockAdapter) (s : Subscription) : MockAdapter :=
  {| a_endpoint := a_endpoint a; a_bearer := a_bearer a; a_messages := a_messages a; a_subscription := Some s;
     a_fault_mode := a_fault_mode a; a_contract_minor := a_contract_minor a; a_next_session_id := a_next_session_id a;
     a_queue_sessions := a_queue_sessions a |}.

(** ** Publishing *)

Definition error (k : ErrorKind) (m : string) : Response := ErrorResponse (with_message k m).
Definition published (partition offset : Z) (deduplicated : bool) : Response :=
  OkResponse (JObject [member "partition" (int_to partition); member "offset" (int_to offset);
                       member "deduplicated" (JBool deduplicated)]).

Definition header `{Base64} (name value : string) : Header := {| h_name := name; h_value_b64 := Some (b64_encode (as_bytes value)) |}.

(** [None] is the panic of a count that is no [i64]. *)
Definition publish (a : MockAdapter) (topic value_b64 : string) (headers : list Header) : option (MockAdapter * Response) :=
  if bool_decide (a_fault_mode a = WrongPublish) then Some (a, published 9 999 true)
  else if bool_decide (is_Some (strip_prefix "unreachable://" (a_endpoint a))) then Some (a, error KTransport "endpoint unreachable")
  else if bool_decide (topic = EmptyString) then Some (a, error KInvalidArgument "topic is required")
  else if bool_decide (topic = "__missing_topic") then Some (a, error KNotFound "topic not found")
  else
    offset ← try_i64 (Z.of_nat (length (List.filter (fun m => bool_decide (sm_topic m = topic)) (a_messages a))));
    let m := {| sm_topic := topic; sm_partition := 0; sm_offset := offset; sm_value_b64 := value_b64; sm_headers := headers;
                sm_queue_states := ∅ |} in
    Some (set_messages a (a_messages a ++ [m]), published 0 offset false).

Definition event_headers `{Base64} (e : CloudEvent) : list Header :=
  [header "ce_id" (ev_id e); header "ce_source" (ev_source e); header "ce_type" (ev_type e);
   header "ce_specversion" (ev_specversion e)]
  ++ match ev_datacontenttype e with Some c => [header "content-type" c] | None => [] end.

(** ** Subscribing *)

Definition validate_filter (f : Filter) : option AdapterError :=
  match strip_prefix "$." (fl_path f) with
  | None => Some (with_message KInvalidArgument "filter path must start with $.")
  | Some field =>
      let field := as_bytes field in
      if bool_decide (field = []) || negb (forallb valid_filter_segment (split_dots field))
      then Some (with_message KInvalidArgument "filter path must contain identifier segments")
      else match fl_value f with
           | JArray _ | JObject _ => Some (with_message KInvalidArgument "filter value must be a string, number, boolean, or null")
           | _ => None
           end
  end.

(** The whole path after [$.] is one key. *)
Definition filter_matches `{Base64} `{JsonLib} (f : option Filter) (m : StoredMessage) : bool :=
  match f with
  | None => true
  | Some f =>
      match b64_decode (sm_value_b64 m) ≫= json_parse, strip_prefix "$." (fl_path f) with
      | Some json, Some field =>
          match value_get json (as_bytes field) with
          | Some w => json_eq w (fl_value f)
          | None => false
          end
      | _, _ => false
      end
  end.

Definition selects `{Base64} `{JsonLib} (s : Subscription) (m : StoredMessage) : bool :=
  existsb (fun t => bool_decide (t = sm_topic m)) (su_topics s) && filter_matches (su_filter s) m.

Definition delivered (m : StoredMessage) : Message :=
  {| m_topic := sm_topic m; m_partition := sm_partition m; m_offset := sm_offset m; m_value_b64 := sm_value_b64 m;
     m_headers := sm_headers m |}.

(** The loop over the messages from [next_index]. *)
Fixpoint scan `{Base64} `{JsonLib} (s : Subscription) (next_index : nat) (ms : list StoredMessage) : nat * option Message :=
  match ms with
  | [] => (next_index, None)
  | m :: ms => if selects s m then (S next_index, Some (delivered m)) else scan s (S next_index) ms
  end.

Definition next_message `{Base64} `{JsonLib} (a : MockAdapter) : MockAdapter * Response :=
  match a_subscription a with
  | None => (a, error KInvalidArgument "subscribe before next_message")
  | Some s =>
      let '(next, found) := scan s (su_next_index s) (drop (su_next_index s) (a_messages a)) in
      (set_subscription a {| su_topics := su_topics s; su_filter := su_filter s; su_next_index := next |},
       match found with
       | Some m => MessageResponse m
       | None => error KNotFound "no message available"
       end)
  end.

(** ** Queues *)

Definition unimplemented_queues : Response := ErrorResponse (unimplemented "queues" "gateway-sharegroup-rpc").

Definition queue_message_id (m : StoredMessage) : string :=
  sm_topic m +:+ ":" +:+ pretty (sm_partition m) +:+ ":" +:+ pretty (sm_offset m).

Definition set_queue_state (m : StoredMessage) (group : string) (q : QueueDeliveryState) : StoredMessage :=
  {| sm_topic := sm_topic m; sm_partition := sm_partition m; sm_offset := sm_offset m; sm_value_b64 := sm_value_b64 m;
     sm_headers := sm_headers m; sm_queue_states := <[group := q]> (sm_queue_states m) |}.

Definition available (topic group : string) (m : StoredMessage) : bool :=
  bool_decide (sm_topic m = topic) &&
  match sm_queue_states m !! group with Some q => bool_decide (ds_state q = QAvailable) | None => true end.

(** A [u32] count saturates. *)
Definition acquired (session group : string) (m : StoredMessage) : QueueDeliveryState :=
  {| ds_state := QAcquired; ds_session_id := Some session;
     ds_delivery_count := Z.min u32_max (match sm_queue_states m !! group with Some q => ds_delivery_count q | None => 0 end + 1) |}.

Definition acquired_json (m : StoredMessage) (q : QueueDeliveryState) : Json :=
  JObject [member "message_id" (str_to (queue_message_id m)); member "topic" (str_to (sm_topic m));
           member "partition" (int_to (sm_partition m)); member "offset" (int_to (sm_offset m));
           member "value_b64" (str_to (sm_value_b64 m)); member "headers" (list_to Header_to (sm_headers m));
           member "delivery_count" (int_to (ds_delivery_count q))].

(** The first [n] available messages. *)
Fixpoint acquire_messages (session topic group : string) (n : nat) (ms : list StoredMessage) : list StoredMessage * list Json :=
  match ms, n with
  | [], _ => ([], [])
  | _, O => (ms, [])
  | m :: ms, S n' =>
      if available topic group m then
        let q := acquired session group m in
        let '(ms, out) := acquire_messages session topic group n' ms in
        (set_queue_state m group q :: ms, acquired_json m q :: out)
      else let '(ms, out) := acquire_messages session topic group n ms in (m :: ms, out)
  end.

Definition session_name (n : Z) : string := "queue-session-" +:+ pretty n.

(** [next_queue_session_id] and the entry of the new session. *)
Definition open_session (a : MockAdapter) (s : QueueSession) : MockAdapter * string :=
  let id := session_name (a_next_session_id a) in
  ({| a_endpoint := a_endpoint a; a_bearer := a_bearer a; a_messages := a_messages a; a_subscription := a_subscription a;
      a_fault_mode := a_fault_mode a; a_contract_minor := a_contract_minor a;
      a_next_session_id := Z.min u64_max (a_next_session_id a + 1); a_queue_sessions := <[id := s]> (a_queue_sessions a) |}, id).

Definition resume_session (a : MockAdapter) (topic group : string) (max effective_max : Z) (requested : string) : result string unit :=
  match a_queue_sessions a !! requested with
  | None => Err "queue session expired; re-acquire"
  | Some s =>
      if negb (bool_decide (se_topic s = topic)) || negb (bool_decide (se_group s = group))
      then Err "group_id and topics are fixed when a queue session is created"
      else if negb (max =? 0) && negb (effective_max =? se_max_messages s)
      then Err "max_messages is fixed when a queue session is created"
      else Ok ()
  end.

Definition acquire_in (a : MockAdapter) (session topic group : string) (effective_max : Z) : MockAdapter * Response :=
  let '(ms, out) := acquire_messages session topic group (Z.to_nat effective_max) (a_messages a) in
  (set_messages a ms, OkResponse (JObject [member "session_id" (str_to session); member "messages" (JArray out)])).

Definition queue_acquire (a : MockAdapter) (topic group : string) (max lock_duration_ms : Z) (requested : string)
    : MockAdapter * Response :=
  if a_contract_minor a <? CONTRACT_MINOR_QUEUE_RPC then (a, unimplemented_queues)
  else if bool_decide (group = EmptyString) then (a, error KInvalidArgument "queue group is required")
  else if bool_decide (topic = EmptyString) then (a, error KInvalidArgument "queue topic is required")
  else if negb (lock_duration_ms =? 30000)
  then (a, error KInvalidArgument "queue lock_duration_ms must be 30000; per-acquire lock durations are not supported")
  else
    let effective_max := clamp 1 500 max in
    if bool_decide (requested = EmptyString) then
      let '(a, id) := open_session a {| se_topic := topic; se_group := group; se_max_messages := effective_max |} in
      acquire_in a id topic group effective_max
    else match resume_session a topic group max effective_max requested with
         | Err m => (a, error KInvalidArgument m)
         | Ok _ => acquire_in a requested topic group effective_max
         end.

(** [queue_state_mut]: the state of the first message of that id, when the
    session holds it, with what the caller assigns to it. *)
Definition holds (session : string) (q : QueueDeliveryState) : bool :=
  bool_decide (ds_state q = QAcquired) && bool_decide (ds_session_id q = Some session).
Fixpoint queue_state_mut (f : QueueDeliveryState -> QueueDeliveryState) (group session id : string) (ms : list StoredMessage)
    : option (list StoredMessage) :=
  match ms with
  | [] => None
  | m :: ms =>
      if bool_decide (queue_message_id m = id) then
        q ← sm_queue_states m !! group;
        if holds session q then Some (set_queue_state m group (f q) :: ms) else None
      else cons m <$> queue_state_mut f group session id ms
  end.

Definition settled (t : QueueAckType) (q : QueueDeliveryState) : QueueDeliveryState :=
  {| ds_state := match t with Accept => QAccepted | Release => QAvailable | Reject => QRejected end;
     ds_session_id := None; ds_delivery_count := ds_delivery_count q |}.

Definition entry_result (id : string) (found : bool) : Json :=
  JObject [member "message_id" (str_to id);
           member "error" (if found then JNull
                           else JObject [member "kind" (str_to "invalid_argument");
                                         member "message" (str_to "queue message is not acquired")])].

Fixpoint ack_results (group session : string) (ms : list StoredMessage) (es : list QueueAckEntry) : list StoredMessage * list Json :=
  match es with
  | [] => (ms, [])
  | e :: es =>
      let found := queue_state_mut (settled (ak_ack_type e)) group session (ak_message_id e) ms in
      let '(ms, out) := ack_results group session (default ms found) es in
      (ms, entry_result (ak_message_id e) (bool_decide (is_Some found)) :: out)
  end.

(** The session an entry is settled in. *)
Definition entry_session (a : MockAdapter) (session : string) : result Response QueueSession :=
  if a_contract_minor a <? CONTRACT_MINOR_QUEUE_RPC then Err unimplemented_queues
  else if bool_decide (session = EmptyString) then Err (error KInvalidArgument "queue session_id is required")
  else ok_or (error KInvalidArgument "queue session expired; re-acquire") (a_queue_sessions a !! session).

Definition results (rs : list Json) : Response := OkResponse (JObject [member "results" (JArray rs)]).

Definition queue_acknowledge (a : MockAdapter) (session : string) (es : list QueueAckEntry) : MockAdapter * Response :=
  match entry_session a session with
  | Err r => (a, r)
  | Ok s => let '(ms, out) := ack_results (se_group s) session (a_messages a) es in (set_messages a ms, results out)
  end.

Definition queue_renew (a : MockAdapter) (session : string) (es : list QueueRenewEntry) : Response :=
  match entry_session a session with
  | Err r => r
  | Ok s =>
      results (map (fun e => entry_result (rn_message_id e)
                 (bool_decide (is_Some (queue_state_mut id (se_group s) session (rn_message_id e) (a_messages a))))) es)
  end.

(** ** The dispatch *)

Definition handle `{Base64} `{JsonLib} (a : MockAdapter) (c : Command) : option (MockAdapter * Response) :=
  match c with
  | Hello => Some (a, HelloResponse CONTRACT_MAJOR (a_contract_minor a) "mock")
  | Configure endpoint bearer =>
      let configured := bool_decide (is_Some bearer) in
      Some ({| a_endpoint := endpoint; a_bearer := bearer; a_messages := a_messages a; a_subscription := a_subscription a;
               a_fault_mode := a_fault_mode a; a_contract_minor := a_contract_minor a; a_next_session_id := a_next_session_id a;
               a_queue_sessions := a_queue_sessions a |},
            OkResponse (JObject [member "bearer_configured"
              (JBool (if bool_decide (a_fault_mode a = WrongConfigure) then negb configured else configured))]))
  | Publish topic value_b64 headers => publish a topic value_b64 headers
  | PublishEvent topic event =>
      if bool_decide (ev_id event = EmptyString) then Some (a, error KInvalidArgument "CloudEvent id is required")
      else publish a topic (ev_data_b64 event) (event_headers event)
  | Subscribe topics _ filter =>
      match filter ≫= validate_filter with
      | Some e => Some (a, ErrorResponse e)
      | None => Some (set_subscription a {| su_topics := topics; su_filter := filter; su_next_index := 0 |}, OkResponse (JObject []))
      end
  | NextMessage _ => Some (next_message a)
  | QueueAcquire topic group max lock_duration_ms session => Some (queue_acquire a topic group max lock_duration_ms session)
  | QueueAck _ => Some (a, unimplemented_queues)
  | QueueAcknowledge session entries => Some (queue_acknowledge a session entries)
  | QueueRenew session entries => Some (a, queue_renew a session entries)
  | DbConnect _ => Some (a, ErrorResponse (unimplemented "database" "chapter-f-control-plane"))
  | AuthSignIn _ _ => Some (a, error KUnauthenticated "identity APIs are not part of contract v1")
  | BlobPut _ _ | BlobGet _ => Some (a, ErrorResponse (unimplemented "blob" "chapter-b-blob-api"))
  end.

(** ** The loop over lines *)

(** [read_line] until it reads nothing: the lines, each with its newline; what
    follows the last newline is a line too. *)
Fixpoint read_lines (input : Bytes) : list Bytes :=
  match input with
  | [] => []
  | c :: input' =>
      if bool_decide (c = newline) then [c] :: read_lines input'
      else match read_lines input' with
           | [] => [[c]]
           | l :: ls => (c :: l) :: ls
           end
  end.

(** How the loop ends: at the end of the input, or on an error of its input or
    of a command; the encoder does not fail on a response. *)
Inductive Exit := Done | IoFault | JsonFault | Panicked.

Section Stdio.
  Context `{Base64} `{JsonLib} `{JsonText}.

(** One turn of the loop: what it writes. *)
Definition serve_line (a : MockAdapter) (line : Bytes) : Exit + (MockAdapter * Bytes) :=
  if negb (is_utf8 line) then inl IoFault
  else match parse_command (trim_end line) with
       | None => inl JsonFault
       | Some c =>
           match handle a c with
           | None => inl Panicked
           | Some (a, r) => inr (a, response_line r ++ [newline])
           end
       end.
Fixpoint serve_lines (a : MockAdapter) (lines : list Bytes) : Bytes * Exit :=
  match lines with
  | [] => ([], Done)
  | l :: lines =>
      match serve_line a l with
      | inl e => ([], e)
      | inr (a, out) => let '(rest, e) := serve_lines a lines in (out ++ rest, e)
      end
  end.

(** What is written for an input, and how the loop ends. *)
Definition run_stdio (input : Bytes) (fault : FaultMode) (contract_minor : Z) : Bytes * Exit :=
  serve_lines (with_contract_minor contract_minor fault) (read_lines input).
End Stdio.

(** ** Deliveries of a subscription *)

Section Deliveries.
  Context `{Base64} `{JsonLib}.

(** The messages a subscription has still to deliver. *)
Definition pending (s : Subscription) (ms : list StoredMessage) : list StoredMessage :=
  List.filter (selects s) (drop (su_next_index s) ms).

Lemma scan_found s n ms m : (scan s n ms).2 = Some m -> exists i x, ms !! i = Some x /\ selects s x = true /\ m = delivered x /\
  (scan s n ms).1 = (n + S i)%nat /\ List.filter (selects s) ms = x :: List.filter (selects s) (drop (S i) ms).
Proof.
  revert n. induction ms as [|y ms IH]; intros n; cbn; [done|]. destruct (selects s y) eqn:Hy; cbn.
  - intros [= <-]. exists 0%nat, y. split_and!; [done..|lia|by rewrite drop_0].
  - intros (i & x & Hi & Hx & Hm & Hn & Hf)%IH. exists (S i), x. split_and!; [done..|lia|done].
Qed.

Lemma scan_none s n ms : (scan s n ms).2 = None -> (scan s n ms).1 = (n + length ms)%nat /\ List.filter (selects s) ms = [].
Proof.
  revert n. induction ms as [|y ms IH]; intros n; cbn; [intros _; split; [lia|done]|]. destruct (selects s y); cbn; [done|].
  intros [Hn Hf]%IH. split; [lia|done].
Qed.

Definition at_index (s : Subscription) (n : nat) : Subscription :=
  {| su_topics := su_topics s; su_filter := su_filter s; su_next_index := n |}.

(** A call delivers the first message still to deliver, and only that one is no
    longer. *)
Lemma next_message_spec a s :
  a_subscription a = Some s -> (su_next_index s <= length (a_messages a))%nat ->
  exists n, (next_message a).1 = set_subscription a (at_index s n) /\ (n <= length (a_messages a))%nat /\
    match pending s (a_messages a) with
    | [] => (next_message a).2 = error KNotFound "no message available" /\ pending (at_index s n) (a_messages a) = []
    | m :: rest => (next_message a).2 = MessageResponse (delivered m) /\ pending (at_index s n) (a_messages a) = rest
    end.
Proof.
  intros Hs Hle. unfold next_message. rewrite Hs. destruct (scan _ _ _) as [n found] eqn:Hscan. exists n. split; [done|].
  unfold pending. change (su_next_index (at_index s n)) with n. change (selects (at_index s n)) with (selects s).
  destruct found as [m|].
  - destruct (scan_found s (su_next_index s) (drop (su_next_index s) (a_messages a)) m) as (i & x & Hi & Hx & -> & Hn & Hf);
      [by rewrite Hscan|]. rewrite Hscan in Hn. cbn in Hn. subst n. rewrite Hf, drop_drop.
    apply lookup_lt_Some in Hi. rewrite length_drop in Hi. split; [lia|done].
  - destruct (scan_none s (su_next_index s) (drop (su_next_index s) (a_messages a))) as [Hn Hf]; [by rewrite Hscan|].
    rewrite Hscan in Hn. cbn in Hn. rewrite Hf. rewrite length_drop in Hn. split; [lia|]. split; [done|].
    rewrite drop_ge by lia. done.
Qed.
End Deliveries.

(** ** Well-formed adapters and what they answer *)

Definition queue_state_ok (q : QueueDeliveryState) : Prop := 0 <= ds_delivery_count q <= u32_max.
Record stored_ok (m : StoredMessage) : Prop := {
  so_partition : sm_partition m = 0;
  so_offset : 0 <= sm_offset m <= i64_max;
  so_states : map_Forall (fun _ q => queue_state_ok q) (sm_queue_states m);
}.
Definition adapter_ok (a : MockAdapter) : Prop := 0 <= a_contract_minor a <= u16_max /\ Forall stored_ok (a_messages a).

Definition answer_ok (r : Response) : Prop := response_ok r /\ response_plain r.

Lemma set_queue_state_ok m g q : stored_ok m -> queue_state_ok q -> stored_ok (set_queue_state m g q).
Proof. intros [Hp Ho Hs] Hq. split; cbn; [done|done|]. by apply map_Forall_insert_2. Qed.

Lemma acquired_ok s g m : stored_ok m -> queue_state_ok (acquired s g m).
Proof.
  intros [_ _ Hs]. unfold queue_state_ok, acquired, u32_max. cbn. destruct (sm_queue_states m !! g) as [q|] eqn:Hq; [|lia].
  apply Hs in Hq. unfold queue_state_ok, u32_max in Hq. lia.
Qed.

Lemma acquired_json_plain m q : stored_ok m -> queue_state_ok q -> plain (acquired_json m q).
Proof.
  intros [Hp Ho _] Hq. unfold queue_state_ok in Hq. apply plain_object. unfold member, i64_max, u32_max in *.
  repeat (apply Forall_cons; split; [cbn [snd]; auto with gw|]); try apply Forall_nil_2; apply plain_int; unfold i64_min, u64_max; lia.
Qed.

Lemma acquire_messages_ok s t g n ms : Forall stored_ok ms ->
  Forall stored_ok (acquire_messages s t g n ms).1 /\ Forall plain (acquire_messages s t g n ms).2.
Proof.
  intros Hms. revert n. induction Hms as [|m ms Hm Hms IH]; intros n; [by destruct n|]. destruct n as [|n]; [by split; [constructor|]|].
  cbn. destruct (available t g m).
  - specialize (IH n). destruct (acquire_messages s t g n ms) as [ms' out]. destruct IH as [IH1 IH2]. cbn in *.
    pose proof (acquired_ok s g m Hm). split; constructor; [by apply set_queue_state_ok|done|by apply acquired_json_plain|done].
  - specialize (IH (S n)). destruct (acquire_messages s t g (S n) ms) as [ms' out]. destruct IH. by split; [constructor|].
Qed.

Lemma queue_state_mut_ok f g s id ms ms' :
  (forall q, queue_state_ok q -> queue_state_ok (f q)) ->
  Forall stored_ok ms -> queue_state_mut f g s id ms = Some ms' -> Forall stored_ok ms'.
Proof.
  intros Hf Hms. revert ms'. induction Hms as [|m ms Hm Hms IH]; intros ms'; cbn; [done|]. case_bool_decide.
  - destruct (sm_queue_states m !! g) as [q|] eqn:Hq; [|done]. cbn. destruct (holds s q); [|done]. intros [= <-].
    constructor; [|done]. apply set_queue_state_ok; [done|]. destruct Hm as [_ _ Hs]. eapply Hf, Hs, Hq.
  - destruct (queue_state_mut f g s id ms) as [ms1|]; [|done]. intros [= <-]. constructor; [done|]. by apply IH.
Qed.

Lemma entry_result_plain id b : plain (entry_result id b).
Proof. by destruct b. Qed.

Lemma ack_results_ok g s ms es : Forall stored_ok ms ->
  Forall stored_ok (ack_results g s ms es).1 /\ Forall plain (ack_results g s ms es).2.
Proof.
  revert ms. induction es as [|e es IH]; intros ms Hms; [done|]. cbn [ack_results].
  assert (Hms' : Forall stored_ok (default ms (queue_state_mut (settled (ak_ack_type e)) g s (ak_message_id e) ms))).
  { destruct (queue_state_mut _ _ _ _ _) as [ms'|] eqn:Hq; [|done]. by eapply queue_state_mut_ok; [|exact Hms|exact Hq]. }
  specialize (IH _ Hms'). destruct (ack_results _ _ _ es) as [ms' out]. destruct IH. split; [done|].
  constructor; [apply entry_result_plain|done].
Qed.

Lemma results_ok rs : Forall plain rs -> answer_ok (results rs).
Proof. intros Hrs. split; [done|]. apply plain_object. repeat constructor. by apply plain_array. Qed.

Lemma published_ok p o d : 0 <= p <= 9 -> 0 <= o <= i64_max -> answer_ok (published p o d).
Proof.
  intros Hp Ho. split; [done|]. apply plain_object. unfold i64_max in *. repeat constructor; apply plain_int; unfold i64_min, u64_max; lia.
Qed.

Section Answers.
  Context `{Base64} `{JsonLib}.

Lemma error_ok k m : answer_ok (error k m).
Proof. done. Qed.

Lemma publish_ok a t v hs a' r : adapter_ok a -> publish a t v hs = Some (a', r) -> adapter_ok a' /\ answer_ok r.
Proof.
  intros [Hm Hms]. unfold publish. repeat case_bool_decide; try (by intros [= <- <-]).
  intros (o & Ho & [= <- <-])%bind_Some. unfold try_i64 in Ho. apply try_range_Some in Ho as [-> Hr]. split.
  - split; [done|]. cbn. apply Forall_app. split; [done|]. apply Forall_singleton. split; cbn; [done|lia|]. apply map_Forall_empty.
  - apply published_ok; lia.
Qed.

Lemma acquire_in_ok a s t g n : adapter_ok a -> adapter_ok (acquire_in a s t g n).1 /\ answer_ok (acquire_in a s t g n).2.
Proof.
  intros [Hm Hms]. unfold acquire_in. destruct (acquire_messages_ok s t g (Z.to_nat n) (a_messages a) Hms) as [H1 H2].
  destruct (acquire_messages _ _ _ _ _) as [ms out]. split; [done|]. split; [done|]. apply plain_object. repeat constructor. by apply plain_array.
Qed.

Lemma queue_acquire_ok a t g n l s : adapter_ok a -> adapter_ok (queue_acquire a t g n l s).1 /\ answer_ok (queue_acquire a t g n l s).2.
Proof.
  intros Ha. unfold queue_acquire. destruct (_ <? _); [done|]. case_bool_decide; [done|]. case_bool_decide; [done|].
  destruct (negb _); [done|]. case_bool_decide.
  - by apply acquire_in_ok.
  - destruct (resume_session _ _ _ _ _ _); [by apply acquire_in_ok|done].
Qed.

Lemma entry_session_err a s r : entry_session a s = Err r -> answer_ok r.
Proof.
  unfold entry_session. destruct (_ <? _); [by intros [= <-]|]. case_bool_decide; [by intros [= <-]|].
  destruct (_ !! s); [done|]. by intros [= <-].
Qed.

Lemma handle_ok a c a' r : adapter_ok a -> handle a c = Some (a', r) -> adapter_ok a' /\ answer_ok r.
Proof.
  intros Ha. destruct c; cbn; try (by intros [= <- <-]).
  - intros [= <- <-]. split; [done|]. split; [|done]. destruct Ha. cbn. unfold CONTRACT_MAJOR, u16_max in *. lia.
  - by apply publish_ok.
  - case_bool_decide; [by intros [= <- <-]|]. by apply publish_ok.
  - destruct (filter ≫= validate_filter); by intros [= <- <-].
  - intros [= Hn]. destruct Ha as [Hm Hms]. unfold next_message in Hn.
    destruct (a_subscription a) as [s|]; [|by injection Hn as <- <-].
    destruct (scan _ _ _) as [n found] eqn:Hscan. injection Hn as <- <-. split; [done|]. destruct found as [m|]; [|done].
    destruct (scan_found s _ _ m (f_equal snd Hscan)) as (i & x & Hi & _ & -> & _). rewrite lookup_drop in Hi.
    destruct (Forall_lookup_1 _ _ _ _ Hms Hi) as [Hp Ho _]. split; [|done]. cbn.
    unfold i32_min, i32_max, i64_min, i64_max in *. lia.
  - intros [= Hq]. pose proof (queue_acquire_ok a topic group max lock_duration_ms session_id Ha) as Hok. by rewrite Hq in Hok.
  - intros [= Hq]. unfold queue_acknowledge in Hq. destruct (entry_session a session_id) as [s|r'] eqn:Hs.
    + destruct Ha as [Hm Hms]. pose proof (ack_results_ok (se_group s) session_id _ entries Hms) as [H1 H2].
      destruct (ack_results _ _ _ _) as [ms out]. injection Hq as <- <-. split; [done|]. by apply results_ok.
    + injection Hq as <- <-. split; [done|]. by eapply entry_session_err.
  - intros [= <- <-]. split; [done|]. unfold queue_renew. destruct (entry_session a session_id) as [s|r'] eqn:Hs.
    + apply results_ok, Forall_fmap, Forall_true. intros e. apply entry_result_plain.
    + by eapply entry_session_err.
Qed.
End Answers.

(** ** Lines *)

Lemma read_lines_app l rest : newline ∉ l -> read_lines ((l ++ [newline]) ++ rest) = (l ++ [newline]) :: read_lines rest.
Proof.
  induction l as [|c l IH]; intros Hl; cbn.
  - by rewrite bool_decide_eq_true_2.
  - apply not_elem_of_cons in Hl as [Hc Hl]. rewrite bool_decide_eq_false_2 by done. cbn in IH. by rewrite IH.
Qed.

Lemma read_lines_concat ls : Forall (fun l => newline ∉ l) ls ->
  read_lines (concat (map (fun l => l ++ [newline]) ls)) = map (fun l => l ++ [newline]) ls.
Proof.
  induction ls as [|l ls IH]; intros Hls; [done|]. apply Forall_cons in Hls as [Hl Hls]. cbn. by rewrite read_lines_app, IH.
Qed.

Section Lines.
  Context `{Base64} `{JsonLib} `{JsonText}.

Fixpoint handle_all (a : MockAdapter) (cs : list Command) : option (MockAdapter * list Response) :=
  match cs with
  | [] => Some (a, [])
  | c :: cs => '(a, r) ← handle a c; '(a, rs) ← handle_all a cs; Some (a, r :: rs)
  end.

Definition sendable (c : Command) : Prop := command_ok c /\ command_plain c.

Lemma serve_command a c : sendable c ->
  serve_line a (command_line c ++ [newline]) =
    match handle a c with None => inl Panicked | Some (a, r) => inr (a, response_line r ++ [newline]) end.
Proof. intros [Hok Hp]. unfold serve_line. unfold command_line at 1. rewrite print_utf8. cbn. by rewrite command_line_read. Qed.

Lemma serve_commands a cs a' rs : Forall sendable cs -> handle_all a cs = Some (a', rs) ->
  serve_lines a (map (fun c => command_line c ++ [newline]) cs) = (concat (map (fun r => response_line r ++ [newline]) rs), Done).
Proof.
  intros Hcs. revert a rs. induction Hcs as [|c cs Hc _ IH]; intros a rs; cbn [handle_all map].
  - by intros [= <- <-].
  - intros ([a1 r] & Hh & ([a2 rs'] & Hrs & [= <- <-])%bind_Some)%bind_Some. cbn [serve_lines].
    rewrite serve_command, Hh by done. by rewrite (IH _ _ Hrs).
Qed.

Lemma handle_all_ok a cs a' rs : adapter_ok a -> handle_all a cs = Some (a', rs) -> Forall answer_ok rs.
Proof.
  revert a rs. induction cs as [|c cs IH]; intros a rs Ha; cbn; [by intros [= <- <-]|].
  intros ([a1 r] & Hh & ([a2 rs'] & Hrs & [= <- <-])%bind_Some)%bind_Some.
  destruct (handle_ok _ _ _ _ Ha Hh) as [Ha1 Hr]. constructor; [done|]. by eapply IH.
Qed.

(** Over its JSON lines the mock adapter is its dispatch: for any commands
    the harness can send, the text it writes is one line per command, in order,
    and the lines read back as the responses of the commands handled in turn. *)
Theorem stdio_is_dispatch cs fault minor a' rs :
  Forall sendable cs -> 0 <= minor <= u16_max -> handle_all (with_contract_minor minor fault) cs = Some (a', rs) ->
  exists out, run_stdio (concat (map (fun c => command_line c ++ [newline]) cs)) fault minor = (out, Done) /\
    mapM (fun l => parse_response (trim_end l)) (read_lines out) = Some rs.
Proof.
  intros Hcs Hminor Hrs. exists (concat (map (fun r => response_line r ++ [newline]) rs)).
  assert (Hone : forall {A} (f : A -> Json) l, Forall (fun b => newline ∉ b) (map (fun x => print_tree (f x)) l)).
  { intros A f l. apply Forall_fmap, Forall_true. intros x. apply print_one_line. }
  pose proof (read_lines_concat _ (Hone _ Command_to cs)) as Hc. pose proof (read_lines_concat _ (Hone _ Response_to rs)) as Hr.
  rewrite List.map_map in Hc, Hr. unfold run_stdio, command_line. rewrite Hc. split; [by eapply serve_commands|].
  unfold response_line. rewrite Hr. apply mapM_Some. apply Forall2_fmap_l.
  assert (Hok : Forall answer_ok rs). { eapply handle_all_ok; [|exact Hrs]. split; [done|constructor]. }
  clear -Hok. induction Hok as [|r rs [Hr Hp] _ IH]; constructor; [|exact IH]. by apply response_line_read.
Qed.
End Lines.

Module Witness.
(** Texts as their own base64. *)
#[export] Instance raw64 : Base64 := {| b64_encode := of_bytes; b64_decode := fun s => Some (as_bytes s); b64_error := fun _ => EmptyString |}.
#[export] Instance raw64_laws : Base64Laws.
Proof. split; [intros v; cbn; by rewrite as_of_bytes|]. intros s v [= <-]. apply of_as_bytes. Qed.

Definition commands : list Command :=
  [Hello; Publish "jobs" "v" []; QueueAcquire "jobs" "workers" 0 30000 EmptyString;
   QueueAcknowledge "queue-session-1" [{| ak_message_id := "jobs:0:0"; ak_ack_type := Accept |};
                                       {| ak_message_id := "jobs:0:0"; ak_ack_type := Accept |}]].
Definition answers : list Response :=
  [HelloResponse 1 1 "mock"; published 0 0 false;
   OkResponse (JObject [member "session_id" (str_to "queue-session-1");
     member "messages" (JArray [JObject [member "message_id" (str_to "jobs:0:0"); member "topic" (str_to "jobs");
       member "partition" (int_to 0); member "offset" (int_to 0); member "value_b64" (str_to "v"); member "headers" (JArray []);
       member "delivery_count" (int_to 1)]])]);
   results [entry_result "jobs:0:0" true; entry_result "jobs:0:0" false]].

Lemma stdio_is_dispatch_witness : exists out,
  run_stdio (H:=raw64) (H0:=Apps.parser) (H1:=BitText.text) (concat (map (fun c => command_line (H:=BitText.text) c ++ [newline]) commands)) NoFault 1 = (out, Done)
  /\ mapM (fun l => parse_response (H:=BitText.text) (trim_end l)) (read_lines out) = Some answers.
Proof.
  assert (Hh : snd <$> handle_all (H0:=Apps.parser) (with_contract_minor 1 NoFault) commands = Some answers) by (vm_compute; reflexivity).
  apply fmap_Some in Hh as ([a' rs] & Hh & ->). apply (stdio_is_dispatch (H0:=Apps.parser) (H1:=BitText.text) commands NoFault 1 a' rs); [|done|exact Hh].
  repeat constructor; try done.
Defined.
End Witness.
