(* ===== verification/Harness.v ===== *)
(** * The conformance harness (sdk-conformance: harness.rs, bin/conformance.rs)

    Selecting vectors by contract version, substrate and id, replaying each one
    against a fresh adapter process, and the summary.  The process on the other
    side of the pipes is the class [AdapterProcess]; the mock adapter is one.
    Then: every loaded vector is accounted for, and a run over the pipes judges
    an adapter by its answers alone.  Paths are under
    [src/crates/sdk-conformance/src]. *)

From stdpp Require Import pretty.
From S2P Require Import Prelude.
From S2P Require Import RustStr.
From S2P Require Import RustNum.
From S2P Require Import Types.
From S2P Require Import Filter.
From S2P Require Import Streaming.
From S2P Require Import Settings.
From S2P Require Import Sdk.
From S2P Require Import Protocol.
From S2P Require Import MockAdapter.

(** ** Configuration and results *)

Inductive HarnessSubstrate := External | Live.
#[export] Instance HarnessSubstrate_eq_dec : EqDecision HarnessSubstrate.
Proof. solve_decision. Defined.

(** [HarnessConfig], without the executable and the directory, which are the
    process and the vectors. *)
Record HarnessConfig := {
  hc_filter : option string;
  hc_endpoint : string;
  hc_substrate : HarnessSubstrate;
  hc_live_compatible_only : bool;
}.

Inductive HarnessError :=
| Vectors (e : VectorError)
| Spawn (m : string)
| MissingPipe (pipe : string)
| Io (m : string)
| JsonError
| AdapterTimeout
| AdapterEof
| AdapterProtocol (m : string)
| BrokerStart (m : string)
| Admin (m : string)
| ClientFault (m : string)
| GroupConfig (group : string) (code : Z) (m : string)
| GatewayInit (m : string)
| GatewayServe (m : string)
| GatewayTask (m : string)
| SubstrateTimeout.

Record SkippedVector := { sk_vector_id : string; sk_reason : string }.
Record VectorFailure := { vf_vector_id : string; vf_step : string; vf_expected : Response; vf_actual : Response }.
Record RunSummary := { passed : nat; failed : list VectorFailure; skipped : list SkippedVector }.
Definition is_success (s : RunSummary) : bool := match failed s with [] => true | _ => false end.

(** ** The adapter behind its pipes *)

(** What comes back for a line written to the process. *)
Inductive Answer := Line (l : Bytes) | TimedOut | ReadFailed (m : string) | WriteFailed (m : string).

(** The [n]th process the harness starts, and its answer to a line. *)
Class AdapterProcess := {
  Proc : Type;
  spawn : nat -> result HarnessError Proc;
  exchange : Proc -> Bytes -> Proc * Answer;
}.

Section Harness.
  Context `{JsonText} `{AdapterProcess}.

Definition call (p : Proc) (c : Command) : Proc * result HarnessError Response :=
  let '(p, answer) := exchange p (command_line c ++ [newline]) in
  (p, match answer with
      | WriteFailed m | ReadFailed m => Err (Io m)
      | TimedOut => Err AdapterTimeout
      | Line [] => Err AdapterEof
      | Line l => ok_or JsonError (parse_response (trim_end l))
      end).

(** ** Replaying a vector *)

Fixpoint run_steps (id : string) (p : Proc) (steps : list VectorStep) : result HarnessError (option VectorFailure) :=
  match steps with
  | [] => Ok None
  | s :: steps =>
      let '(p, answer) := call p (st_command s) in
      actual ← answer;
      if negb (response_eq actual (st_expect s))
      then Ok (Some {| vf_vector_id := id; vf_step := st_name s; vf_expected := st_expect s; vf_actual := actual |})
      else run_steps id p steps
  end.

Definition expected_configuration : Response := OkResponse (JObject [member "bearer_configured" (JBool false)]).

Definition run_vector (n : nat) (v : Vector) (endpoint : string) : result HarnessError (option VectorFailure) :=
  p ← spawn n;
  let '(p, hello) := call p Hello in
  hello ← hello;
  let refused :=
    Ok (Some {| vf_vector_id := v_id v; vf_step := "hello";
                vf_expected := HelloResponse CONTRACT_MAJOR (minor (v_since v)) "<adapter>"; vf_actual := hello |}) in
  match hello with
  | HelloResponse contract_major contract_minor _ =>
      if negb (satisfies {| major := contract_major; minor := contract_minor |} v) then refused
      else
        let '(p, configured) := call p (Configure endpoint None) in
        configured ← configured;
        if negb (response_eq configured expected_configuration)
        then Ok (Some {| vf_vector_id := v_id v; vf_step := "configure"; vf_expected := expected_configuration;
                         vf_actual := configured |})
        else run_steps (v_id v) p (v_steps v)
  | _ => refused
  end.

(** The vectors in turn, the first in the [n]th process. *)
Fixpoint run_all (n : nat) (vs : list Vector) (endpoint : string) : result HarnessError (nat * list VectorFailure) :=
  match vs with
  | [] => Ok (0%nat, [])
  | v :: vs =>
      failure ← run_vector n v endpoint;
      '(count, failures) ← run_all (S n) vs endpoint;
      Ok (match failure with Some f => (count, f :: failures) | None => (S count, failures) end)
  end.
Definition run_vectors_with_endpoint (n : nat) (vs : list Vector) (skips : list SkippedVector) (endpoint : string)
    : result HarnessError RunSummary :=
  '(count, failures) ← run_all n vs endpoint;
  Ok {| passed := count; failed := failures; skipped := skips |}.

Definition discover_adapter_version : result HarnessError ContractVersion :=
  p ← spawn 0;
  hello ← (call p Hello).2;
  match hello with
  | HelloResponse contract_major contract_minor _ =>
      if negb (contract_major =? CONTRACT_MAJOR) then Err (AdapterProtocol "adapter contract major is not supported")
      else Ok {| major := contract_major; minor := contract_minor |}
  | _ => Err (AdapterProtocol "adapter hello did not return a hello response")
  end.
End Harness.

(** ** Selecting vectors *)

Definition newer_contract_skips (version : ContractVersion) (vs : list Vector) : list SkippedVector :=
  map (fun v => {| sk_vector_id := v_id v;
                   sk_reason := "requires contract " +:+ pretty (major (v_since v)) +:+ "." +:+ pretty (minor (v_since v))
                     +:+ "; adapter declares " +:+ pretty (major version) +:+ "." +:+ pretty (minor version) |})
    (List.filter (fun v => version_lt version (v_since v)) vs).

Definition LIVE_COMPATIBLE_VECTOR_IDS : list string :=
  ["messaging_roundtrip"; "ce_binary_mapping"; "filter_delivers_matches_only"; "header_shape"; "queue_v1_1_ack_error_shape";
   "queue_v1_1_ack_shape"; "queue_v1_1_acquire_error_shape"; "queue_v1_1_acquire_shape"; "queue_v1_1_live_error_mapping";
   "queue_v1_1_lock_duration_error_shape"; "queue_v1_1_renew_shape"; "queue_v1_1_session_ownership"].

(** [LiveCompatiblePlan]: the vectors to run and those skipped. *)
Definition live_compatible (v : Vector) : bool := bool_decide (v_id v ∈ LIVE_COMPATIBLE_VECTOR_IDS).
Definition from_full_vectors (vs : list Vector) : list Vector * list SkippedVector :=
  (List.filter live_compatible vs,
   map (fun v => {| sk_vector_id := v_id v; sk_reason := "not supported by live substrate" |})
     (List.filter (fun v => negb (live_compatible v)) vs)).

(** The selection of [run]: what is to run and what is skipped. *)
Definition plan (cfg : HarnessConfig) (version : ContractVersion) (vs : list Vector) : list Vector * list SkippedVector :=
  let skips := newer_contract_skips version vs in
  let vs := List.filter (satisfies version) vs in
  let '(vs, skips) :=
    match hc_filter cfg with
    | Some f => (List.filter (fun v => bool_decide (v_id v = f)) vs,
                 List.filter (fun s => bool_decide (sk_vector_id s = f)) skips)
    | None => (vs, skips)
    end in
  let '(vs, skips) :=
    if negb (bool_decide (hc_substrate cfg = Live))
    then (List.filter (fun v => negb (v_live_only v)) vs,
          skips ++ map (fun v => {| sk_vector_id := v_id v; sk_reason := "requires live substrate" |})
                     (List.filter v_live_only vs))
    else (vs, skips) in
  let '(vs, more) := if hc_live_compatible_only cfg then from_full_vectors vs else (vs, []) in
  (vs, skips ++ more).

(** ** The live substrate *)

Definition is_creatable_topic (topic : string) : bool :=
  negb (bool_decide (topic = EmptyString)) && negb (bool_decide (is_Some (strip_prefix "__missing_" topic))).

(** A [BTreeSet<String>] as a [Vec]. *)
Definition to_sorted_set (l : list string) : list string := sort_strings (remove_dups l).

Definition command_topics (c : Command) : list string :=
  match c with
  | Publish topic _ _ | PublishEvent topic _ => [topic]
  | Subscribe topics _ _ => topics
  | _ => []
  end.
Definition all_commands (vs : list Vector) : list Command := map st_command (concat (map v_steps vs)).
Definition topic_names_for_vectors (vs : list Vector) : list string :=
  to_sorted_set (List.filter is_creatable_topic (concat (map command_topics (all_commands vs)))).
Definition queue_group (c : Command) : option string :=
  match c with QueueAcquire _ group _ _ _ => if bool_decide (group = EmptyString) then None else Some group | _ => None end.
Definition queue_groups_for_vectors (vs : list Vector) : list string := to_sorted_set (omap queue_group (all_commands vs)).

Record AlterGroup := { ag_resource_type : Z; ag_group : string; ag_name : string; ag_operation : Z; ag_value : string }.
Record AlterAnswer := { aa_error_code : Z; aa_resource_name : string; aa_error_message : option string }.

(** The broker, its clients, the listeners and the server task. *)
Class LiveLib := {
  temp_dir : result string unit;
  bind_listener : nat -> result string string;
  broker_start : string -> result string string;
  admin_connect : string -> result string unit;
  admin_create_topics : list CreateTopicSpec -> result string unit;
  client_build : string -> result string unit;
  send_alter_configs : list AlterGroup -> result string (list AlterAnswer);
  produce_core_new : string -> result string unit;
  (** The gateway task after the cancellation: not within five seconds, its
      join error, or what [serve] returned. *)
  gateway_task : option (result string (result string unit));
}.

Section Substrate.
  Context `{LiveLib}.

Definition create_topics (bootstrap : string) (names : list string) : result HarnessError unit :=
  if bool_decide (names = []) then Ok ()
  else
    _ ← map_err Admin (admin_connect bootstrap);
    map_err Admin (admin_create_topics
      (map (fun n => {| spec_name := n; spec_partitions := 1; spec_replicas := 1; spec_configs := ∅ |}) names)).

Definition set_share_groups_earliest (bootstrap : string) (groups : list string) : result HarnessError unit :=
  if bool_decide (groups = []) then Ok ()
  else
    _ ← map_err ClientFault (client_build bootstrap);
    response ← map_err ClientFault (send_alter_configs
      (map (fun g => {| ag_resource_type := 32; ag_group := g; ag_name := "share.auto.offset.reset"; ag_operation := 0;
                        ag_value := "earliest" |}) groups));
    match List.find (fun r => negb (aa_error_code r =? 0)) response with
    | Some r => Err (GroupConfig (aa_resource_name r) (aa_error_code r) (default EmptyString (aa_error_message r)))
    | None => Ok ()
    end.

(** The endpoint of the substrate; waiting for the coordinators always ends. *)
Definition boot (topics groups : list string) : result HarnessError string :=
  _ ← map_err Io temp_dir;
  controller ← map_err Io (bind_listener 0);
  bootstrap ← map_err BrokerStart (broker_start controller);
  _ ← create_topics bootstrap topics;
  _ ← set_share_groups_earliest bootstrap groups;
  listen ← map_err Io (bind_listener 1);
  _ ← map_err GatewayInit (produce_core_new bootstrap);
  Ok ("http://" +:+ listen).

Definition shutdown : result HarnessError unit :=
  joined ← ok_or SubstrateTimeout gateway_task;
  served ← map_err GatewayTask joined;
  map_err GatewayServe served.

(** [ConformanceCodec]. *)
Definition ConformanceCodec `{JsonLib} : RecordCodec := {|
  encode := fun _ body => Ok (match body with Raw v => v | Structured json _ => json end);
  decode := fun _ v => Ok {| dec_value := v; dec_schema := None;
                             dec_json := match json_parse v with Some _ => Some v | None => None end |};
|}.

(** ** [Harness::run] *)

Context `{JsonText} `{AdapterProcess}.

Definition run (cfg : HarnessConfig) (load : result VectorError (list Vector)) : result HarnessError RunSummary :=
  version ← discover_adapter_version;
  vs ← map_err Vectors load;
  let '(vs, skips) := plan cfg version vs in
  match hc_substrate cfg with
  | External => run_vectors_with_endpoint 1 vs skips (hc_endpoint cfg)
  | Live =>
      endpoint ← boot (topic_names_for_vectors vs) (queue_groups_for_vectors vs);
      let summary := run_vectors_with_endpoint 1 vs skips endpoint in
      _ ← shutdown;
      summary
  end.
End Substrate.

(** ** [bin/conformance.rs] *)

Definition fault_mode_of (s : string) : result string FaultMode :=
  if bool_decide (s = "none") then Ok NoFault
  else if bool_decide (s = "wrong-publish") then Ok WrongPublish
  else if bool_decide (s = "wrong-configure") then Ok WrongConfigure
  else Err ("unknown mock fault mode: " +:+ s).

(** What is printed, to the error stream and to the output, and the exit. *)
Definition report (debug : Response -> string) (s : RunSummary) : list string * list string * result string unit :=
  let skips := map (fun k => sk_vector_id k +:+ " skipped: " +:+ sk_reason k) (skipped s) in
  if is_success s then
    (skips,
     [if bool_decide (length (skipped s) = 0%nat) then pretty (passed s) +:+ " vectors passed"
      else pretty (passed s) +:+ " vectors passed, " +:+ pretty (length (skipped s)) +:+ " skipped"],
     Ok ())
  else
    (skips ++ map (fun f => vf_vector_id f +:+ " / " +:+ vf_step f +:+ " failed" +:+ of_bytes [newline] +:+ "expected: " +:+ debug (vf_expected f)
                            +:+ of_bytes [newline] +:+ "actual: " +:+ debug (vf_actual f)) (failed s),
     [], Err "conformance failed").

Record Cli := {
  cli_adapter : option string;
  cli_vectors : string;
  cli_filter : option string;
  cli_endpoint : string;
  cli_live_substrate : bool;
  cli_live_compatible_only : bool;
  cli_mock_adapter : bool;
  cli_mock_fault : string;
  cli_mock_contract_minor : Z;
}.

Definition config_of (cli : Cli) : HarnessConfig :=
  {| hc_filter := cli_filter cli; hc_endpoint := cli_endpoint cli;
     hc_substrate := if cli_live_substrate cli then Live else External;
     hc_live_compatible_only := cli_live_compatible_only cli |}.

(** How the binary ends: as a mock adapter, or as the harness of an adapter. *)
Inductive Ended :=
| AsMock (output : Bytes) (e : Exit)
| AsHarness (errors output : list string) (r : result string unit)
| RunFailed (e : HarnessError)
| Misused (m : string).

(** [main]: the vectors are those of the directory, and the processes those of
    the adapter, of the command line. *)
Definition main `{Base64} `{JsonLib} `{LiveLib} `{JsonText} (processes : string -> AdapterProcess)
    (load : string -> result VectorError (list Vector)) (debug : Response -> string) (input : Bytes) (cli : Cli) : Ended :=
  if cli_mock_adapter cli then
    match fault_mode_of (cli_mock_fault cli) with
    | Err m => Misused m
    | Ok fault => let '(out, e) := run_stdio input fault (cli_mock_contract_minor cli) in AsMock out e
    end
  else
    match cli_adapter cli with
    | None => Misused "--adapter is required"
    | Some adapter =>
        match run (H1:=processes adapter) (config_of cli) (load (cli_vectors cli)) with
        | Err e => RunFailed e
        | Ok s => let '(errors, output, r) := report debug s in AsHarness errors output r
        end
    end.

(** The binary exits well exactly when every replayed vector matched. *)
Lemma main_success `{Base64} `{JsonLib} `{LiveLib} `{JsonText} processes load debug input cli adapter s :
  cli_mock_adapter cli = false -> cli_adapter cli = Some adapter ->
  run (H1:=processes adapter) (config_of cli) (load (cli_vectors cli)) = Ok s ->
  exists errors output, main processes load debug input cli = AsHarness errors output (if is_success s then Ok () else Err "conformance failed").
Proof.
  intros Hm Ha Hs. unfold main. rewrite Hm, Ha, Hs. unfold report. destruct (is_success s); by do 2 eexists.
Qed.

(** ** Every vector is accounted for *)

(** Vectors whose last contract version is before the adapter's. *)
Definition expired (version : ContractVersion) (v : Vector) : bool :=
  negb (version_lt version (v_since v)) && match v_until v with Some u => version_lt u version | None => false end.
Definition wanted (cfg : HarnessConfig) (v : Vector) : bool :=
  match hc_filter cfg with Some f => bool_decide (v_id v = f) | None => true end.

(** A version is before a vector's range, in it, or after it. *)
Lemma versions_partition version vs :
  List.filter (satisfies version) vs ++ List.filter (fun v => version_lt version (v_since v)) vs
    ++ List.filter (expired version) vs ≡ₚ vs.
Proof.
  induction vs as [|v vs IH]; [done|]. cbn [List.filter].
  assert (Hthree : (satisfies version v = true /\ version_lt version (v_since v) = false /\ expired version v = false) \/
    (satisfies version v = false /\ version_lt version (v_since v) = true /\ expired version v = false) \/
    (satisfies version v = false /\ version_lt version (v_since v) = false /\ expired version v = true)).
  { unfold satisfies, expired, version_le. destruct (version_lt version (v_since v)); cbn; [tauto|].
    destruct (v_until v) as [u|]; [|tauto]. destruct (version_lt u version); cbn; tauto. }
  destruct Hthree as [(-> & -> & ->)|[(-> & -> & ->)|(-> & -> & ->)]]; cbn [app].
  - by rewrite IH.
  - by rewrite <- Permutation_middle, IH.
  - by rewrite app_assoc, <- Permutation_middle, <- app_assoc, IH.
Qed.

Section Accounts.
  Context (cfg : HarnessConfig) (version : ContractVersion).

(** What is left after the filter, and after the substrate. *)
Lemma plan_ids vs :
  map v_id (plan cfg version vs).1 ++ map sk_vector_id (plan cfg version vs).2
    ≡ₚ map v_id (List.filter (satisfies version) (List.filter (wanted cfg) vs))
       ++ map v_id (List.filter (fun v => version_lt version (v_since v)) (List.filter (wanted cfg) vs)).
Proof.
  unfold plan, wanted. 
  set (newer := fun v => version_lt version (v_since v)).
  assert (Hfilter : exists ids,
    match hc_filter cfg with
    | Some f => (List.filter (fun v => bool_decide (v_id v = f)) (List.filter (satisfies version) vs),
                 List.filter (fun s => bool_decide (sk_vector_id s = f)) (newer_contract_skips version vs))
    | None => (List.filter (satisfies version) vs, newer_contract_skips version vs)
    end = (List.filter (satisfies version) (List.filter (wanted cfg) vs), ids) /\
    map sk_vector_id ids = map v_id (List.filter newer (List.filter (wanted cfg) vs))).
  { unfold wanted. destruct (hc_filter cfg) as [f|].
    - eexists. split; [f_equal; apply filter_swap|]. unfold newer_contract_skips. rewrite filter_map, List.map_map. cbn.
      by rewrite filter_swap.
    - assert (Hid : forall l : list Vector, List.filter (fun _ => true) l = l) by (induction l as [|x l IH]; cbn; [done|by rewrite IH]).
      rewrite !Hid. eexists. split; [done|]. unfold newer_contract_skips. by rewrite List.map_map. }
  destruct Hfilter as (ids & -> & Hids). unfold wanted in Hids. rewrite <- Hids. fold (wanted cfg).
  set (chosen := List.filter (satisfies version) (List.filter (wanted cfg) vs)).
  assert (Hlive : exists chosen' skips',
    (if negb (bool_decide (hc_substrate cfg = Live))
     then (List.filter (fun v => negb (v_live_only v)) chosen,
           ids ++ map (fun v => {| sk_vector_id := v_id v; sk_reason := "requires live substrate" |}) (List.filter v_live_only chosen))
     else (chosen, ids)) = (chosen', skips') /\ map v_id chosen' ++ map sk_vector_id skips' ≡ₚ map v_id chosen ++ map sk_vector_id ids).
  { destruct (negb _); [|by eexists _, _]. eexists _, _. split; [done|]. rewrite map_app, List.map_map. cbn.
    rewrite <- (filter_partition v_live_only chosen) at 3. rewrite map_app. solve_Permutation. }
  destruct Hlive as (chosen' & skips' & -> & Hperm). rewrite <- Hperm.
  destruct (hc_live_compatible_only cfg); cbn; [|by rewrite app_nil_r].
  rewrite map_app, List.map_map. cbn. rewrite <- (filter_partition live_compatible chosen') at 3. rewrite map_app. solve_Permutation.
Qed.

Lemma plan_accounts vs :
  map v_id (plan cfg version vs).1 ++ map sk_vector_id (plan cfg version vs).2
    ++ map v_id (List.filter (expired version) (List.filter (wanted cfg) vs)) ≡ₚ map v_id (List.filter (wanted cfg) vs).
Proof.
  rewrite app_assoc, plan_ids, <- app_assoc, <- !map_app. apply Permutation_map, versions_partition.
Qed.
End Accounts.

(** ** The summary *)

Section Summary.
  Context `{LiveLib} `{JsonText} `{AdapterProcess}.

(** The outcome of each vector, in its own process. *)
Inductive outcomes (endpoint : string) : nat -> list Vector -> list (option VectorFailure) -> Prop :=
| outcomes_nil n : outcomes endpoint n [] []
| outcomes_cons n v vs o os :
    run_vector n v endpoint = Ok o -> outcomes endpoint (S n) vs os -> outcomes endpoint n (v :: vs) (o :: os).

Lemma run_all_outcomes n vs endpoint count failures :
  run_all n vs endpoint = Ok (count, failures) ->
  exists os, outcomes endpoint n vs os /\ failures = omap id os /\ (count + length failures)%nat = length vs.
Proof.
  revert n count failures. induction vs as [|v vs IH]; intros n count failures; cbn [run_all].
  - intros [= <- <-]. exists []. repeat constructor.
  - intros (o & Ho & ([count' failures'] & (os & Hos & -> & Hlen)%IH & Hr)%bind_Ok)%bind_Ok. exists (o :: os).
    split; [by constructor|]. destruct o as [f|]; injection Hr as <- <-; cbn; (split; [done|lia]).
Qed.

Lemma run_parts cfg load summary : run cfg load = Ok summary ->
  exists version vs endpoint, discover_adapter_version = Ok version /\ load = Ok vs /\
    run_vectors_with_endpoint 1 (plan cfg version vs).1 (plan cfg version vs).2 endpoint = Ok summary.
Proof.
  unfold run. intros (version & Hv & (vs & Hvs & Hrun)%bind_Ok)%bind_Ok. destruct load as [vs'|e]; [|done]. injection Hvs as ->.
  destruct (plan cfg version vs) as [chosen skips] eqn:Hp. exists version, vs.
  destruct (hc_substrate cfg).
  - exists (hc_endpoint cfg). by rewrite Hp.
  - apply bind_Ok in Hrun as (endpoint & _ & Hrun). exists endpoint. apply bind_Ok in Hrun as ([] & _ & Hrun). by rewrite Hp.
Qed.

(** A run accounts for every vector that was asked for: each is replayed in a
    process of its own and counted as passed or reported as failed, or is listed
    as skipped, or was retired before the adapter's contract version.  The run
    is a success exactly when every replayed vector matched. *)
Theorem harness_accounts cfg vs summary :
  run cfg (Ok vs) = Ok summary ->
  exists version endpoint os, discover_adapter_version = Ok version /\
    outcomes endpoint 1 (plan cfg version vs).1 os /\ failed summary = omap id os /\
    (passed summary + length (failed summary) + length (skipped summary)
       + length (List.filter (expired version) (List.filter (wanted cfg) vs)) = length (List.filter (wanted cfg) vs))%nat /\
    (is_success summary = true <-> Forall (fun o => o = None) os).
Proof.
  intros (version & vs' & endpoint & Hv & [= <-] & Hrun)%run_parts. exists version, endpoint.
  unfold run_vectors_with_endpoint in Hrun. apply bind_Ok in Hrun as ([count failures] & Hall & [= <-]).
  destruct (run_all_outcomes _ _ _ _ _ Hall) as (os & Hos & -> & Hlen). exists os. cbn.
  split_and!; [done..| |].
  - pose proof (Permutation_length (plan_accounts cfg version vs)) as Hp. rewrite !length_app, !length_map in Hp. lia.
  - unfold is_success. cbn. clear. induction os as [|[f|] os IH]; cbn; rewrite ?Forall_nil, ?Forall_cons; naive_solver.
Qed.
End Summary.

(** ** Judging an adapter *)

(** A process whose loop turns a line into a line; it exits on an error, and
    nobody reads what is then written to it. *)
Definition process_of {A} (start : A) (serve : A -> Bytes -> Exit + (A * Bytes)) : AdapterProcess := {|
  Proc := option A;
  spawn := fun _ => Ok (Some start);
  exchange := fun p l =>
    match p with
    | None => (None, WriteFailed "broken pipe")
    | Some a => match serve a l with inl _ => (None, Line []) | inr (a, out) => (Some a, Line out) end
    end;
|}.

Section Judge.
  Context `{JsonText} {A : Type} (start : A) (serve : A -> Bytes -> Exit + (A * Bytes)).
  Context (answer : A -> Command -> option (A * Response)) (good : A -> Prop).
  Context (Hserve : forall a c, sendable c ->
    match answer a c with
    | None => exists e, serve a (command_line c ++ [newline]) = inl e
    | Some (a', r) => serve a (command_line c ++ [newline]) = inr (a', response_line r ++ [newline])
    end).
  Context (Hgood : forall a c a' r, sendable c -> good a -> answer a c = Some (a', r) -> good a' /\ answer_ok r).
  Context (Hstart : good start).

(** The verdict on an adapter by its answers. *)
Fixpoint judge_steps (id : string) (a : A) (steps : list VectorStep) : result HarnessError (option VectorFailure) :=
  match steps with
  | [] => Ok None
  | s :: steps =>
      '(a, actual) ← ok_or AdapterEof (answer a (st_command s));
      if negb (response_eq actual (st_expect s))
      then Ok (Some {| vf_vector_id := id; vf_step := st_name s; vf_expected := st_expect s; vf_actual := actual |})
      else judge_steps id a steps
  end.
Definition judge (v : Vector) (endpoint : string) : result HarnessError (option VectorFailure) :=
  '(a, hello) ← ok_or AdapterEof (answer start Hello);
  let refused :=
    Ok (Some {| vf_vector_id := v_id v; vf_step := "hello";
                vf_expected := HelloResponse CONTRACT_MAJOR (minor (v_since v)) "<adapter>"; vf_actual := hello |}) in
  match hello with
  | HelloResponse contract_major contract_minor _ =>
      if negb (satisfies {| major := contract_major; minor := contract_minor |} v) then refused
      else
        '(a, configured) ← ok_or AdapterEof (answer a (Configure endpoint None));
        if negb (response_eq configured expected_configuration)
        then Ok (Some {| vf_vector_id := v_id v; vf_step := "configure"; vf_expected := expected_configuration;
                         vf_actual := configured |})
        else judge_steps (v_id v) a (v_steps v)
  | _ => refused
  end.

#[local] Instance process : AdapterProcess := process_of start serve.

Lemma call_answer a c : sendable c -> good a ->
  match answer a c with
  | None => (call (Some a) c).2 = Err AdapterEof
  | Some (a', r) => call (Some a) c = (Some a', Ok r) /\ good a'
  end.
Proof.
  intros Hc Ha. pose proof (Hserve a c Hc) as Hs. unfold call. cbn. destruct (answer a c) as [[a' r]|] eqn:Hr.
  - destruct (Hgood _ _ _ _ Hc Ha Hr) as [Ha' [Hok Hp]]. rewrite Hs. split; [|done]. f_equal.
    pose proof (response_line_read r Hok Hp) as Hread. destruct (response_line r ++ [newline]) eqn:Hl; [by destruct (response_line r)|].
    by rewrite Hread.
  - destruct Hs as [e ->]. done.
Qed.

Lemma run_steps_judged id a steps : good a -> Forall (fun s => sendable (st_command s)) steps ->
  run_steps id (Some a) steps = judge_steps id a steps.
Proof.
  intros Ha Hs. revert a Ha. induction Hs as [|s steps Hs _ IH]; intros a Ha; cbn; [done|].
  pose proof (call_answer a (st_command s) Hs Ha) as Hc. destruct (answer a (st_command s)) as [[a' r]|]; cbn.
  - destruct Hc as [Hc Ha']. rewrite Hc. cbn. destruct (negb _); [done|]. by apply IH.
  - destruct (call _ (st_command s)) as [p o]. cbn in Hc. by rewrite Hc.
Qed.

(** Over the pipes, the harness judges an adapter by its answers. *)
Lemma pipes_judge n v endpoint : Forall (fun s => sendable (st_command s)) (v_steps v) -> run_vector n v endpoint = judge v endpoint.
Proof.
  intros Hv. unfold run_vector, judge. cbn [spawn process process_of mbind result_bind].
  assert (Hh : sendable Hello) by done. assert (Hc : sendable (Configure endpoint None)) by done.
  pose proof (call_answer start Hello Hh Hstart) as Hhello. destruct (answer start Hello) as [[a r]|]; cbn.
  - destruct Hhello as [Hhello Ha]. rewrite Hhello. cbn. destruct r as [cmaj cmin l| | |]; try done.
    destruct (negb _); [done|]. pose proof (call_answer a _ Hc Ha) as Hconf. destruct (answer a _) as [[a' r']|]; cbn.
    + destruct Hconf as [Hconf Ha']. rewrite Hconf. cbn. destruct (negb _); [done|]. by apply run_steps_judged.
    + destruct (call _ (Configure _ _)) as [p o]. cbn in Hconf. by rewrite Hconf.
  - destruct (call _ Hello) as [p o]. cbn in Hhello. by rewrite Hhello.
Qed.
End Judge.

Module Runs.
  Import MockAdapter.Witness.
Definition no_live : LiveLib := {|
  temp_dir := Err "no substrate"; bind_listener := fun _ => Err "no substrate"; broker_start := fun _ => Err "no substrate";
  admin_connect := fun _ => Err "no substrate"; admin_create_topics := fun _ => Err "no substrate";
  client_build := fun _ => Err "no substrate"; send_alter_configs := fun _ => Err "no substrate";
  produce_core_new := fun _ => Err "no substrate"; gateway_task := None |}.
Definition mock_1_0 : AdapterProcess :=
  process_of (with_contract_minor 0 NoFault) (MockAdapter.serve_line (H0:=Apps.parser) (H1:=BitText.text)).

Definition vector (id : string) (since : Z) (until : option Z) (live : bool) (r : Response) : Vector :=
  {| v_id := id; v_since := {| major := 1; minor := since |}; v_until := (fun m => {| major := 1; minor := m |}) <$> until;
     v_live_only := live; v_steps := [{| st_name := "publish"; st_command := Publish "jobs" "v" []; st_expect := r |}] |}.
Definition vectors : list Vector :=
  [vector "passes" 0 None false (published 0 0 false); vector "fails" 0 (Some 0) false (published 0 1 false);
   vector "newer" 1 None false (published 0 0 false); vector "live" 0 None true (published 0 0 false)].
Definition config : HarnessConfig :=
  {| hc_filter := None; hc_endpoint := "mock://gateway"; hc_substrate := External; hc_live_compatible_only := false |}.
Definition summary : RunSummary :=
  {| passed := 1;
     failed := [{| vf_vector_id := "fails"; vf_step := "publish"; vf_expected := published 0 1 false; vf_actual := published 0 0 false |}];
     skipped := [{| sk_vector_id := "newer"; sk_reason := "requires contract 1.1; adapter declares 1.0" |};
                 {| sk_vector_id := "live"; sk_reason := "requires live substrate" |}] |}.

Lemma harness_accounts_witness :
  run (H:=no_live) (H0:=BitText.text) (H1:=mock_1_0) config (Ok vectors) = Ok summary /\
  exists version endpoint os, outcomes (H0:=BitText.text) (H1:=mock_1_0) endpoint 1 (plan config version vectors).1 os /\
    failed summary = omap id os /\ ~ Forall (fun o => o = None) os.
Proof.
  assert (Hrun : run (H:=no_live) (H0:=BitText.text) (H1:=mock_1_0) config (Ok vectors) = Ok summary) by (vm_compute; reflexivity).
  split; [exact Hrun|].
  destruct (harness_accounts (H:=no_live) (H0:=BitText.text) (H1:=mock_1_0) config vectors summary Hrun)
    as (version & endpoint & os & _ & Hos & Hfailed & _ & Hok).
  exists version, endpoint, os. split_and!; [exact Hos|exact Hfailed|]. intros Hall. by apply Hok in Hall.
Defined.
End Runs.
