(* ===== verification/Adapter.v ===== *)
(** * The conformance adapter of the Rust SDK (app-sdk: bin/conformance_adapter.rs)

    The adapter drives the SDK of [Sdk] and [SdkQueue] by the commands of
    [Protocol].  The second half shows that the message ids it prints are read
    back.  [AdapterSim] relates it to the mock adapter of the harness.  Paths are
    under [src/crates/app-sdk/src]. *)

From stdpp Require Import pretty.
From S2P Require Import Prelude.
From S2P Require Import RustStr.
From S2P Require Import RustNum.
From S2P Require Import Connect.
From S2P Require Import Types.
From S2P Require Import Filter.
From S2P Require Import FilterText.
From S2P Require Import Decimal.
From S2P Require Import Streaming.
From S2P Require Import Queue.
From S2P Require Import Sdk.
From S2P Require Import SdkQueue.
From S2P Require Import Protocol.
From S2P Require Import MockAdapter.
From S2P Require Import Harness.

(** ** The modules of the SDK that are gated *)

Definition database_connect (name : string) : result KrabkaError unit := Err (Unimplemented "database" "chapter-f-control-plane").
Definition auth_sign_in (username password : string) : result KrabkaError unit :=
  Err (Unauthenticated "identity APIs are not part of contract v1").
Definition blob_put (key : string) (v : Bytes) : result KrabkaError unit := Err (Unimplemented "blob" "chapter-b-blob-api").
Definition blob_get (key : string) : result KrabkaError Bytes := Err (Unimplemented "blob" "chapter-b-blob-api").

(** ** Translating between the protocol and the SDK *)

Definition adapter_error (e : KrabkaError) : AdapterError :=
  match e with
  | Transport m => with_message KTransport m
  | Unauthenticated m => with_message KUnauthenticated m
  | InvalidArg m => with_message KInvalidArgument m
  | NotFound m => with_message KNotFound m
  | ServerError m => with_message KServerError m
  | Unimplemented module gated_on => unimplemented module gated_on
  end.
Definition error_response (e : KrabkaError) : Response := ErrorResponse (adapter_error e).

Definition adapter_error_value (e : KrabkaError) : Json :=
  AdapterError_to (adapter_error (if bool_decide (e = InvalidArg "record is not acquired by this session")
                                  then InvalidArg "queue message is not acquired" else e)).

Definition encode_headers `{Base64} (hs : list (string * option Bytes)) : list Header :=
  map (fun h => {| h_name := h.1; h_value_b64 := b64_encode <$> h.2 |}) hs.
(** A value that does not decode becomes a null value. *)
Definition decode_headers `{Base64} (hs : list Header) : list (string * option Bytes) :=
  map (fun h => (h_name h, h_value_b64 h ≫= b64_decode)) hs.

(** [rsplitn(3, ':')]: the text before and after the last colon, twice. *)
Fixpoint rsplit_colon (l : Bytes) : option (Bytes * Bytes) :=
  match l with
  | [] => None
  | c :: l =>
      match rsplit_colon l with
      | Some (a, b) => Some (c :: a, b)
      | None => if bool_decide (c = ":"%char) then Some ([], l) else None
      end
  end.
(** [parse::<i32>]. *)
Definition parse_i32 (l : Bytes) : option Z :=
  let '(neg, l) := sign_split l in
  n ← parse_digits l; try_i32 (if neg then - n else n).
Definition parse_message_id (id : string) : option (string * Z * Z) :=
  '(rest, offset) ← rsplit_colon (as_bytes id);
  offset ← parse_i64 offset;
  '(topic, partition) ← rsplit_colon rest;
  partition ← parse_i32 partition;
  if bool_decide (topic = []) then None else Some (of_bytes topic, partition, offset).

Definition queue_renew_entry (id : string) : result KrabkaError SdkQueue.QueueRenewEntry :=
  match parse_message_id id with
  | None => Err (InvalidArg "queue message_id must be topic:partition:offset")
  | Some (topic, partition, offset) => Ok {| re_topic := topic; re_partition := partition; re_offset := offset |}
  end.
Definition queue_ack_entry (e : Protocol.QueueAckEntry) : result KrabkaError SdkQueue.QueueAckEntry :=
  r ← queue_renew_entry (ak_message_id e);
  Ok {| ae_topic := re_topic r; ae_partition := re_partition r; ae_offset := re_offset r;
        ae_ack_type := match ak_ack_type e with Accept => AckAccept | Release => AckRelease | Reject => AckReject end |}.

Definition queue_results (rs : list QueueAckResult) : list Json :=
  map (fun r => let e := kr_entry r in
                JObject [member "message_id" (str_to (re_topic e +:+ ":" +:+ pretty (re_partition e) +:+ ":" +:+ pretty (re_offset e)));
                         member "error" (opt_to adapter_error_value (kr_error r))]) rs.

Definition acquired_message `{Base64} (m : QueueMessage) : Json :=
  JObject [member "message_id" (str_to (message_id m)); member "topic" (str_to (q_topic m));
           member "partition" (int_to (q_partition m)); member "offset" (int_to (q_offset m));
           member "value_b64" (opt_to str_to (b64_encode <$> q_value m));
           member "headers" (list_to Header_to (encode_headers (q_headers m)));
           member "delivery_count" (int_to (q_delivery_count m))].

Definition record_response (r : result KrabkaError Sdk.RecordResult) : Response :=
  match r with
  | Ok r => published (res_partition r) (res_offset r) (res_deduplicated r)
  | Err e => error_response e
  end.

Definition unit_response (r : result KrabkaError unit) : Response :=
  match r with Ok _ => OkResponse (JObject []) | Err e => error_response e end.

(** ** The adapter *)

(** The client with the mock state it shares, and the stream with whether it is
    a live one. *)
Record Adapter := {
  ad_client : option (KrabkaClient * MockState);
  ad_stream : option (bool * list (result KrabkaError Sdk.Inbound));
  ad_next_queue_session_id : Z;
  ad_queue_sessions : gmap string string;
}.
Definition Adapter_default : Adapter :=
  {| ad_client := None; ad_stream := None; ad_next_queue_session_id := 0; ad_queue_sessions := ∅ |}.

Definition set_state (a : Adapter) (c : KrabkaClient) (st : MockState) : Adapter :=
  {| ad_client := Some (c, st); ad_stream := ad_stream a; ad_next_queue_session_id := ad_next_queue_session_id a;
     ad_queue_sessions := ad_queue_sessions a |}.
Definition set_stream (a : Adapter) (s : bool * list (result KrabkaError Sdk.Inbound)) : Adapter :=
  {| ad_client := ad_client a; ad_stream := Some s; ad_next_queue_session_id := ad_next_queue_session_id a;
     ad_queue_sessions := ad_queue_sessions a |}.

(** Sessions have one alias each, so the order of the search does not matter. *)
Definition alias_for_queue_session (a : Adapter) (real : string) : Adapter * string :=
  match List.find (fun e => bool_decide (e.2 = real)) (map_to_list (ad_queue_sessions a)) with
  | Some (alias, _) => (a, alias)
  | None =>
      let n := wrap_u64 (ad_next_queue_session_id a + 1) in
      let alias := session_name n in
      ({| ad_client := ad_client a; ad_stream := ad_stream a; ad_next_queue_session_id := n;
          ad_queue_sessions := <[alias := real]> (ad_queue_sessions a) |}, alias)
  end.

Definition unconfigured (command : string) : Response := error_response (InvalidArg ("configure before " +:+ command)).
Definition no_message : Response := error_response (NotFound "no message available").

Section Adapter.
  Context `{ConnectLib} `{UriLib} `{FloatDisplay} `{JsonLib} `{Base64}.
  Context `{ProstMessage SendRequest} `{ProstMessage SendResponse} `{ProstMessage SubscribeFrame} `{ProstMessage Streaming.Inbound}.
  Context `{ProstMessage QueueAcquireRequest} `{ProstMessage QueueAcquireResponse}.
  Context `{ProstMessage QueueAcknowledgeRequest} `{ProstMessage QueueAcknowledgeResponse}.
  (** The HTTP exchanges of a live client. *)
  Context (send_exchange : Bytes -> result ConnectClientError (Z * Bytes)).
  Context (stream_exchange : Bytes -> result ConnectClientError (Z * list BodyFrame * Bytes)) (open taken : nat -> bool).
  Context (queue_exchange : string -> Bytes -> result ConnectClientError (Z * Bytes)).

Definition configure (a : Adapter) (endpoint : string) (bearer : option string) : Adapter * Response :=
  match build {| b_endpoint := Some endpoint; b_bearer := bearer |} with
  | Ok (c, st) =>
      (set_state a c st, OkResponse (JObject [member "bearer_configured" (JBool (bool_decide (is_Some (Sdk.bearer c))))]))
  | Err e => (a, error_response e)
  end.

Definition handle_publish (a : Adapter) (topic value_b64 : string) (headers : list Header) : option (Adapter * Response) :=
  match ad_client a with
  | None => Some (a, unconfigured "publish")
  | Some (c, st) =>
      match b64_decode value_b64 with
      | None => Some (a, error_response (InvalidArg (b64_error value_b64)))
      | Some v =>
          '(r, st) ← Sdk.publish send_exchange c topic v
            {| po_key := None; po_headers := decode_headers headers; po_partition := None; po_idempotency_key := None |} st;
          Some (set_state a c st, record_response r)
      end
  end.

Definition handle_publish_event (a : Adapter) (topic : string) (e : Protocol.CloudEvent) : option (Adapter * Response) :=
  match ad_client a with
  | None => Some (a, unconfigured "publish_event")
  | Some (c, st) =>
      match b64_decode (ev_data_b64 e) with
      | None => Some (a, error_response (InvalidArg (b64_error (ev_data_b64 e))))
      | Some data =>
          '(r, st) ← Sdk.publish_event send_exchange c topic
            {| ce_id := ev_id e; ce_source := ev_source e; ce_type := ev_type e; ce_specversion := ev_specversion e;
               ce_datacontenttype := ev_datacontenttype e; ce_data := data |} st;
          Some (set_state a c st, record_response r)
      end
  end.

(** [None] is a stream reader out of fuel. *)
Definition handle_subscribe (a : Adapter) (topics : list string) (group : string) (filter : option Protocol.Filter)
    : option (Adapter * Response) :=
  match ad_client a with
  | None => Some (a, unconfigured "subscribe")
  | Some (c, st) =>
      let filter := (fun f => {| path := fl_path f; expected_value := fl_value f |}) <$> filter in
      match Sdk.subscribe stream_exchange open taken c topics group filter st with
      | Ok items => items ← items; Some (set_stream a (negb (is_mock c), items), OkResponse (JObject []))
      | Err e => Some (a, error_response e)
      end
  end.

(** Whether the next item of a live stream is [late] for the timeout; an item of
    a mock stream is there already. *)
Definition handle_next_message (a : Adapter) (late : bool) : Adapter * Response :=
  match ad_stream a with
  | None => (a, error_response (InvalidArg "subscribe before next_message"))
  | Some (live, items) =>
      if live && late then (a, no_message)
      else match items with
           | [] => (a, no_message)
           | i :: items =>
               (set_stream a (live, items),
                match i with
                | Ok m => MessageResponse {| m_topic := i_topic m; m_partition := i_partition m; m_offset := i_offset m;
                                             m_value_b64 := b64_encode (i_value m); m_headers := encode_headers (i_headers m) |}
                | Err e => error_response e
                end)
           end
  end.

Definition handle_acquire (a : Adapter) (topic group : string) (max lock_duration_ms : Z) (session : string) : Adapter * Response :=
  match ad_client a with
  | None => (a, unconfigured "queue_acquire")
  | Some (c, st) =>
      let '(r, st) := acquire_with_session queue_exchange c topic group
        {| ao_max := max; ao_lock_duration_ms := lock_duration_ms; ao_wait_ms := ao_wait_ms AcquireOptions_default |}
        (default session (ad_queue_sessions a !! session)) st in
      let a := set_state a c st in
      match r with
      | Ok r =>
          let '(a, alias) := alias_for_queue_session a (ar_session_id r) in
          (a, OkResponse (JObject [member "session_id" (str_to alias); member "messages" (JArray (map acquired_message (ar_messages r)))]))
      | Err e => (a, error_response e)
      end
  end.

Definition handle_acknowledge (a : Adapter) (session : string) (es : list Protocol.QueueAckEntry) : Adapter * Response :=
  match ad_client a with
  | None => (a, unconfigured "queue_acknowledge")
  | Some (c, st) =>
      match ad_queue_sessions a !! session with
      | None => (a, error_response (InvalidArg "queue session expired; re-acquire"))
      | Some real =>
          match try_map queue_ack_entry es with
          | Err e => (a, error_response e)
          | Ok es =>
              let '(r, st) := acknowledge queue_exchange c real es st in
              (set_state a c st, match r with Ok rs => results (queue_results rs) | Err e => error_response e end)
          end
      end
  end.

Definition handle_renew (a : Adapter) (session : string) (es : list Protocol.QueueRenewEntry) : Response :=
  match ad_client a with
  | None => unconfigured "queue_renew"
  | Some (c, st) =>
      match ad_queue_sessions a !! session with
      | None => error_response (InvalidArg "queue session expired; re-acquire")
      | Some real =>
          match try_map (fun e => queue_renew_entry (rn_message_id e)) es with
          | Err e => error_response e
          | Ok es => match renew queue_exchange c real es st with Ok rs => results (queue_results rs) | Err e => error_response e end
          end
      end
  end.

Definition configured (a : Adapter) (command : string) (r : Response) : Response :=
  match ad_client a with None => unconfigured command | Some _ => r end.

Definition handle (late : bool) (a : Adapter) (c : Command) : option (Adapter * Response) :=
  match c with
  | Hello => Some (a, HelloResponse CONTRACT_MAJOR CONTRACT_MINOR_QUEUE_RPC "rust")
  | Configure endpoint bearer => Some (configure a endpoint bearer)
  | Publish topic value_b64 headers => handle_publish a topic value_b64 headers
  | PublishEvent topic event => handle_publish_event a topic event
  | Subscribe topics group filter => handle_subscribe a topics group filter
  | NextMessage _ => Some (handle_next_message a late)
  | QueueAcquire topic group max lock_duration_ms session => Some (handle_acquire a topic group max lock_duration_ms session)
  | QueueAck _ => Some (a, error_response (Unimplemented "queues" "gateway-sharegroup-rpc"))
  | QueueAcknowledge session entries => Some (handle_acknowledge a session entries)
  | QueueRenew session entries => Some (a, handle_renew a session entries)
  | DbConnect name => Some (a, configured a "db_connect" (unit_response (database_connect name)))
  | AuthSignIn username password => Some (a, configured a "auth_sign_in" (unit_response (auth_sign_in username password)))
  | BlobPut key value_b64 =>
      Some (a, configured a "blob_put"
                 match b64_decode value_b64 with
                 | None => error_response (InvalidArg (b64_error value_b64))
                 | Some v => unit_response (blob_put key v)
                 end)
  | BlobGet key =>
      Some (a, configured a "blob_get"
                 match blob_get key with
                 | Ok v => OkResponse (JObject [member "value_b64" (str_to (b64_encode v))])
                 | Err e => error_response e
                 end)
  end.

(** [main]: a turn of its loop over the lines. *)
Definition serve_line `{JsonText} (late : bool) (a : Adapter) (line : Bytes) : Exit + (Adapter * Bytes) :=
  if negb (is_utf8 line) then inl IoFault
  else match parse_command (trim_end line) with
       | None => inl JsonFault
       | Some c =>
           match handle late a c with
           | None => inl Panicked
           | Some (a, r) => inr (a, response_line r ++ [newline])
           end
       end.
End Adapter.

(** ** Message ids *)

Lemma pretty_i32_reads z : i32_min <= z <= i32_max -> parse_i32 (as_bytes (pretty z)) = Some z.
Proof.
  intros Hz. unfold parse_i32. destruct (pretty_Z_reads z) as [_ Hr]. destruct (sign_split _) as [neg l].
  destruct Hr as (n & -> & Hn). cbn. rewrite Hn. by apply try_range_Some.
Qed.

Lemma rsplit_none l : ":"%char ∉ l -> rsplit_colon l = None.
Proof.
  induction l as [|c l IH]; intros Hl; [done|]. apply not_elem_of_cons in Hl as [Hc Hl]. cbn. rewrite IH by done.
  by rewrite bool_decide_eq_false_2.
Qed.

Lemma rsplit_last a b : ":"%char ∉ b -> rsplit_colon (a ++ ":"%char :: b) = Some (a, b).
Proof. intros Hb. induction a as [|c a IH]; cbn; [by rewrite rsplit_none|]. by rewrite IH. Qed.

Definition id_of (topic : string) (partition offset : Z) : string := topic +:+ ":" +:+ pretty partition +:+ ":" +:+ pretty offset.

Lemma message_id_reads topic p o :
  topic <> EmptyString -> i32_min <= p <= i32_max -> i64_min <= o <= i64_max -> parse_message_id (id_of topic p o) = Some (topic, p, o).
Proof.
  intros Ht Hp Ho. unfold parse_message_id, id_of. rewrite !as_bytes_app. cbn [as_bytes list_ascii_of_string].
  rewrite !app_assoc. rewrite <- (app_assoc _ [":"%char] (as_bytes (pretty o))). cbn [app]. rewrite rsplit_last by apply pretty_Z_reads. cbn [mbind option_bind].
  rewrite pretty_i64_reads by done. cbn [mbind option_bind].
  rewrite <- (app_assoc _ [":"%char] (as_bytes (pretty p))). cbn [app]. rewrite rsplit_last by apply pretty_Z_reads. cbn [mbind option_bind].
  rewrite pretty_i32_reads by done. cbn [mbind option_bind]. rewrite of_as_bytes. rewrite bool_decide_eq_false_2; [done|].
  intros He. apply Ht. by rewrite <- (of_as_bytes topic), He.
Qed.

Lemma id_of_inj t p o t' p' o' :
  t <> EmptyString -> t' <> EmptyString -> i32_min <= p <= i32_max -> i32_min <= p' <= i32_max ->
  i64_min <= o <= i64_max -> i64_min <= o' <= i64_max -> id_of t p o = id_of t' p' o' -> (t, p, o) = (t', p', o').
Proof. intros. assert (Some (t, p, o) = Some (t', p', o')) as [=]; [|congruence]. rewrite <- !message_id_reads by done. by f_equal. Qed.
