(* ===== verification/AdapterSim.v ===== *)
(** * The SDK's adapter and the mock adapter agree

    [Adapter] over the in-memory backend of [Sdk] and [SdkQueue], related to
    [MockAdapter]: the mock adapter's messages are a view of the backend's
    messages and queue states, and its sessions those of the backend under their
    aliases.  Every command both take keeps the relation and gets the same
    answer, so the harness passes the one where it passes the other. *)

From stdpp Require Import pretty.
From S2P Require Import Prelude.
From S2P Require Import RustStr.
From S2P Require Import RustNum.
From S2P Require Import Connect.
From S2P Require Import Types.
From S2P Require Import Filter.
From S2P Require Import FilterText.
From S2P Require Import Decimal.
From S2P Require Import Streaming.
From S2P Require Import Queue.
From S2P Require Import Sdk.
From S2P Require Import SdkQueue.
From S2P Require Import Protocol.
From S2P Require Import MockAdapter.
From S2P Require Import Harness.
From S2P Require Import Adapter.

(** ** The view of the backend *)

(** The alias of a session of the backend is its name without the prefix. *)
Definition real_name (alias : string) : string := "mock-" +:+ alias.
Definition alias_of (real : string) : string := default real (strip_prefix "mock-" real).

Definition state_view (q : MockQueueMessageState) : QueueDeliveryState :=
  {| ds_state := match disposition q with
                 | Available => QAvailable | Acquired _ => QAcquired | Accepted => QAccepted | Rejected => QRejected
                 end;
     ds_session_id := match disposition q with Acquired o => Some (alias_of o) | _ => None end;
     ds_delivery_count := delivery_count q |}.

(** The states of one message, by group. *)
Definition states_of (l : list MockQueueMessageState) (d : MockQueueDelivery) : gmap string QueueDeliveryState :=
  list_to_map (omap (fun q => if bool_decide (qs_delivery q = d) then Some (qs_group q, state_view q) else None) l).

Section View.
  Context `{Base64}.

Definition view (l : list MockQueueMessageState) (x : MockMessage) : StoredMessage :=
  {| sm_topic := mm_topic x; sm_partition := mm_partition x; sm_offset := mm_offset x; sm_value_b64 := b64_encode (mm_value x);
     sm_headers := encode_headers (mm_headers x); sm_queue_states := states_of l (delivery_of x) |}.

Lemma states_of_lookup l d g : states_of l d !! g = state_view <$> state_of l g d.
Proof.
  unfold states_of. induction l as [|q l IH]; [done|]. cbn [omap list_omap]. rewrite state_of_cons. unfold of_key.
  destruct (bool_decide_reflect (qs_delivery q = d)) as [Hd|Hd].
  - cbn [list_to_map foldr fst snd]. destruct (bool_decide_reflect (qs_group q = g)) as [->|Hg]; cbn [andb].
    + by rewrite lookup_insert_eq.
    + by rewrite lookup_insert_ne.
  - by rewrite andb_false_r.
Qed.

Lemma alias_real a : alias_of (real_name a) = a.
Proof. unfold alias_of, real_name. by rewrite strip_prefix_app. Qed.

Lemma real_alias_inj a b : real_name a = real_name b -> a = b.
Proof. intros Hab. by rewrite <- (alias_real a), Hab, alias_real. Qed.

Lemma mock_name n : mock_session_name n = real_name (session_name (Z.of_nat n)).
Proof. done. Qed.

(** *** Acquiring *)

Definition free (l : list MockQueueMessageState) (topic group : string) (x : MockMessage) : bool :=
  bool_decide (mm_topic x = topic) && mock_message_is_available l group x.

Lemma available_view l t g x : available t g (view l x) = free l t g x.
Proof.
  unfold available, free, mock_message_is_available. cbn. rewrite states_of_lookup.
  destruct (state_of l g (delivery_of x)) as [q|]; [|done]. cbn. f_equal. destruct (disposition q); by case_bool_decide.
Qed.

(** The messages after an acquire of those in [ds], and what it returns. *)
Lemma acquire_messages_view l s t g n ms :
  NoDup (map delivery_of ms) ->
  acquire_messages s t g n (map (view l) ms) =
    (map (fun x => if bool_decide (delivery_of x ∈ map delivery_of (take n (List.filter (free l t g) ms)))
                   then set_queue_state (view l x) g (acquired s g (view l x)) else view l x) ms,
     map (fun x => acquired_json (view l x) (acquired s g (view l x))) (take n (List.filter (free l t g) ms))).
Proof.
  revert n. induction ms as [|x ms IH]; intros n Hnd; [by destruct n|]. cbn [map] in Hnd. apply NoDup_cons in Hnd as [Hx Hnd].
  destruct n as [|n].
  { cbn. f_equal. }
  cbn [map acquire_messages List.filter]. rewrite available_view. destruct (free l t g x) eqn:Hf.
  - rewrite IH by done. cbn [take map]. f_equal. rewrite bool_decide_true by (by left). f_equal. apply List.map_ext_in.
    intros y Hy%list_elem_of_In. assert (delivery_of y <> delivery_of x) as Hne.
    { intros Heq. apply Hx. rewrite <- Heq. by apply (list_elem_of_fmap_2 delivery_of). }
    erewrite (bool_decide_ext (delivery_of y ∈ delivery_of x :: _)); [done|]. rewrite elem_of_cons. naive_solver.
  - rewrite IH by done. cbn [map]. f_equal. rewrite bool_decide_false; [done|]. intros Hin.
    apply list_elem_of_fmap in Hin as (y & Hxy & (i & Hy%list_elem_of_lookup_2 & _)%elem_of_take).
    apply list_elem_of_In, List.filter_In in Hy as [Hy _]. apply Hx. rewrite Hxy.
    apply (list_elem_of_fmap_2 delivery_of). by apply list_elem_of_In.
Qed.

Lemma lease_view real g l x : delivery_count (current g (delivery_of x) l) < i32_max -> 0 <= delivery_count (current g (delivery_of x) l) ->
  acquired (alias_of real) g (view l x) = state_view (lease real (current g (delivery_of x) l)).
Proof.
  intros Hc H0. unfold acquired, state_view, lease, current in *. cbn. rewrite states_of_lookup.
  destruct (state_of l g (delivery_of x)) as [q|]; cbn in *; f_equal; unfold i32_max, u32_max in *; lia.
Qed.

(** A view of changed states. *)
Lemma view_update l l' x g q :
  (forall g', state_of l' g' (delivery_of x) = if bool_decide (g' = g) then Some q else state_of l g' (delivery_of x)) ->
  set_queue_state (view l x) g (state_view q) = view l' x.
Proof.
  intros Hl. unfold set_queue_state, view. cbn. f_equal. apply map_eq. intros g'. rewrite states_of_lookup, Hl.
  destruct (bool_decide_reflect (g' = g)) as [->|Hne]; [by rewrite lookup_insert_eq|]. rewrite lookup_insert_ne by done.
  by rewrite states_of_lookup.
Qed.

Lemma view_same l l' x : (forall g, state_of l' g (delivery_of x) = state_of l g (delivery_of x)) -> view l x = view l' x.
Proof. intros Hl. unfold view. f_equal. apply map_eq. intros g. by rewrite !states_of_lookup, Hl. Qed.

Lemma acquired_json_view l x q :
  acquired_json (view l x) (state_view q) = acquired_message (queue_message_from_mock x (delivery_count q)).
Proof. done. Qed.

(** *** Settling *)

(** Coordinates that a message id spells. *)
Definition spelled (d : MockQueueDelivery) : Prop :=
  qd_topic d <> EmptyString /\ i32_min <= qd_partition d <= i32_max /\ i64_min <= qd_offset d <= i64_max.
Definition delivery_id (d : MockQueueDelivery) : string := id_of (qd_topic d) (qd_partition d) (qd_offset d).

Lemma delivery_id_inj d d' : spelled d -> spelled d' -> delivery_id d = delivery_id d' -> d = d'.
Proof.
  intros (? & ? & ?) (? & ? & ?) Hid. apply id_of_inj in Hid; [|done..]. destruct d, d'. cbn in *. congruence.
Qed.

Lemma queue_state_mut_view f g s d l ms :
  Forall (fun x => spelled (delivery_of x)) ms -> NoDup (map delivery_of ms) -> spelled d ->
  queue_state_mut f g s (delivery_id d) (map (view l) ms) =
    if bool_decide (d ∈ map delivery_of ms) then
      match state_of l g d with
      | Some q =>
          if holds s (state_view q)
          then Some (map (fun x => if bool_decide (delivery_of x = d) then set_queue_state (view l x) g (f (state_view q)) else view l x) ms)
          else None
      | None => None
      end
    else None.
Proof.
  intros Hms. induction Hms as [|x ms Hx Hms IH]; intros Hnd Hd; [by rewrite bool_decide_false by apply not_elem_of_nil|].
  cbn [map] in *. apply NoDup_cons in Hnd as [Hnx Hnd]. cbn [queue_state_mut].
  change (queue_message_id (view l x)) with (delivery_id (delivery_of x)).
  destruct (bool_decide_reflect (delivery_id (delivery_of x) = delivery_id d)) as [Hid|Hid].
  - apply delivery_id_inj in Hid; [|done..]. subst d. rewrite bool_decide_true by (by left). cbn. rewrite states_of_lookup.
    destruct (state_of l g (delivery_of x)) as [q|]; [|done]. cbn. destruct (holds s (state_view q)); [|done]. f_equal.
    rewrite bool_decide_true by done. f_equal. apply List.map_ext_in. intros y Hy%list_elem_of_In.
    rewrite bool_decide_false; [done|]. intros Heq. apply Hnx. rewrite <- Heq. by apply (list_elem_of_fmap_2 delivery_of).
  - rewrite IH by done. assert (delivery_of x <> d) as Hne by (intros <-; done).
    erewrite (bool_decide_ext (d ∈ delivery_of x :: _) (d ∈ map delivery_of ms)) by (rewrite elem_of_cons; naive_solver).
    case_bool_decide; [|done]. destruct (state_of l g d) as [q|]; [|done]. destruct (holds s (state_view q)); [|done]. cbn.
    by rewrite (bool_decide_false (delivery_of x = d)).
Qed.

Lemma holds_view alias q :
  (forall o, disposition q = Acquired o -> exists a, o = real_name a) ->
  holds alias (state_view q) = bool_decide (disposition q = Acquired (real_name alias)).
Proof.
  intros Ho. unfold holds, state_view. cbn. destruct (disposition q) as [|o| |]; try done.
  destruct (Ho o eq_refl) as [a ->]. rewrite alias_real. cbn. apply bool_decide_ext. split; [by intros [= ->]|].
  intros Heq. by assert (real_name a = real_name alias) as ->%real_alias_inj by congruence.
Qed.

Lemma settled_view t q o : disposition q = Acquired o ->
  settled t (state_view q) = state_view (with_disposition q (verdict (match t with Accept => AckAccept | Release => AckRelease | Reject => AckReject end))).
Proof. by destruct t. Qed.

(** States belong to messages, and are held by sessions of the backend. *)
Record states_ok (ms : list MockMessage) (l : list MockQueueMessageState) : Prop := {
  sk_keys : NoDup (map key_of l);
  sk_known : forall g d q, state_of l g d = Some q -> d ∈ map delivery_of ms;
  sk_owners : forall g d q o, state_of l g d = Some q -> disposition q = Acquired o -> exists a, o = real_name a;
}.

Lemma settle_view alias g d t v l ms :
  Forall (fun x => spelled (delivery_of x)) ms -> NoDup (map delivery_of ms) -> spelled d -> states_ok ms l ->
  v = verdict (match t with Accept => AckAccept | Release => AckRelease | Reject => AckReject end) ->
  queue_state_mut (settled t) g alias (delivery_id d) (map (view l) ms) =
    (fun l' => map (view l') ms) <$> settle (real_name alias) g d v l.
Proof.
  intros Hms Hnd Hd Hok ->. rewrite queue_state_mut_view by done. destruct (settle _ _ _ _ l) as [l'|] eqn:Hs.
  - apply settle_Some in Hs as (q & Hq & Hheld & _ & Hl'); [|apply Hok].
    rewrite bool_decide_true by (by eapply sk_known). rewrite Hq, holds_view by (intros o; by apply (sk_owners _ _ Hok _ _ _ _ Hq)).
    rewrite bool_decide_true by done. cbn. f_equal. apply List.map_ext. intros x. case_bool_decide as Hx.
    + rewrite (settled_view _ _ _ Hheld). apply view_update. intros g'. rewrite Hl', Hx.
      by rewrite (bool_decide_ext ((g', d) = (g, d)) (g' = g)) by naive_solver.
    + apply view_same. intros g'. rewrite Hl'. by rewrite bool_decide_false by congruence.
  - cbn. case_bool_decide; [|done]. destruct (state_of l g d) as [q|] eqn:Hq; [|done].
    rewrite holds_view by (intros o; by apply (sk_owners _ _ Hok _ _ _ _ Hq)).
    rewrite bool_decide_false; [done|]. by apply (settle_None _ _ _ _ _ _ Hs).
Qed.

Lemma settle_keeps real g d v l l' ms :
  states_ok ms l -> (forall o, v <> Acquired o) -> settle real g d v l = Some l' -> states_ok ms l'.
Proof.
  intros Hok Hv (q & Hq & Hheld & Hk & Hl')%settle_Some; [|apply Hok]. split.
  - rewrite Hk. apply Hok.
  - intros g' d' q'. rewrite Hl'. case_bool_decide as Heq; [|apply Hok]. injection Heq as -> ->. intros _. by eapply sk_known.
  - intros g' d' q' o. rewrite Hl'. case_bool_decide as Heq; [|apply Hok]. intros [= <-]. cbn. intros Ho. by destruct (Hv o).
Qed.

(** *** Entries *)

Definition sdk_type (t : QueueAckType) : SdkQueue.QueueAckType :=
  match t with Accept => AckAccept | Release => AckRelease | Reject => AckReject end.
Definition proto_ack (p : MockQueueDelivery * QueueAckType) : Protocol.QueueAckEntry :=
  {| ak_message_id := delivery_id p.1; ak_ack_type := p.2 |}.
Definition sdk_ack (p : MockQueueDelivery * QueueAckType) : SdkQueue.QueueAckEntry :=
  {| ae_topic := qd_topic p.1; ae_partition := qd_partition p.1; ae_offset := qd_offset p.1; ae_ack_type := sdk_type p.2 |}.
Definition proto_renew (d : MockQueueDelivery) : Protocol.QueueRenewEntry := {| rn_message_id := delivery_id d |}.
Definition sdk_renew (d : MockQueueDelivery) : SdkQueue.QueueRenewEntry :=
  {| re_topic := qd_topic d; re_partition := qd_partition d; re_offset := qd_offset d |}.

(** The entries whose ids spell coordinates. *)
Definition canonical (id : string) : Prop := exists d, spelled d /\ id = delivery_id d.

Lemma renew_entry_reads d : spelled d -> queue_renew_entry (delivery_id d) = Ok (sdk_renew d).
Proof. intros (Ht & Hp & Ho). unfold queue_renew_entry, delivery_id. by rewrite message_id_reads. Qed.

Lemma acks_canonical es : Forall (fun e => canonical (ak_message_id e)) es ->
  exists ps, es = map proto_ack ps /\ Forall (fun p => spelled p.1) ps /\ try_map queue_ack_entry es = Ok (map sdk_ack ps).
Proof.
  induction 1 as [|e es (d & Hd & He) _ (ps & -> & Hps & Hm)]; [by exists []|]. exists ((d, ak_ack_type e) :: ps).
  destruct e as [i t]. cbn in He. subst i. split_and!; [done|by constructor|]. cbn [try_map]. rewrite Hm. unfold queue_ack_entry. cbn.
  by rewrite renew_entry_reads.
Qed.

Lemma renews_canonical es : Forall (fun e => canonical (rn_message_id e)) es ->
  exists ds, es = map proto_renew ds /\ Forall spelled ds /\
    try_map (fun e => queue_renew_entry (rn_message_id e)) es = Ok (map sdk_renew ds).
Proof.
  induction 1 as [|e es (d & Hd & He) _ (ds & -> & Hds & Hm)]; [by exists []|]. exists (d :: ds).
  destruct e as [i]. cbn in He. subst i. split_and!; [done|by constructor|]. cbn [try_map rn_message_id]. rewrite Hm.
  by rewrite renew_entry_reads.
Qed.

Lemma delivery_of_sdk p : delivery_of_ack (sdk_ack p) = p.1.
Proof. by destruct p as [[] ?]. Qed.

Lemma counts_settle real g d v l l' n :
  NoDup (map key_of l) -> settle real g d v l = Some l' ->
  (forall g d q, state_of l g d = Some q -> 0 <= delivery_count q <= n) ->
  forall g d q, state_of l' g d = Some q -> 0 <= delivery_count q <= n.
Proof.
  intros Hnd (q & Hq & _ & _ & Hl')%settle_Some Hc g' d' q'; [|done]. rewrite Hl'. case_bool_decide; [|apply Hc].
  intros [= <-]. exact (Hc _ _ _ Hq).
Qed.

Lemma acks_view alias g l ms ps n :
  Forall (fun x => spelled (delivery_of x)) ms -> NoDup (map delivery_of ms) -> Forall (fun p => spelled p.1) ps -> states_ok ms l ->
  (forall g d q, state_of l g d = Some q -> 0 <= delivery_count q <= n) ->
  let r := acknowledge_entries (real_name alias) g l (map sdk_ack ps) in
  ack_results g alias (map (view l) ms) (map proto_ack ps) = (map (view r.1) ms, queue_results r.2) /\ states_ok ms r.1 /\
  (forall g d q, state_of r.1 g d = Some q -> 0 <= delivery_count q <= n).
Proof.
  intros Hms Hnd Hps. revert l. induction Hps as [|p ps Hp _ IH]; intros l Hok Hc; [done|]. cbn [map acknowledge_entries ack_results].
  cbn [proto_ack ak_message_id ak_ack_type]. rewrite delivery_of_sdk.
  pose proof (settle_view alias g p.1 p.2 (verdict (sdk_type p.2)) l ms Hms Hnd Hp Hok ltac:(by destruct p as [? []])) as Hset.
  change (ae_ack_type (sdk_ack p)) with (sdk_type p.2). rewrite Hset.
  destruct (settle _ _ _ _ l) as [l'|] eqn:Hs; cbn [fmap option_fmap option_map default id]; unfold id.
  - assert (states_ok ms l') as Hok'. { eapply settle_keeps; [exact Hok| |exact Hs]. intros o. apply verdict_released. }
    specialize (IH l' Hok' (counts_settle _ _ _ _ _ _ _ (sk_keys _ _ Hok) Hs Hc)).
    destruct (acknowledge_entries _ _ l' _) as [l2 rs]. cbn in IH. destruct IH as (IH & Hok2 & Hc2). rewrite IH. cbn. split; [|done].
    f_equal.
  - specialize (IH l Hok Hc). destruct (acknowledge_entries _ _ l _) as [l2 rs]. cbn in IH. destruct IH as (IH & Hok2 & Hc2).
    rewrite IH. cbn. split; [|done]. f_equal.
Qed.

(** A session holds a message when it could settle it. *)
Lemma held_settle real g d l v : existsb (held_by real g d) l = bool_decide (is_Some (settle real g d v l)).
Proof.
  induction l as [|q l IH]; [done|]. cbn [existsb settle]. destruct (held_by real g d q); cbn [orb]; [by rewrite bool_decide_true|].
  rewrite IH. apply bool_decide_ext. by rewrite fmap_is_Some.
Qed.

Lemma renews_view alias g l ms ds :
  Forall (fun x => spelled (delivery_of x)) ms -> NoDup (map delivery_of ms) -> Forall spelled ds -> states_ok ms l ->
  map (fun e => entry_result (rn_message_id e) (bool_decide (is_Some (queue_state_mut id g alias (rn_message_id e) (map (view l) ms)))))
    (map proto_renew ds) =
  queue_results (map (fun e => if existsb (held_by (real_name alias) g (delivery_of_renew e)) l
                               then {| kr_entry := e; kr_error := None |}
                               else queue_result_error e "queue message is not acquired") (map sdk_renew ds)).
Proof.
  intros Hms Hnd Hds Hok. unfold queue_results. rewrite !List.map_map. apply List.map_ext_in. intros d Hd%list_elem_of_In.
  rewrite Forall_forall in Hds. specialize (Hds d Hd). cbn [proto_renew rn_message_id].
  assert (Heq : bool_decide (is_Some (queue_state_mut id g alias (delivery_id d) (map (view l) ms)))
                = existsb (held_by (real_name alias) g d) l).
  { rewrite (held_settle _ _ _ _ Accepted). apply bool_decide_ext.
    pose proof (settle_view alias g d Accept Accepted l ms Hms Hnd Hds Hok eq_refl) as Hs. rewrite queue_state_mut_view in Hs |- * by done.
    rewrite <- (fmap_is_Some (fun l' => map (view l') ms)), <- Hs. case_bool_decide; [|done]. destruct (state_of l g d); [|done].
    destruct (holds _ _); [|done]. split; by eexists. }
  rewrite Heq. replace (delivery_of_renew (sdk_renew d)) with d by (by destruct d).
  destruct (existsb _ l); by destruct d.
Qed.
End View.

(** ** The relation *)

Definition session_view (s : MockQueueSession) : QueueSession :=
  {| se_topic := ms_topic s; se_group := ms_group s; se_max_messages := ms_max_messages s |}.

Section Simulation.
  Context `{ConnectLib} `{UriLib} `{FloatDisplay} `{JsonLib} `{Base64} `{!Base64Laws}.
  Context `{ProstMessage SendRequest} `{ProstMessage SendResponse} `{ProstMessage SubscribeFrame} `{ProstMessage Streaming.Inbound}.
  Context `{ProstMessage QueueAcquireRequest} `{ProstMessage QueueAcquireResponse}.
  Context `{ProstMessage QueueAcknowledgeRequest} `{ProstMessage QueueAcknowledgeResponse}.
  Context (send_exchange : Bytes -> result ConnectClientError (Z * Bytes)).
  Context (stream_exchange : Bytes -> result ConnectClientError (Z * list BodyFrame * Bytes)) (open taken : nat -> bool).
  Context (queue_exchange : string -> Bytes -> result ConnectClientError (Z * Bytes)) (late : bool).

Definition sdk_handle : Adapter -> Command -> option (Adapter * Response) :=
  Adapter.handle send_exchange stream_exchange open taken queue_exchange late.

(** The stream holds what the subscription has still to deliver. *)
Definition stream_linked (st : MockState) (a : Adapter) (m : MockAdapter) : Prop :=
  match a_subscription m, ad_stream a with
  | None, None => True
  | Some s, Some (live, items) =>
      live = false /\ (su_next_index s <= length (messages st))%nat /\
      items = map (fun x => Ok (inbound_from_mock x))
                (List.filter (fun x => selects s (view [] x)) (drop (su_next_index s) (messages st)))
  | _, _ => False
  end.

(** After [k] commands; [stale] when something was published since the last
    subscription, whose stream does not see it. *)
Record linked (k : Z) (stale : bool) (c : KrabkaClient) (st : MockState) (a : Adapter) (m : MockAdapter) : Prop := {
  lk_client : ad_client a = Some (c, st);
  lk_mock : is_mock c = true;
  lk_endpoint : a_endpoint m = endpoint c;
  lk_fault : a_fault_mode m = NoFault;
  lk_minor : a_contract_minor m = CONTRACT_MINOR_QUEUE_RPC;
  lk_ok : queue_ok st;
  lk_known : forall g d q, state_of (queue_states st) g d = Some q -> d ∈ map delivery_of (messages st);
  lk_messages : a_messages m = map (view (queue_states st)) (messages st);
  lk_named : Forall (fun x => spelled (delivery_of x)) (messages st);
  lk_length : Z.of_nat (length (messages st)) <= k;
  lk_counts : forall g d q, state_of (queue_states st) g d = Some q -> 0 <= delivery_count q <= k;
  lk_sessions : Z.of_nat (length (queue_sessions st)) <= k;
  lk_mock_sessions : forall id, a_queue_sessions m !! id = session_view <$> find_session (queue_sessions st) (real_name id);
  lk_aliases : forall id, ad_queue_sessions a !! id = (fun _ => real_name id) <$> find_session (queue_sessions st) (real_name id);
  lk_next : a_next_session_id m = Z.of_nat (length (queue_sessions st)) + 1;
  lk_next_alias : ad_next_queue_session_id a = Z.of_nat (length (queue_sessions st));
  lk_stream : stale = false -> stream_linked st a m;
}.

Lemma find_named st id s : queue_ok st -> find_session (queue_sessions st) id = Some s -> exists a, id = real_name a.
Proof.
  intros Hok. unfold find_session. intros [Hin Hid%bool_decide_eq_true]%List.find_some.
  apply list_elem_of_In, list_elem_of_lookup in Hin as [i Hi]. exists (session_name (Z.of_nat (i + 1))).
  by rewrite <- Hid, (ok_names st Hok i s Hi).
Qed.

Lemma linked_states k stale c st a m : linked k stale c st a m -> states_ok (messages st) (queue_states st).
Proof.
  intros Hl. split; [apply Hl|apply Hl|]. intros g d q o Hq Ho.
  destruct (ok_owners st (lk_ok _ _ _ _ _ _ Hl) _ _ _ _ Hq Ho) as (s & Hs & _). eapply find_named; [apply Hl|exact Hs].
Qed.

Lemma linked_nodup k stale c st a m : linked k stale c st a m -> NoDup (map delivery_of (messages st)).
Proof. intros Hl. apply log_coordinates, Hl. Qed.

(** A command that changes nothing. *)
Lemma linked_later k k' stale c st a m : k <= k' -> linked k stale c st a m -> linked k' stale c st a m.
Proof.
  intros Hk []. constructor; try done; try lia. intros g d q Hq. specialize (lk_counts0 g d q Hq). lia.
Qed.

Lemma mock_reachable c : is_mock c = true -> strip_prefix "unreachable://" (endpoint c) = None.
Proof.
  unfold is_mock, has_scheme. intros [t Ht]%bool_decide_eq_true. apply strip_prefix_Some in Ht as ->. done.
Qed.

(** *** Publishing *)

Definition headers_ok (hs : list Header) : Prop := Forall (fun h => forall v, h_value_b64 h = Some v -> is_Some (b64_decode v)) hs.

Lemma headers_encoded hs : headers_ok hs -> encode_headers (decode_headers hs) = hs.
Proof.
  unfold encode_headers, decode_headers. induction 1 as [|[n v] hs Hh _ IH]; [done|]. cbn. rewrite IH. do 2 f_equal.
  destruct v as [v|]; [|done]. cbn in *. destruct (Hh v eq_refl) as [w Hw]. rewrite Hw. cbn. f_equal. by apply b64_encode_decode.
Qed.

Lemma fresh_view st x : (forall g d q, state_of (queue_states st) g d = Some q -> d ∈ map delivery_of (messages st)) ->
  NoDup (map delivery_of (messages st ++ [x])) -> states_of (queue_states st) (delivery_of x) = ∅.
Proof.
  intros Hk Hnd. apply map_eq. intros g. rewrite states_of_lookup, lookup_empty. destruct (state_of _ g (delivery_of x)) as [q|] eqn:Hq; [|done].
  apply Hk in Hq. rewrite map_app in Hnd. apply NoDup_app in Hnd as (_ & Hnd & _). destruct (Hnd _ Hq). by left.
Qed.

(** One more message. *)
Definition stored (x : MockMessage) : StoredMessage :=
  {| sm_topic := mm_topic x; sm_partition := mm_partition x; sm_offset := mm_offset x; sm_value_b64 := b64_encode (mm_value x);
     sm_headers := encode_headers (mm_headers x); sm_queue_states := ∅ |}.

Lemma linked_append k stale c st a m x :
  linked k stale c st a m -> log_ok (messages st ++ [x]) -> spelled (delivery_of x) ->
  let st' := {| messages := messages st ++ [x]; queue_sessions := queue_sessions st; queue_states := queue_states st |} in
  linked (k + 1) true c st' (set_state a c st') (set_messages m (a_messages m ++ [stored x])).
Proof.
  intros Hl Hlog Hx. apply linked_later with (k' := k + 1) in Hl as Hl'; [|lia]. destruct Hl'. constructor; cbn; try done.
  - destruct lk_ok0. by constructor.
  - intros g d q Hq. rewrite map_app. apply elem_of_app. left. by eapply lk_known0.
  - rewrite lk_messages0, map_app. f_equal. cbn. f_equal. unfold stored, view. f_equal. symmetry.
    apply fresh_view; [done|]. by apply log_coordinates.
  - apply Forall_app. split; [done|]. by constructor.
  - rewrite length_app. cbn. pose proof (lk_length _ _ _ _ _ _ Hl). lia.
Qed.

Lemma linked_stale k stale c st a m : linked k stale c st a m -> linked k true c st a m.
Proof. intros []. by constructor. Qed.
Lemma set_state_same k stale c st a m : linked k stale c st a m -> set_state a c st = a.
Proof. intros Hl. unfold set_state. rewrite <- (lk_client _ _ _ _ _ _ Hl). by destruct a. Qed.

Lemma publish_linked k stale c st a m topic v hs :
  linked k stale c st a m -> k < i32_max ->
  exists r st' m', publish_mock topic v {| po_key := None; po_headers := hs; po_partition := None; po_idempotency_key := None |} st = Some (r, st') /\
    MockAdapter.publish m topic (b64_encode v) (encode_headers hs) = Some (m', record_response r) /\
    linked (k + 1) true c st' (set_state a c st') m'.
Proof.
  intros Hl Hk. set (o := {| po_key := _ |}). unfold MockAdapter.publish. rewrite (lk_fault _ _ _ _ _ _ Hl), (lk_endpoint _ _ _ _ _ _ Hl).
  rewrite mock_reachable by apply Hl. rewrite !(bool_decide_eq_false_2 (_ = WrongPublish)), !(bool_decide_eq_false_2 (is_Some None)) by (try apply is_Some_None; done).
  assert (Hsame : linked (k + 1) true c st (set_state a c st) m).
  { rewrite (set_state_same _ _ _ _ _ _ Hl). eapply linked_stale, linked_later; [|exact Hl]. lia. }
  destruct (publish_mock topic v o st) as [[r st']|] eqn:Hp.
  - pose proof (publish_mock_log _ _ _ _ _ _ Hp (ok_log _ (lk_ok _ _ _ _ _ _ Hl))) as (Hlog & _). revert Hp Hlog. unfold publish_mock.
    case_bool_decide as Ht; [intros [= <- <-] _; by eauto 7|]. case_bool_decide; [intros [= <- <-] _; by eauto 7|].
    intros (off & Hoff & [= <- <-])%bind_Some Hlog. rewrite (lk_messages _ _ _ _ _ _ Hl), filter_map, length_map.
    cbn [view sm_topic] in *. rewrite Hoff. cbn [mbind option_bind]. do 3 eexists. split_and!; [done|done|].
    rewrite <- (lk_messages _ _ _ _ _ _ Hl). apply (linked_append _ _ _ _ _ _ _ Hl Hlog). unfold try_i64 in Hoff. apply try_range_Some in Hoff as [-> Hoff].
    split_and!; cbn; try done; apply Hoff.
  - exfalso. revert Hp. unfold publish_mock. do 2 (case_bool_decide; [done|]). unfold try_i64.
    match goal with |- context [try_range ?a ?b ?n] => assert (try_range a b n = Some n) as -> end; [|done]. apply try_range_Some.
    split; [done|]. pose proof (List.filter_length_le (fun m => bool_decide (mm_topic m = topic)) (messages st)).
    pose proof (lk_length _ _ _ _ _ _ Hl). unfold i32_max, i64_min, i64_max in *. lia.
Qed.

(** *** Subscribing *)

(** One segment after the root: the mock adapter looks a path up as one key. *)
Definition flat (f : Protocol.Filter) : Prop :=
  forall field, strip_prefix "$." (fl_path f) = Some field -> split_dots (as_bytes field) = [as_bytes field].
Definition sdk_filter (f : Protocol.Filter) : Sdk.Filter := {| path := fl_path f; expected_value := fl_value f |}.

Lemma validate_view f :
  match validate_filter f with
  | Some e => exists e', to_gateway_filter (sdk_filter f) = Err e' /\ adapter_error e' = e
  | None => exists g, to_gateway_filter (sdk_filter f) = Ok g
  end.
Proof.
  unfold validate_filter, to_gateway_filter. cbn [sdk_filter path expected_value].
  destruct (strip_prefix "$." (fl_path f)) as [field|]; [|by eexists]. destruct (_ || _); [by eexists|].
  destruct (fl_value f); cbn; try (by eexists); done.
Qed.

Lemma matches_view f l x : (forall f', f = Some f' -> flat f') ->
  MockAdapter.filter_matches f (view l x) = Sdk.filter_matches (sdk_filter <$> f) (mm_value x).
Proof.
  intros Hf. destruct f as [f|]; [|done]. cbn. rewrite b64_decode_encode. cbn. destruct (json_parse (mm_value x)) as [j|]; [|done].
  destruct (strip_prefix "$." (fl_path f)) as [field|] eqn:Hp; [|done]. rewrite (Hf f eq_refl field Hp). cbn.
  by destruct (value_get j (as_bytes field)).
Qed.

Lemma subscribe_linked k stale c st a m topics group filter :
  linked k stale c st a m -> (forall f, filter = Some f -> flat f) ->
  exists a' m' r, sdk_handle a (Subscribe topics group filter) = Some (a', r) /\
    MockAdapter.handle m (Subscribe topics group filter) = Some (m', r) /\
    linked k (stale && bool_decide (is_Some (filter ≫= validate_filter))) c st a' m'.
Proof.
  intros Hl Hf. unfold sdk_handle, Adapter.handle, handle_subscribe, MockAdapter.handle. rewrite (lk_client _ _ _ _ _ _ Hl).
  change ((fun f => {| path := fl_path f; expected_value := fl_value f |}) <$> filter) with (sdk_filter <$> filter).
  unfold Sdk.subscribe. rewrite (lk_mock _ _ _ _ _ _ Hl). cbn [negb].
  assert (Hv : match filter ≫= validate_filter with
               | Some e => exists e', match sdk_filter <$> filter with None => Ok None | Some f => Some <$> to_gateway_filter f end = Err e' /\ adapter_error e' = e
               | None => exists g, match sdk_filter <$> filter with None => Ok None | Some f => Some <$> to_gateway_filter f end = Ok g
               end).
  { destruct filter as [f|]; cbn; [|by eexists]. pose proof (validate_view f) as Hv. destruct (validate_filter f) as [e|].
    - destruct Hv as (e' & -> & ?). by eexists.
    - destruct Hv as (g & ->). by eexists. }
  destruct (filter ≫= validate_filter) as [e|].
  - destruct Hv as (e' & -> & <-). cbn [mbind result_bind]. do 3 eexists. split_and!; [done..|].
    rewrite bool_decide_eq_true_2, andb_true_r by done. exact Hl.
  - destruct Hv as (g & ->). cbn [mbind result_bind].
    rewrite fill_all by lia. cbn [mbind option_bind]. do 3 eexists. split_and!; [done..|]. destruct Hl. constructor; try done.
    intros _. unfold stream_linked. cbn. split_and!; [done|lia|]. rewrite drop_0. f_equal. apply List.filter_ext. intros x.
    unfold selects. cbn [su_filter su_topics]. by rewrite matches_view.
Qed.

Lemma decode_encoded hs : decode_headers (encode_headers hs) = hs.
Proof.
  unfold decode_headers, encode_headers. rewrite List.map_map. rewrite <- (List.map_id hs) at 2. apply List.map_ext. intros [n [v|]]; [|done].
  cbn. by rewrite b64_decode_encode.
Qed.

#[export] Instance view_inj l : Inj (=) (=) (view l).
Proof.
  intros [t p o v hs] [t' p' o' v' hs'] Heq. unfold view in Heq. cbn in Heq. injection Heq as -> -> -> Hv Hh _.
  assert (v = v') as -> by (apply (f_equal b64_decode) in Hv; rewrite !b64_decode_encode in Hv; congruence).
  apply (f_equal decode_headers) in Hh. change (decode_headers (encode_headers hs) = decode_headers (encode_headers hs')) in Hh.
  rewrite !decode_encoded in Hh. by subst.
Qed.

Lemma next_linked k c st a m timeout :
  linked k false c st a m ->
  exists a' m' r, sdk_handle a (NextMessage timeout) = Some (a', r) /\
    MockAdapter.handle m (NextMessage timeout) = Some (m', r) /\ linked k false c st a' m'.
Proof.
  intros Hl. unfold sdk_handle, Adapter.handle, handle_next_message, MockAdapter.handle.
  pose proof (lk_stream _ _ _ _ _ _ Hl eq_refl) as Hs. unfold stream_linked in Hs.
  destruct (a_subscription m) as [s|] eqn:Hsub, (ad_stream a) as [[live items]|] eqn:Hstr; try done.
  2: { unfold next_message. rewrite Hsub. by do 3 eexists. }
  destruct Hs as (-> & Hn & ->). cbn [andb].
  destruct (next_message_spec m s Hsub) as (n & Hm' & Hle & Hr); [by rewrite (lk_messages _ _ _ _ _ _ Hl), length_map|].
  rewrite (surjective_pairing (next_message m)), Hm'. clear Hm'.
  rewrite (lk_messages _ _ _ _ _ _ Hl), length_map in Hle. unfold pending in Hr. cbn [at_index su_next_index] in Hr.
  change (selects (at_index s n)) with (selects s) in Hr. rewrite (lk_messages _ _ _ _ _ _ Hl), !List.skipn_map, !filter_map in Hr.
  change (fun x => selects s (view (queue_states st) x)) with (fun x => selects s (view [] x)) in Hr.
  destruct (List.filter _ (drop (su_next_index s) (messages st))) as [|x rest] eqn:Hp; cbn [map] in *; destruct Hr as [-> Hrest].
  - do 3 eexists. split_and!; [done..|]. destruct Hl. constructor; try done. intros _. unfold stream_linked. cbn. rewrite Hstr.
    split_and!; [done..|]. change (selects (at_index s n)) with (selects s). apply List.map_eq_nil in Hrest. by rewrite Hrest.
  - do 3 eexists. split_and!; [done..|]. destruct Hl. constructor; try done. intros _. unfold stream_linked. cbn.
    split_and!; [done..|]. change (selects (at_index s n)) with (selects s).
    assert (List.filter (fun x => selects s (view [] x)) (drop n (messages st)) = rest) as ->; [|done].
    by apply (inj (map (view (queue_states st)))).
Qed.

(** *** Queues *)

(** The backend with other sessions and queue states. *)
Definition with_queues (st : MockState) (ss : list MockQueueSession) (l : list MockQueueMessageState) : MockState :=
  {| messages := messages st; queue_sessions := ss; queue_states := l |}.

Record queues_linked (k : Z) (st : MockState) (a : Adapter) (m : MockAdapter) : Prop := {
  ql_ok : queue_ok st;
  ql_known : forall g d q, state_of (queue_states st) g d = Some q -> d ∈ map delivery_of (messages st);
  ql_messages : a_messages m = map (view (queue_states st)) (messages st);
  ql_counts : forall g d q, state_of (queue_states st) g d = Some q -> 0 <= delivery_count q <= k;
  ql_sessions : Z.of_nat (length (queue_sessions st)) <= k;
  ql_mock_sessions : forall id, a_queue_sessions m !! id = session_view <$> find_session (queue_sessions st) (real_name id);
  ql_aliases : forall id, ad_queue_sessions a !! id = (fun _ => real_name id) <$> find_session (queue_sessions st) (real_name id);
  ql_next : a_next_session_id m = Z.of_nat (length (queue_sessions st)) + 1;
  ql_next_alias : ad_next_queue_session_id a = Z.of_nat (length (queue_sessions st));
}.

Lemma linked_queues k k' stale c st a m st' a' m' :
  linked k stale c st a m -> k <= k' -> queues_linked k' st' a' m' -> messages st' = messages st ->
  ad_client a' = Some (c, st') -> ad_stream a' = ad_stream a -> a_subscription m' = a_subscription m ->
  a_endpoint m' = a_endpoint m -> a_fault_mode m' = a_fault_mode m -> a_contract_minor m' = a_contract_minor m ->
  linked k' stale c st' a' m'.
Proof.
  intros Hl Hk Hq Hms Hc Hs Hsub He Hf Hn. apply (linked_later k k') in Hl; [|done]. destruct Hl, Hq.
  rewrite Hms in ql_known0, ql_messages0. constructor; rewrite ?Hms; first [done|congruence|idtac].
  intros Hst%lk_stream0. unfold stream_linked in *. by rewrite Hs, Hsub, Hms.
Qed.

Lemma filter_free l t g ms :
  List.filter (free l t g) ms = List.filter (mock_message_is_available l g) (List.filter (fun m => bool_decide (mm_topic m = t)) ms).
Proof.
  induction ms as [|x ms IH]; [done|]. cbn. unfold free at 1. case_bool_decide; cbn; [|done].
  destruct (mock_message_is_available l g x); by rewrite IH.
Qed.

Lemma current_count k stale c st a m g d :
  linked k stale c st a m -> 0 <= k -> 0 <= delivery_count (current g d (queue_states st)) <= k.
Proof.
  intros Hl Hk. unfold current. destruct (state_of _ g d) as [q|] eqn:Hq; cbn; [|lia]. by eapply lk_counts.
Qed.

Lemma leased_count k o q : 0 <= delivery_count q <= k -> k < i32_max -> 0 <= delivery_count (lease o q) <= k + 1.
Proof. intros Hq Hk. unfold lease, u32_max, i32_max in *. cbn. lia. Qed.

Lemma acquire_view k stale c st a m topic group options requested r st' alias :
  linked k stale c st a m -> k < i32_max -> acquire_mock topic group options requested st = (Ok r, st') ->
  ar_session_id r = real_name alias ->
  acquire_messages alias topic group (Z.to_nat (clamp 1 500 (ao_max options))) (map (view (queue_states st)) (messages st)) =
    (map (view (queue_states st')) (messages st'), map acquired_message (ar_messages r)).
Proof.
  intros Hl Hk (Hout & Hms & _ & Hst & _)%acquire_mock_spec Hid; [|apply Hl].
  assert (0 <= k) as Hk0 by (pose proof (lk_length _ _ _ _ _ _ Hl); lia).
  assert (Hlease : forall x, acquired alias group (view (queue_states st) x)
                    = state_view (lease (real_name alias) (current group (delivery_of x) (queue_states st)))).
  { intros x. rewrite <- lease_view; [by rewrite alias_real| |];
      pose proof (current_count _ _ _ _ _ _ group (delivery_of x) Hl Hk0); lia. }
  rewrite acquire_messages_view by (by eapply linked_nodup). rewrite filter_free. rewrite Hms.
  fold (on_topic topic (messages st)). fold (deliverable st topic group options) in *. f_equal.
  - apply List.map_ext. intros x. case_bool_decide as Hx.
    + rewrite Hlease. apply view_update. intros g'. rewrite Hst, (bool_decide_eq_true_2 (delivery_of x ∈ _)) by done. rewrite andb_true_r, Hid.
      by case_bool_decide.
    + apply view_same. intros g'. rewrite Hst, (bool_decide_eq_false_2 (delivery_of x ∈ _)) by done. by rewrite andb_false_r.
  - rewrite Hout, List.map_map. apply List.map_ext. intros x. rewrite Hlease, acquired_json_view. by rewrite Hid.
Qed.

Lemma acquired_counts k stale c st a m topic group options requested r st' :
  linked k stale c st a m -> k < i32_max -> acquire_mock topic group options requested st = (Ok r, st') ->
  (forall g d q, state_of (queue_states st') g d = Some q -> d ∈ map delivery_of (messages st')) /\
  (forall g d q, state_of (queue_states st') g d = Some q -> 0 <= delivery_count q <= k + 1).
Proof.
  intros Hl Hk (_ & Hms & _ & Hst & _)%acquire_mock_spec; [|apply Hl]. rewrite Hms.
  assert (0 <= k) as Hk0 by (pose proof (lk_length _ _ _ _ _ _ Hl); lia).
  split; intros g d q; rewrite Hst; destruct (bool_decide (g = group) && _) eqn:Hb; try (by eapply lk_known).
  - intros _. apply andb_prop in Hb as [_ (x & -> & Hx)%bool_decide_eq_true%list_elem_of_fmap]. apply (list_elem_of_fmap_2 delivery_of).
    unfold deliverable in Hx. apply elem_of_take in Hx as (i & Hx%list_elem_of_lookup_2 & _).
    apply list_elem_of_In, List.filter_In in Hx as [Hx _]. unfold on_topic in Hx. apply List.filter_In in Hx as [Hx _]. by apply list_elem_of_In.
  - intros [= <-]. apply leased_count; [|done]. by eapply current_count.
  - intros Hq. pose proof (lk_counts _ _ _ _ _ _ Hl g d q Hq). lia.
Qed.

Lemma find_real st id s : queue_ok st -> find_session (queue_sessions st) (real_name id) = Some s ->
  exists i, id = session_name (Z.of_nat (i + 1)) /\ (i < length (queue_sessions st))%nat.
Proof.
  intros Hok. unfold find_session. intros [Hin Hid%bool_decide_eq_true]%List.find_some.
  apply list_elem_of_In, list_elem_of_lookup in Hin as [i Hi]. exists i. split; [|by eapply lookup_lt_Some].
  rewrite (ok_names st Hok i s Hi), mock_name in Hid. by apply real_alias_inj in Hid.
Qed.

Lemma no_empty_session st : queue_ok st -> find_session (queue_sessions st) (real_name EmptyString) = None.
Proof. intros Hok. destruct (find_session _ _) as [s|] eqn:Hs; [|done]. by apply find_real in Hs as (i & ? & _). Qed.

Lemma find_session_other ss s id : ms_id s <> id -> find_session (ss ++ [s]) id = find_session ss id.
Proof.
  intros Hs. unfold find_session. induction ss as [|x ss IH]; cbn; [by rewrite bool_decide_eq_false_2|]. by case_bool_decide.
Qed.

Lemma find_appended st t g n id : queue_ok st ->
  let new := session_name (Z.of_nat (length (queue_sessions st) + 1)) in
  let s := {| ms_id := real_name new; ms_topic := t; ms_group := g; ms_max_messages := n |} in
  find_session (queue_sessions st) (real_name new) = None /\
  find_session (queue_sessions st ++ [s]) (real_name id) = if bool_decide (id = new) then Some s else find_session (queue_sessions st) (real_name id).
Proof.
  intros Hok new s. assert (Hnone : find_session (queue_sessions st) (real_name new) = None).
  { destruct (find_session _ _) as [x|] eqn:Hx; [|done]. apply find_real in Hx as (i & Hi & Hlt); [|done]. unfold new, session_name in Hi.
    apply (inj (String.app _)) in Hi. apply (inj pretty) in Hi. lia. }
  split; [done|]. case_bool_decide as Hid.
  - subst id. by apply (find_session_new _ s).
  - apply find_session_other. intros Hr%real_alias_inj. by subst.
Qed.

Lemma alias_unknown (al : gmap string string) ss x :
  (forall id, al !! id = (fun _ => real_name id) <$> find_session ss (real_name id)) -> find_session ss (real_name x) = None ->
  List.find (fun e => bool_decide (e.2 = real_name x)) (map_to_list al) = None.
Proof.
  intros Hal Hx. destruct (List.find _ _) as [[i r]|] eqn:Hf; [|done]. apply List.find_some in Hf as [Hin Hr%bool_decide_eq_true].
  apply list_elem_of_In, elem_of_map_to_list in Hin. cbn in Hr. subst r. rewrite Hal in Hin.
  apply fmap_Some in Hin as (s & Hs & Hi%real_alias_inj). subst i. congruence.
Qed.

Lemma alias_known (al : gmap string string) ss x s :
  (forall id, al !! id = (fun _ => real_name id) <$> find_session ss (real_name id)) -> find_session ss (real_name x) = Some s ->
  List.find (fun e => bool_decide (e.2 = real_name x)) (map_to_list al) = Some (x, real_name x).
Proof.
  intros Hal Hx. destruct (List.find _ _) as [[i r]|] eqn:Hf.
  - apply List.find_some in Hf as [Hin Hr%bool_decide_eq_true]. apply list_elem_of_In, elem_of_map_to_list in Hin. cbn in Hr. subst r.
    rewrite Hal in Hin. apply fmap_Some in Hin as (s' & Hs & Hi%real_alias_inj). by subst i.
  - apply (List.find_none _ _) with (x := (x, real_name x)) in Hf; [by rewrite bool_decide_eq_true_2 in Hf|].
    apply list_elem_of_In, elem_of_map_to_list. by rewrite Hal, Hx.
Qed.

(** The options of an acquire. *)
Definition acquire_options (max lock : Z) : AcquireOptions :=
  {| ao_max := max; ao_lock_duration_ms := lock; ao_wait_ms := ao_wait_ms AcquireOptions_default |}.
Definition acquire_answer (alias : string) (r : QueueAcquireResult) : Response :=
  OkResponse (JObject [member "session_id" (str_to alias); member "messages" (JArray (map acquired_message (ar_messages r)))]).

Lemma acquire_opens k stale c st a m topic group max lock :
  linked k stale c st a m -> k < i32_max ->
  exists r st' a' alias, acquire_mock topic group (acquire_options max lock) EmptyString st = (Ok r, st') /\
    alias_for_queue_session (set_state a c st') (ar_session_id r) = (a', alias) /\
    let '(m1, id) := open_session m {| se_topic := topic; se_group := group; se_max_messages := clamp 1 500 max |} in
    let '(m', answer) := acquire_in m1 id topic group (clamp 1 500 max) in
    answer = acquire_answer alias r /\ linked (k + 1) stale c st' a' m'.
Proof.
  intros Hl Hk. destruct (acquire_mock topic group (acquire_options max lock) EmptyString st) as [[r|e] st'] eqn:Ha;
    [|unfold acquire_mock, mock_session_id in Ha; rewrite bool_decide_eq_true_2 in Ha by done; cbn in Ha; by destruct (lease_all _ _ _ _)].
  pose proof (acquire_keeps_ok st topic group (acquire_options max lock) EmptyString (lk_ok _ _ _ _ _ _ Hl)) as Hok. rewrite Ha in Hok. cbn in Hok.
  pose proof (acquired_counts _ _ _ _ _ _ _ _ _ _ _ _ Hl Hk Ha) as [Hknown Hcounts].
  pose proof (acquire_mock_spec _ _ _ _ _ _ _ (lk_ok _ _ _ _ _ _ Hl) Ha) as (_ & Hms & _ & _ & Hs).
  unfold mock_session_id in Hs. rewrite bool_decide_eq_true_2 in Hs by done. cbn [negb] in Hs. injection Hs as Hss Hid.
  set (new := session_name (Z.of_nat (length (queue_sessions st) + 1))). assert (ar_session_id r = real_name new) as Hr by done.
  pose proof (fun id => find_appended st topic group (clamp 1 500 max) id (lk_ok _ _ _ _ _ _ Hl)) as Hfind. cbn in Hfind.
  fold new in Hfind. destruct (Hfind EmptyString) as [Hnone _].
  assert (Hn : wrap_u64 (ad_next_queue_session_id a + 1) = Z.of_nat (length (queue_sessions st) + 1)).
  { rewrite (lk_next_alias _ _ _ _ _ _ Hl). unfold wrap_u64. pose proof (lk_sessions _ _ _ _ _ _ Hl). unfold i32_max in *. rewrite Z.mod_small; lia. }
  do 3 eexists. exists new. split; [done|]. unfold alias_for_queue_session. cbn [set_state ad_queue_sessions ad_next_queue_session_id].
  rewrite Hr, (alias_unknown _ (queue_sessions st)) by (try apply Hl; done). rewrite Hn. fold new. split; [done|].
  unfold open_session. rewrite (lk_next _ _ _ _ _ _ Hl). replace (Z.of_nat (length (queue_sessions st)) + 1) with (Z.of_nat (length (queue_sessions st) + 1)) by lia.
  fold new. unfold acquire_in. cbn [a_messages]. pose proof (acquire_view _ _ _ _ _ _ _ _ _ _ _ _ new Hl Hk Ha Hr) as Hv.
  cbn [acquire_options ao_max] in Hv. rewrite (lk_messages _ _ _ _ _ _ Hl), Hv.
  split; [done|]. eapply linked_queues; [exact Hl|lia| |done..]. constructor; cbn; rewrite <- ?Hss; try done; rewrite ?length_app; cbn [length].
  - pose proof (lk_sessions _ _ _ _ _ _ Hl). lia.
  - intros id. destruct (Hfind id) as [_ Hf]. change (mock_session_name _) with (real_name new). rewrite Hf. case_bool_decide as Hi.
    + subst id. by rewrite lookup_insert_eq.
    + rewrite lookup_insert_ne by done. by apply Hl.
  - intros id. destruct (Hfind id) as [_ Hf]. change (mock_session_name _) with (real_name new). rewrite Hf. case_bool_decide as Hi.
    + subst id. by rewrite lookup_insert_eq.
    + rewrite lookup_insert_ne by done. by apply Hl.
  - pose proof (lk_sessions _ _ _ _ _ _ Hl). unfold i32_max, u64_max in *. lia.
  - done.
Qed.

Lemma set_state_linked k stale c st a m : linked k stale c st a m -> k < i32_max ->
  linked (k + 1) stale c st (set_state a c st) m.
Proof. intros Hl Hk. rewrite (set_state_same _ _ _ _ _ _ Hl). eapply linked_later; [|exact Hl]. lia. Qed.

(** The session of a nonempty name that is no name of the backend's. *)
Lemma named_session k stale c st a m session :
  linked k stale c st a m -> strip_prefix "mock-" session = None ->
  find_session (queue_sessions st) (default session (ad_queue_sessions a !! session)) = find_session (queue_sessions st) (real_name session).
Proof.
  intros Hl Hs. rewrite (lk_aliases _ _ _ _ _ _ Hl). destruct (find_session _ (real_name session)) as [s|] eqn:Hf; [done|]. cbn. unfold id.
  destruct (find_session _ session) as [s|] eqn:Hf'; [|done]. exfalso.
  apply find_named in Hf' as [x ->]; [|apply Hl]. unfold real_name in Hs. by rewrite strip_prefix_app in Hs.
Qed.

Lemma acquire_resumes k stale c st a m topic group max lock session :
  linked k stale c st a m -> k < i32_max -> session <> EmptyString -> strip_prefix "mock-" session = None ->
  let real := default session (ad_queue_sessions a !! session) in
  match acquire_mock topic group (acquire_options max lock) real st with
  | (Err e, st') =>
      exists text, e = InvalidArg text /\ resume_session m topic group max (clamp 1 500 max) session = Err text /\
        linked (k + 1) stale c st' (set_state a c st') m
  | (Ok r, st') =>
      resume_session m topic group max (clamp 1 500 max) session = Ok () /\
      alias_for_queue_session (set_state a c st') (ar_session_id r) = (set_state a c st', session) /\
      let '(m', answer) := acquire_in m session topic group (clamp 1 500 max) in
      answer = acquire_answer session r /\ linked (k + 1) stale c st' (set_state a c st') m'
  end.
Proof.
  intros Hl Hk Hne Hpre real. pose proof (named_session _ _ _ _ _ _ _ Hl Hpre) as Hfind. fold real in Hfind.
  pose proof (acquire_keeps_ok st topic group (acquire_options max lock) real (lk_ok _ _ _ _ _ _ Hl)) as Hok.
  assert (Hreal : real <> EmptyString).
  { unfold real. rewrite (lk_aliases _ _ _ _ _ _ Hl). destruct (find_session _ (real_name session)); [change (real_name session <> EmptyString); discriminate|done]. }
  destruct (acquire_mock _ _ _ _ _) as [[r|e] st'] eqn:Ha.
  - pose proof (acquired_counts _ _ _ _ _ _ _ _ _ _ _ _ Hl Hk Ha) as [Hknown Hcounts].
    pose proof (acquire_mock_spec _ _ _ _ _ _ _ (lk_ok _ _ _ _ _ _ Hl) Ha) as (_ & Hms & _ & _ & Hs).
    unfold mock_session_id in Hs. rewrite bool_decide_eq_false_2 in Hs by done. cbn [negb] in Hs. injection Hs as Hss Hs.
    rewrite Hfind in Hs. destruct (find_session _ (real_name session)) as [s|] eqn:Hf; [|done].
    unfold resume_session. rewrite (lk_mock_sessions _ _ _ _ _ _ Hl), Hf. cbn [fmap option_fmap option_map session_view se_topic se_group se_max_messages].
    cbn [acquire_options ao_max] in Hs. do 2 (case_match; [done|]). injection Hs as Hid. split; [done|].
    assert (real = real_name session) as Hrn by (unfold real; by rewrite (lk_aliases _ _ _ _ _ _ Hl), Hf). rewrite Hrn in Hid.
    unfold alias_for_queue_session. cbn [set_state ad_queue_sessions]. rewrite <- Hid, (alias_known _ (queue_sessions st) _ s) by (try apply Hl; done).
    split; [done|]. unfold acquire_in. pose proof (acquire_view _ _ _ _ _ _ _ _ _ _ _ _ session Hl Hk Ha (eq_sym Hid)) as Hv.
    cbn [acquire_options ao_max] in Hv. rewrite (lk_messages _ _ _ _ _ _ Hl), Hv. split; [done|].
    eapply linked_queues; [exact Hl|lia| |done..]. destruct Hl. constructor; cbn; rewrite <- ?Hss; try done. lia.
  - pose proof (acquire_mock_refused _ _ _ _ _ _ _ Ha) as ->. unfold acquire_mock, mock_session_id in Ha.
    rewrite bool_decide_eq_false_2 in Ha by done. cbn [negb] in Ha. rewrite Hfind in Ha.
    unfold resume_session. rewrite (lk_mock_sessions _ _ _ _ _ _ Hl).
    pose proof (set_state_linked _ _ _ _ _ _ Hl Hk).
    destruct (find_session _ (real_name session)) as [s|]; [|injection Ha as <- _; by eexists].
    cbn [fmap option_fmap option_map session_view se_topic se_group se_max_messages]. cbn [acquire_options ao_max] in Ha.
    destruct (_ || _); [injection Ha as <- _; by eexists|]. destruct (_ && _); [injection Ha as <- _; by eexists|].
    by destruct (lease_all _ _ _ _).
Qed.

Lemma acquire_linked k stale c st a m topic group max lock session :
  linked k stale c st a m -> k < i32_max -> strip_prefix "mock-" session = None ->
  exists a' m' r st', sdk_handle a (QueueAcquire topic group max lock session) = Some (a', r) /\
    MockAdapter.handle m (QueueAcquire topic group max lock session) = Some (m', r) /\ linked (k + 1) stale c st' a' m'.
Proof.
  intros Hl Hk Hpre. unfold sdk_handle, Adapter.handle, handle_acquire, MockAdapter.handle, queue_acquire.
  pose proof (set_state_linked _ _ _ _ _ _ Hl Hk) as Hsame.
  rewrite (lk_client _ _ _ _ _ _ Hl), (lk_minor _ _ _ _ _ _ Hl). rewrite Z.ltb_irrefl. fold (acquire_options max lock).
  unfold acquire_with_session. cbn [acquire_options ao_lock_duration_ms]. unfold SUPPORTED_QUEUE_LOCK_DURATION_MS. rewrite (lk_mock _ _ _ _ _ _ Hl).
  case_bool_decide; [by do 4 eexists|]. case_bool_decide; [by do 4 eexists|]. destruct (negb (lock =? 30000)); [by do 4 eexists|].
  case_bool_decide as Hs.
  - subst session. assert (ad_queue_sessions a !! EmptyString = None) as ->.
    { rewrite (lk_aliases _ _ _ _ _ _ Hl), no_empty_session; [done|apply Hl]. }
    cbn [default]. destruct (acquire_opens _ _ _ _ _ _ topic group max lock Hl Hk) as (r & st' & a' & alias & -> & Hal & Ho).
    rewrite Hal. destruct (open_session _ _) as [m1 id]. destruct (acquire_in _ _ _ _ _) as [m' answer]. destruct Ho as [-> Ho].
    by do 4 eexists.
  - pose proof (acquire_resumes _ _ _ _ _ _ topic group max lock _ Hl Hk Hs Hpre) as Hr. cbn zeta in Hr.
    destruct (acquire_mock _ _ _ _ _) as [[r|e] st'].
    + destruct Hr as (-> & -> & Hr). destruct (acquire_in _ _ _ _ _) as [m' answer]. destruct Hr as [-> Hr]. by do 4 eexists.
    + destruct Hr as (text & -> & -> & Hr). by do 4 eexists.
Qed.

Lemma acknowledge_linked k stale c st a m session es :
  linked k stale c st a m -> session <> EmptyString -> Forall (fun e => canonical (ak_message_id e)) es ->
  exists a' m' r st', sdk_handle a (QueueAcknowledge session es) = Some (a', r) /\
    MockAdapter.handle m (QueueAcknowledge session es) = Some (m', r) /\ linked k stale c st' a' m'.
Proof.
  intros Hl Hs (ps & -> & Hps & Htry)%acks_canonical.
  unfold sdk_handle, Adapter.handle, handle_acknowledge, MockAdapter.handle, queue_acknowledge, entry_session.
  rewrite (lk_client _ _ _ _ _ _ Hl), (lk_minor _ _ _ _ _ _ Hl), Z.ltb_irrefl, bool_decide_eq_false_2 by done.
  rewrite (lk_aliases _ _ _ _ _ _ Hl), (lk_mock_sessions _ _ _ _ _ _ Hl).
  destruct (find_session _ (real_name session)) as [s|] eqn:Hf; cbn [fmap option_fmap option_map ok_or]; [|by do 4 eexists].
  rewrite Htry. unfold acknowledge. rewrite (lk_mock _ _ _ _ _ _ Hl).
  pose proof (acknowledge_keeps_ok st (real_name session) (map sdk_ack ps) (lk_ok _ _ _ _ _ _ Hl)) as Hok.
  unfold acknowledge_mock in *. rewrite Hf in *.
  destruct (acks_view session (ms_group s) (queue_states st) (messages st) ps k) as (Hv & Hsk & Hc);
    [apply Hl|by eapply linked_nodup|done|by eapply linked_states|apply Hl|].
  rewrite (lk_messages _ _ _ _ _ _ Hl). cbn [session_view se_group]. rewrite Hv.
  destruct (acknowledge_entries _ _ _ _) as [states rs]. cbn [fst snd] in *.
  do 3 eexists. exists (with_queues st (queue_sessions st) states). split_and!; [done..|].
  eapply linked_queues; [exact Hl|lia| |done..]. destruct Hl. constructor; try done. apply Hsk.
Qed.

Lemma renew_linked k stale c st a m session es :
  linked k stale c st a m -> session <> EmptyString -> Forall (fun e => canonical (rn_message_id e)) es ->
  handle_renew queue_exchange a session es = queue_renew m session es.
Proof.
  intros Hl Hs (ds & -> & Hds & Htry)%renews_canonical. unfold handle_renew, queue_renew, entry_session.
  rewrite (lk_client _ _ _ _ _ _ Hl), (lk_minor _ _ _ _ _ _ Hl), Z.ltb_irrefl, bool_decide_eq_false_2 by done.
  rewrite (lk_aliases _ _ _ _ _ _ Hl), (lk_mock_sessions _ _ _ _ _ _ Hl).
  destruct (find_session _ (real_name session)) as [s|] eqn:Hf; cbn [fmap option_fmap option_map ok_or]; [|done].
  rewrite Htry. unfold renew, renew_mock. rewrite (lk_mock _ _ _ _ _ _ Hl), Hf. f_equal. cbn [session_view se_group].
  rewrite (lk_messages _ _ _ _ _ _ Hl), renews_view; [done|apply Hl|by eapply linked_nodup|done|by eapply linked_states].
Qed.

(** *** A run *)

(** The commands both adapters take alike, after something [stale]: texts that
    decode, filters of one segment, names and ids the adapters gave out. *)
Definition shared (stale : bool) (cmd : Command) : Prop :=
  match cmd with
  | Hello | Configure _ _ => False
  | Publish _ value_b64 headers => is_Some (b64_decode value_b64) /\ headers_ok headers
  | PublishEvent _ e => is_Some (b64_decode (ev_data_b64 e))
  | Subscribe _ _ filter => forall f, filter = Some f -> flat f
  | NextMessage _ => stale = false
  | QueueAcquire _ _ _ _ session => strip_prefix "mock-" session = None
  | QueueAcknowledge session es => session <> EmptyString /\ Forall (fun e => canonical (ak_message_id e)) es
  | QueueRenew session es => session <> EmptyString /\ Forall (fun e => canonical (rn_message_id e)) es
  | BlobPut _ value_b64 => is_Some (b64_decode value_b64)
  | _ => True
  end.

Definition stale_after (stale : bool) (cmd : Command) : bool :=
  match cmd with
  | Publish _ _ _ | PublishEvent _ _ => true
  | Subscribe _ _ filter => stale && bool_decide (is_Some (filter ≫= validate_filter))
  | _ => stale
  end.

Fixpoint shared_run (stale : bool) (cmds : list Command) : Prop :=
  match cmds with
  | [] => True
  | cmd :: cmds => shared stale cmd /\ shared_run (stale_after stale cmd) cmds
  end.

Definition sdk_event (e : Protocol.CloudEvent) (data : Bytes) : Sdk.CloudEvent :=
  {| ce_id := ev_id e; ce_source := ev_source e; ce_type := ev_type e; ce_specversion := ev_specversion e;
     ce_datacontenttype := ev_datacontenttype e; ce_data := data |}.

Lemma event_headers_view e data : encode_headers (Sdk.event_headers (sdk_event e data)) = MockAdapter.event_headers e.
Proof. unfold Sdk.event_headers, MockAdapter.event_headers. cbn. by destruct (ev_datacontenttype e). Qed.

Lemma event_linked k stale c st a m topic e :
  linked k stale c st a m -> k < i32_max -> is_Some (b64_decode (ev_data_b64 e)) ->
  exists a' m' r st', sdk_handle a (PublishEvent topic e) = Some (a', r) /\
    MockAdapter.handle m (PublishEvent topic e) = Some (m', r) /\ linked (k + 1) true c st' a' m'.
Proof.
  intros Hl Hk [data Hd]. unfold sdk_handle, Adapter.handle, handle_publish_event, MockAdapter.handle.
  rewrite (lk_client _ _ _ _ _ _ Hl), Hd. fold (sdk_event e data). unfold publish_event. cbn [sdk_event ce_id ce_data]. case_bool_decide as Hid.
  { cbn. do 4 eexists. split_and!; [done..|]. eapply linked_stale, set_state_linked; done. }
  unfold Sdk.publish. rewrite (lk_mock _ _ _ _ _ _ Hl). destruct (publish_linked _ _ _ _ _ _ topic data (Sdk.event_headers (sdk_event e data)) Hl Hk)
    as (r & st' & m' & Hp & Hm & Hl').
  fold (sdk_event e data). rewrite Hp. cbn [mbind option_bind]. rewrite event_headers_view, (b64_encode_decode _ _ Hd) in Hm. rewrite Hm. by do 4 eexists.
Qed.

Lemma step_linked k stale c st a m cmd :
  linked k stale c st a m -> k < i32_max -> shared stale cmd ->
  exists a' m' r st', sdk_handle a cmd = Some (a', r) /\ MockAdapter.handle m cmd = Some (m', r) /\
    linked (k + 1) (stale_after stale cmd) c st' a' m'.
Proof.
  intros Hl Hk Hs. pose proof (linked_later k (k + 1) stale c st a m ltac:(lia) Hl) as Hl'.
  destruct cmd as [|endpoint bearer|topic v headers|topic e|topics group filter|timeout|topic group max lock session|id|session es|session es
                  |name|user pass|key v|key]; cbn [shared stale_after] in *; try done.
  - destruct Hs as [[w Hw] Hh]. destruct (publish_linked _ _ _ _ _ _ topic w (decode_headers headers) Hl Hk) as (r & st' & m' & Hp & Hm & Hl2).
    rewrite (b64_encode_decode _ _ Hw), headers_encoded in Hm by done.
    unfold sdk_handle, Adapter.handle, handle_publish. rewrite (lk_client _ _ _ _ _ _ Hl), Hw. unfold Sdk.publish. rewrite (lk_mock _ _ _ _ _ _ Hl), Hp.
    by do 4 eexists.
  - by eapply event_linked.
  - destruct (subscribe_linked _ _ _ _ _ _ topics group filter Hl Hs) as (a' & m' & r & Ha & Hm & Hl2). do 4 eexists. split_and!; [done..|].
    eapply linked_later; [|exact Hl2]. lia.
  - subst stale. destruct (next_linked _ _ _ _ _ timeout Hl') as (a' & m' & r & Ha & Hm & Hl2). by do 4 eexists.
  - by eapply acquire_linked.
  - by do 4 eexists.
  - destruct Hs. by eapply acknowledge_linked.
  - destruct Hs. do 4 eexists. split_and!; [done|cbn; by erewrite <- renew_linked|done].
  - unfold sdk_handle. cbn. unfold configured. rewrite (lk_client _ _ _ _ _ _ Hl). by do 4 eexists.
  - unfold sdk_handle. cbn. unfold configured. rewrite (lk_client _ _ _ _ _ _ Hl). by do 4 eexists.
  - unfold sdk_handle. cbn. unfold configured. rewrite (lk_client _ _ _ _ _ _ Hl). destruct Hs as [w ->]. by do 4 eexists.
  - unfold sdk_handle. cbn. unfold configured. rewrite (lk_client _ _ _ _ _ _ Hl). by do 4 eexists.
Qed.

Lemma configured_linked endpoint fault : strip_prefix "mock://" endpoint = Some fault ->
  let c := {| Sdk.endpoint := endpoint; Sdk.bearer := None |} in
  exists m, MockAdapter.handle (with_contract_minor CONTRACT_MINOR_QUEUE_RPC NoFault) (Configure endpoint None) = Some (m, expected_configuration) /\
    sdk_handle Adapter_default (Configure endpoint None) = Some (set_state Adapter_default c MockState_default, expected_configuration) /\
    adapter_ok m /\ linked 0 false c MockState_default (set_state Adapter_default c MockState_default) m.
Proof.
  intros Hm c. eexists. split_and!; [done|done|split; [done|constructor]|]. constructor; try done; try (by constructor).
  - unfold is_mock, has_scheme. cbn. by rewrite Hm.
  - apply queue_ok_default.
Qed.

(** ** Over the pipes *)

Context `{JsonText}.

Definition sdk_process : AdapterProcess :=
  process_of Adapter_default (Adapter.serve_line send_exchange stream_exchange open taken queue_exchange late).
Definition mock_process : AdapterProcess :=
  process_of (with_contract_minor CONTRACT_MINOR_QUEUE_RPC NoFault) MockAdapter.serve_line.

Lemma sdk_call a cmd a' r : sendable cmd -> answer_ok r -> sdk_handle a cmd = Some (a', r) ->
  call (H0:=sdk_process) (Some a) cmd = (Some a', Ok r).
Proof.
  intros [Hok Hp] [Hr Hrp] Hh. unfold call. cbn. unfold Adapter.serve_line. unfold command_line at 1. rewrite print_utf8. cbn [negb].
  rewrite command_line_read by done. fold sdk_handle. rewrite Hh. pose proof (response_line_read r Hr Hrp) as Hread.
  destruct (response_line r ++ [newline]) eqn:Hl; [by destruct (response_line r)|]. by rewrite Hread.
Qed.

Lemma mock_call m cmd m' r : sendable cmd -> answer_ok r -> MockAdapter.handle m cmd = Some (m', r) ->
  call (H0:=mock_process) (Some m) cmd = (Some m', Ok r).
Proof.
  intros Hs [Hr Hrp] Hh. unfold call. cbn. rewrite serve_command, Hh by done. pose proof (response_line_read r Hr Hrp) as Hread.
  destruct (response_line r ++ [newline]) eqn:Hl; [by destruct (response_line r)|]. by rewrite Hread.
Qed.

Lemma steps_agree id k stale c st a m steps :
  linked k stale c st a m -> adapter_ok m -> k + Z.of_nat (length steps) <= i32_max ->
  Forall (fun s => sendable (st_command s)) steps -> shared_run stale (map st_command steps) ->
  run_steps (H0:=sdk_process) id (Some a) steps = run_steps (H0:=mock_process) id (Some m) steps.
Proof.
  intros Hl Hm Hk Hs. revert k stale st a m Hl Hm Hk. induction Hs as [|s steps Hs _ IH]; intros k stale st a m Hl Hm Hk Hsh; [done|].
  cbn [map shared_run length] in *. destruct Hsh as [Hsh Hrest].
  destruct (step_linked _ _ _ _ _ _ _ Hl ltac:(lia) Hsh) as (a' & m' & r & st' & Ha & Hh & Hl').
  destruct (handle_ok _ _ _ _ Hm Hh) as [Hm' Hr]. cbn [run_steps]. rewrite (sdk_call _ _ _ _ Hs Hr Ha), (mock_call _ _ _ _ Hs Hr Hh).
  cbn [mbind result_bind]. destruct (negb _); [done|]. eapply IH; [exact Hl'|done|lia|done].
Qed.

(** C11.  The harness cannot tell the two adapters apart: over their pipes, and
    over an in-memory endpoint, a vector of the declared contract whose commands
    both take alike gets the same verdict from the SDK's adapter as from the mock
    adapter, whatever the HTTP exchanges of the SDK would answer. *)
Theorem adapters_agree n v endpoint rest :
  strip_prefix "mock://" endpoint = Some rest -> satisfies {| major := CONTRACT_MAJOR; minor := CONTRACT_MINOR_QUEUE_RPC |} v = true ->
  Forall (fun s => sendable (st_command s)) (v_steps v) -> shared_run false (map st_command (v_steps v)) ->
  Z.of_nat (length (v_steps v)) <= i32_max ->
  run_vector (H0:=sdk_process) n v endpoint = run_vector (H0:=mock_process) n v endpoint.
Proof.
  intros Hend Hv Hs Hsh Hlen. destruct (configured_linked endpoint rest Hend) as (m & Hm & Ha & Hok & Hl). unfold run_vector.
  cbn [spawn sdk_process mock_process process_of mbind result_bind].
  assert (Hconf : sendable (Configure endpoint None)) by done. assert (Hexp : answer_ok expected_configuration) by done.
  rewrite (sdk_call Adapter_default Hello Adapter_default (HelloResponse CONTRACT_MAJOR CONTRACT_MINOR_QUEUE_RPC "rust")) by done.
  rewrite (mock_call _ Hello _ (HelloResponse CONTRACT_MAJOR CONTRACT_MINOR_QUEUE_RPC "mock")) by done.
  cbn [mbind result_bind]. rewrite Hv. cbn [negb]. rewrite (sdk_call _ _ _ _ Hconf Hexp Ha), (mock_call _ _ _ _ Hconf Hexp Hm).
  cbn [mbind result_bind]. destruct (negb _); [done|]. eapply steps_agree; [exact Hl|done|lia|done..].
Qed.
End Simulation.

Module Libraries.
  Import MockAdapter.Witness.
Definition prost_by {A B} `{Countable B} (f : A -> B) (g : B -> A) (Hfg : forall a, g (f a) = a) : ProstMessage A.
Proof.
  refine {| encode_to_vec a := bits_of (countable.encode (f a));
            decode_message b := match countable.decode (of_bits b) with Some x => Ok (g x) | None => Err "invalid" end |}.
  intros a. by rewrite of_bits_of, countable.decode_encode, Hfg.
Defined.

Definition frames : ProstMessage SubscribeFrame :=
  prost_by (fun f => match f with Start g t a x => inl (g, t, a, x) | Ack tp o => inr (Some (tp, o)) | EmptyFrame => inr None end)
    (fun s => match s with inl (g, t, a, x) => Start g t a x | inr (Some (tp, o)) => Ack tp o | inr None => EmptyFrame end)
    ltac:(by intros []).
Definition inbounds : ProstMessage Streaming.Inbound :=
  prost_by (fun i => (in_topic i, in_partition i, in_offset i, in_key i, in_value i, in_headers i, in_timestamp_ms i, in_structured i, in_schema i))
    (fun '(a, b, c, d, e, f, g, h, i) =>
       {| in_topic := a; in_partition := b; in_offset := c; in_key := d; in_value := e; in_headers := f; in_timestamp_ms := g;
          in_structured := h; in_schema := i |}) ltac:(by intros []).
Definition acquire_requests : ProstMessage QueueAcquireRequest :=
  prost_by (fun q => (qa_session_id q, qa_group_id q, qa_topics q, qa_max_messages q, qa_wait_ms q, qa_lock_duration_ms q))
    (fun '(a, b, c, d, e, f) => {| qa_session_id := a; qa_group_id := b; qa_topics := c; qa_max_messages := d; qa_wait_ms := e;
                                   qa_lock_duration_ms := f |}) ltac:(by intros []).
Definition of_queued (q : QueuedMessage) :=
  (qm_topic q, qm_partition q, qm_offset q, qm_key q, qm_value q, qm_headers q, qm_timestamp_ms q, qm_delivery_count q).
Definition to_queued '(a, b, c, d, e, f, g, h) : QueuedMessage :=
  {| qm_topic := a; qm_partition := b; qm_offset := c; qm_key := d; qm_value := e; qm_headers := f; qm_timestamp_ms := g;
     qm_delivery_count := h |}.
Definition acquire_responses : ProstMessage QueueAcquireResponse.
Proof.
  refine (prost_by (fun q => (qr_session_id q, map of_queued (qr_messages q)))
    (fun '(a, b) => {| qr_session_id := a; qr_messages := map to_queued b |}) _).
  intros [a b]. cbn. f_equal. rewrite List.map_map. rewrite <- (List.map_id b) at 2. apply List.map_ext. by intros [].
Defined.
Definition of_entry (e : Queue.QueueAckEntry) := (entry_topic e, entry_partition e, entry_offset e, entry_type e).
Definition to_entry '(a, b, c, d) : Queue.QueueAckEntry := {| entry_topic := a; entry_partition := b; entry_offset := c; entry_type := d |}.
Definition acknowledge_requests : ProstMessage QueueAcknowledgeRequest.
Proof.
  refine (prost_by (fun q => (kq_session_id q, map of_entry (kq_entries q)))
    (fun '(a, b) => {| kq_session_id := a; kq_entries := map to_entry b |}) _).
  intros [a b]. cbn. f_equal. rewrite List.map_map. rewrite <- (List.map_id b) at 2. apply List.map_ext. by intros [].
Defined.
Definition acknowledge_responses : ProstMessage QueueAcknowledgeResponse.
Proof.
  refine (prost_by (fun q => map (fun r => (of_entry <$> pk_entry r, pk_error r)) (kp_results q))
    (fun l => {| kp_results := map (fun '(a, b) => {| pk_entry := to_entry <$> a; pk_error := b |}) l |}) _).
  intros [b]. cbn. f_equal. rewrite List.map_map. rewrite <- (List.map_id b) at 2. apply List.map_ext. by intros [[[]|] ?].
Defined.

(** A live gateway is never asked. *)
Definition no_send (_ : Bytes) : result ConnectClientError (Z * Bytes) := Ok (503, []).
Definition no_stream (_ : Bytes) : result ConnectClientError (Z * list BodyFrame * Bytes) := Ok (503, [], []).

Definition sdk : AdapterProcess :=
  sdk_process (H:=Letters.lib) (H0:=Apps.uris) (H1:=Apps.floats) (H2:=Apps.parser) (H5:=Apps.requests) (H6:=Apps.responses)
    (H7:=frames) (H8:=inbounds) (H9:=acquire_requests) (H10:=acquire_responses) (H11:=acknowledge_requests) (H12:=acknowledge_responses)
    no_send no_stream (fun _ => true) (fun _ => true) (fun _ => no_send) false (H13:=BitText.text).
Definition mock : AdapterProcess := mock_process (H2:=Apps.parser) (H13:=BitText.text).

(** Publishing, a filtered subscription, and a message acquired, renewed, and
    released to be acquired again. *)
Definition step (c : Command) (r : Response) : VectorStep := {| st_name := Command_tag c; st_command := c; st_expect := r |}.
Definition leased (count : Z) : Json :=
  JObject [member "message_id" (str_to "jobs:0:0"); member "topic" (str_to "jobs"); member "partition" (int_to 0);
           member "offset" (int_to 0); member "value_b64" (str_to "o"); member "headers" (list_to Header_to [{| h_name := "h"; h_value_b64 := None |}]);
           member "delivery_count" (int_to count)].
Definition grant (messages : list Json) : Response :=
  OkResponse (JObject [member "session_id" (str_to "queue-session-1"); member "messages" (JArray messages)]).
Definition sample : Vector := {|
  v_id := "sample"; v_since := {| major := 1; minor := 0 |}; v_until := None; v_live_only := false;
  v_steps :=
    [step (Publish "jobs" "o" [{| h_name := "h"; h_value_b64 := None |}]) (published 0 0 false);
     step (Publish "jobs" "other" []) (published 0 1 false);
     step (Publish EmptyString "o" []) (error KInvalidArgument "topic is required");
     step (Subscribe ["jobs"] "g" (Some {| fl_path := "$.kind"; fl_op := Equals; fl_value := JString (as_bytes "it's") |})) (OkResponse (JObject []));
     step (NextMessage 100)
       (MessageResponse {| m_topic := "jobs"; m_partition := 0; m_offset := 0; m_value_b64 := "o"; m_headers := [{| h_name := "h"; h_value_b64 := None |}] |});
     step (NextMessage 100) (error KNotFound "no message available");
     step (QueueAcquire "jobs" "workers" 1 30000 EmptyString) (grant [leased 1]);
     step (QueueRenew "queue-session-1" [{| rn_message_id := "jobs:0:0" |}; {| rn_message_id := "jobs:0:1" |}])
       (results [entry_result "jobs:0:0" true; entry_result "jobs:0:1" false]);
     step (QueueAcknowledge "queue-session-1" [{| ak_message_id := "jobs:0:0"; ak_ack_type := Release |}]) (results [entry_result "jobs:0:0" true]);
     step (QueueAcquire "jobs" "workers" 0 30000 "queue-session-1") (grant [leased 2]);
     step (QueueAcquire "jobs" "other" 0 30000 "queue-session-1")
       (error KInvalidArgument "group_id and topics are fixed when a queue session is created");
     step (BlobGet "k") (ErrorResponse (unimplemented "blob" "chapter-b-blob-api"))] |}.

Lemma canonical_first o : 0 <= o <= 9 -> canonical ("jobs:0:" +:+ pretty o).
Proof. intros Ho. exists {| qd_topic := "jobs"; qd_partition := 0; qd_offset := o |}. split; [|done]. repeat split; cbn; try done; unfold i64_min, i64_max; lia. Qed.

Lemma adapters_agree_witness : run_vector (H:=BitText.text) (H0:=sdk) 0 sample "mock://gateway" = Ok None.
Proof.
  unfold sdk. rewrite (adapters_agree (H13:=BitText.text) (H2:=Apps.parser) _ _ _ _ _ false 0 sample "mock://gateway" "gateway");
    [vm_compute; reflexivity|done|done|repeat constructor; done| |done].
  repeat split; try done.
  - by repeat constructor.
  - by repeat constructor.
  - by repeat constructor.
  - intros f [= <-] field [= <-]. by vm_compute.
  - repeat constructor; [apply (canonical_first 0); lia|apply (canonical_first 1); lia].
  - repeat constructor. apply (canonical_first 0); lia.
Defined.
End Libraries.
