(* ===== verification/Serve.v ===== *)
(** * The listeners

    [serve.rs]: the accept loops of the plaintext and the TLS listener, the task
    of a connection, the drain after a shutdown with its deadline, and the watcher
    that reloads the TLS configuration.  The scheduler, the clock, the sockets and
    the files of the configuration are events; [step] is what the code does at
    each, and [None] an event that cannot happen there.  What a connection
    attaches to its requests is [Access.connection_extensions]. *)

From S2P Require Import Prelude.
From S2P Require Import Types.
From S2P Require Import Access.

(** The deadline of [drain_connections], in milliseconds. *)
Definition DRAIN_MS : Z := 8000.

Section Serve.
  (** A rustls server configuration. *)
  Context {Config : Type}.

(** ** State *)

(** Where the task of a connection is: its handshake, [serve_connection], the
    same after [graceful_shutdown], or its end. *)
Inductive Phase :=
| Handshaking
| Open (c : Connection)
| Closing (c : Connection)
| Finished.
Record Task := { t_peer : string; t_config : option Config; t_phase : Phase }.

(** Where [serve] is. *)
Inductive Mode := Accepting | Draining (deadline : Z) | Returned.
#[export] Instance Mode_eq_dec : EqDecision Mode.
Proof. solve_decision. Defined.

(** [dynamic] is the current configuration of [DynamicServerConfig], [None] for a
    plaintext listener; [connections] the [JoinSet], by order of spawning.
    [joined] and [aborted] record how connections ended. *)
Record Server := {
  mode : Mode;
  cancelled : bool;
  clock : Z;
  dynamic : option Config;
  watching : bool;
  spawned : nat;
  connections : gmap nat Task;
  joined : list nat;
  aborted : list nat;
}.

Definition listening (tls : option Config) : Server :=
  {| mode := Accepting; cancelled := false; clock := 0; dynamic := tls; watching := bool_decide (is_Some tls); spawned := 0;
     connections := ∅; joined := []; aborted := [] |}.

Definition set_mode (m : Mode) (s : Server) : Server :=
  {| mode := m; cancelled := cancelled s; clock := clock s; dynamic := dynamic s; watching := watching s; spawned := spawned s;
     connections := connections s; joined := joined s; aborted := aborted s |}.
Definition set_tasks (ts : gmap nat Task) (s : Server) : Server :=
  {| mode := mode s; cancelled := cancelled s; clock := clock s; dynamic := dynamic s; watching := watching s; spawned := spawned s;
     connections := ts; joined := joined s; aborted := aborted s |}.

Definition is_finished (t : Task) : bool := match t_phase t with Finished => true | _ => false end.
Definition some_finished (s : Server) : bool := existsb (fun e => is_finished e.2) (map_to_list (connections s)).

(** ** The accept loops *)

(** [join_next] of a finished task. *)
Definition join (i : nat) (s : Server) : option Server :=
  t ← connections s !! i;
  if is_finished t
  then Some {| mode := mode s; cancelled := cancelled s; clock := clock s; dynamic := dynamic s; watching := watching s;
               spawned := spawned s; connections := delete i (connections s); joined := joined s ++ [i]; aborted := aborted s |}
  else None.

(** A connection of a TLS listener starts with its handshake, in the
    configuration of this moment; one of a plaintext listener is served. *)
Definition spawn (peer : string) (s : Server) : Server :=
  let t := {| t_peer := peer; t_config := dynamic s;
              t_phase := match dynamic s with Some _ => Handshaking | None => Open (PlaintextConn peer) end |} in
  {| mode := mode s; cancelled := cancelled s; clock := clock s; dynamic := dynamic s; watching := watching s;
     spawned := S (spawned s); connections := <[spawned s := t]> (connections s); joined := joined s; aborted := aborted s |}.

(** The [select!] of a turn is biased: a shutdown first, then a finished
    connection, then the listener. *)
Definition turn (finished : option nat) (accepted : option (result string string)) (s : Server) : option Server :=
  if cancelled s then Some (set_mode (Draining (clock s + DRAIN_MS)) s)
  else match finished with
       | Some i => join i s
       | None =>
           if some_finished s then None
           else Some (match accepted with Some (Ok peer) => spawn peer s | _ => s end)
       end.

(** ** The task of a connection *)

Definition set_phase (i : nat) (p : Phase) (s : Server) : option Server :=
  t ← connections s !! i;
  Some (set_tasks (<[i := {| t_peer := t_peer t; t_config := t_config t; t_phase := p |}]> (connections s)) s).

Definition handshake (i : nat) (r : result string (option (list Bytes))) (s : Server) : option Server :=
  t ← connections s !! i;
  match t_phase t with
  | Handshaking => set_phase i (match r with Ok certs => Open (TlsConn (t_peer t) certs) | Err _ => Finished end) s
  | _ => None
  end.

(** A shutdown ends a handshake, and has an open connection finish its requests. *)
Definition notice (i : nat) (s : Server) : option Server :=
  t ← connections s !! i;
  if cancelled s then
    match t_phase t with
    | Handshaking => set_phase i Finished s
    | Open c => set_phase i (Closing c) s
    | _ => None
    end
  else None.

Definition served (i : nat) (s : Server) : option Server :=
  t ← connections s !! i;
  match t_phase t with
  | Open _ | Closing _ => set_phase i Finished s
  | _ => None
  end.

(** ** [drain_connections] *)

(** Every connection joined: [serve] returns. *)
Definition drained (s : Server) : option Server :=
  if bool_decide (connections s = ∅) then Some (set_mode Returned s) else None.

(** [JoinSet::shutdown] aborts what runs and joins the rest. *)
Definition deadline_reached (deadline : Z) (s : Server) : option Server :=
  if deadline <=? clock s then
    let ts := map_to_list (connections s) in
    Some {| mode := Returned; cancelled := cancelled s; clock := clock s; dynamic := dynamic s; watching := watching s;
            spawned := spawned s; connections := ∅;
            joined := joined s ++ map fst (List.filter (fun e => is_finished e.2) ts);
            aborted := aborted s ++ map fst (List.filter (fun e => negb (is_finished e.2)) ts) |}
  else None.

(** ** The watcher *)

(** [reload_from]: a failure keeps the configuration. *)
Definition reload (r : result string Config) (s : Server) : option Server :=
  if watching s then
    Some {| mode := mode s; cancelled := cancelled s; clock := clock s;
            dynamic := match r with Ok c => Some c | Err _ => dynamic s end; watching := true; spawned := spawned s;
            connections := connections s; joined := joined s; aborted := aborted s |}
  else None.
Definition stop_watching (s : Server) : option Server :=
  if watching s && cancelled s then
    Some {| mode := mode s; cancelled := true; clock := clock s; dynamic := dynamic s; watching := false; spawned := spawned s;
            connections := connections s; joined := joined s; aborted := aborted s |}
  else None.

(** ** Steps *)

Inductive Event :=
| Cancel
| Elapse (ms : Z)
| Turn (finished : option nat) (accepted : option (result string string))
| Handshake (i : nat) (r : result string (option (list Bytes)))
| Notice (i : nat)
| Served (i : nat)
| DrainJoin (i : nat)
| Drained
| Deadline
| Reload (r : result string Config)
| StopWatching.

Definition step (s : Server) (e : Event) : option Server :=
  match e with
  | Cancel =>
      Some {| mode := mode s; cancelled := true; clock := clock s; dynamic := dynamic s; watching := watching s; spawned := spawned s;
              connections := connections s; joined := joined s; aborted := aborted s |}
  | Elapse ms =>
      if 0 <=? ms
      then Some {| mode := mode s; cancelled := cancelled s; clock := clock s + ms; dynamic := dynamic s; watching := watching s;
                   spawned := spawned s; connections := connections s; joined := joined s; aborted := aborted s |}
      else None
  | Turn finished accepted => match mode s with Accepting => turn finished accepted s | _ => None end
  | Handshake i r => handshake i r s
  | Notice i => notice i s
  | Served i => served i s
  | DrainJoin i => match mode s with Draining _ => join i s | _ => None end
  | Drained => match mode s with Draining _ => drained s | _ => None end
  | Deadline => match mode s with Draining d => deadline_reached d s | _ => None end
  | Reload r => reload r s
  | StopWatching => stop_watching s
  end.

Fixpoint serve_events (s : Server) (es : list Event) : option Server :=
  match es with
  | [] => Some s
  | e :: es => s ← step s e; serve_events s es
  end.
End Serve.
Arguments Task : clear implicits.
Arguments Server : clear implicits.
Arguments Event : clear implicits.

(** ** What every run keeps *)

Section Runs.
  Context {Config : Type}.
  Implicit Types (s : Server Config) (es : list (Event Config)).

Lemma serve_events_app s es es' : serve_events s (es ++ es') = (s' ← serve_events s es; serve_events s' es').
Proof. revert s. induction es as [|e es IH]; intros s; [done|]. cbn. destruct (step s e); [apply IH|done]. Qed.

(** An invariant of the steps holds along a run. *)
Lemma serve_invariant (P : Server Config -> Prop) :
  (forall s e s', P s -> step s e = Some s' -> P s') -> forall s es s', P s -> serve_events s es = Some s' -> P s'.
Proof.
  intros Hstep s es. revert s. induction es as [|e es IH]; intros s s' Hs; cbn; [by intros [= <-]|].
  intros (s1 & Hs1 & Hes)%bind_Some. eapply IH; [|exact Hes]. by eapply Hstep.
Qed.

Definition live s : list nat := map fst (map_to_list (connections s)).

(** Every connection is live or has ended in one way; a drain follows a
    shutdown, and nothing is live after it; what a connection attaches to its
    requests is the peer it was accepted from. *)
Definition task_ok (t : Task Config) : Prop :=
  match t_phase t with
  | Open c | Closing c => conn_peer c = t_peer t
  | _ => True
  end.
Record server_ok s : Prop := {
  so_ends : joined s ++ aborted s ++ live s ≡ₚ seq 0 (spawned s);
  so_cancelled : mode s <> Accepting -> cancelled s = true;
  so_returned : mode s = Returned -> connections s = ∅;
  so_peers : map_Forall (fun _ t => task_ok t) (connections s);
}.

Lemma live_lookup s i : i ∈ live s <-> is_Some (connections s !! i).
Proof.
  unfold live. rewrite list_elem_of_fmap. split.
  - intros ([j t] & -> & Ht%elem_of_map_to_list). by eexists.
  - intros [t Ht]. exists (i, t). split; [done|]. by apply elem_of_map_to_list.
Qed.

Lemma live_bound s i : server_ok s -> is_Some (connections s !! i) -> (i < spawned s)%nat.
Proof.
  intros Hs Hi%live_lookup. assert (i ∈ seq 0 (spawned s)) as Hin; [|apply elem_of_seq in Hin; lia].
  rewrite <- (so_ends s Hs). rewrite !elem_of_app. tauto.
Qed.

Lemma live_delete i t s : connections s !! i = Some t -> live s ≡ₚ i :: map fst (map_to_list (delete i (connections s))).
Proof. intros Ht. unfold live. rewrite <- (insert_delete_id _ _ _ Ht) at 1. by rewrite map_to_list_insert by apply lookup_delete_eq. Qed.

Lemma live_update i t t' (m : gmap nat (Task Config)) : m !! i = Some t -> map fst (map_to_list (<[i := t']> m)) ≡ₚ map fst (map_to_list m).
Proof.
  intros Ht. rewrite <- (insert_delete_id m i t Ht) at 2. rewrite <- (insert_delete_eq m i t').
  by rewrite !map_to_list_insert by apply lookup_delete_eq.
Qed.

Lemma set_phase_ok i p s s' : server_ok s -> (forall t, connections s !! i = Some t -> task_ok {| t_peer := t_peer t; t_config := t_config t; t_phase := p |}) ->
  set_phase i p s = Some s' -> server_ok s'.
Proof.
  intros [Hends Hcan Hret Hpeers] Hp (t & Ht & [= <-])%bind_Some. constructor; cbn; try done.
  - unfold live in *. cbn. by rewrite (live_update i t).
  - intros Hm. rewrite Hret in Ht by done. done.
  - apply map_Forall_insert_2; [by apply Hp|done].
Qed.

Lemma join_ok i s s' : server_ok s -> join i s = Some s' -> server_ok s' /\ mode s' = mode s.
Proof.
  intros [Hends Hcan Hret Hpeers] (t & Ht & Hj)%bind_Some. destruct (is_finished t); [|done]. injection Hj as <-. split; [|done].
  constructor; cbn; try done.
  - rewrite <- Hends, (live_delete i t s Ht). solve_Permutation.
  - intros Hm. by rewrite Hret in Ht.
  - by apply map_Forall_delete.
Qed.

Lemma spawn_ok peer s : server_ok s -> mode s <> Returned -> server_ok (spawn peer s).
Proof.
  intros Hs Hm. assert (connections s !! spawned s = None) as Hnew.
  { destruct (connections s !! spawned s) as [t|] eqn:Ht; [|done]. pose proof (live_bound s (spawned s) Hs ltac:(by eexists)). lia. }
  destruct Hs as [Hends Hcan Hret Hpeers].
  constructor; cbn [spawn mode cancelled joined aborted spawned connections]; try done.
  - unfold live in *. cbn [spawn connections]. rewrite map_to_list_insert by done. rewrite seq_S, <- Hends. cbn [map fst Nat.add].
    solve_Permutation.
  - apply map_Forall_insert_2; [|done]. unfold task_ok. cbn. by destruct (dynamic s).
Qed.

Lemma deadline_ok d s s' : server_ok s -> cancelled s = true -> deadline_reached d s = Some s' -> server_ok s' /\ mode s' = Returned.
Proof.
  intros [Hends Hcan Hret Hpeers] Hc. unfold deadline_reached. destruct (d <=? clock s); [|done]. intros [= <-]. split; [|done].
  constructor; cbn; try done. rewrite <- Hends. unfold live. cbn. rewrite map_to_list_empty. cbn.
  rewrite app_nil_r, <- !(assoc_L (++)). f_equiv. rewrite (comm (++)), <- (assoc_L (++)). f_equiv.
  rewrite (comm (++)), <- map_app. apply Permutation_map, filter_partition.
Qed.

Lemma step_ok s e s' : server_ok s -> step s e = Some s' -> server_ok s'.
Proof.
  intros Hs. destruct e as [|ms|f acc|i r|i|i|i| | |r|]; cbn.
  - intros [= <-]. destruct Hs. by constructor.
  - destruct (0 <=? ms); [|done]. intros [= <-]. destruct Hs. by constructor.
  - destruct (mode s) eqn:Hm; try done. unfold turn. destruct (cancelled s) eqn:Hc.
    + intros [= <-]. destruct Hs. by constructor.
    + destruct f as [i|]; [intros Hj; by apply (join_ok i s)|]. destruct (some_finished s); [done|]. intros [= <-].
      destruct acc as [[peer|]|]; try done. apply spawn_ok; [done|congruence].
  - intros (t & Ht & Hh)%bind_Some. destruct (t_phase t); try done. eapply set_phase_ok; [exact Hs| |exact Hh].
    intros t'. rewrite Ht. intros [= <-]. by destruct r.
  - intros (t & Ht & Hn)%bind_Some. destruct (cancelled s); [|done]. pose proof (so_peers s Hs i t Ht) as Hp. unfold task_ok in Hp.
    destruct (t_phase t); try done; (eapply set_phase_ok; [exact Hs| |exact Hn]); intros t'; rewrite Ht; by intros [= <-].
  - intros (t & Ht & Hn)%bind_Some. destruct (t_phase t); try done; by (eapply set_phase_ok; [exact Hs| |exact Hn]).
  - destruct (mode s); try done. intros Hj. by apply (join_ok i s).
  - destruct (mode s) eqn:Hm; try done. unfold drained. case_bool_decide; [|done]. intros [= <-]. destruct Hs. constructor; try done.
    intros _. apply so_cancelled0. congruence.
  - destruct (mode s) eqn:Hm; try done. intros Hd. eapply deadline_ok; [exact Hs| |exact Hd]. apply Hs. congruence.
  - unfold reload. destruct (watching s); [|done]. intros [= <-]. destruct Hs. by constructor.
  - unfold stop_watching. destruct (watching s && cancelled s); [|done]. intros [= <-]. destruct Hs. by constructor.
Qed.

Lemma listening_ok tls : server_ok (listening tls).
Proof. by constructor. Qed.

Lemma reachable_ok tls es s : serve_events (listening tls) es = Some s -> server_ok s.
Proof. apply (serve_invariant server_ok step_ok), listening_ok. Qed.

(** *** After a shutdown *)

(** What one step may change. *)
Definition dynamic_after (e : Event Config) s : option Config := match e with Reload (Ok c) => Some c | _ => dynamic s end.
Record advances (e : Event Config) s s' : Prop := {
  ad_cancelled : cancelled s = true -> cancelled s' = true;
  ad_clock : clock s <= clock s';
  ad_spawned : spawned s' = spawned s \/ cancelled s = false;
  ad_mode : mode s' = mode s \/ mode s' = Returned \/ cancelled s = true /\ mode s' = Draining (clock s + DRAIN_MS);
  ad_aborted : aborted s' = aborted s \/ exists d, mode s = Draining d /\ d <= clock s';
  ad_dynamic : dynamic s' = dynamic_after e s;
}.

Lemma advances_phase e i p s s' : dynamic_after e s = dynamic s -> set_phase i p s = Some s' -> advances e s s'.
Proof. intros He (t & _ & [= <-])%bind_Some. constructor; cbn; auto; lia. Qed.
Lemma advances_join e i s s' : dynamic_after e s = dynamic s -> join i s = Some s' -> advances e s s'.
Proof. intros He (t & _ & Hj)%bind_Some. destruct (is_finished t); [|done]. injection Hj as <-. constructor; cbn; auto; lia. Qed.

Lemma step_advances s e s' : step s e = Some s' -> advances e s s'.
Proof.
  destruct e as [|ms|f acc|i r|i|i|i| | |r|]; cbn; intros Hstep.
  - injection Hstep as <-. constructor; cbn; auto; lia.
  - destruct (0 <=? ms) eqn:Hms; [|done]. injection Hstep as <-. bool_prop. constructor; cbn; auto; lia.
  - destruct (mode s); try done. unfold turn in Hstep. destruct (cancelled s) eqn:Hc; [injection Hstep as <-; constructor; cbn; auto; lia|].
    destruct f as [i|]; [by eapply advances_join|]. destruct (some_finished s); [done|]. injection Hstep as <-.
    destruct acc as [[peer|]|]; constructor; cbn; auto; lia.
  - apply bind_Some in Hstep as (t & Ht & Hh). destruct (t_phase t); try done. by eapply advances_phase.
  - apply bind_Some in Hstep as (t & Ht & Hh). destruct (cancelled s); [|done]. destruct (t_phase t); try done; by eapply advances_phase.
  - apply bind_Some in Hstep as (t & Ht & Hh). destruct (t_phase t); try done; by eapply advances_phase.
  - destruct (mode s); try done. by eapply advances_join.
  - destruct (mode s); try done. unfold drained in Hstep. case_bool_decide; [|done]. injection Hstep as <-. constructor; cbn; auto; lia.
  - destruct (mode s) as [|d|] eqn:Hm; try done. unfold deadline_reached in Hstep. destruct (d <=? clock s) eqn:Hd; [|done].
    injection Hstep as <-. bool_prop. constructor; cbn; eauto; lia.
  - unfold reload in Hstep. destruct (watching s); [|done]. injection Hstep as <-. destruct r; constructor; cbn; auto; lia.
  - unfold stop_watching in Hstep. destruct (watching s && cancelled s) eqn:Hw; [|done]. injection Hstep as <-. constructor; cbn; auto; lia.
Qed.

(** From the clock [t0] of a server that accepts, a drain has eight seconds, and
    only its deadline cuts a connection off. *)
Record paced (t0 : Z) s : Prop := {
  pc_clock : t0 <= clock s;
  pc_deadline : forall d, mode s = Draining d -> t0 + DRAIN_MS <= d;
  pc_aborted : aborted s <> [] -> t0 + DRAIN_MS <= clock s;
}.

Lemma step_paced t0 s e s' : paced t0 s -> step s e = Some s' -> paced t0 s'.
Proof.
  intros [Hclock Hdl Hab] [_ Hc _ Hm Ha _]%step_advances. constructor; [lia| |].
  - intros d Hd. destruct Hm as [Hm|[Hm|[_ Hm]]]; [apply Hdl; congruence|congruence|]. rewrite Hd in Hm. injection Hm as ->. lia.
  - intros Hne. destruct Ha as [Ha|(d & Hd & Hle)]; [rewrite Ha in Hne; specialize (Hab Hne); lia|]. specialize (Hdl d Hd). lia.
Qed.

Lemma step_cancelled s0 s e s' : (cancelled s = true /\ spawned s = spawned s0) -> step s e = Some s' -> cancelled s' = true /\ spawned s' = spawned s0.
Proof. intros [Hc Hs] [Hc' _ Hs' _ _ _]%step_advances. destruct Hs' as [Hs'|Hs']; [|congruence]. split; [by apply Hc'|congruence]. Qed.

(** Nothing is cut off while the server accepts. *)
Definition spared s : Prop := server_ok s /\ (cancelled s = false -> aborted s = []).

Lemma step_spared s e s' : spared s -> step s e = Some s' -> spared s'.
Proof.
  intros [Hs Ha] Hstep. split; [by eapply step_ok|]. intros Hc. apply step_advances in Hstep as [Hc' _ _ _ Ha' _].
  destruct (cancelled s) eqn:Hcs; [rewrite Hc' in Hc; done|]. destruct Ha' as [->|(d & Hd & _)]; [by apply Ha|].
  assert (cancelled s = true); [apply Hs|]; congruence.
Qed.

Lemma accepting_paced s : spared s -> cancelled s = false -> paced (clock s) s.
Proof.
  intros [Hs Ha] Hc. constructor; [lia| |intros Hne; by rewrite Ha in Hne]. intros d Hm. assert (cancelled s = true); [apply Hs|]; congruence.
Qed.

(** C12.  A shutdown accepts nothing more and loses no connection: once it is
    requested, a [serve] that returns has seen every connection accepted before
    it end, each once, by finishing what it served or, eight seconds or more
    after the request, by being cut off. *)
Theorem shutdown_drains tls es s es' s' :
  serve_events (listening tls) es = Some s -> cancelled s = false -> serve_events s (Cancel :: es') = Some s' -> mode s' = Returned ->
  spawned s' = spawned s /\ joined s' ++ aborted s' ≡ₚ seq 0 (spawned s) /\ (aborted s' = [] \/ clock s + DRAIN_MS <= clock s').
Proof.
  intros Hs Hc Hrun Hm.
  assert (spared s) as Hsp. { eapply (serve_invariant spared); [apply step_spared| |exact Hs]. split; [apply listening_ok|done]. }
  assert (server_ok s') as Hok'. { eapply (serve_invariant server_ok step_ok); [apply Hsp|exact Hrun]. }
  pose proof (serve_invariant _ (step_paced (clock s)) _ _ _ (accepting_paced s Hsp Hc) Hrun) as [_ _ Hab].
  cbn in Hrun. apply (serve_invariant _ (step_cancelled s)) in Hrun as [_ Hsp']; [|done]. split_and!; [done| |].
  - pose proof (so_ends s' Hok') as Hends. unfold live in Hends. rewrite (so_returned s' Hok' Hm : connections s' = ∅), app_nil_r, Hsp' in Hends. exact Hends.
  - destruct (aborted s'); [by left|]. right. by apply Hab.
Qed.

Definition timely s : Prop := forall d, mode s = Draining d -> d <= clock s + DRAIN_MS.

Lemma step_timely s e s' : timely s -> step s e = Some s' -> timely s'.
Proof.
  intros Ht [_ Hc _ Hm _ _]%step_advances d Hd. destruct Hm as [Hm|[Hm|[_ Hm]]]; [rewrite Hd in Hm; specialize (Ht d (eq_sym Hm)); lia|congruence|].
  rewrite Hd in Hm. injection Hm as ->. lia.
Qed.

(** C31.  A shutdown returns in time: from any reachable state of the server in which
    it was requested, and if no connection makes progress any more, the deadline
    lets [serve] return within eight seconds of noticing. *)
Theorem shutdown_returns tls es s :
  serve_events (listening tls) es = Some s -> cancelled s = true -> mode s <> Returned ->
  exists ms s', 0 <= ms <= DRAIN_MS /\ mode s' = Returned /\
    serve_events s ((if bool_decide (mode s = Accepting) then [Turn None None] else []) ++ [Elapse ms; Deadline]) = Some s'.
Proof.
  intros Hrun Hc Hm. assert (timely s) as Ht by (by eapply (serve_invariant timely step_timely); [|exact Hrun]).
  destruct (mode s) as [|d|] eqn:Hmode; [| |done].
  - exists DRAIN_MS. rewrite bool_decide_eq_true_2 by done. cbn. rewrite Hmode. unfold turn. rewrite Hc. cbn. unfold deadline_reached. cbn.
    rewrite (proj2 (Z.leb_le (clock s + DRAIN_MS) (clock s + DRAIN_MS))) by lia. eexists. split_and!; cycle 3; [reflexivity|done..].
  - specialize (Ht d Hmode). exists (Z.max 0 (d - clock s)). rewrite bool_decide_eq_false_2 by done. cbn.
    rewrite (proj2 (Z.leb_le 0 (Z.max 0 (d - clock s)))) by lia. cbn. rewrite Hmode. unfold deadline_reached. cbn.
    rewrite (proj2 (Z.leb_le d (clock s + Z.max 0 (d - clock s)))) by lia. eexists. split_and!; cycle 3; [reflexivity|..|done].
    all: unfold DRAIN_MS in *; lia.
Qed.

(** *** Reloading *)

(** The configuration the last successful reload gave. *)
Definition loaded (c : option Config) es : option Config :=
  foldl (fun c e => match e with Reload (Ok c') => Some c' | _ => c end) c es.

Lemma events_dynamic s es s' : serve_events s es = Some s' -> dynamic s' = loaded (dynamic s) es.
Proof.
  revert s. induction es as [|e es IH]; intros s; cbn; [by intros [= <-]|]. intros (s1 & Hs1 & Hes)%bind_Some.
  rewrite (IH s1 Hes). unfold loaded. by rewrite (ad_dynamic _ _ _ (step_advances s e s1 Hs1)).
Qed.

(** A connection is accepted under the configuration of the last reload that
    succeeded: one that fails changes nothing. *)
Lemma accepted_config tls es s peer s' :
  serve_events (listening tls) es = Some s -> cancelled s = false -> step s (Turn None (Some (Ok peer))) = Some s' ->
  exists t, connections s' !! spawned s = Some t /\ t_peer t = peer /\ t_config t = loaded tls es.
Proof.
  intros Hrun Hc. cbn. destruct (mode s); try done. unfold turn. rewrite Hc. destruct (some_finished s); [done|]. intros [= <-].
  eexists. cbn. rewrite lookup_insert_eq. split_and!; [done..|]. cbn. by rewrite (events_dynamic _ _ _ Hrun).
Qed.
End Runs.

Module Shutdown.
(** Three connections: one finishes its requests, one is never done, and one is
    still in its handshake. *)
Definition before : list (Event nat) :=
  [Turn None (Some (Ok "a")); Handshake 0 (Ok None); Turn None (Some (Ok "b")); Handshake 1 (Ok None); Turn None (Some (Err "emfile"));
   Reload (Err "bad key"); Reload (Ok 2%nat); Turn None (Some (Ok "c")); Elapse 100].
Definition after : list (Event nat) :=
  [Notice 2; Notice 0; Notice 1; Turn None (Some (Ok "d")); DrainJoin 2; Elapse 5000; Served 0; DrainJoin 0; Elapse 3000; Deadline].

Lemma shutdown_drains_witness : exists s s',
  serve_events (listening (Some 1%nat)) before = Some s /\ serve_events s (Cancel :: after) = Some s' /\
  joined s' = [2; 0]%nat /\ aborted s' = [1]%nat /\ spawned s' = 3%nat /\ joined s' ++ aborted s' ≡ₚ seq 0 3 /\ clock s + DRAIN_MS <= clock s'.
Proof.
  destruct (serve_events (listening (Some 1%nat)) before) as [s|] eqn:Hs; [|by vm_compute in Hs].
  destruct (serve_events s (Cancel :: after)) as [s'|] eqn:Hs'; [|by vm_compute in Hs; injection Hs as <-; vm_compute in Hs'].
  exists s, s'. assert (Hc : cancelled s = false) by (vm_compute in Hs; by injection Hs as <-).
  assert (Hmode : mode s' = Returned /\ joined s' = [2; 0]%nat /\ aborted s' = [1]%nat /\ spawned s = 3%nat).
  { vm_compute in Hs. injection Hs as <-. vm_compute in Hs'. by injection Hs' as <-. }
  destruct Hmode as (Hmode & Hj & Ha & Hn). destruct (shutdown_drains (Some 1%nat) before s after s' Hs Hc Hs' Hmode) as (Hsp & Hends & Hab).
  rewrite Hn in *. split_and!; [done|exact Hs'|done..|]. destruct Hab as [Hab|Hab]; [congruence|exact Hab].
Defined.

Lemma shutdown_returns_witness : exists s,
  serve_events (listening (Some 1%nat)) (before ++ [Cancel]) = Some s /\ exists ms s', 0 <= ms <= DRAIN_MS /\ mode s' = Returned /\
    serve_events s [Turn None None; Elapse ms; Deadline] = Some s'.
Proof.
  destruct (serve_events (listening (Some 1%nat)) (before ++ [Cancel])) as [s|] eqn:Hs; [|by vm_compute in Hs].
  exists s. split; [done|]. assert (Hc : cancelled s = true /\ mode s = Accepting) by (vm_compute in Hs; by injection Hs as <-).
  destruct Hc as [Hc Hm]. destruct (shutdown_returns (Some 1%nat) _ s Hs Hc ltac:(by rewrite Hm)) as (ms & s' & Hms & Hret & Hrun).
  rewrite Hm, bool_decide_eq_true_2 in Hrun by done. by exists ms, s'.
Defined.
End Shutdown.
