(* ===== verification/Clients.v ===== *)
(** * The Kafka clients

    How each part of the gateway builds its Kafka clients: the dedup engine and
    store ([dedup/mod.rs], [dedup/store.rs]), the membership reader and publisher
    ([dedup/membership.rs]), the producing core ([produce.rs]), consume sessions
    ([consume.rs]), outbound subscriptions ([outbound.rs], [bin/gateway.rs]),
    queue sessions ([queue.rs]) and the administration client
    ([dedup/topic.rs]).  A configuration is the record of the builder's calls; a
    setter that is not called is [None] or [false].  What building answers is an
    argument; [Boot.run] calls these with the process's configuration.  Then: which
    transactional ids fence each other, and what a session commits that was never
    acknowledged. *)

From stdpp Require Import pretty.
From S2P Require Import Prelude.
From S2P Require Import Decimal.
From S2P Require Import RustNum.
From S2P Require Import Types.
From S2P Require Import Membership.
From S2P Require Import Dedup.
From S2P Require Import Produce.
From S2P Require Import Consume.
From S2P Require Import Queue.
From S2P Require Import Settings.
From S2P Require Import CloudEvents.
From S2P Require Import Webhook.
From S2P Require Import Outbound.
From S2P Require Import Access.
From S2P Require Import Startup.

(** ** Configurations *)

Inductive Listener := OwnershipReplay (topic : string) | MembershipReplay.

Record ConsumerConfig := {
  cc_bootstrap : string;
  cc_client_id : string;
  cc_dispatch_queue_capacity : Z;
  cc_frame_max : Z;
  cc_group_id : string;
  cc_topics : list string;
  cc_read_committed : bool;      (** [isolation_level(ReadCommitted)] *)
  cc_earliest : bool;            (** [auto_offset_reset(Earliest)] *)
  cc_auto_commit : option bool;  (** [enable_auto_commit] *)
  cc_listener : option Listener;
  cc_cooperative : bool;         (** [assignors([CooperativeSticky])] *)
  cc_security : option BrokerSecurity;
}.

Record ProducerConfig := {
  kp_bootstrap : string;
  kp_client_id : string;
  kp_limits : option (Z * Z);  (** [dispatch_queue_capacity] and [frame_max] *)
  kp_idempotence : bool;
  kp_acks : Acks;
  kp_transactional_id : option string;
  kp_security : option BrokerSecurity;
}.

(** [explicit_acks] is [ShareAckMode::Explicit], [record_limit] is
    [ShareAcquireMode::RecordLimit]. *)
Record ShareConfig := {
  sc_bootstrap : string;
  sc_client_id : string;
  sc_group_id : string;
  sc_topics : list string;
  sc_explicit_acks : bool;
  sc_record_limit : bool;
  sc_fetch_max_records : Z;
  sc_dispatch_queue_capacity : Z;
  sc_frame_max : Z;
  sc_security : option BrokerSecurity;
}.

(** [ConnectionOptions], whose other fields are the library's defaults. *)
Record AdminConfig := {
  ad_addrs : list string;
  ad_setup_timeout_secs : Z;
  ad_request_timeout_secs : Z;
  ad_client_id : string;
  ad_dispatch_queue_capacity : Z;
  ad_frame_max : Z;
  ad_security : option BrokerSecurity;
}.

Section Build.
  Context `{Units}.

Definition limits (policy : GatewayRuntimeConfig) : Z * Z := (client_dispatch_queue_capacity policy, client_frame_max policy).

(** *** The dedup engine *)

Record DedupEngine := {
  eng_bootstrap : string;
  eng_client_id : string;
  eng_txn_id_prefix : string;
  eng_dedup_topic : string;
  eng_partitions : Z;
  eng_slots : list (option Z);  (** the epoch of the producer in each slot *)
  eng_security : option BrokerSecurity;
  eng_limits : Z * Z;
}.

(** [None] is the panic of the assertions. *)
Definition DedupEngine_new_with_policy (bootstrap client_id txn_id_prefix dedup_topic : string) (partitions : Z)
    (security : option BrokerSecurity) (policy : GatewayRuntimeConfig) : option DedupEngine :=
  if partitions_ok partitions then
    Some {| eng_bootstrap := bootstrap; eng_client_id := client_id; eng_txn_id_prefix := txn_id_prefix;
            eng_dedup_topic := dedup_topic; eng_partitions := partitions;
            eng_slots := replicate (Z.to_nat partitions) None; eng_security := security; eng_limits := limits policy |}
  else None.

Definition init_producer_config (e : DedupEngine) (p : Z) : ProducerConfig :=
  {| kp_bootstrap := eng_bootstrap e; kp_client_id := eng_client_id e +:+ "-dedup-" +:+ pretty p;
     kp_limits := Some (eng_limits e); kp_idempotence := true; kp_acks := AcksAll;
     kp_transactional_id := Some (eng_txn_id_prefix e +:+ "-" +:+ pretty p); kp_security := eng_security e |}.

(** Building answers the producer, [init_transactions] its epoch. *)
Definition init_producer (e : DedupEngine) (build : ProducerConfig -> result ProducerError unit) (init : string -> result ProducerError Z)
    (p : Z) : result GatewayError Z :=
  let config := init_producer_config e p in
  _ ← map_err Producer (build config);
  match kp_transactional_id config with
  | Some id => map_err Producer (init id)
  | None => Err (Other "no transactional id")
  end.

(** *** The readers of the internal topics *)

Definition ownership_consumer (bootstrap client_id dedup_topic group : string) (security : option BrokerSecurity)
    (policy : GatewayRuntimeConfig) : ConsumerConfig :=
  {| cc_bootstrap := bootstrap; cc_client_id := client_id; cc_dispatch_queue_capacity := client_dispatch_queue_capacity policy;
     cc_frame_max := client_frame_max policy; cc_group_id := group; cc_topics := [dedup_topic]; cc_read_committed := true;
     cc_earliest := true; cc_auto_commit := Some false; cc_listener := Some (OwnershipReplay dedup_topic); cc_cooperative := true;
     cc_security := security |}.

Definition membership_consumer (bootstrap client_id membership_topic group : string) (security : option BrokerSecurity)
    (policy : GatewayRuntimeConfig) : ConsumerConfig :=
  {| cc_bootstrap := bootstrap; cc_client_id := client_id; cc_dispatch_queue_capacity := client_dispatch_queue_capacity policy;
     cc_frame_max := client_frame_max policy; cc_group_id := group; cc_topics := [membership_topic]; cc_read_committed := true;
     cc_earliest := true; cc_auto_commit := Some false; cc_listener := Some MembershipReplay; cc_cooperative := true;
     cc_security := security |}.

(** [MembershipReplay]: the seek of a new assignment; [Err] is the client's. *)
Definition membership_assigned (parts : list TopicPartition) (seek : list TopicPartition -> result ConsumerError unit)
    : result ConsumerError unit :=
  match parts with [] => Ok () | _ => seek parts end.

Definition publisher_producer (bootstrap client_id : string) (security : option BrokerSecurity) (policy : GatewayRuntimeConfig)
    : ProducerConfig :=
  {| kp_bootstrap := bootstrap; kp_client_id := client_id; kp_limits := Some (limits policy); kp_idempotence := true;
     kp_acks := AcksAll; kp_transactional_id := None; kp_security := security |}.

Definition MembershipPublisher_new_with_policy (build : ProducerConfig -> result ProducerError unit)
    (bootstrap client_id node_id advertised_addr topic : string) (security : option BrokerSecurity) (policy : GatewayRuntimeConfig)
    : result GatewayError MembershipPublisher :=
  _ ← map_err Producer (build (publisher_producer bootstrap client_id security policy));
  Ok {| node_id := node_id; pub_advertised_addr := advertised_addr; Membership.membership_topic := topic; pub_epoch := 0 |}.

(** [write_claim]: the record sent, and the store afterwards. *)
Definition claim_writer (bootstrap client_id : string) (security : option BrokerSecurity) : ProducerConfig :=
  {| kp_bootstrap := bootstrap; kp_client_id := client_id; kp_limits := None; kp_idempotence := true; kp_acks := AcksAll;
     kp_transactional_id := None; kp_security := security |}.
Definition write_claim `{Serde ClaimValue} (s : DedupStore) (build : ProducerConfig -> result ProducerError unit)
    (send : ProducerRecord -> result ProducerError RecordMetadata) (bootstrap client_id dedup_topic key : string) (v : ClaimValue)
    (security : option BrokerSecurity) : DedupStore * option ProducerRecord * result GatewayError unit :=
  match map_err Producer (build (claim_writer bootstrap client_id security)) with
  | Err e => (s, None, Err e)
  | Ok _ =>
      match map_err Claim (to_vec v) with
      | Err e => (s, None, Err e)
      | Ok body =>
          let r := claim_record dedup_topic key (partition_for key (partitions s)) body in
          match send r with
          | Err e => (s, Some r, Err (Producer e))
          | Ok _ => (apply s key v, Some r, Ok ())
          end
      end
  end.

(** *** The producing core *)

Definition core_producer (bootstrap client_id : string) (security : option BrokerSecurity) (policy : GatewayRuntimeConfig)
    (acks : Acks) (enable_idempotence : bool) : ProducerConfig :=
  {| kp_bootstrap := bootstrap; kp_client_id := client_id; kp_limits := Some (limits policy); kp_idempotence := enable_idempotence;
     kp_acks := acks; kp_transactional_id := None; kp_security := security |}.

(** The three producers of a core. *)
Record Producers := { producer_all : ProducerConfig; producer_one : ProducerConfig; producer_zero : ProducerConfig }.

(** The builds run together; of those that fail, the one that fails first,
    here the [first]th, is the answer. *)
Definition ProduceCore_new_with_policy (build : ProducerConfig -> result ProducerError unit) (first : nat)
    (bootstrap client_id : string) (security : option BrokerSecurity) (policy : GatewayRuntimeConfig)
    : result GatewayError (Producers * ProduceCore) :=
  let make := core_producer bootstrap client_id security policy in
  let ps := {| producer_all := make AcksAll true; producer_one := make AcksOne false; producer_zero := make AcksZero false |} in
  match omap (fun p => match build p with Ok _ => None | Err e => Some e end) [producer_all ps; producer_one ps; producer_zero ps] with
  | [] => Ok (ps, {| pc_dedup := None; forwarding := None |})
  | e :: errors => Err (Producer (nth first (e :: errors) e))
  end.
Definition with_dedup (c : ProduceCore) (dedup : DedupStore) : ProduceCore :=
  {| pc_dedup := Some dedup; forwarding := forwarding c |}.
Definition with_forwarding (c : ProduceCore) (membership : MembershipStore) (addr : string) : ProduceCore :=
  {| pc_dedup := pc_dedup c; forwarding := Some {| fwd_membership := membership; self_addr := addr |} |}.

(** *** Sessions and subscriptions *)

Definition session_consumer (bootstrap group_id client_id : string) (topics : list string) (security : option BrokerSecurity)
    (policy : GatewayRuntimeConfig) : ConsumerConfig :=
  {| cc_bootstrap := bootstrap; cc_client_id := client_id; cc_dispatch_queue_capacity := client_dispatch_queue_capacity policy;
     cc_frame_max := client_frame_max policy; cc_group_id := group_id; cc_topics := topics; cc_read_committed := true;
     cc_earliest := true; cc_auto_commit := None; cc_listener := None; cc_cooperative := false; cc_security := security |}.

Definition ConsumeSession_new_with_policy (build : ConsumerConfig -> result ConsumerError unit) (bootstrap group_id client_id : string)
    (topics : list string) (security : option BrokerSecurity) (policy : GatewayRuntimeConfig) : result GatewayError ConsumeSession :=
  _ ← map_err Consumer (build (session_consumer bootstrap group_id client_id topics security policy));
  Ok {| consumer_open := true; ack_tracker := ∅ |}.

(** [run_subscription_with_policy] up to its loop: the HTTP client, then the
    consumer. *)
Definition subscription_consumer `{JsonPath} (sub : CompiledSubscription) (bootstrap client_id : string) (security : option BrokerSecurity)
    (policy : GatewayRuntimeConfig) : ConsumerConfig :=
  {| cc_bootstrap := bootstrap; cc_client_id := client_id; cc_dispatch_queue_capacity := client_dispatch_queue_capacity policy;
     cc_frame_max := client_frame_max policy; cc_group_id := Outbound.group_id sub; cc_topics := source_topics sub;
     cc_read_committed := true; cc_earliest := true; cc_auto_commit := None; cc_listener := None; cc_cooperative := true;
     cc_security := security |}.
Definition open_subscription `{JsonPath} (http : Time -> result string unit) (build : ConsumerConfig -> result ConsumerError unit)
    (sub : CompiledSubscription) (bootstrap client_id : string) (security : option BrokerSecurity) (policy : GatewayRuntimeConfig)
    : result GatewayError unit :=
  _ ← map_err (fun e => Other ("build outbound http client: " +:+ e)) (http (request_timeout sub));
  map_err Consumer (build (subscription_consumer sub bootstrap client_id security policy)).

Definition dlq_producer `{JsonPath} (c : GatewayConfig) : ProducerConfig :=
  {| kp_bootstrap := bootstrap_servers (cfg_flags c); kp_client_id := client_id (cfg_flags c) +:+ "-outbound-dlq";
     kp_limits := Some (limits (cfg_runtime c)); kp_idempotence := true; kp_acks := AcksAll; kp_transactional_id := None;
     kp_security := cfg_broker_security c |}.

(** The share consumer of [start_session]. *)
Definition share_consumer `{JsonPath} (c : GatewayConfig) (group_id : string) (topics : list string) (max_messages : Z) : ShareConfig :=
  {| sc_bootstrap := bootstrap_servers (cfg_flags c); sc_client_id := client_id (cfg_flags c) +:+ "-queue"; sc_group_id := group_id;
     sc_topics := topics; sc_explicit_acks := true; sc_record_limit := true; sc_fetch_max_records := max_messages;
     sc_dispatch_queue_capacity := client_dispatch_queue_capacity (cfg_runtime c); sc_frame_max := client_frame_max (cfg_runtime c);
     sc_security := cfg_broker_security c |}.

(** *** Administration *)

Abbreviation Answers := (nat -> CreateTopicSpec -> Time -> result string (list (option Z))) (only parsing).

Definition bootstrap_addrs (bootstrap : string) : list string := map (fun s => of_bytes (trim s)) (split_char ","%char (as_bytes bootstrap)).
Definition admin_options (bootstrap : string) (security : option BrokerSecurity) (runtime : GatewayRuntimeConfig) : AdminConfig :=
  {| ad_addrs := bootstrap_addrs bootstrap; ad_setup_timeout_secs := 5; ad_request_timeout_secs := 30; ad_client_id := "krabka-operator";
     ad_dispatch_queue_capacity := client_dispatch_queue_capacity runtime; ad_frame_max := client_frame_max runtime;
     ad_security := security |}.

Definition ensure_dedup_topic_with_policy (connect : AdminConfig -> result string unit) (admin : Answers) (bootstrap name : string)
    (partitions : Z) (window : Time) (policy : InternalTopicPolicy) (security : option BrokerSecurity) (runtime : GatewayRuntimeConfig)
    : option (list CreateTopicSpec * result GatewayError unit) :=
  ensure_dedup_topic (connect (admin_options bootstrap security runtime)) admin name partitions window policy.
Definition ensure_membership_topic_with_policy (connect : AdminConfig -> result string unit) (admin : Answers) (bootstrap name : string)
    (policy : InternalTopicPolicy) (security : option BrokerSecurity) (runtime : GatewayRuntimeConfig)
    : option (list CreateTopicSpec * result GatewayError unit) :=
  ensure_membership_topic (connect (admin_options bootstrap security runtime)) admin name policy.

(** *** The constructors with the default policy *)

Context (capacity frame_max : Z).
Definition default_policy : GatewayRuntimeConfig := GatewayRuntimeConfig_default capacity frame_max.

Definition DedupEngine_new (bootstrap client_id txn_id_prefix dedup_topic : string) (partitions : Z) (security : option BrokerSecurity)
    : option DedupEngine :=
  DedupEngine_new_with_policy bootstrap client_id txn_id_prefix dedup_topic partitions security default_policy.
Definition MembershipPublisher_new (build : ProducerConfig -> result ProducerError unit)
    (bootstrap client_id node_id advertised_addr topic : string) (security : option BrokerSecurity) : result GatewayError MembershipPublisher :=
  MembershipPublisher_new_with_policy build bootstrap client_id node_id advertised_addr topic security default_policy.
Definition ProduceCore_new (build : ProducerConfig -> result ProducerError unit) (first : nat) (bootstrap client_id : string)
    (security : option BrokerSecurity) : result GatewayError (Producers * ProduceCore) :=
  ProduceCore_new_with_policy build first bootstrap client_id security default_policy.
Definition ConsumeSession_new (build : ConsumerConfig -> result ConsumerError unit) (bootstrap group_id client_id : string)
    (topics : list string) (security : option BrokerSecurity) : result GatewayError ConsumeSession :=
  ConsumeSession_new_with_policy build bootstrap group_id client_id topics security default_policy.
Definition ensure_dedup_topic_default (connect : AdminConfig -> result string unit) (admin : Answers) (bootstrap name : string)
    (partitions : Z) (window : Time) (policy : InternalTopicPolicy) (security : option BrokerSecurity)
    : option (list CreateTopicSpec * result GatewayError unit) :=
  ensure_dedup_topic_with_policy connect admin bootstrap name partitions window policy security default_policy.
Definition ensure_membership_topic_default (connect : AdminConfig -> result string unit) (admin : Answers) (bootstrap name : string)
    (policy : InternalTopicPolicy) (security : option BrokerSecurity) : option (list CreateTopicSpec * result GatewayError unit) :=
  ensure_membership_topic_with_policy connect admin bootstrap name policy security default_policy.
End Build.

(** ** Fencing *)

(** C3.  Producers fence each other exactly as the engines mean them to: the
    transactional ids of two partitions, on whatever replicas, are the same only
    for the same prefix and the same dedup partition, and then always. *)
Theorem transactional_ids e e' p p' :
  0 <= p -> 0 <= p' ->
  kp_transactional_id (init_producer_config e p) = kp_transactional_id (init_producer_config e' p')
  <-> eng_txn_id_prefix e = eng_txn_id_prefix e' /\ p = p'.
Proof.
  intros Hp Hp'. cbn. split; [|by intros [-> ->]]. intros [= He]. by apply numbered_inj in He.
Qed.

(** ** What a session commits *)

(** The native consumer: whether it commits on its own where
    [enable_auto_commit] is not called, and what it commits when it is closed,
    given whether it does and its positions. *)
Class NativeConsumer := {
  default_auto_commit : bool;
  close_commits : bool -> gmap TopicPartition Z -> gmap TopicPartition Z;
}.
Class NativeConsumerLaws `{NativeConsumer} : Prop := {
  close_commits_auto : forall positions, close_commits true positions = positions;
  close_commits_manual : forall positions, close_commits false positions = ∅;
}.

Definition record_tp (r : ConsumerRecord) : TopicPartition := (cr_topic r, cr_partition r).
(** The positions after the records were polled. *)
Definition advance (m : gmap TopicPartition Z) (r : ConsumerRecord) : gmap TopicPartition Z := <[record_tp r := cr_offset r + 1]> m.
Definition positions (polled : list ConsumerRecord) : gmap TopicPartition Z := foldl advance ∅ polled.
(** [Drop] of a session: the consumer is taken and closed. *)
Definition drop_session `{NativeConsumer} (x : ConsumerConfig) (s : ConsumeSession) (polled : list ConsumerRecord) : gmap TopicPartition Z :=
  if consumer_open s then close_commits (default default_auto_commit (cc_auto_commit x)) (positions polled) else ∅.

Lemma positions_last pre r post :
  (forall r', r' ∈ post -> record_tp r' <> record_tp r) -> positions (pre ++ r :: post) !! record_tp r = Some (cr_offset r + 1).
Proof.
  intros Hpost. unfold positions. rewrite foldl_app. cbn [foldl].
  assert (forall m, m !! record_tp r = Some (cr_offset r + 1) -> foldl advance m post !! record_tp r = Some (cr_offset r + 1)) as Hgo.
  { induction post as [|r' post IH]; [done|]. intros m Hm. cbn. apply IH; [intros r1 Hr1; apply Hpost; by right|]. unfold advance.
    rewrite lookup_insert_ne; [done|]. apply Hpost. left. }
  apply Hgo. unfold advance. by rewrite lookup_insert_eq.
Qed.

(** C38.  Dropping a session commits what was never acknowledged.  The consumer
    of a session is built without a word on automatic commits; with a client that
    commits by default, the last polled record of a partition is committed when
    the session ends, though the tracker, for as long as it is not acknowledged,
    commits nothing above it. *)
Theorem drop_commits_unacknowledged `{NativeConsumerLaws} `{Units} bootstrap group client topics security policy
    es owned broker pre r post sp :
  default_auto_commit = true -> Forall event_ok es -> (forall r', r' ∈ post -> record_tp r' <> record_tp r) ->
  spec_run es !! record_tp r = Some sp -> cr_offset r ∈ Spec.sdelivered sp -> cr_offset r ∉ Spec.sacked sp ->
  drop_session (session_consumer bootstrap group client topics security policy) (session_run es) (pre ++ r :: post) !! record_tp r
    = Some (cr_offset r + 1)
  /\ forall req n, (commit_acked (session_run es) owned broker).1.2 = Some req -> req !! record_tp r = Some n -> n <= cr_offset r.
Proof.
  intros Hdef Hes Hpost Hsp Hdel Hack. split.
  - unfold drop_session. destruct (session_run_refines es Hes) as [_ ->]. cbn. rewrite Hdef, close_commits_auto. by apply positions_last.
  - intros req n ->%commit_acked_sent Hn. destruct (request_covers _ _ _ _ Hes Hn) as (_ & sp' & Hsp' & _ & Hcov).
    rewrite Hsp in Hsp'. injection Hsp' as <-. destruct (decide (n <= cr_offset r)); [done|]. exfalso. apply Hack, Hcov; [done|lia].
Qed.

(** ** A replica *)

Module Built.
Import Hooks.

Definition engine (client_id : string) : DedupEngine :=
  {| eng_bootstrap := "broker:9092"; eng_client_id := client_id; eng_txn_id_prefix := "gw-1"; eng_dedup_topic := "__dedup";
     eng_partitions := 16; eng_slots := replicate 16 None; eng_security := None; eng_limits := (64, 1048576) |}.

Lemma transactional_ids_witness :
  kp_transactional_id (init_producer_config (engine "a") 1) = kp_transactional_id (init_producer_config (engine "b") 11)
  <-> eng_txn_id_prefix (engine "a") = eng_txn_id_prefix (engine "b") /\ 1 = 11.
Proof. apply (transactional_ids (engine "a") (engine "b") 1 11); lia. Defined.

Definition client : NativeConsumer := {| default_auto_commit := true; close_commits := fun auto m => if auto then m else ∅ |}.
Lemma client_laws : NativeConsumerLaws (H:=client).
Proof. by split. Qed.

Definition polled (o : Z) : ConsumerRecord :=
  {| cr_topic := "orders"; cr_partition := 0; cr_offset := o; cr_timestamp := 0; cr_key := None; cr_value := None; cr_headers := [] |}.

(** Of 5, 6 and 9 only 9 is not acknowledged. *)
Lemma drop_commits_unacknowledged_witness :
  drop_session (H:=client) (session_consumer "broker:9092" "g" "gw" ["orders"] None (default_policy 64 1048576)) (session_run sample)
    ([polled 5; polled 6] ++ [polled 9]) !! orders0 = Some 10
  /\ forall req n, (commit_acked (session_run sample) {[orders0]} (fun _ => Ok ())).1.2 = Some req -> req !! orders0 = Some n -> n <= 9.
Proof.
  apply (drop_commits_unacknowledged (H:=client) (H0:=client_laws) "broker:9092" "g" "gw" ["orders"] None (default_policy 64 1048576)
    sample {[orders0]} (fun _ => Ok ()) [polled 5; polled 6] (polled 9) []
    {| Spec.base := Some 4; Spec.sdelivered := {[5; 6; 9]}; Spec.sacked := {[5; 6]} |});
    [done|exact sample_ok|intros r' Hr; by apply elem_of_nil in Hr|vm_compute; reflexivity|set_solver|set_solver].
Defined.
End Built.
