(* ===== verification/Boot.v ===== *)
(** * The start of the process

    [run] of [bin/gateway.rs]: the process creates its internal topics, builds
    the claim store, the membership publisher and the dedup engine, spawns the
    tasks around them, builds the producing core and serves.  Each step is the
    operation of its component: topic creation is [Settings]' and [Clients]', the
    store [Dedup]'s, the publisher, the engine and the core are built by
    [Clients], and what follows the last step is [Serve].  What the brokers, the
    libraries and the operating system answer is an argument. *)

From stdpp Require Import pretty.
From S2P Require Import Prelude.
From S2P Require Import Types.
From S2P Require Import Membership.
From S2P Require Import Dedup.
From S2P Require Import Produce.
From S2P Require Import Settings.
From S2P Require Import CloudEvents.
From S2P Require Import Webhook.
From S2P Require Import Outbound.
From S2P Require Import Access.
From S2P Require Import Startup.
From S2P Require Import Clients.

(** ** What a start does *)

Section Run.
  Context `{Units} `{JsonPath}.

(** The claim store with the two cells that are set once: the publisher of its
    assignments and the engine it fences with. *)
Record Cells := { cell_store : DedupStore; cell_membership : option MembershipPublisher; cell_engine : option DedupEngine }.
Definition set_membership (s : Cells) (p : MembershipPublisher) : Cells :=
  match cell_membership s with
  | None => {| cell_store := cell_store s; cell_membership := Some p; cell_engine := cell_engine s |}
  | Some _ => s
  end.
(** [None] is the panic of the assertion. *)
Definition set_engine (s : Cells) (e : DedupEngine) : option Cells :=
  match cell_engine s with
  | None => Some {| cell_store := cell_store s; cell_membership := cell_membership s; cell_engine := Some e |}
  | Some _ => None
  end.

(** The tasks, with the clients they build and what they are handed. *)
Inductive Spawn :=
| MembershipReader (x : ConsumerConfig)
| ReadinessWatcher (interval : Time)
| OwnershipConsumer (x : ConsumerConfig) (store : Cells)
| OutboundDelivery (sub : CompiledSubscription) (x : ConsumerConfig)
| AclRefresh (x : AdminConfig) (interval : Time)
| SignalTask.
Inductive Event :=
| TopicRequested (spec : CreateTopicSpec)
| Spawned (t : Spawn)
| Serving (core : ProduceCore) (bearer tls : bool).

(** How a start ends when it does not serve: an error of the gateway's own, one
    with a message, or the panic of an assertion. *)
Inductive BootFault := Gateway (e : GatewayError) | Anyhow (message : string) | Asserted.

Definition Boot (A : Type) : Type := list Event * result BootFault A.
#[local] Instance boot_ret : MRet Boot := fun A a => ([], Ok a).
#[local] Instance boot_bind : MBind Boot := fun A B f m =>
  match m with
  | (t, Ok a) => let '(t', r) := f a in (t ++ t', r)
  | (t, Err e) => (t, Err e)
  end.

(** What answers a start: the administration client for either topic, the
    producers' builds, of which the [bw_first]th failure of three is the first,
    the TLS and HTTP libraries, and the listener. *)
Record World := {
  bw_connect : AdminConfig -> result string unit;
  bw_admin : nat -> CreateTopicSpec -> Time -> result string (list (option Z));
  bw_producer : ProducerConfig -> result ProducerError unit;
  bw_dlq_message : ProducerError -> string;
  bw_first : nat;
  bw_client_tls : TlsSettings -> result string unit;
  bw_forward_client : result string unit;
  bw_registry : string -> Time -> result string unit;
  bw_server_tls : TlsSettings -> result string unit;
  bw_bind : string -> result string unit;
  bw_local_addr : result string unit;
  bw_serve : result string unit;
}.
Context (w : World).

Definition emit (e : Event) : Boot unit := ([e], Ok ()).
Definition launch (t : Spawn) : Boot unit := emit (Spawned t).
Definition gateway {A} (r : result GatewayError A) : Boot A := ([], map_err Gateway r).
Definition anyhow {A} (prefix : string) (r : result string A) : Boot A := ([], map_err (fun e => Anyhow (prefix +:+ e)) r).
Definition asserted {A} (o : option A) : Boot A := ([], ok_or Asserted o).
(** The requests of a topic's creation, which always ends. *)
Definition requested (o : option (list CreateTopicSpec * result GatewayError unit)) : Boot unit :=
  match o with
  | Some (specs, r) => (map TopicRequested specs, map_err Gateway r)
  | None => ([], Err Asserted)
  end.
Fixpoint each {A} (f : A -> Boot unit) (l : list A) : Boot unit :=
  match l with [] => mret () | x :: l => _ ← f x; each f l end.

(** ** [spawn_outbound_subscriptions] *)

Definition spawn_outbound_subscriptions (c : GatewayConfig) : Boot unit :=
  match cfg_outbound c with
  | [] => mret ()
  | subs =>
      _ ← anyhow "build outbound dlq producer: " (map_err (bw_dlq_message w) (bw_producer w (dlq_producer c)));
      each (fun s => launch (OutboundDelivery s
        (subscription_consumer s (bootstrap_servers (cfg_flags c)) (client_id (cfg_flags c) +:+ "-outbound-" +:+ Outbound.name s)
           (cfg_broker_security c) (cfg_runtime c)))) subs
  end.

Definition ownership_consumer_inputs (c : GatewayConfig) : string * string * string * string :=
  (bootstrap_servers (cfg_flags c), client_id (cfg_flags c) +:+ "-dedup-owner", dedup_topic (cfg_flags c), cfg_dedup_ownership_group c).

(** ** [run] *)

(** Up to the ownership consumer, which is the last to be handed the store. *)
Definition join (c : GatewayConfig) (node_id : string) : Boot Cells :=
  let f := cfg_flags c in
  let bootstrap := bootstrap_servers f in
  let security := cfg_broker_security c in
  let runtime := cfg_runtime c in
  let policy := internal_topic_policy runtime in
  _ ← requested (ensure_dedup_topic_with_policy (bw_connect w) (bw_admin w) bootstrap (dedup_topic f) (cfg_dedup_partitions c)
                   (cfg_dedup_window c) policy security runtime);
  _ ← requested (ensure_membership_topic_with_policy (bw_connect w) (bw_admin w) bootstrap (membership_topic f) policy security runtime);
  store ← asserted (DedupStore_new (cfg_dedup_partitions c) (ownership_warmup_empty_polls runtime));
  let store := {| cell_store := store; cell_membership := None; cell_engine := None |} in
  _ ← launch (MembershipReader (membership_consumer bootstrap (client_id f +:+ "-membership") (membership_topic f)
                                 ("__krabka_gateway_membership_reader-" +:+ node_id) security runtime));
  publisher ← gateway (MembershipPublisher_new_with_policy (bw_producer w) bootstrap (client_id f +:+ "-membership-pub") node_id
                         (advertised_addr f) (membership_topic f) security runtime);
  let store := set_membership store publisher in
  _ ← launch (ReadinessWatcher (readiness_poll_interval runtime));
  engine ← asserted (DedupEngine_new_with_policy bootstrap (client_id f) (dedup_txn_id_prefix f) (dedup_topic f)
                       (cfg_dedup_partitions c) security runtime);
  store ← asserted (set_engine store engine);
  _ ← (let '(bootstrap, id, topic, group) := ownership_consumer_inputs c in
       launch (OwnershipConsumer (ownership_consumer bootstrap id topic group security runtime) store));
  mret store.

(** From there: the forwarder, the codec, the subscriptions, the core, the
    authorizer, the signal task, and the listener. *)
Definition serve_joined (c : GatewayConfig) (bearer : bool) (store : Cells) : Boot unit :=
  let f := cfg_flags c in
  let security := cfg_broker_security c in
  let runtime := cfg_runtime c in
  _ ← match cfg_tls c with
      | Some t =>
          _ ← anyhow "build forward client tls: " (bw_client_tls w t);
          gateway (map_err (fun e => Forward ("build tls forward client: " +:+ e)) (bw_forward_client w))
      | None => mret ()
      end;
  _ ← match schema_registry_url f with
      | Some url => anyhow "schema registry client: " (bw_registry w url (schema_registry_latest_cache_ttl runtime))
      | None => mret ()
      end;
  _ ← spawn_outbound_subscriptions c;
  core ← gateway (ProduceCore_new_with_policy (bw_producer w) (bw_first w) (bootstrap_servers f) (client_id f) security runtime);
  let core := with_forwarding (with_dedup core.2 (cell_store store)) MembershipStore_new (advertised_addr f) in
  _ ← match cfg_authz c with
      | Some a => launch (AclRefresh (admin_options (bootstrap_servers f) security runtime) (acl_refresh_every a))
      | None => mret ()
      end;
  _ ← launch SignalTask;
  _ ← match cfg_tls c with
      | Some t => _ ← asserted (reload_tick (reload_interval t)); anyhow "build tls server config: " (bw_server_tls w t)
      | None => mret ()
      end;
  _ ← anyhow EmptyString (bw_bind w (listen_addr f));
  _ ← anyhow EmptyString (bw_local_addr w);
  _ ← emit (Serving core bearer (is_some (cfg_tls c)));
  anyhow EmptyString (bw_serve w).

Definition run (c : GatewayConfig) (bearer : bool) (node_id : string) : Boot unit :=
  store ← join c node_id;
  serve_joined c bearer store.

(** ** A logic of starts *)

(** After the events [h], whatever [m] does next satisfies [Q] at its place, [m]
    does not panic, and what it returns satisfies [P]. *)
Definition sound {A} (h : list Event) (Q : list Event -> Event -> Prop) (P : list Event -> A -> Prop) (m : Boot A) : Prop :=
  (forall pre e post, m.1 = pre ++ e :: post -> Q (h ++ pre) e) /\ m.2 <> Err Asserted /\ forall a, m.2 = Ok a -> P (h ++ m.1) a.

Section Rules.
  Context (Q : list Event -> Event -> Prop).

Lemma sound_ret {A} h (P : list Event -> A -> Prop) a : P h a -> sound h Q P (mret a).
Proof. intros HP. split_and!; [by intros [|??] ? ?|done|]. intros a' [= <-]. cbn. by rewrite app_nil_r. Qed.

(** The event after [pre] of two lists is in the first or past it. *)
Lemma split_cases {A} (l1 l2 before after : list A) a : before ++ a :: after = l1 ++ l2 ->
  (exists mid, l1 = before ++ a :: mid) \/ (exists mid, before = l1 ++ mid /\ mid ++ a :: after = l2).
Proof.
  revert before. induction l1 as [|x l1 IH]; intros before; cbn; [intros <-; right; by exists before|].
  destruct before as [|y before]; cbn; [intros [= <- _]; left; by exists l1|]. intros [= <- [(mid & ->)|(mid & -> & <-)]%IH]; [left|right]; by exists mid.
Qed.

Lemma sound_bind {A B} h (P : list Event -> A -> Prop) (R : list Event -> B -> Prop) (m : Boot A) (k : A -> Boot B) :
  sound h Q P m -> (forall t a, P (h ++ t) a -> sound (h ++ t) Q R (k a)) -> sound h Q R (m ≫= k).
Proof.
  intros (Hm & Hn & HP) Hk. unfold mbind, boot_bind. destruct m as [t [a|e]]; cbn in *.
  - destruct (Hk t a (HP a eq_refl)) as (Hq & Hn' & HR). destruct (k a) as [t' r]. cbn in *. split_and!; [|done|intros b Hb; cbn; rewrite app_assoc; by apply HR].
    intros pre e post He. symmetry in He. apply split_cases in He as [(mid & ->)|(mid & -> & <-)]; [by eapply Hm|].
    rewrite app_assoc. by eapply Hq.
  - split_and!; [done|cbn; intros [= ->]; by apply Hn|done].
Qed.

Lemma sound_emit h e : Q h e -> sound h Q (fun h' _ => h' = h ++ [e]) (emit e).
Proof.
  intros He. split_and!; [|done|by intros [] _]. intros [|x pre] e' post; cbn; [|by destruct pre]. intros [= <- _]. by rewrite app_nil_r.
Qed.

Lemma sound_mono {A} h (P R : list Event -> A -> Prop) m : (forall t a, P (h ++ t) a -> R (h ++ t) a) -> sound h Q P m -> sound h Q R m.
Proof. intros HR (Hm & Hn & HP). split_and!; auto. Qed.
Lemma sound_gateway {A} h (r : result GatewayError A) : sound h Q (fun _ a => r = Ok a) (gateway r).
Proof. destruct r; split_and!; try (by intros [|??] ? ?); try done. by intros a' [= ->]. Qed.
Lemma sound_anyhow {A} h prefix (r : result string A) : sound h Q (fun _ a => r = Ok a) (anyhow prefix r).
Proof. destruct r; split_and!; try (by intros [|??] ? ?); try done. by intros a' [= ->]. Qed.
Lemma sound_asserted {A} h (o : option A) : is_Some o -> sound h Q (fun _ a => o = Some a) (asserted o).
Proof. intros [a ->]. split_and!; [by intros [|??] ? ?|done|by intros a' [= ->]]. Qed.

Lemma sound_each {A} h (f : A -> Boot unit) l :
  (forall x h, sound h Q (fun _ _ => True) (f x)) -> sound h Q (fun _ _ => True) (each f l).
Proof. intros Hf. revert h. induction l as [|x l IH]; intros h; [by apply sound_ret|]. eapply sound_bind; [apply Hf|]. intros; apply IH. Qed.

(** Creating a topic does not panic, and goes on only when the broker answered
    that the topic it was asked for exists. *)
Definition exists_now (p : InternalTopicPolicy) (spec : CreateTopicSpec) : Prop :=
  exists k outcomes, bw_admin w k spec (create_timeout p) = Ok outcomes
    /\ Forall (fun o => o = None \/ o = Some 0 \/ o = Some TOPIC_ALREADY_EXISTS) outcomes.

Lemma sound_requested h connected name n p configs : (forall h' s, Q h' (TopicRequested s)) ->
  sound h Q (fun h' _ => exists spec, TopicRequested spec ∈ h' /\ spec_name spec = name /\ spec_partitions spec = n
      /\ spec_configs spec = configs /\ exists_now p spec)
    (requested (ensure_topic connected (bw_admin w) name n p configs)).
Proof.
  intros HQ. destruct (ensure_topic_total connected (bw_admin w) name n p configs) as (specs & r & -> & _ & Hs & _ & _ & Hok). cbn. split_and!.
  - intros pre e post He. cbn in He. assert (e ∈ map TopicRequested specs) as (s & -> & _)%list_elem_of_fmap by (rewrite He; set_solver). apply HQ.
  - by destruct r.
  - intros [] Hr. destruct r as [[]|]; [|done]. destruct (Hok eq_refl) as (spec & outcomes & Hl & Ha & Ho).
    assert (spec ∈ specs) as Hin by (by apply last_Some_elem_of). exists spec. cbn. split.
    + apply elem_of_app. right. apply list_elem_of_fmap. by exists spec.
    + rewrite Forall_forall in Hs. destruct (Hs spec Hin) as (? & ? & ?). split_and!; [done..|]. by eexists _, outcomes.
Qed.
End Rules.

(** ** The parts of a replica agree *)

Section Agreement.
  Context (c : GatewayConfig).

(** What the ownership consumer, with configuration [x], finds when it starts:
    the store is fresh and has the publisher and the engine in its cells.  Store,
    slots of the engine and dedup topic have the same number of partitions; the
    engine writes the topic the consumer reads, which was asked to keep a claim
    for the window.  The publisher writes the topic the membership reader reads,
    of one partition and without a retention. *)
Definition joined (h : list Event) (x : ConsumerConfig) (s : Cells) : Prop :=
  exists engine publisher spec mspec reader window,
    cell_engine s = Some engine /\ cell_membership s = Some publisher
    /\ (DedupStore_new (eng_partitions engine) (ownership_warmup_empty_polls (cfg_runtime c)) = Some (cell_store s)
        /\ length (eng_slots engine) = Z.to_nat (eng_partitions engine))
    /\ (cc_topics x = [eng_dedup_topic engine] /\ cc_listener x = Some (OwnershipReplay (eng_dedup_topic engine)) /\ cc_auto_commit x = Some false)
    /\ (TopicRequested spec ∈ h /\ spec_name spec = eng_dedup_topic engine /\ spec_partitions spec = eng_partitions engine
        /\ spec_configs spec !! "retention.ms" = Some (pretty window) /\ time_eq (from_millis window) (cfg_dedup_window c) = true
        /\ spec_configs spec !! "cleanup.policy" = Some "compact,delete"
        /\ exists_now (internal_topic_policy (cfg_runtime c)) spec)
    /\ (TopicRequested mspec ∈ h /\ spec_name mspec = Membership.membership_topic publisher /\ spec_partitions mspec = 1
        /\ spec_configs mspec !! "retention.ms" = None
        /\ exists_now (internal_topic_policy (cfg_runtime c)) mspec)
    /\ Spawned (MembershipReader reader) ∈ h /\ cc_topics reader = [Membership.membership_topic publisher].

(** What it serves with: the store the ownership consumer was handed, and the
    address the publisher announces, with the signal task running. *)
Definition serving (h : list Event) (core : ProduceCore) : Prop :=
  Spawned SignalTask ∈ h /\ exists x s publisher f, Spawned (OwnershipConsumer x s) ∈ h /\ pc_dedup core = Some (cell_store s)
    /\ cell_membership s = Some publisher /\ forwarding core = Some f /\ self_addr f = pub_advertised_addr publisher.

Definition at_event (h : list Event) (e : Event) : Prop :=
  match e with
  | Spawned (OwnershipConsumer x s) => joined h x s
  | Serving core _ _ => serving h core
  | _ => True
  end.

(** What [join] leaves. *)
Definition handed (h : list Event) (s : Cells) : Prop :=
  exists x publisher, Spawned (OwnershipConsumer x s) ∈ h /\ cell_membership s = Some publisher
    /\ pub_advertised_addr publisher = advertised_addr (cfg_flags c).

Ltac in_history := rewrite ?elem_of_app, ?list_elem_of_singleton in *; tauto || (repeat first [by left | left; in_history | right]).

Lemma join_sound node_id :
  is_Some (start_asserts c) -> validate_dedup_window (cfg_dedup_window c) = Ok () -> sound [] at_event handed (join c node_id).
Proof.
  intros Has Hw. unfold start_asserts in Has. destruct Has as [u (store & Hstore & Has)%bind_Some].
  destruct (partitions_ok (cfg_dedup_partitions c)) eqn:Hok; [|done].
  unfold validate_dedup_window in Hw. apply bind_Ok in Hw as (ms & (Hms & _ & Hexact)%protocol_millis_i64_Ok & _).
  unfold join, ensure_dedup_topic_with_policy, ensure_dedup_topic, ensure_membership_topic_with_policy, ensure_membership_topic.
  eapply sound_bind; [by apply sound_requested|]. intros h1 _ (spec & Hspec & Hs).
  eapply sound_bind; [by apply sound_requested|]. intros h2 _ (mspec & Hmspec & Hm).
  eapply sound_bind; [apply sound_asserted; by eexists|]. intros h3 store' Hst. rewrite Hstore in Hst. injection Hst as <-.
  eapply sound_bind; [by apply sound_emit|]. intros h4 u4 Hh4. rewrite Hh4. clear Hh4.
  eapply sound_bind; [apply sound_gateway|]. intros h5 publisher Hpub.
  unfold MembershipPublisher_new_with_policy in Hpub. apply bind_Ok in Hpub as (_ & _ & [= <-]).
  eapply sound_bind; [by apply sound_emit|]. intros h6 u6 Hh6. rewrite Hh6. clear Hh6.
  eapply sound_bind; [apply sound_asserted; unfold DedupEngine_new_with_policy; rewrite Hok; by eexists|].
  intros h7 engine Heng. unfold DedupEngine_new_with_policy in Heng. rewrite Hok in Heng. injection Heng as <-.
  eapply sound_bind; [apply sound_asserted; by eexists|]. intros h8 s [= <-].
  eapply sound_bind; [apply sound_emit|intros h9 u9 Hh9; rewrite Hh9; apply sound_ret; eexists _, _; split_and!; [apply elem_of_app; right; by left|done|done]].
  destruct Hs as (Hn & Hp & Hc & Hb), Hm as (Hmn & Hmp & Hmc & Hmb). eexists _, _, spec, mspec, _, ms. split; [done|]. split; [done|].
  split; [split; [done|apply length_replicate]|]. split; [done|]. split; [|split; [|split; [in_history|done]]].
  - split; [in_history|]. rewrite Hc, Hms. split_and!; try done. by rewrite <- Hms.
  - split; [in_history|]. rewrite Hmc. by split_and!.
Qed.

Lemma outbound_sound h : sound h at_event (fun _ _ => True) (spawn_outbound_subscriptions c).
Proof.
  unfold spawn_outbound_subscriptions. destruct (cfg_outbound c) as [|s subs]; [by apply sound_ret|].
  eapply sound_bind; [apply sound_anyhow|]. intros. apply sound_each. intros x h'. by eapply sound_mono; [|by apply sound_emit].
Qed.

Lemma serve_sound h bearer s :
  is_Some (start_asserts c) -> handed h s ->
  sound h at_event (fun h' _ => exists core tls, Serving core bearer tls ∈ h') (serve_joined c bearer s).
Proof.
  intros [u (store & _ & Has)%bind_Some] (x & publisher & Hx & Hp & Haddr). unfold serve_joined.
  eapply (sound_bind _ _ (fun _ _ => True)).
  { destruct (cfg_tls c); [|by apply sound_ret]. eapply sound_bind; [apply sound_anyhow|]. intros. eapply sound_mono; [|apply sound_gateway]. done. }
  intros h1 _ _. eapply (sound_bind _ _ (fun _ _ => True)).
  { destruct (schema_registry_url _); [|by apply sound_ret]. eapply sound_mono; [|apply sound_anyhow]. done. }
  intros h2 _ _. eapply sound_bind; [apply outbound_sound|]. intros h3 _ _. eapply sound_bind; [apply sound_gateway|]. intros h4 core _.
  eapply (sound_bind _ _ (fun _ _ => True)).
  { destruct (cfg_authz c); [|by apply sound_ret]. by eapply sound_mono; [|by apply sound_emit]. }
  intros h5 _ _. eapply sound_bind; [by apply sound_emit|]. intros h6 u6 Hh6. rewrite Hh6. clear Hh6. eapply (sound_bind _ _ (fun _ _ => True)).
  { destruct (cfg_tls c) as [t|]; [|by apply sound_ret]. destruct (partitions_ok _); [|done].
    destruct (reload_tick (reload_interval t)) as [tick|] eqn:Ht; [|done]. eapply sound_bind; [apply sound_asserted; by eexists|]. intros.
    eapply sound_mono; [|apply sound_anyhow]. done. }
  intros h7 _ _. eapply sound_bind; [apply sound_anyhow|]. intros h8 _ _. eapply sound_bind; [apply sound_anyhow|]. intros h9 _ _.
  eapply sound_bind; [apply sound_emit|intros h10 u10 Hh10; rewrite Hh10; eapply sound_mono; [|apply sound_anyhow]].
  - split; [in_history|]. exists x, s, publisher. eexists. split; [in_history|]. by rewrite Haddr.
  - intros t [] _. eexists _, _. apply elem_of_app. left. apply elem_of_app. right. by left.
Qed.

Lemma run_sound bearer node_id :
  is_Some (start_asserts c) -> validate_dedup_window (cfg_dedup_window c) = Ok () ->
  sound [] at_event (fun h' _ => exists core tls, Serving core bearer tls ∈ h') (run c bearer node_id).
Proof. intros Ha Hw. eapply sound_bind; [by apply join_sound|]. intros h s Hs. by apply serve_sound. Qed.
End Agreement.
End Run.

(** ** Started as configured *)

Section Started.
  Context `{Quantities} `{Crypto} `{JsonPath} `{CeLib} `{HttpLib} `{UrlLib} `{!ConfigFiles} `{Telemetry}.

End Started.

(** ** A start *)

Module Up.
Import Hooks.
Import Pushes.
Import Launch.

(** Everything is up, and the topics are there already. *)
Definition world : World :=
  {| bw_connect := fun _ => Ok (); bw_admin := fun _ _ _ => Ok [Some TOPIC_ALREADY_EXISTS]; bw_producer := fun _ => Ok ();
     bw_dlq_message := fun _ => "down"; bw_first := 0; bw_client_tls := fun _ => Ok (); bw_forward_client := Ok ();
     bw_registry := fun _ _ => Ok (); bw_server_tls := fun _ => Ok (); bw_bind := fun _ => Ok (); bw_local_addr := Ok (); bw_serve := Ok () |}.

End Up.
