(* ===== verification/Substrate.v ===== *)
(** * The gateway of the conformance harness, and small settings
    (sdk-conformance: harness.rs; config.rs)

    The harness runs the SDKs against a gateway that it builds by hand from the
    library: [gateway_config] and [gateway_state] of [harness.rs], the routes it
    serves, and the codec [Harness.ConformanceCodec].  With them the two lowerings
    of [config.rs] that hand settings to the security library. *)

From S2P Require Import Prelude.
From S2P Require Import RustStr.
From S2P Require Import Types.
From S2P Require Import Filter.
From S2P Require Import Settings.
From S2P Require Import Dedup.
From S2P Require Import Produce.
From S2P Require Import Queue.
From S2P Require Import CloudEvents.
From S2P Require Import Webhook.
From S2P Require Import Outbound.
From S2P Require Import Access.
From S2P Require Import Startup.
From S2P Require Import Routes.
From S2P Require Import Harness.
From S2P Require Import Clients.

Section Lowerings.
  Context `{Units}.

(** [krabka_security::TlsConfig]. *)
Record TlsConfig := {
  tc_cert_chain_path : string;
  tc_private_key_path : string;
  tc_trust_roots_path : option string;
  tc_client_ca_path : option string;
  tc_client_auth : string;
}.
Definition to_security (t : TlsSettings) : TlsConfig :=
  {| tc_cert_chain_path := cert_chain_path t; tc_private_key_path := private_key_path t;
     tc_trust_roots_path := trust_roots_path t; tc_client_ca_path := client_ca_path t; tc_client_auth := client_auth t |}.

Definition BearerSettings_default : BearerSettings := {| principal_claim_name := "sub"; allowable_clock_skew := from_secs 30 |}.

(** [UnsecuredJwsValidator]: its claim, its tolerance, and the other settings of
    the library's default. *)
Definition BearerSettings_build {Rest V} (unsecured : string -> Time -> Rest -> V) (default : Rest) (s : BearerSettings)
    : result string V := Ok (unsecured (principal_claim_name s) (allowable_clock_skew s) default).
End Lowerings.

Section Gateway.
  Context `{Quantities} `{JsonPath}.

Definition gateway_config (hours : Z -> Time) (bootstrap listen : string) : GatewayConfig := {|
  cfg_flags := {| bootstrap_servers := bootstrap; listen_addr := listen; client_id := "sdk-conformance";
                  dedup_topic := "__krabka_grpc_dedup"; dedup_ownership_group := Some "sdk-conformance-owners";
                  dedup_txn_id_prefix := "sdk-conformance-dedup"; advertised_addr := listen;
                  membership_topic := "__krabka_gateway_membership"; tls_cert := None; tls_key := None;
                  tls_client_ca := None; tls_client_auth := EmptyString; tls_trust_roots := None; authz := EmptyString;
                  authz_super_users := EmptyString; bearer := EmptyString; bearer_principal_claim := EmptyString;
                  allow_replication_fallback_flag := None; frame_raw_flag := None; broker_tls_ca := None;
                  broker_tls_cert := None; broker_tls_key := None; broker_tls_server_name := None; webhooks_config := None;
                  outbound_webhooks_config := None; schema_registry_url := None |};
  cfg_dedup_partitions := 4;
  cfg_dedup_window := hours 1;
  cfg_dedup_ownership_group := "sdk-conformance-owners";
  cfg_tls := None;
  cfg_broker_security := None;
  cfg_authz := None;
  cfg_webhooks := ∅;
  cfg_outbound := [];
  cfg_runtime := GatewayRuntimeConfig_default default_capacity default_frame_max;
|}.

(** [eff] is what the producers answer once they are built. *)
Definition gateway_state (hours : Z -> Time) (build : ProducerConfig -> result ProducerError unit) (first : nat) (eff : Effects)
    (bootstrap listen : string) : result GatewayError AppState :=
  '(_, core) ← ProduceCore_new default_capacity default_frame_max build first bootstrap "sdk-conformance" None;
  Ok {| st_core := core; st_eff := eff; st_config := gateway_config hours bootstrap listen;
        st_authz := GatewayAuthz_new AllowAll; st_queue := QueueSessionTable_default |}.

(** The value the codec of the harness puts in a record. *)
Definition conformance_value (rec : GatewayRecord) : Bytes := match encode_body rec with Raw v => v | Structured json _ => json end.

Lemma default_runtime_wf : runtime_wf (GatewayRuntimeConfig_default default_capacity default_frame_max).
Proof.
  split; cbn; first [apply secs_positive|apply minutes_positive|apply millis_positive|apply mebibytes_positive|apply percent_unit|idtac];
    unfold i16_max, u32_max; lia.
Qed.

Definition is_rpc (e : Endpoint) : bool :=
  match e with
  | SendRpc | SendStreamRpc | SubscribeRpc | QueueAcquireRpc | QueueAcknowledgeRpc | QueueRenewRpc => true
  | _ => false
  end.

Lemma router_rpc m path e params : dispatch router m path = Reached e params -> is_rpc e = true.
Proof.
  unfold dispatch. destruct (path_segments path) as [segments|]; [|done].
  destruct (List.find _ _) as [[r ps]|] eqn:Hf; [|by case_match]. intros [= <- <-]. apply List.find_some in Hf as [Hin _].
  apply list_elem_of_In, list_elem_of_omap in Hin as (r' & Hr & Hm). apply fmap_Some in Hm as (ps' & _ & [= -> ->]).
  revert Hr. unfold router. rewrite !elem_of_cons, elem_of_nil. by intros [->|[->|[->|[->|[->|[->|[]]]]]]].
Qed.

(** The gateway the SDKs are judged against.  Its configuration meets what the
    start-up of the binary checks.  It serves the calls of the service and nothing
    else, admits every caller to every topic and group, and produces every record,
    one with an idempotency key too, at this replica and without deduplication. *)
Theorem substrate_plain `{AclLib} `{JsonLib} hours build first eff bootstrap listen st :
  gateway_state hours build first eff bootstrap listen = Ok st ->
  is_Some (start_asserts (st_config st)) /\ runtime_wf (cfg_runtime (st_config st)) /\
  (forall p host rt name op, authorize_resource (st_authz st) p host rt name op = true) /\
  (forall m path e params, dispatch router m path = Reached e params -> is_rpc e = true) /\
  (forall rec p acks, idempotency_key rec = None \/ acks = AcksAll ->
     let codec := ConformanceCodec in
     produce_with_acks (st_core st) (st_eff st) rec p acks = produce_plain (st_eff st) rec (conformance_value rec) acks).
Proof.
  unfold gateway_state, ProduceCore_new, ProduceCore_new_with_policy. intros Hst. destruct (omap _ _); [|done].
  cbn [mbind result_bind] in Hst. injection Hst as <-. cbn [st_config st_authz st_core st_eff cfg_runtime gateway_config].
  split_and!; [done|apply default_runtime_wf|done|apply router_rpc|].
  intros rec p acks Hk. cbv zeta. unfold produce_with_acks, forward_addr, produce_local_with_acks. cbn [pc_dedup forwarding mbind result_bind].
  assert (bool_decide (is_Some (idempotency_key rec)) && negb (bool_decide (acks = AcksAll)) = false) as ->.
  { destruct Hk as [-> | ->]; [by rewrite bool_decide_eq_false_2|]. by rewrite (bool_decide_eq_true_2 (AcksAll = AcksAll)), andb_false_r. }
  cbn [encode ConformanceCodec map_err mbind result_bind]. done.
Qed.
End Gateway.
