(* ===== verification/Firehose.v ===== *)
(** * The firehose example

    [examples/github_firehose.rs]: a stream that labels the webhooks the gateway
    put on one topic and writes them to another.  Octocrab, Kafka Streams and the
    administration client are classes.  Then: every record comes out once, under
    its key, in an envelope that reads back to what came in; and no two event
    types share a label. *)

From Stdlib Require Import Sorted.
From S2P Require Import Prelude.
From S2P Require Import RustNum.
From S2P Require Import Types.
From S2P Require Import Filter.
From S2P Require Import Protocol.

Definition INPUT_TOPIC : string := "github-webhooks".
Definition OUTPUT_TOPIC : string := "github-firehose".
Definition APPLICATION_ID : string := "github-firehose-example".

(** ** Events *)

(** Octocrab's enum, which is not exhaustive: [OtherType] is a variant that the
    example does not name. *)
Inductive WebhookEventType :=
| BranchProtectionRule | CheckRun | CheckSuite | CodeScanningAlert | CommitComment | Create | Delete | DependabotAlert
| DeployKey | Deployment | DeploymentProtectionRule | DeploymentStatus | Discussion | DiscussionComment | Fork
| GithubAppAuthorization | Gollum | Installation | InstallationRepositories | InstallationTarget | IssueComment | Issues | Label
| MarketplacePurchase | Member | Membership | MergeGroup | Meta | Milestone | OrgBlock | Organization | Package | PageBuild
| PersonalAccessTokenRequest | Ping | Project | ProjectCard | ProjectColumn | ProjectsV2 | ProjectsV2Item | Public | PullRequest
| PullRequestReview | PullRequestReviewComment | PullRequestReviewThread | Push | RegistryPackage | Release | Repository
| RepositoryAdvisory | RepositoryDispatch | RepositoryImport | RepositoryVulnerabilityAlert | SecretScanningAlert
| SecretScanningAlertLocation | SecurityAdvisory | SecurityAndAnalysis | Sponsorship | Star | Status | Team | TeamAdd | Watch
| WorkflowDispatch | WorkflowJob | WorkflowRun | Schedule
| Unknown (name : string) | OtherType (name : string).

Definition event_kind (event : WebhookEventType) : option string :=
  match event with
  | BranchProtectionRule => Some "Branch protection rule"
  | CheckRun => Some "Check run"
  | CheckSuite => Some "Check suite"
  | CodeScanningAlert => Some "Code scanning alert"
  | CommitComment => Some "Commit comment"
  | Create => Some "Branch or tag created"
  | Delete => Some "Branch or tag deleted"
  | DependabotAlert => Some "Dependabot alert"
  | DeployKey => Some "Deploy key"
  | Deployment => Some "Deployment"
  | DeploymentProtectionRule => Some "Deployment protection rule"
  | DeploymentStatus => Some "Deployment status"
  | Discussion => Some "Discussion"
  | DiscussionComment => Some "Discussion comment"
  | Fork => Some "Fork"
  | GithubAppAuthorization => Some "GitHub App authorization"
  | Gollum => Some "Wiki pages"
  | Installation => Some "App installation"
  | InstallationRepositories => Some "App installation repositories"
  | InstallationTarget => Some "App installation target"
  | IssueComment => Some "Issue comment"
  | Issues => Some "Issue"
  | Label => Some "Label"
  | MarketplacePurchase => Some "Marketplace purchase"
  | Member => Some "Repository collaborator"
  | Membership => Some "Team membership"
  | MergeGroup => Some "Merge group"
  | Meta => Some "Webhook metadata"
  | Milestone => Some "Milestone"
  | OrgBlock => Some "Organization block"
  | Organization => Some "Organization"
  | Package => Some "Package"
  | PageBuild => Some "Pages build"
  | PersonalAccessTokenRequest => Some "Personal access token request"
  | Ping => Some "Webhook ping"
  | Project => Some "Classic project"
  | ProjectCard => Some "Classic project card"
  | ProjectColumn => Some "Classic project column"
  | ProjectsV2 => Some "Project"
  | ProjectsV2Item => Some "Project item"
  | Public => Some "Repository made public"
  | PullRequest => Some "Pull request"
  | PullRequestReview => Some "Pull request review"
  | PullRequestReviewComment => Some "Pull request review comment"
  | PullRequestReviewThread => Some "Pull request review thread"
  | Push => Some "Push"
  | RegistryPackage => Some "Registry package"
  | Release => Some "Release"
  | Repository => Some "Repository"
  | RepositoryAdvisory => Some "Repository advisory"
  | RepositoryDispatch => Some "Repository dispatch"
  | RepositoryImport => Some "Repository import"
  | RepositoryVulnerabilityAlert => Some "Repository vulnerability alert"
  | SecretScanningAlert => Some "Secret scanning alert"
  | SecretScanningAlertLocation => Some "Secret scanning alert location"
  | SecurityAdvisory => Some "Security advisory"
  | SecurityAndAnalysis => Some "Security and analysis settings"
  | Sponsorship => Some "Sponsorship"
  | Star => Some "Star"
  | Status => Some "Commit status"
  | Team => Some "Team"
  | TeamAdd => Some "Repository added to team"
  | Watch => Some "Watch"
  | WorkflowDispatch => Some "Workflow dispatch"
  | WorkflowJob => Some "Workflow job"
  | WorkflowRun => Some "Workflow run"
  | Schedule => Some "Scheduled workflow"
  | Unknown name =>
      if bool_decide (name = "branch_protection_configuration") then Some "Branch protection configuration"
      else if bool_decide (name = "custom_property") then Some "Custom property"
      else if bool_decide (name = "custom_property_values") then Some "Custom property values"
      else if bool_decide (name = "deployment_review") then Some "Deployment review"
      else if bool_decide (name = "issue_dependencies") then Some "Issue dependencies"
      else if bool_decide (name = "issue_relates_to") then Some "Related issues"
      else if bool_decide (name = "projects_v2_status_update") then Some "Project status update"
      else if bool_decide (name = "repository_ruleset") then Some "Repository ruleset"
      else if bool_decide (name = "secret_scanning_scan") then Some "Secret scanning scan"
      else if bool_decide (name = "sub_issues") then Some "Sub-issues"
      else None
  | OtherType _ => None
  end.

(** ** Dispatch *)

(** [serde_json]'s values: a text is one value or is rejected with a message; a
    value is written so that it reads back.  An object of values with its keys in
    increasing order is one. *)
Class JsonValues := {
  from_str : string -> result string Json;
  to_string : Json -> string;
  is_value : Json -> Prop;
  from_str_value : forall s v, from_str s = Ok v -> is_value v;
  from_to_string : forall v, is_value v -> from_str (to_string v) = Ok v;
  null_value : is_value JNull;
  string_value : forall s, is_value (JString (as_bytes s));
  get_value : forall o k v, is_value (JObject o) -> object_get o k = Some v -> is_value v;
  object_value : forall o, StronglySorted (fun a b => bytes_cmp a.1 b.1 = Lt) o -> Forall (fun kv => is_value kv.2) o -> is_value (JObject o);
}.

(** Octocrab: the type an event's name deserializes to, and the event a name and
    a body parse to, which may be a payload it keeps as raw JSON. *)
Class Octocrab `{JsonValues} := {
  event_type : string -> option WebhookEventType;
  WebhookEvent : Type;
  try_from_header_and_body : string -> string -> result string WebhookEvent;
  is_raw : WebhookEvent -> bool;
  event_json : WebhookEvent -> Json;
  event_json_value : forall e, is_value (event_json e);
}.

Section Firehose.
  Context `{Octocrab}.

Definition or_null (o : option Json) : Json := default JNull o.
Definition json_str (s : string) : Json := JString (as_bytes s).
(** [Value::get]. *)
Definition value_get (v : Json) (k : string) : option Json := o ← as_object v; object_get o (as_bytes k).
Definition field (k : string) (v : Json) : Bytes * Json := (as_bytes k, v).

Definition envelope (event body : string) : Json :=
  let kind := or_null (json_str <$> (event_type event ≫= event_kind)) in
  match from_str body with
  | Ok payload =>
      let '(typed_payload, parse_error) :=
        match try_from_header_and_body event body with
        | Ok parsed => (if is_raw parsed then JNull else event_json parsed, None)
        | Err error => (JNull, Some error)
        end in
      JObject [field "action" (or_null (value_get payload "action")); field "event" (json_str event); field "kind" kind;
               field "parse_error" (or_null (json_str <$> parse_error)); field "payload" payload; field "typed_payload" typed_payload]
  | Err error =>
      JObject [field "error" (json_str error); field "event" (json_str event); field "kind" kind; field "raw_payload" (json_str body)]
  end.
Definition dispatch (event body : string) : string := to_string (envelope event body).

(** [topology]: what the stream writes to the output topic for the records of
    the input topic, in order. *)
Definition topology (input : list (string * string)) : list (string * string) :=
  map (fun '(event, body) => (event, dispatch event body)) input.
End Firehose.

(** ** The program *)

Record Args := { fh_bootstrap_servers : string; fh_create_topics : bool }.
Record TopicSpec := { ts_name : string; ts_partitions : Z; ts_replicas : Z }.

(** What the clients answer: connecting, the outcome of each topic with the text
    of its error; building the topology and the streams, the interrupt, closing. *)
Record World := {
  w_connect : list string -> result string unit;
  w_create : list TopicSpec -> result string (list (string * option string));
  w_topology : string -> result string unit;
  w_streams : string -> string -> result string unit;
  w_ctrl_c : result string unit;
  w_close : result string unit;
}.

Fixpoint first_failure (outcomes : list (string * option string)) : result string unit :=
  match outcomes with
  | [] => Ok ()
  | (name, Some error) :: _ => Err ("creating " +:+ name +:+ ": " +:+ error)
  | (_, None) :: outcomes => first_failure outcomes
  end.

Definition demo_topics : list TopicSpec :=
  map (fun name => {| ts_name := name; ts_partitions := 1; ts_replicas := 1 |}) [INPUT_TOPIC; OUTPUT_TOPIC].

Definition main (w : World) (args : Args) : result string unit :=
  if fh_create_topics args then
    _ ← w_connect w (map of_bytes (split_char ","%char (as_bytes (fh_bootstrap_servers args))));
    outcomes ← w_create w demo_topics;
    first_failure outcomes
  else
    _ ← w_topology w APPLICATION_ID;
    _ ← w_streams w (fh_bootstrap_servers args) APPLICATION_ID;
    _ ← w_ctrl_c w;
    w_close w.

(** ** What comes out *)

Section Kept.
  Context `{Octocrab}.

Lemma or_null_value o : (forall v, o = Some v -> is_value v) -> is_value (or_null o).
Proof. destruct o as [v|]; intros Hv; [by apply Hv|apply null_value]. Qed.
Lemma or_null_string o : is_value (or_null (json_str <$> o)).
Proof. destruct o; [apply string_value|apply null_value]. Qed.

Lemma value_get_value v k x : is_value v -> value_get v k = Some x -> is_value x.
Proof. unfold value_get. intros Hv (o & Ho & Hx)%bind_Some. destruct v; try done. injection Ho as ->. by eapply get_value. Qed.

Lemma envelope_value event body : is_value (envelope event body).
Proof.
  unfold envelope. destruct (from_str body) as [payload|error] eqn:Hb.
  - apply from_str_value in Hb as Hp.
    destruct (try_from_header_and_body event body) as [parsed|e]; apply object_value; try (repeat constructor; vm_compute; reflexivity);
      repeat apply Forall_cons_2; try apply Forall_nil_2; cbn; try apply or_null_string; try apply string_value; try apply null_value; try done.
    1, 3: apply or_null_value; intros v Hv; by eapply value_get_value.
    destruct (is_raw parsed); [apply null_value|apply event_json_value].
  - apply object_value; [repeat constructor; vm_compute; reflexivity|].
    repeat apply Forall_cons_2; try apply Forall_nil_2; cbn; try apply or_null_string; apply string_value.
Qed.

(** The firehose loses nothing: every record of the input topic comes out
    once, in order and under its key, as a text that reads back to an object with
    the event's name and the whole payload, its action repeated, or, for a body
    that is not JSON, the body itself and the parser's complaint. *)
Theorem firehose_keeps input :
  Forall2 (fun i o => o.1 = i.1 /\ exists env, from_str o.2 = Ok env /\ value_get env "event" = Some (json_str i.1) /\
    match from_str i.2 with
    | Ok payload => value_get env "payload" = Some payload /\ value_get env "action" = Some (or_null (value_get payload "action"))
    | Err error => value_get env "raw_payload" = Some (json_str i.2) /\ value_get env "error" = Some (json_str error)
    end) input (topology input).
Proof.
  unfold topology. induction input as [|[event body] input IH]; constructor; [|exact IH]. cbn. split; [done|].
  exists (envelope event body). split; [apply from_to_string, envelope_value|]. unfold envelope.
  destruct (from_str body) as [payload|error]; [|by repeat split]. destruct (try_from_header_and_body event body); by repeat split.
Qed.
End Kept.

(** ** Labels *)

Definition labelled : list WebhookEventType :=
  [BranchProtectionRule; CheckRun; CheckSuite; CodeScanningAlert; CommitComment; Create; Delete; DependabotAlert; DeployKey;
   Deployment; DeploymentProtectionRule; DeploymentStatus; Discussion; DiscussionComment; Fork; GithubAppAuthorization;
   Gollum; Installation; InstallationRepositories; InstallationTarget; IssueComment; Issues; Label; MarketplacePurchase;
   Member; Membership; MergeGroup; Meta; Milestone; OrgBlock; Organization; Package; PageBuild; PersonalAccessTokenRequest;
   Ping; Project; ProjectCard; ProjectColumn; ProjectsV2; ProjectsV2Item; Public; PullRequest; PullRequestReview;
   PullRequestReviewComment; PullRequestReviewThread; Push; RegistryPackage; Release; Repository; RepositoryAdvisory;
   RepositoryDispatch; RepositoryImport; RepositoryVulnerabilityAlert; SecretScanningAlert; SecretScanningAlertLocation;
   SecurityAdvisory; SecurityAndAnalysis; Sponsorship; Star; Status; Team; TeamAdd; Watch; WorkflowDispatch; WorkflowJob;
   WorkflowRun; Schedule] ++
  map Unknown
    ["branch_protection_configuration"; "custom_property"; "custom_property_values"; "deployment_review";
     "issue_dependencies"; "issue_relates_to"; "projects_v2_status_update"; "repository_ruleset"; "secret_scanning_scan";
     "sub_issues"].

Lemma labelled_all e k : event_kind e = Some k -> e ∈ labelled.
Proof.
  intros Hk. apply list_elem_of_In. destruct e; cbn in Hk; try done; try (cbn; repeat first [left; reflexivity|right]; fail).
  apply in_or_app. right. apply (in_map Unknown). cbn.
  repeat (case_bool_decide; [subst; tauto|]). done.
Qed.

(** No two event types are given the same label. *)
Theorem kinds_distinct a b k : event_kind a = Some k -> event_kind b = Some k -> a = b.
Proof.
  intros Ha Hb. apply labelled_all in Ha as Hia. apply labelled_all in Hb as Hib.
  assert (NoDup (map event_kind labelled)) as Hnd by (apply (bool_decide_unpack _); vm_compute; exact I).
  apply list_elem_of_lookup in Hia as [i Hi], Hib as [j Hj].
  assert (i = j) as ->; [|congruence].
  apply (NoDup_lookup _ _ _ (Some k) Hnd); rewrite list_lookup_fmap; [by rewrite Hi; cbn; f_equal|by rewrite Hj; cbn; f_equal].
Qed.

(** ** Libraries *)

Module Demo.
Import BitText.

Definition stored (v : Json) : Prop := of_tree (to_tree v) = v.

Lemma stored_get o k v : stored (JObject o) -> object_get o k = Some v -> stored v.
Proof.
  unfold stored, object_get. cbn. intros [= Ho]. induction o as [|[k' x] o IH]; cbn in *; [done|]. injection Ho as Hx Ho.
  case_bool_decide; cbn; [intros [= <-]; done|]. by apply IH.
Qed.

Lemma stored_object o : Forall (fun kv => stored kv.2) o -> stored (JObject o).
Proof.
  unfold stored. intros Ho. cbn. f_equal. induction Ho as [|[k x] o Hx _ IH]; [done|]. cbn in *. by rewrite Hx, IH.
Qed.

#[export] Instance values : JsonValues.
Proof.
  refine {| from_str s := match countable.decode (of_bits (as_bytes s)) with
                          | Some t => if bool_decide (to_tree (of_tree t) = t) then Ok (of_tree t) else Err "expected value"
                          | None => Err "expected value"
                          end;
            to_string v := of_bytes (bits_of (countable.encode (to_tree v)));
            is_value := stored |}.
  - intros s v. destruct (countable.decode _) as [t|]; [|done]. case_bool_decide as Ht; [|done]. intros [= <-]. unfold stored. by rewrite Ht.
  - intros v Hv. rewrite as_of_bytes, of_bits_of, decode_encode. unfold stored in Hv. by rewrite Hv, bool_decide_eq_true_2.
  - done.
  - done.
  - intros o k v. apply stored_get.
  - intros o _. apply stored_object.
Defined.

#[export] Instance octocrab : Octocrab.
Proof.
  refine {| event_type := fun s => Some (if bool_decide (s = "push") then Push else Unknown s);
            WebhookEvent := string;
            try_from_header_and_body := fun event _ => if bool_decide (event = "push") then Err "missing field `ref`" else Ok event;
            is_raw := fun _ => true; event_json := fun e => JString (as_bytes e) |}.
  done.
Defined.

(** A push whose body Octocrab refuses, and a body that is no JSON. *)
Definition ref : Json := JObject [(as_bytes "action", JString (as_bytes "opened")); (as_bytes "ref", JNumber (PosInt 42))].
Example demo : (fun o => (o.1, from_str o.2)) <$> topology [("push", to_string ref); ("sub_issues", "not JSON")] =
  [("push", Ok (JObject [field "action" (json_str "opened"); field "event" (json_str "push"); field "kind" (json_str "Push");
                         field "parse_error" (json_str "missing field `ref`"); field "payload" ref; field "typed_payload" JNull]));
   ("sub_issues", Ok (JObject [field "error" (json_str "expected value"); field "event" (json_str "sub_issues");
                               field "kind" (json_str "Sub-issues"); field "raw_payload" (json_str "not JSON")]))].
Proof. vm_compute. reflexivity. Qed.
End Demo.
